(* ===== verification/_CoqProject ===== *)
-Q . S2P
Prelude.v
ArithUint256.v
Sha256.v
Script.v
Transaction.v
Confidential.v
Withdrawal.v
ParentMessage.v
BlockMerkle.v
PartialMerkle.v
Signet.v
ParentBlock.v
Coins.v
SideBlock.v
Bmm.v
BmmFacts.v
BmmTheorems.v
BmmSamples.v
ParentState.v
ParentFacts.v
TreasuryFacts.v
ParentTheorems.v
ReplayStore.v
StoreFacts.v
Replay.v
ReplayTheorems.v
Pegin.v
Peg.v
PegFacts.v
Mint.v
MintFacts.v
MintTheorems.v
MintSamples.v
Warm.v
WarmFacts.v
WarmTheorems.v
NativeTheorems.v
WarmSamples.v
Recovery.v
RecoveryTheorems.v
Merkle.v
Accumulator.v
WithdrawalProof.v
Js.v
Monitor.v
MonitorFacts.v
Relay.v
RelayFacts.v
Preconf.v
ForkCheck.v
ForkTheorems.v
MonitorTheorems.v
RelayTheorems.v
RelayPeer.v
PreconfTheorems.v
