(* ===== verification/Prelude.v ===== *)
(** * A verification of the Elements drivechain node and its preconfirmation tools

    The repository is an Elements (Bitcoin-derived) node in C++ that runs as a
    drivechain of a parent chain (BIP300/BIP301), with a relay and a browser
    monitor for preconfirmation receipts in Rust and JavaScript under
    src/contrib/devtools/preconf-user-bond.  The files with the extension .ts
    under src/src/qt/locale are Qt translation catalogues in XML, not programs.

    ** The program and its model

    Parent chain.  The node reads parent blocks, interprets the BIP300 messages
    in their coinbase outputs and the treasury transactions they contain, and
    replays them into a persistent store from which peg-ins and withdrawals are
    decided.
    - Prelude: machine integers, byte strings, the [result] type of fallible
      code, its notations, tactics and hint databases.
    - Sha256: src/src/crypto/sha256.cpp, the portable compression function and
      the streaming hasher; the table of constants is written in rows.
    - Script: opcodes and pushes of src/src/script/script.{h,cpp}, treasury
      scripts of src/src/drivechain_treasury.h.
    - Transaction: parent transactions and their wire format
      (src/src/primitives/bitcoin/transaction.h, src/src/serialize.h).
    - ArithUint256: src/src/arith_uint256.{h,cpp}, the digit loops of 256-bit
      integers and the compact encoding of targets.
    - BlockMerkle, PartialMerkle: Merkle roots of blocks
      (src/src/consensus/merkle.cpp) and partial trees with their wire format
      (src/src/primitives/bitcoin/merkleblock.{h,cpp}).
    - Signet: the two checks of parent signet solutions, for whole blocks
      (src/src/signet.cpp) and for BMM proofs (src/src/drivechain_bmm.cpp).
    - ParentBlock: ReadAuthenticatedRawMainchainBlock of
      src/src/mainchainrpc.cpp, what makes the parent node's answer for a block
      hash acceptable.
    - Confidential: Elements outputs (src/src/primitives/confidential.h).
    - Withdrawal: src/src/drivechain_withdrawal.cpp, burns, M6 transactions and
      their encodings.
    - ParentMessage, ParentState: src/src/mainchainrpc.cpp, messages M1 to M8
      and ApplyDrivechainParentBlockState with all it calls, one record for the
      state and one definition per rule; ParentFacts, TreasuryFacts and
      ParentTheorems hold its lemmas and theorems.
    - ReplayStore: src/src/drivechain_parent_replay.cpp over an abstract
      key-value database; StoreFacts proves that it never becomes corrupt.
    - Replay: the body of the loop of src/src/mainchainrpc.cpp that ties both
      together; ReplayTheorems has its theorems.
    - Warm: the driver of that loop in src/src/mainchainrpc.cpp, with the
      parameters of src/src/chainparams.cpp: identity and initialisation of the
      cache, reorganisations, catching up, the budget of locked validation, and
      the queries for deposits and withdrawals.  It runs in a monad over the
      node's globals, and the parent node answers tick by tick.  WarmFacts is
      the program logic, WarmTheorems the theorems, WarmSamples a small chain.
    - Recovery: src/src/drivechain_parent_recovery.h, how a pruned parent block is
      obtained again; RecoveryTheorems.

    Claims of deposits.  A deposit on the parent chain is claimed by a peg-in input
    that carries its evidence; native deposits are looked up in the replayed state,
    public ones prove themselves against the parent headers.
    - Pegin: the data of Elements transactions and the peg-in witnesses of
      src/src/pegins.{h,cpp} and src/src/script/pegins.cpp.
    - Peg: src/src/drivechain_peg.{h,cpp}, the evidence of public deposits and the
      treasury output kept as a coin; PegFacts has its lemmas.
    - Mint: IsValidPeginWitness, CheckTxInputs of src/src/consensus/tx_verify.cpp
      and the peg-in and coin steps of connecting and disconnecting blocks in
      src/src/validation.cpp; MintFacts, MintTheorems and MintSamples.
    - NativeTheorems joins Mint and Warm: from a claim in a block back to the
      deposit in an authenticated parent block.

    Blind merged mining.  A sidechain block proves that a parent block commits to
    it, and carries the parent headers since the last proof; the node keeps a
    constant-size state of the parent chain as a coin of its chainstate.
    - Coins: src/src/coins.{h,cpp}, the cache of coins and peg-ins, and the
      classes CoinsCache and CoinsCacheLaws that its users rely on.
    - SideBlock: headers of src/src/primitives/block.{h,cpp}, their codec, the
      block hash and the critical hash that parent miners commit to.
    - Bmm: src/src/drivechain_bmm.{h,cpp}, one definition per function; BmmFacts
      has the arithmetic and codec lemmas, BmmTheorems the theorems, and
      BmmSamples mined headers and proofs that witness them.

    Withdrawals to Ethereum.  Burn outputs are numbered and hashed into an
    append-only Merkle accumulator that each block commits to.
    - Merkle: an interface of node hashes and the theory of sparse trees over it
      (frontier, paths, and the collision that a forged path computes).
    - Accumulator: namespace usdd of src/src/validation.cpp and
      src/src/usdd_withdrawal_accumulator.h, an instance of that interface.
    - WithdrawalProof: the accumulator steps of ConnectBlock and the RPC
      getusddwithdrawalproof of src/src/rpc/blockchain.cpp.

    Preconfirmation receipts.  Relays keep signed promises in a journal and
    stream them; a wallet's monitor follows several relays.
    - Js, Monitor: client/monitor.mjs.  The state is the private fields of
      ReceiptMonitor; a [label] is one thing the browser does (a timer, a socket
      event, a clock reading, the next continuation of a queued function), and
      [step] is what the code does then.  MonitorFacts is the invariant,
      MonitorTheorems the theorems.
    - Relay: src/relay/mod.rs, src/relay/server.rs and the receipt check of
      src/operator.rs; RelayFacts and RelayTheorems.
    - RelayPeer: the sessions of src/relay/server.rs with another relay, a step
      relation over the frames of the peer, the changes of the local hub and the
      loss of the connection.
    - Preconf, PreconfTheorems: both together, through the JSON of the messages.
    - ForkCheck, ForkTheorems: scripts/check-fork.mjs and the reader of the
      driver it compiles, tests/fork_vm.c.

    ** What the theorems show

    - Parent chain: a withdrawal is paid only after it was proposed, voted above
      the threshold and waited its time; deposits are backed by an increase of
      the treasury; treasuries move only by rule; a sane tip stays sane; the
      required activation is final; the M6 id paid is the one announced; the
      replay accepts what the state machine accepts; the store reads back what
      was appended and never reports corruption.
    - Driver: whatever the parent node answers, a synchronisation that returns
      leaves a cache derived from the seed by replaying authenticated blocks and
      read back on the active chain; when the node answers steadily it does
      return, at the target; the work under consensus locks is bounded; deposits
      are reported valid, and withdrawals found, exactly by that state.  Fetching
      a pruned block ends, and returns a body of a block active before and after.
    - Claims: no deposit is claimed twice along any chain of blocks; native
      credit is backed by different deposits of replayed blocks, each paid in
      full to its address; public credit is exactly the growth of the treasury
      output; evidence is anchored in the headers; disconnecting a block undoes
      its claims.
    - Blind merged mining: the constant-size state is as good as all parent
      headers, because a proof is accepted exactly when it extends them by the
      rules of a full node; retargets are exact; the parent clock does not run
      backwards; a proof that was made for a block verifies once attached;
      disconnecting a block restores the state; the critical hash determines the
      block, and the fingerprint the rules, up to collisions; proofs are required
      exactly behind the public checkpoint.
    - Parent blocks: a block hash determines the accepted block; partial trees
      are read back as built and only prove transactions of the block; both
      signet checks agree.
    - Coins: layered caches never throw and answer what the map of coins answers,
      before and after a flush.
    - Codecs: transactions, sidechain headers, M6 transactions, burn outputs, the accumulator and
      the fixture stream are read exactly from what is written; the streaming
      hasher computes SHA-256 of the concatenated input.
    - Withdrawals: the root kept with a block is the Merkle root of all claims
      so far; the RPC proves every claim; a claim that verifies was recorded,
      and critical hashes bind blocks to accumulators, up to SHA-256 collisions
      that the statements exhibit.
    - Monitor: when it reports readiness every relay is synchronized and fresh;
      an observation without conflict on all relays means what it says;
      conflicts are final; cursors do not go back; late verifications are inert;
      queues drain; reachable states are well formed.
    - Relay: a restart recovers the journal, events and journal are bounded,
      subscriptions have no gaps; the cursor kept for a peer passes only events
      that the local store holds, and a connected relay ends up with the evidence
      of its peer.
    - Together: monitor and tracker accept the same streams, and a subscription
      brings a connected wallet to a healthy state at the relay's head.
    - Check script: it succeeds exactly when the interpreter accepts all
      vectors and rejects all mutations, each of them read back faithfully.

    ** Parameters, bounds and fuel

    Code outside these files is an argument: the key-value database's outcome,
    the WebSocket, clock, JSON.parse, URL parser and receipt verifier of the
    monitor ([MonitorEnv]), Schnorr verification and serde of the relay
    ([RelayEnv] with [SerdeLaws]), processes, paths and the Simplicity
    interpreter of the check script ([Host]).  So are the script interpreter and
    the public keys that the signet checks call ([SignatureEnv]): the interpreter
    is code of the node, src/src/script/interpreter.cpp, that is not modelled, and
    the theorems hold for any.  So are, for claims, the decoder of addresses
    ([DestinationEnv]), the federated peg-in of networks without a slot and the
    balance of confidential amounts; and, for the driver and the recovery, what
    the parent node, the clock and the disk answer at each tick ([Oracle],
    [Env]).  Laws of arguments are hypotheses of the theorems
    that need them, with concrete instances in the witnesses.  Loops
    are structural on lists, on the 64 levels of the accumulator, on the binary
    digits of a counter or on the bits of a quotient, with four exceptions:
    merkle_loop has the number of hashes as fuel, which it at least halves
    (passes_end); tree_height has 31, the height of a tree over as many
    transactions as the readers accept being far below (tree_height_spec);
    clear_loop has one more than the bytes of the script, of which each operation
    consumes one (clear_loop_fuel); and the polling of Recovery has 121 rounds,
    because each one waits a quarter of a second and the deadline is thirty seconds away,
    so that the last one finds the deadline passed (poll_ends).  The replay of Warm runs
    over the blocks to the target, with the 32-bit counter of the source at its
    end (replay_steps), and the search of AccessByTxid over the outputs that a
    block can hold, as in the source.  Executions are lists of
    labels of any length.

    Numbers from JSON are integers below 10^21 or opaque; texts are UTF-8 bytes.
    Constructor arguments of the monitor have their documented types and
    timeouts are whole milliseconds.  The verifier of the monitor is a function
    of the receipt, while when it answers is free.  Change listeners do not call
    back into the monitor.  Malloc in the test driver succeeds.

    ** Not modelled

    - ecx_exchange_state.cpp, ecx_bond_v2.h and mainchainrpc_ecx.cpp under src/src:
      an exchange application on top of the drivechain, with a state of its own;
      the parts above meet it only in the outpoints that transactions may not
      spend.
    - The authentication of deposits by requests to the parent node and the
      reports of peg events in src/src/drivechain_peg.cpp; the admission of BMM
      edges, the anchor snapshots, the verification of single parent headers and
      the transport of requests in src/src/mainchainrpc.cpp.
    - The code of src/src/drivechain_bmm.cpp for a private test catalogue, which
      the public build leaves out; the roots of dynamic federation parameters;
      memory accounting, snapshots and the database under the coins cache; the
      general product, text and floating point of 256-bit integers.
    - Scripts, sequence locks, signature operations, subsidy and the mempool in
      the validation of blocks; the serialization of Elements transactions; the
      time budget, lock and JSON output of the RPC.
    - Rate limits, timeouts, peer URLs, origins and the listener of the relay:
      network I/O around the modelled hub and sessions.  Profile::validate and
      Config::compile call the Simplicity compiler.
    - The covenant contracts and src/lib.rs of the tools, whose meaning is that
      of that compiler; scripts/check-node.py, a test against a live node.
    - The node's networking, wallet, mempool, user interface and start-up, its
      bundled libraries and the translation catalogues: I/O, code inherited
      from upstream, third-party code and data. *)

From stdpp Require Export base tactics list gmap strings option.
From Stdlib Require Export ZArith Lia ZifyNat.

#[global] Open Scope Z_scope.

(** Every integer of the sources is a [Z] kept at its machine width by the
    [u8] .. [u64] reductions below; the C++ [std::vector<unsigned char>],
    [CScript] and [std::array] buffers are lists of byte values. *)
Abbreviation bytes := (list Z).

(** * Machine integers *)
Definition u8 (z : Z) : Z := z mod 2^8.
Definition u16 (z : Z) : Z := z mod 2^16.
Definition u32 (z : Z) : Z := Z.land z 0xffffffff.
Definition u64 (z : Z) : Z := z mod 2^64.

Definition UINT16_MAX : Z := 2^16 - 1.
Definition UINT32_MAX : Z := 2^32 - 1.
Definition UINT64_MAX : Z := 2^64 - 1.

(** [len v] is the C++ [v.size()]. *)
Definition len {A} (l : list A) : Z := Z.of_nat (length l).

(** [at_ l i] is [l[i]] for a byte buffer whose bounds the caller checked. *)
Definition at_ (l : bytes) (i : nat) : Z := nth i l 0.

(** [slice l i n] is the [n]-byte range starting at [l.begin() + i]. *)
Definition slice (l : bytes) (i n : nat) : bytes := take n (drop i l).

Definition bytes_eqb (a b : bytes) : bool := bool_decide (a = b).

Definition is_byte (b : Z) : Prop := 0 <= b < 256.
Definition bytes_ok (l : bytes) : Prop := Forall is_byte l.

#[global] Instance is_byte_dec b : Decision (is_byte b).
Proof. unfold is_byte. apply _. Defined.

#[global] Instance bytes_ok_dec l : Decision (bytes_ok l).
Proof. unfold bytes_ok. apply _. Defined.

(** * Big- and little-endian codecs *)
Fixpoint be_encode (n : nat) (z : Z) : bytes :=
  match n with
  | O => []
  | S m => u8 (Z.shiftr z (8 * Z.of_nat m)) :: be_encode m z
  end.

Definition be_decode (l : bytes) : Z :=
  fold_left (fun acc b => Z.lor (Z.shiftl acc 8) b) l 0.

Fixpoint le_encode (n : nat) (z : Z) : bytes :=
  match n with
  | O => []
  | S m => u8 z :: le_encode m (Z.shiftr z 8)
  end.

Fixpoint le_decode (l : bytes) : Z :=
  match l with
  | [] => 0
  | b :: t => Z.lor b (Z.shiftl (le_decode t) 8)
  end.

(** * 256-bit blobs
    A [uint256] is the big-endian reading of its 32 stored bytes, so that the
    order of [Z] is the [memcmp] order of [base_blob::Compare] and the null
    blob is 0. *)
Abbreviation uint256 := Z (only parsing).

Definition uint256_ok (h : uint256) : Prop := 0 <= h < 2^256.
Definition uint256_bytes (h : uint256) : bytes := be_encode 32 h.
Definition uint256_of (l : bytes) : uint256 := be_decode l.
Definition IsNull (h : uint256) : bool := h =? 0.

(** [std::reverse_copy] of the stored bytes: display order. *)
Definition uint256_display (h : uint256) : bytes := reverse (uint256_bytes h).
Definition uint256_of_display (l : bytes) : uint256 := uint256_of (reverse l).

(** * Results
    A C++ function that returns [bool] and fills a [std::string* error] returns
    [Ok] of its outputs or [Err] of the message it sets (the format string of a
    formatted message). *)
Inductive result (A : Type) : Type :=
| Ok (a : A)
| Err (msg : string).
Arguments Ok {A} a.
Arguments Err {A} msg%_string.

#[global] Instance result_ret : MRet result := fun A a => Ok a.
#[global] Instance result_bind : MBind result := fun A B f m =>
  match m with Ok a => f a | Err e => Err e end.
#[global] Instance result_fmap : FMap result := fun A B f m =>
  match m with Ok a => Ok (f a) | Err e => Err e end.

(** [ensure b e] is [if (!b) return SetError(error, e);]. *)
Definition ensure (b : bool) (e : string) : result unit :=
  if b then Ok tt else Err e.
Arguments ensure b e%_string.

(** [foldM f a l] is the loop [for (x : l)] whose body may return early. *)
Fixpoint foldM {A B} (f : B -> A -> result B) (b : B) (l : list A) : result B :=
  match l with
  | [] => Ok b
  | x :: t => match f b x with Ok b' => foldM f b' t | Err e => Err e end
  end.

Definition is_ok {A} (r : result A) : bool :=
  match r with Ok _ => true | Err _ => false end.

(** * Automation
    [inv_ok] decomposes a successful run into the successful runs of its
    steps; [bool_simp] turns the boolean guards of the sources into
    propositions over [Z]. *)
Lemma bind_Ok {A B} (m : result A) (f : A -> result B) b :
  m ≫= f = Ok b <-> exists a, m = Ok a /\ f a = Ok b.
Proof.
  split; [destruct m; [by eauto|done]|]. by intros (a & -> & ?).
Qed.

Lemma fmap_Ok {A B} (m : result A) (f : A -> B) b :
  f <$> m = Ok b <-> exists a, m = Ok a /\ f a = b.
Proof.
  split; [destruct m as [a|]; cbn; [|done]|].
  - intros [= <-]. eauto.
  - by intros (a & -> & <-).
Qed.

Lemma ensure_Ok b e u : ensure b e = Ok u <-> b = true.
Proof. by destruct b, u. Qed.

Lemma ensure_true b e : b = true -> ensure b e = Ok tt.
Proof. by intros ->. Qed.

Lemma ensure_bind {A} b e (k : unit -> result A) : b = true -> ensure b e ≫= k = k tt.
Proof. by intros ->. Qed.

Lemma foldM_app {A B} (f : B -> A -> result B) b l1 l2 :
  foldM f b (l1 ++ l2) = foldM f b l1 ≫= fun b' => foldM f b' l2.
Proof.
  revert b. induction l1 as [|x l1 IH]; intros b; cbn; [done|].
  destruct (f b x); [apply IH|done].
Qed.

(** Invariants of a loop whose body may fail. *)
Lemma foldM_inv {A B} (P : B -> Prop) (f : B -> A -> result B) l :
  (forall b x b', x ∈ l -> P b -> f b x = Ok b' -> P b') ->
  forall b b', P b -> foldM f b l = Ok b' -> P b'.
Proof.
  induction l as [|x l IH]; cbn; intros Hstep b b' Hb Hf.
  - congruence.
  - destruct (f b x) as [b1|] eqn:E; [|done].
    apply (IH) with b1; [|eapply Hstep; [left|..]; eauto|done].
    intros. eapply Hstep; [right|..]; eauto.
Qed.

Lemma foldM_rel {A B} (R : B -> B -> Prop) (f : B -> A -> result B) l :
  Reflexive R -> Transitive R ->
  (forall b x b', x ∈ l -> f b x = Ok b' -> R b b') ->
  forall b b', foldM f b l = Ok b' -> R b b'.
Proof.
  intros Hr Ht Hstep b b' H.
  apply (foldM_inv (fun b'' => R b b'') f l) with b; [|done|done].
  intros b1 x b2 Hin HR HE. etrans; [done|]. by apply (Hstep b1 x b2).
Qed.

Ltac destruct_pair p :=
  is_var p;
  lazymatch type of p with
  | prod _ _ => let x := fresh "x" in let y := fresh "y" in destruct p as [x y]; cbv beta iota in *
  end.

Ltac inv_ok :=
  repeat match goal with
  | H : Ok _ = Ok _ |- _ => injection H as H; try subst
  | H : Err _ = Ok _ |- _ => discriminate H
  | H : Ok _ = Err _ |- _ => discriminate H
  | H : mret _ = Ok _ |- _ => unfold mret, result_ret in H
  | H : mbind ?f ?m = Ok _ |- _ =>
      apply bind_Ok in H;
      let a := fresh "a" in let H1 := fresh "Hok" in
      destruct H as (a & H1 & H); cbv beta in H
  | H : fmap ?f ?m = Ok _ |- _ =>
      apply fmap_Ok in H;
      let a := fresh "a" in let H1 := fresh "Hok" in
      destruct H as (a & H1 & H); cbv beta in H
  | H : ensure _ _ = Ok _ |- _ => apply ensure_Ok in H
  | u : unit |- _ => destruct u
  | H : _ = Ok ?p |- _ => destruct_pair p
  | H : _ = Ok (?p, _) |- _ => destruct_pair p
  | H : _ = Ok (?p, _, _) |- _ => destruct_pair p
  end.

(** Passes the guards of a successful run that [lia] decides. *)
Ltac ensure_lia :=
  repeat (rewrite ensure_bind by lia); try done.

(** [lia] with the divisions and remainders of [Z] and [nat] by constants. *)
Ltac dlia := zify; Z.to_euclidean_division_equations; lia.

Ltac bool_simp :=
  repeat match goal with
  | H : _ && _ = true |- _ => apply andb_true_iff in H; destruct H
  | H : _ || _ = false |- _ => apply orb_false_iff in H; destruct H
  | H : negb _ = true |- _ => apply negb_true_iff in H
  | H : negb _ = false |- _ => apply negb_false_iff in H
  | H : (_ <? _) = true |- _ => apply Z.ltb_lt in H
  | H : (_ <? _) = false |- _ => apply Z.ltb_ge in H
  | H : (_ <=? _) = true |- _ => apply Z.leb_le in H
  | H : (_ <=? _) = false |- _ => apply Z.leb_gt in H
  | H : (_ =? _) = true |- _ => apply Z.eqb_eq in H
  | H : (_ =? _) = false |- _ => apply Z.eqb_neq in H
  | H : bool_decide _ = true |- _ => apply bool_decide_eq_true in H
  | H : bool_decide _ = false |- _ => apply bool_decide_eq_false in H
  | H : bytes_eqb _ _ = true |- _ => apply bool_decide_eq_true in H
  | H : bytes_eqb _ _ = false |- _ => apply bool_decide_eq_false in H
  end.

Create HintDb bytes_db.
Create Rewrite HintDb bytes_db.

(** * Lemmas on bytes *)
Lemma bytes_eqb_eq a b : bytes_eqb a b = true <-> a = b.
Proof. apply bool_decide_eq_true. Qed.

Lemma bytes_eqb_refl a : bytes_eqb a a = true.
Proof. by apply bytes_eqb_eq. Qed.

Lemma u8_byte z : is_byte (u8 z).
Proof. unfold is_byte, u8. change 256 with (2^8). apply Z.mod_pos_bound. lia. Qed.

Lemma u8_small z : is_byte z -> u8 z = z.
Proof. unfold is_byte, u8. intros. apply Z.mod_small. lia. Qed.

Lemma u32_mod z : u32 z = z mod 2^32.
Proof. unfold u32. change 0xffffffff with (Z.ones 32). apply Z.land_ones. lia. Qed.

Lemma len_nonneg {A} (l : list A) : 0 <= len l.
Proof. unfold len. lia. Qed.

Lemma len_nil {A} : len (@nil A) = 0.
Proof. done. Qed.

Lemma len_cons {A} (x : A) l : len (x :: l) = len l + 1.
Proof. unfold len. cbn [length]. lia. Qed.

Lemma len_app {A} (l1 l2 : list A) : len (l1 ++ l2) = len l1 + len l2.
Proof. unfold len. rewrite length_app. lia. Qed.

Lemma bytes_ok_nil : bytes_ok [].
Proof. constructor. Qed.

Lemma bytes_ok_cons b l : is_byte b -> bytes_ok l -> bytes_ok (b :: l).
Proof. by constructor. Qed.

Lemma bytes_ok_app l1 l2 : bytes_ok l1 -> bytes_ok l2 -> bytes_ok (l1 ++ l2).
Proof. by intros; apply Forall_app_2. Qed.

Lemma bytes_ok_take n l : bytes_ok l -> bytes_ok (take n l).
Proof. apply Forall_take. Qed.

Lemma bytes_ok_drop n l : bytes_ok l -> bytes_ok (drop n l).
Proof. apply Forall_drop. Qed.

Lemma bytes_ok_rev l : bytes_ok l -> bytes_ok (reverse l).
Proof. apply Forall_reverse. Qed.

Lemma be_encode_length n z : length (be_encode n z) = n.
Proof. induction n; cbn; auto. Qed.

Lemma be_encode_ok n z : bytes_ok (be_encode n z).
Proof. induction n; cbn; constructor; auto using u8_byte. Qed.

Lemma le_encode_length n z : length (le_encode n z) = n.
Proof. revert z. induction n; intros; cbn; auto. Qed.

Lemma le_encode_ok n z : bytes_ok (le_encode n z).
Proof.
  revert z. induction n as [|n IH]; intros z; cbn; [constructor|].
  constructor; [apply u8_byte|apply IH].
Qed.

#[export] Hint Resolve u8_byte bytes_ok_nil bytes_ok_cons bytes_ok_app bytes_ok_take
  bytes_ok_drop bytes_ok_rev be_encode_ok le_encode_ok : bytes_db.
#[export] Hint Rewrite be_encode_length le_encode_length @length_app @length_reverse
  @length_take @length_drop : bytes_db.

(** [acc << 8 | b] is [acc * 256 + b] on a byte. *)
Lemma shl8_lor a b : is_byte b -> Z.lor (Z.shiftl a 8) b = a * 256 + b.
Proof.
  intros [H1 H2]. rewrite Z.shiftl_mul_pow2 by lia. change (2^8) with 256.
  rewrite <- Z.add_lor_land. enough (Z.land (a * 256) b = 0) by lia.
  apply Z.bits_inj'. intros n Hn. rewrite Z.land_spec, Z.bits_0.
  destruct (Z.lt_ge_cases n 8).
  - change 256 with (2^8). rewrite Z.mul_pow2_bits_low by lia. done.
  - replace (Z.testbit b n) with false; [apply andb_false_r|].
    symmetry. rewrite <- (Z.mod_small b (2^8)) by lia.
    by apply Z.mod_pow2_bits_high.
Qed.

Lemma be_fold_acc l acc : bytes_ok l ->
  fold_left (fun acc b => Z.lor (Z.shiftl acc 8) b) l acc =
  acc * 256 ^ len l + be_decode l.
Proof.
  unfold be_decode. revert acc. induction l as [|b l IH]; intros acc Hl.
  - cbn. rewrite len_nil, Z.pow_0_r. lia.
  - inversion_clear Hl as [|? ? Hb Hl']. cbn [fold_left].
    rewrite IH by done. rewrite (IH (Z.lor (Z.shiftl 0 8) b)) by done.
    rewrite !shl8_lor by done. rewrite len_cons, Z.pow_add_r by (pose proof (len_nonneg l); lia).
    lia.
Qed.

Lemma be_decode_cons b l : bytes_ok (b :: l) ->
  be_decode (b :: l) = b * 256 ^ len l + be_decode l.
Proof.
  intros Hl. inversion_clear Hl. unfold be_decode at 1. cbn [fold_left].
  rewrite be_fold_acc, shl8_lor by done. lia.
Qed.

Lemma be_decode_bound l : bytes_ok l -> 0 <= be_decode l < 256 ^ len l.
Proof.
  induction l as [|b l IH]; intros Hl; [by unfold len; cbn|].
  rewrite be_decode_cons by done. inversion_clear Hl as [|? ? Hb Hl']. specialize (IH Hl').
  rewrite len_cons, Z.pow_add_r by (pose proof (len_nonneg l); lia).
  unfold is_byte in Hb. nia.
Qed.

Lemma be_encode_decode l : bytes_ok l -> be_encode (length l) (be_decode l) = l.
Proof.
  assert (Hgen : forall l a, bytes_ok l ->
    be_encode (length l) (a * 256 ^ len l + be_decode l) = l).
  { clear. induction l as [|b l IH]; intros a Hl; [done|].
    rewrite be_decode_cons by done. inversion_clear Hl as [|? ? Hb Hl'].
    pose proof (be_decode_bound l Hl') as Hbd. pose proof (len_nonneg l) as Hn.
    cbn [length be_encode]. rewrite len_cons, Z.pow_add_r by lia.
    replace (a * (256 ^ len l * 256 ^ 1) + (b * 256 ^ len l + be_decode l))
      with ((a * 256 + b) * 256 ^ len l + be_decode l) by lia.
    f_equal; [|apply IH; done].
    rewrite Z.shiftr_div_pow2 by lia. rewrite Z.pow_mul_r by lia. change (2^8) with 256.
    change (Z.of_nat (length l)) with (len l).
    rewrite Z.div_add_l by lia. rewrite (Z.div_small (be_decode l)) by lia.
    unfold u8, is_byte in *. change (2^8) with 256.
    replace (a * 256 + b + 0) with (b + a * 256) by lia.
    rewrite Z.mod_add by lia. apply Z.mod_small. done. }
  intros Hl. exact (Hgen l 0 Hl).
Qed.

Lemma be_decode_encode n z : 0 <= z < 256 ^ Z.of_nat n -> be_decode (be_encode n z) = z.
Proof.
  assert (Hgen : forall n z, be_decode (be_encode n z) = z mod 256 ^ Z.of_nat n).
  { clear. induction n as [|n IH]; intros z; [cbn; by rewrite Z.mod_1_r|].
    cbn [be_encode]. rewrite be_decode_cons by auto with bytes_db.
    unfold len. rewrite be_encode_length, IH. rewrite Nat2Z.inj_succ, Z.pow_succ_r by lia.
    rewrite Z.shiftr_div_pow2 by lia. unfold u8. rewrite Z.pow_mul_r by lia. change (2^8) with 256.
    rewrite (Z.mul_comm 256), Z.rem_mul_r by lia. lia. }
  intros. rewrite Hgen. by apply Z.mod_small.
Qed.

Lemma be_decode_inj l1 l2 : length l1 = length l2 -> bytes_ok l1 -> bytes_ok l2 ->
  be_decode l1 = be_decode l2 -> l1 = l2.
Proof.
  intros Hlen H1 H2 Heq. rewrite <- (be_encode_decode l1), <- (be_encode_decode l2) by done.
  by rewrite Hlen, Heq.
Qed.

Lemma le_decode_cons b l : is_byte b -> le_decode (b :: l) = b + le_decode l * 256.
Proof. intros. cbn [le_decode]. rewrite Z.lor_comm, shl8_lor by done. lia. Qed.

Lemma le_decode_encode n z : 0 <= z < 256 ^ Z.of_nat n -> le_decode (le_encode n z) = z.
Proof.
  revert z. induction n as [|n IH]; intros z Hz; [cbn in *; lia|].
  cbn [le_encode]. rewrite le_decode_cons by apply u8_byte.
  rewrite Nat2Z.inj_succ, Z.pow_succ_r in Hz by lia.
  rewrite IH; rewrite Z.shiftr_div_pow2 by lia; change (2^8) with 256; unfold u8;
    change (2^8) with 256.
  - pose proof (Z.div_mod z 256). lia.
  - split; [apply Z.div_pos; lia|apply Z.div_lt_upper_bound; lia].
Qed.

Lemma le_decode_bound l : bytes_ok l -> 0 <= le_decode l < 256 ^ len l.
Proof.
  induction l as [|b l IH]; intros Hl; [by unfold len; cbn|].
  inversion_clear Hl as [|? ? Hb Hl']. specialize (IH Hl').
  rewrite le_decode_cons by done.
  rewrite len_cons, Z.pow_add_r by (pose proof (len_nonneg l); lia).
  unfold is_byte in Hb. lia.
Qed.

Lemma le_encode_decode l : bytes_ok l -> le_encode (length l) (le_decode l) = l.
Proof.
  induction l as [|b l IH]; intros Hl; [done|].
  inversion_clear Hl as [|? ? Hb Hl']. cbn [length le_encode].
  rewrite le_decode_cons by done. unfold is_byte in Hb. f_equal.
  - unfold u8. change (2^8) with 256. rewrite Z.mod_add by lia. apply Z.mod_small. lia.
  - rewrite Z.shiftr_div_pow2 by lia. change (2^8) with 256.
    rewrite Z.div_add by lia. rewrite Z.div_small by lia. cbn. by apply IH.
Qed.

Lemma uint256_bytes_length h : length (uint256_bytes h) = 32%nat.
Proof. apply be_encode_length. Qed.

Lemma uint256_bytes_len h : len (uint256_bytes h) = 32.
Proof. unfold len. by rewrite uint256_bytes_length. Qed.

Lemma uint256_bytes_ok h : bytes_ok (uint256_bytes h).
Proof. apply be_encode_ok. Qed.

Lemma uint256_of_bytes h : uint256_ok h -> uint256_of (uint256_bytes h) = h.
Proof. intros. by apply be_decode_encode. Qed.

Lemma uint256_bytes_of l : length l = 32%nat -> bytes_ok l -> uint256_bytes (uint256_of l) = l.
Proof. intros Hl ?. unfold uint256_bytes. rewrite <- Hl. by apply be_encode_decode. Qed.

Lemma uint256_of_ok l : length l = 32%nat -> bytes_ok l -> uint256_ok (uint256_of l).
Proof.
  intros Hl Hok. pose proof (be_decode_bound l Hok) as Hb. unfold len in Hb. rewrite Hl in Hb.
  exact Hb.
Qed.

#[export] Hint Resolve uint256_bytes_ok : bytes_db.
#[export] Hint Rewrite uint256_bytes_length : bytes_db.

(** ** Ranges of a concatenation *)
Lemma slice_app_here a b n : n = length a -> slice (a ++ b) 0 n = a.
Proof. intros ->. unfold slice. by rewrite drop_0, take_app_length. Qed.

Lemma slice_app_next a b i n : (length a <= i)%nat -> slice (a ++ b) i n = slice b (i - length a) n.
Proof. intros. unfold slice. by rewrite drop_app_ge. Qed.

Lemma at_app_next a b i : (length a <= i)%nat -> at_ (a ++ b) i = at_ b (i - length a).
Proof. intros. unfold at_. by rewrite app_nth2. Qed.

Lemma slice_all a n : n = length a -> slice a 0 n = a.
Proof. intros ->. unfold slice. rewrite drop_0. by apply take_ge. Qed.

Lemma slice_ok l i n : bytes_ok l -> bytes_ok (slice l i n).
Proof. unfold slice. auto with bytes_db. Qed.

Lemma slice_length l i n : (i + n <= length l)%nat -> length (slice l i n) = n.
Proof. intros. unfold slice. rewrite length_take, length_drop. lia. Qed.

Lemma at_byte l i : bytes_ok l -> (i < length l)%nat -> is_byte (at_ l i).
Proof.
  intros Hok Hi. unfold at_. eapply Forall_forall in Hok; [exact Hok|].
  by apply nth_In.
Qed.

(** Cutting a list into a prefix and a suffix at an offset. *)
Lemma slice_split l i n : (i + n = length l)%nat -> l = take i l ++ slice l i n.
Proof.
  intros H. unfold slice. rewrite (take_ge (drop i l)) by (rewrite length_drop; lia).
  by rewrite take_drop.
Qed.

#[export] Hint Resolve slice_ok : bytes_db.

Lemma NoDup_map_inj {A B} (f : A -> B) (l : list A) x y :
  NoDup (map f l) -> x ∈ l -> y ∈ l -> f x = f y -> x = y.
Proof.
  intros Hnd [i Hi]%list_elem_of_lookup [j Hj]%list_elem_of_lookup E.
  assert (i = j) as ->; [|congruence]. eapply (NoDup_lookup (map f l)); [done| |];
    rewrite list_lookup_fmap; [rewrite Hi|rewrite Hj]; cbn; [done|by rewrite E].
Qed.
