(* ===== verification/ArithUint256.v ===== *)
(** * 256-bit unsigned arithmetic (src/src/arith_uint256.{h,cpp})

    [base_uint<256>] is an array of eight 32-bit digits, least significant
    first.  The loops over the digits are translated as they are written, with
    every intermediate value reduced to its C++ width; the lemmas show that they
    compute the arithmetic of integers modulo 2^256, that the long division is
    the quotient, and what the compact encoding of a target keeps of it. *)

From S2P Require Import Prelude.

Definition WIDTH : nat := 8.

(** ** Digits *)
Definition of_uint64 (b : Z) : list Z := u32 b :: u32 (Z.shiftr b 32) :: replicate (WIDTH - 2) 0.

Definition operator_not (a : list Z) : list Z := map (fun d => u32 (Z.lnot d)) a.

Fixpoint operator_incr (a : list Z) : list Z :=
  match a with
  | [] => []
  | d :: t => let d' := u32 (d + 1) in if d' =? 0 then d' :: operator_incr t else d' :: t
  end.

Definition operator_neg (a : list Z) : list Z := operator_incr (operator_not a).

Fixpoint add_digits (carry : Z) (a b : list Z) : list Z :=
  match a, b with
  | x :: a', y :: b' =>
      let n := u64 (carry + x + y) in
      Z.land n 0xffffffff :: add_digits (Z.shiftr n 32) a' b'
  | _, _ => []
  end.

Definition operator_add (a b : list Z) : list Z := add_digits 0 a b.
Definition operator_sub (a b : list Z) : list Z := operator_add a (operator_neg b).

(** [pn[i] |= d]. *)
Definition or_at (pn : list Z) (i : nat) (d : Z) : list Z := <[i := Z.lor (nth i pn 0) d]> pn.

Definition shl_digit (a : list Z) (k : nat) (shift : Z) (pn : list Z) (i : nat) : list Z :=
  let pn := if (i + k + 1 <? WIDTH)%nat && negb (shift =? 0)
            then or_at pn (i + k + 1) (Z.shiftr (nth i a 0) (32 - shift)) else pn in
  if (i + k <? WIDTH)%nat then or_at pn (i + k) (u32 (Z.shiftl (nth i a 0) shift)) else pn.

Definition operator_shl (a : list Z) (shift : Z) : list Z :=
  foldl (shl_digit a (Z.to_nat (shift / 32)) (shift mod 32)) (replicate WIDTH 0) (seq 0 WIDTH).

Definition shr_digit (a : list Z) (k : nat) (shift : Z) (pn : list Z) (i : nat) : list Z :=
  let pn := if (k + 1 <=? i)%nat && negb (shift =? 0)
            then or_at pn (i - k - 1) (u32 (Z.shiftl (nth i a 0) (32 - shift))) else pn in
  if (k <=? i)%nat then or_at pn (i - k) (Z.shiftr (nth i a 0) shift) else pn.

Definition operator_shr (a : list Z) (shift : Z) : list Z :=
  foldl (shr_digit a (Z.to_nat (shift / 32)) (shift mod 32)) (replicate WIDTH 0) (seq 0 WIDTH).

Fixpoint mul_digits (carry b32 : Z) (a : list Z) : list Z :=
  match a with
  | [] => []
  | d :: t => let n := u64 (carry + b32 * d) in
              Z.land n 0xffffffff :: mul_digits (Z.shiftr n 32) b32 t
  end.

(** [operator*=(uint32_t)]. *)
Definition operator_mul32 (a : list Z) (b32 : Z) : list Z := mul_digits 0 b32 a.

(** [CompareTo]: the digits below position [i], most significant first. *)
Fixpoint compare_below (i : nat) (a b : list Z) : Z :=
  match i with
  | O => 0
  | S j => if nth j a 0 <? nth j b 0 then -1
           else if nth j b 0 <? nth j a 0 then 1
           else compare_below j a b
  end.

Definition CompareTo (a b : list Z) : Z := compare_below WIDTH a b.

(** [EqualTo(uint64_t)]. *)
Definition EqualTo (a : list Z) (b : Z) : bool :=
  forallb (fun d => d =? 0) (drop 2 a) &&
  (nth 1 a 0 =? Z.shiftr b 32) && (nth 0 a 0 =? Z.land b 0xffffffff).

(** [bits]: the highest bit of a digit (the loop stops at bit 0 without testing
    it), then the highest digit that is not zero. *)
Fixpoint digit_bits (nbits : nat) (d : Z) : Z :=
  match nbits with
  | O => 1
  | S m => if negb (Z.land d (Z.shiftl 1 (Z.of_nat nbits)) =? 0) then Z.of_nat nbits + 1
           else digit_bits m d
  end.

Fixpoint bits_below (pos : nat) (a : list Z) : Z :=
  match pos with
  | O => 0
  | S j => if negb (nth j a 0 =? 0) then 32 * Z.of_nat j + digit_bits 31 (nth j a 0)
           else bits_below j a
  end.

Definition bits (a : list Z) : Z := bits_below WIDTH a.

(** [operator/=]: the body of the [while] loop for [shift], then for the shifts
    below it. *)
Definition div_step (shift : nat) (num div q : list Z) : list Z * list Z :=
  if 0 <=? CompareTo num div
  then (operator_sub num div,
        or_at q (shift / 32) (Z.shiftl 1 (Z.land (Z.of_nat shift) 31)))
  else (num, q).

Fixpoint div_loop (shift : nat) (num div q : list Z) : list Z * list Z :=
  let '(num', q') := div_step shift num div q in
  match shift with
  | O => (num', q')
  | S m => div_loop m num' (operator_shr div 1) q'
  end.

Definition operator_div (a b : list Z) : result (list Z) :=
  let num_bits := bits a in
  let div_bits := bits b in
  if div_bits =? 0 then Err "Division by zero"
  else if num_bits <? div_bits then Ok (of_uint64 0)
  else let shift := num_bits - div_bits in
       Ok (div_loop (Z.to_nat shift) a (operator_shl b shift) (of_uint64 0)).2.

Definition GetLow64 (a : list Z) : Z := Z.lor (nth 0 a 0) (u64 (Z.shiftl (nth 1 a 0) 32)).

(** ** The compact encoding
    [SetCompact] yields the value and the flags [pfNegative], [pfOverflow]. *)
Definition SetCompact (nCompact : Z) : list Z * bool * bool :=
  let nSize := Z.shiftr nCompact 24 in
  let nWord0 := Z.land nCompact 0x007fffff in
  let nWord := if nSize <=? 3 then Z.shiftr nWord0 (8 * (3 - nSize)) else nWord0 in
  let v := if nSize <=? 3 then of_uint64 nWord
           else operator_shl (of_uint64 nWord) (8 * (nSize - 3)) in
  (v,
   negb (nWord =? 0) && negb (Z.land nCompact 0x00800000 =? 0),
   negb (nWord =? 0) && ((34 <? nSize) || ((0xff <? nWord) && (33 <? nSize)) ||
                         ((0xffff <? nWord) && (32 <? nSize)))).

(** [GetCompact(fNegative = false)]: the size and the mantissa before the sign
    bit is avoided, then after. *)
Definition compact_parts (a : list Z) : Z * Z :=
  let nSize := (bits a + 7) / 8 in
  (nSize,
   if nSize <=? 3 then u32 (u64 (Z.shiftl (GetLow64 a) (8 * (3 - nSize))))
   else u32 (GetLow64 (operator_shr a (8 * (nSize - 3))))).

Definition unsigned_parts (p : Z * Z) : Z * Z :=
  if negb (Z.land p.2 0x00800000 =? 0) then (p.1 + 1, Z.shiftr p.2 8) else p.

(** The two assertions of [GetCompact]. *)
Definition GetCompact_asserts (a : list Z) : bool :=
  let '(nSize, nCompact) := unsigned_parts (compact_parts a) in
  (Z.land nCompact (u32 (Z.lnot 0x007fffff)) =? 0) && (nSize <? 256).

Definition GetCompact (a : list Z) : Z :=
  let '(nSize, nCompact) := unsigned_parts (compact_parts a) in
  Z.lor nCompact (u32 (Z.shiftl nSize 24)).

(** ** Conversions: [ReadLE32]/[WriteLE32] of the eight words of a [uint256]. *)
Fixpoint read_le32 (n : nat) (b : bytes) : list Z :=
  match n with
  | O => []
  | S m => le_decode (take 4 b) :: read_le32 m (drop 4 b)
  end.

Definition UintToArith256 (h : uint256) : list Z := read_le32 WIDTH (uint256_bytes h).
Definition ArithToUint256 (a : list Z) : uint256 := uint256_of (concat (map (le_encode 4) a)).

(** ** What the digits mean *)
Definition digit_ok (d : Z) : Prop := 0 <= d < 2^32.

Fixpoint value (a : list Z) : Z :=
  match a with [] => 0 | d :: t => d + 2^32 * value t end.

Record arith_ok (a : list Z) : Prop := {
  arith_length : length a = WIDTH;
  arith_digits : Forall digit_ok a }.

Create HintDb arith.
#[export] Hint Resolve arith_length arith_digits : arith.

Lemma land_mask z : Z.land z 0xffffffff = z mod 2^32.
Proof. change 0xffffffff with (Z.ones 32). now rewrite Z.land_ones. Qed.

Lemma u32_digit z : digit_ok (u32 z).
Proof. unfold digit_ok. rewrite u32_mod. apply Z.mod_pos_bound. lia. Qed.

Lemma mask_digit z : digit_ok (Z.land z 0xffffffff).
Proof. unfold digit_ok. rewrite land_mask. apply Z.mod_pos_bound. lia. Qed.
#[export] Hint Resolve u32_digit mask_digit : arith.

Lemma value_bound a : Forall digit_ok a -> 0 <= value a < 2 ^ (32 * len a).
Proof.
  induction 1 as [|d t Hd _ IH]; cbn [value].
  - by vm_compute.
  - rewrite len_cons. replace (32 * (len t + 1)) with (32 + 32 * len t) by lia.
    rewrite Z.pow_add_r by (pose proof (len_nonneg t); lia). unfold digit_ok in Hd. nia.
Qed.

Lemma arith_bound a : arith_ok a -> 0 <= value a < 2^256.
Proof.
  intros [Hl Hd]. pose proof (value_bound a Hd) as H. unfold len in H. now rewrite Hl in H.
Qed.

(** Bit [p] of the value is a bit of the digit that holds it. *)
Lemma digit_high d i : digit_ok d -> 32 <= i -> Z.testbit d i = false.
Proof.
  intros Hd Hi. destruct (decide (d = 0)) as [->|]; [apply Z.bits_0|].
  apply Z.bits_above_log2; unfold digit_ok in Hd; [lia|].
  assert (Z.log2 d < 32) by (apply Z.log2_lt_pow2; lia). lia.
Qed.

Lemma value_testbit a p : Forall digit_ok a -> 0 <= p ->
  Z.testbit (value a) p = Z.testbit (nth (Z.to_nat (p / 32)) a 0) (p mod 32).
Proof.
  intros H. revert p. induction H as [|d t Hd Ht IH]; intros p Hp; cbn [value].
  { rewrite Z.bits_0. destruct (Z.to_nat (p / 32)); cbn; now rewrite Z.bits_0. }
  unfold digit_ok in Hd. destruct (Z.lt_ge_cases p 32) as [Hlt|Hge].
  - rewrite <- (Z.mod_pow2_bits_low _ 32) by lia.
    replace ((d + 2^32 * value t) mod 2^32) with d by dlia.
    rewrite Z.div_small, Z.mod_small by lia. done.
  - replace p with (p - 32 + 32) at 1 by lia. rewrite <- Z.div_pow2_bits by lia.
    replace ((d + 2^32 * value t) / 2^32) with (value t) by dlia.
    rewrite IH by lia. replace (Z.to_nat (p / 32)) with (S (Z.to_nat ((p - 32) / 32))) by dlia.
    cbn [nth]. f_equal. dlia.
Qed.

(** Two values are equal when the bits of their 256 positions are. *)
Lemma value_bits a v : arith_ok a -> 0 <= v < 2^256 ->
  (forall j r, (j < WIDTH)%nat -> 0 <= r < 32 ->
     Z.testbit (nth j a 0) r = Z.testbit v (32 * Z.of_nat j + r)) ->
  value a = v.
Proof.
  intros [Hl Hd] Hv H. apply Z.bits_inj'. intros p Hp. rewrite value_testbit by done.
  destruct (Z.lt_ge_cases p 256) as [Hlt|Hge].
  - rewrite H by (unfold WIDTH; dlia). f_equal. dlia.
  - rewrite nth_overflow by (rewrite Hl; unfold WIDTH; dlia). rewrite Z.bits_0.
    destruct (decide (v = 0)) as [->|]; [now rewrite Z.bits_0|].
    rewrite Z.bits_above_log2; [done|lia|]. assert (Z.log2 v < 256) by (apply Z.log2_lt_pow2; lia). lia.
Qed.

Lemma value_inj a b : arith_ok a -> arith_ok b -> value a = value b -> a = b.
Proof.
  intros [Hla Ha] [Hlb Hb]. assert (Hl : length a = length b) by congruence. clear Hla Hlb.
  revert b Hb Hl. induction Ha as [|x a Hx Ha IH]; intros [|y b] Hb Hl E; try done.
  apply Forall_cons_1 in Hb as [Hy Hb]. cbn in E, Hl. unfold digit_ok in *.
  assert (x = y) by dlia. assert (value a = value b) by lia. f_equal; [done|]. apply IH; [done|lia|done].
Qed.

Lemma nth_digit a i : Forall digit_ok a -> digit_ok (nth i a 0).
Proof.
  intros H. rewrite nth_lookup. destruct (a !! i) as [d|] eqn:E; cbn.
  - exact (Forall_lookup_1 _ _ _ _ H E).
  - unfold digit_ok. lia.
Qed.
#[export] Hint Resolve nth_digit : arith.

(** ** Construction and increments *)
Lemma of_uint64_spec b : 0 <= b < 2^64 -> arith_ok (of_uint64 b) /\ value (of_uint64 b) = b.
Proof.
  intros Hb. unfold of_uint64. split.
  - split; [done|]. cbn. repeat apply Forall_cons_2; auto with arith; try (unfold digit_ok; lia).
  - cbn [value replicate WIDTH Nat.sub]. rewrite !u32_mod, Z.shiftr_div_pow2 by lia. dlia.
Qed.

Lemma operator_not_spec a : Forall digit_ok a ->
  Forall digit_ok (operator_not a) /\ value (operator_not a) = 2 ^ (32 * len a) - 1 - value a.
Proof.
  induction 1 as [|d t Hd _ [IH1 IH2]]; cbn [operator_not map value].
  - split; [constructor|done].
  - fold (operator_not t). split; [constructor; auto with arith|].
    rewrite IH2, len_cons, u32_mod. replace (32 * (len t + 1)) with (32 + 32 * len t) by lia.
    rewrite Z.pow_add_r by (pose proof (len_nonneg t); lia). unfold Z.lnot, digit_ok in *.
    replace (Z.pred (- d) mod 2^32) with (2^32 - 1 - d) by dlia. lia.
Qed.

Lemma operator_incr_spec a : Forall digit_ok a ->
  Forall digit_ok (operator_incr a) /\ length (operator_incr a) = length a /\
  value (operator_incr a) = (value a + 1) mod 2 ^ (32 * len a).
Proof.
  induction 1 as [|d t Hd Ht [IH1 [IH2 IH3]]]; cbn [operator_incr value].
  - repeat split; constructor.
  - pose proof (value_bound t Ht) as Hb. pose proof (len_nonneg t).
    rewrite len_cons. replace (32 * (len t + 1)) with (32 + 32 * len t) by lia.
    rewrite Z.pow_add_r by lia. rewrite u32_mod. unfold digit_ok in Hd.
    set (P := 2 ^ (32 * len t)) in *. assert (0 < P) by (subst P; apply Z.pow_pos_nonneg; lia).
    destruct (Z.eqb_spec ((d + 1) mod 2^32) 0) as [E|E]; cbn [value length].
    + split; [constructor; [unfold digit_ok; lia|done]|]. split; [lia|].
      rewrite IH3, E. replace (d + 2^32 * value t + 1) with (2^32 * (value t + 1)) by dlia.
      rewrite Z.mul_mod_distr_l by lia. lia.
    + split; [constructor; [unfold digit_ok; dlia|done]|]. split; [done|].
      rewrite (Z.mod_small (d + 1)) by dlia. rewrite Z.mod_small; nia || dlia.
Qed.

Lemma mod_low r m q P : 0 <= r < m -> 0 < P ->
  (r + m * q) mod (m * P) = r + m * (q mod P).
Proof.
  intros Hr HP. symmetry. apply Z.mod_unique_pos with (q / P).
  - pose proof (Z.mod_pos_bound q P HP). nia.
  - rewrite (Z.div_mod q P) at 1 by lia. ring.
Qed.

Lemma add_digits_spec a b carry : Forall digit_ok a -> Forall digit_ok b -> length a = length b ->
  0 <= carry <= 1 ->
  Forall digit_ok (add_digits carry a b) /\ length (add_digits carry a b) = length a /\
  value (add_digits carry a b) = (carry + value a + value b) mod 2 ^ (32 * len a).
Proof.
  intros Ha. revert b carry. induction Ha as [|x a Hx Ha IH]; intros [|y b] carry Hb Hl Hc; try done.
  - cbn [add_digits value]. repeat split; [constructor|].
    change (32 * 0) with 0. now rewrite Z.mod_1_r.
  - apply Forall_cons_1 in Hb as [Hy Hb]. cbn [add_digits value]. unfold digit_ok in *.
    assert (En : u64 (carry + x + y) = carry + x + y) by (unfold u64; rewrite Z.mod_small; lia).
    rewrite En, land_mask, Z.shiftr_div_pow2 by lia.
    destruct (IH b ((carry + x + y) / 2^32)) as [H1 [H2 H3]]; [done|cbn in Hl; lia|dlia|].
    split; [constructor; [dlia|done]|]. cbn [length]. split; [lia|]. rewrite H3, len_cons.
    pose proof (len_nonneg a). replace (32 * (len a + 1)) with (32 + 32 * len a) by lia.
    rewrite Z.pow_add_r by lia. rewrite <- mod_low; [|dlia|apply Z.pow_pos_nonneg; lia].
    f_equal. dlia.
Qed.

Lemma len_arith a : arith_ok a -> len a = 8.
Proof. intros H. unfold len. now rewrite (arith_length _ H). Qed.

Lemma operator_neg_spec a : arith_ok a ->
  arith_ok (operator_neg a) /\ value (operator_neg a) = (- value a) mod 2^256.
Proof.
  intros H. destruct (operator_not_spec a (arith_digits _ H)) as [H1 H2].
  destruct (operator_incr_spec _ H1) as (H3 & H4 & H5). unfold operator_neg.
  assert (El : len (operator_not a) = 8) by (unfold operator_not, len; rewrite length_map, (arith_length _ H); done).
  split; [split; [|done]|].
  - rewrite H4. unfold operator_not. rewrite length_map. auto with arith.
  - rewrite H5, El, H2, (len_arith _ H). change (32 * 8) with 256.
    replace (2^256 - 1 - value a + 1) with (- value a + 1 * 2^256) by lia. now rewrite Z.mod_add.
Qed.

Lemma operator_add_spec a b : arith_ok a -> arith_ok b ->
  arith_ok (operator_add a b) /\ value (operator_add a b) = (value a + value b) mod 2^256.
Proof.
  intros Ha Hb. destruct (add_digits_spec a b 0) as (H1 & H2 & H3); auto with arith; [|lia|].
  { now rewrite (arith_length _ Ha), (arith_length _ Hb). }
  unfold operator_add. split; [split; [|done]|].
  - rewrite H2. auto with arith.
  - rewrite H3, (len_arith _ Ha). done.
Qed.

Lemma operator_sub_spec a b : arith_ok a -> arith_ok b ->
  arith_ok (operator_sub a b) /\ value (operator_sub a b) = (value a - value b) mod 2^256.
Proof.
  intros Ha Hb. destruct (operator_neg_spec b Hb) as [H1 H2].
  destruct (operator_add_spec a _ Ha H1) as [H3 H4]. unfold operator_sub. split; [done|].
  rewrite H4, H2, Zplus_mod_idemp_r. done.
Qed.

Lemma mul_digits_spec a b32 carry : Forall digit_ok a -> digit_ok b32 -> digit_ok carry ->
  Forall digit_ok (mul_digits carry b32 a) /\ length (mul_digits carry b32 a) = length a /\
  value (mul_digits carry b32 a) = (carry + b32 * value a) mod 2 ^ (32 * len a).
Proof.
  intros Ha Hb. revert carry. induction Ha as [|d a Hd Ha IH]; intros carry Hc.
  - cbn [mul_digits value]. repeat split; [constructor|]. change (32 * len []) with 0. now rewrite Z.mod_1_r.
  - cbn [mul_digits value]. unfold digit_ok in Hb, Hc, Hd.
    assert (Hn : 0 <= carry + b32 * d < 2^64) by nia.
    unfold u64. rewrite Z.mod_small, land_mask, Z.shiftr_div_pow2 by lia.
    set (n := carry + b32 * d) in *. destruct (IH (n / 2^32)) as (H1 & H2 & H3); [unfold digit_ok; dlia|].
    split; [constructor; [unfold digit_ok; dlia|done]|]. cbn [length]. split; [lia|].
    rewrite H3, len_cons. pose proof (len_nonneg a).
    replace (32 * (len a + 1)) with (32 + 32 * len a) by lia. rewrite Z.pow_add_r by lia.
    rewrite <- mod_low; [|dlia|apply Z.pow_pos_nonneg; lia]. f_equal.
    replace (carry + b32 * (d + 2^32 * value a)) with (n + 2^32 * (b32 * value a)) by (subst n; ring).
    generalize (b32 * value a). intros. dlia.
Qed.

Lemma operator_mul32_spec a b : arith_ok a -> 0 <= b < 2^32 ->
  arith_ok (operator_mul32 a b) /\ value (operator_mul32 a b) = (value a * b) mod 2^256.
Proof.
  intros Ha Hb. destruct (mul_digits_spec a b 0) as (H1 & H2 & H3); auto with arith; [unfold digit_ok; lia|].
  unfold operator_mul32. split; [split; [|done]|].
  - rewrite H2. auto with arith.
  - rewrite H3, (len_arith _ Ha). f_equal. lia.
Qed.

(** ** Comparison *)
Lemma value_split a j : Forall digit_ok a -> (j < length a)%nat ->
  value (take (S j) a) = value (take j a) + nth j a 0 * 2 ^ (32 * Z.of_nat j).
Proof.
  intros H. revert j. induction H as [|d t Hd _ IH]; intros [|j] Hj; cbn [length] in Hj; try lia.
  - cbn [take value nth]. change (32 * Z.of_nat 0) with 0. rewrite take_0. cbn [value]. lia.
  - change (take (S (S j)) (d :: t)) with (d :: take (S j) t).
    change (take (S j) (d :: t)) with (d :: take j t). cbn [value nth]. rewrite IH by lia.
    replace (32 * Z.of_nat (S j)) with (32 + 32 * Z.of_nat j) by lia. rewrite Z.pow_add_r by lia. ring.
Qed.

Lemma take_bound a j : Forall digit_ok a -> (j <= length a)%nat ->
  0 <= value (take j a) < 2 ^ (32 * Z.of_nat j).
Proof.
  intros H Hj. pose proof (value_bound (take j a) (Forall_take _ _ _ H)) as Hb.
  unfold len in Hb. now rewrite length_take_le in Hb by done.
Qed.

Lemma compare_below_spec i a b : Forall digit_ok a -> Forall digit_ok b ->
  (i <= length a)%nat -> (i <= length b)%nat ->
  compare_below i a b =
  match value (take i a) ?= value (take i b) with Lt => -1 | Eq => 0 | Gt => 1 end.
Proof.
  intros Ha Hb. induction i as [|j IH]; intros Hla Hlb; [now rewrite !take_0|].
  cbn [compare_below]. rewrite !value_split by (done || lia).
  pose proof (take_bound a j Ha ltac:(lia)). pose proof (take_bound b j Hb ltac:(lia)).
  rewrite IH by lia. set (P := 2 ^ (32 * Z.of_nat j)) in *.
  destruct (Z.ltb_spec (nth j a 0) (nth j b 0)); [rewrite (proj2 (Z.compare_lt_iff _ _)); [done|nia]|].
  destruct (Z.ltb_spec (nth j b 0) (nth j a 0)); [rewrite (proj2 (Z.compare_gt_iff _ _)); [done|nia]|].
  replace (nth j a 0) with (nth j b 0) by lia. now rewrite !(Z.add_comm _ (_ * _)), Z.add_compare_mono_l.
Qed.

Lemma CompareTo_spec a b : arith_ok a -> arith_ok b ->
  CompareTo a b = match value a ?= value b with Lt => -1 | Eq => 0 | Gt => 1 end.
Proof.
  intros Ha Hb. unfold CompareTo. pose proof (arith_length _ Ha). pose proof (arith_length _ Hb).
  rewrite compare_below_spec; auto with arith; try lia. rewrite !take_ge by lia. done.
Qed.

Lemma CompareTo_gt a b : arith_ok a -> arith_ok b -> (0 <? CompareTo a b) = (value b <? value a).
Proof.
  intros Ha Hb. rewrite CompareTo_spec by done.
  destruct (Z.compare_spec (value a) (value b)); cbn; symmetry; [apply Z.ltb_ge|apply Z.ltb_ge|apply Z.ltb_lt]; lia.
Qed.

Lemma CompareTo_ge a b : arith_ok a -> arith_ok b -> (0 <=? CompareTo a b) = (value b <=? value a).
Proof.
  intros Ha Hb. rewrite CompareTo_spec by done.
  destruct (Z.compare_spec (value a) (value b)); cbn; symmetry; [apply Z.leb_le|apply Z.leb_gt|apply Z.leb_le]; lia.
Qed.

(** ** Shifts
    The loops join the halves of neighbouring digits; [shl_go] and [shr_go] are
    the digit streams they produce before whole digits are moved by [k]. *)
Definition high_part (s d : Z) : Z := if negb (s =? 0) then Z.shiftr d (32 - s) else 0.
Definition low_part (s d : Z) : Z := if negb (s =? 0) then u32 (Z.shiftl d (32 - s)) else 0.

Fixpoint shl_go (s carry : Z) (l : list Z) : list Z :=
  match l with
  | [] => []
  | d :: t => Z.lor carry (u32 (Z.shiftl d s)) :: shl_go s (high_part s d) t
  end.

Fixpoint shr_go (s : Z) (l : list Z) : list Z :=
  match l with
  | [] => []
  | d :: t => Z.lor (Z.shiftr d s) (low_part s (hd 0 t)) :: shr_go s t
  end.

Lemma digits_8 (a : list Z) : length a = WIDTH ->
  exists d0 d1 d2 d3 d4 d5 d6 d7, a = [d0; d1; d2; d3; d4; d5; d6; d7].
Proof. intros H. do 8 (destruct a as [|? a]; [done|]). destruct a; [|done]. by repeat eexists. Qed.

Lemma shl_digits a k s : length a = WIDTH ->
  foldl (shl_digit a k s) (replicate WIDTH 0) (seq 0 WIDTH) = take WIDTH (replicate k 0 ++ shl_go s 0 a).
Proof.
  intros (d0 & d1 & d2 & d3 & d4 & d5 & d6 & d7 & ->)%digits_8.
  unfold shl_digit, shl_go, high_part. destruct (negb (s =? 0)); do 8 (destruct k as [|k]; [done|]); done.
Qed.

Lemma shr_digits a k s : length a = WIDTH ->
  foldl (shr_digit a k s) (replicate WIDTH 0) (seq 0 WIDTH) =
  take WIDTH (drop k (shr_go s a) ++ replicate k 0).
Proof.
  intros (d0 & d1 & d2 & d3 & d4 & d5 & d6 & d7 & ->)%digits_8.
  assert (E : u32 (Z.shiftl 0 (32 - s)) = 0) by now rewrite Z.shiftl_0_l.
  unfold shr_digit, shr_go, low_part. destruct (negb (s =? 0));
    do 8 (destruct k as [|k]; [cbn [hd]; rewrite ?E; cbn; rewrite ?Z.lor_0_r; done|]); destruct k; done.
Qed.

Lemma lor_add x y s : 0 <= s -> 0 <= x < 2^s -> Z.lor x (y * 2^s) = x + y * 2^s.
Proof.
  intros Hs Hx. rewrite <- Z.add_lor_land. enough (Z.land x (y * 2^s) = 0) by lia.
  apply Z.bits_inj'. intros i Hi. rewrite Z.land_spec, Z.bits_0. destruct (Z.lt_ge_cases i s).
  - rewrite Z.mul_pow2_bits_low by lia. apply andb_false_r.
  - rewrite <- (Z.mod_small x (2^s)), Z.mod_pow2_bits_high by lia. done.
Qed.

(** A digit shifted left by [s < 32] is split at position 32. *)
Lemma shl_parts d s : digit_ok d -> 0 <= s < 32 ->
  0 <= high_part s d < 2^s /\
  exists y, u32 (Z.shiftl d s) = y * 2^s /\ 0 <= y * 2^s <= 2^32 - 2^s /\
            d * 2^s = y * 2^s + 2^32 * high_part s d.
Proof.
  intros Hd Hs. unfold high_part, digit_ok in *. rewrite u32_mod, Z.shiftl_mul_pow2 by lia.
  assert (E : 2^32 = 2 ^ (32 - s) * 2^s) by (rewrite <- Z.pow_add_r by lia; f_equal; lia).
  assert (0 < 2^s) by (apply Z.pow_pos_nonneg; lia). assert (0 < 2^(32-s)) by (apply Z.pow_pos_nonneg; lia).
  assert (Eh : (if negb (s =? 0) then Z.shiftr d (32 - s) else 0) = d / 2 ^ (32 - s)).
  { destruct (Z.eqb_spec s 0) as [->|]; cbn [negb].
    - symmetry. apply Z.div_small. rewrite Z.sub_0_r. lia.
    - apply Z.shiftr_div_pow2. lia. }
  rewrite Eh. split; [split; [apply Z.div_pos; lia|apply Z.div_lt_upper_bound; nia]|].
  exists (d mod 2 ^ (32 - s)). rewrite E, Z.mul_mod_distr_r by lia.
  pose proof (Z.mod_pos_bound d (2 ^ (32 - s))). pose proof (Z.div_mod d (2 ^ (32 - s))).
  split; [done|]. split; nia.
Qed.

Lemma shl_go_spec a s carry : Forall digit_ok a -> 0 <= s < 32 -> 0 <= carry < 2^s ->
  Forall digit_ok (shl_go s carry a) /\ length (shl_go s carry a) = length a /\
  value (shl_go s carry a) = (carry + value a * 2^s) mod 2 ^ (32 * len a).
Proof.
  intros Ha Hs. revert carry. induction Ha as [|d a Hd Ha IH]; intros carry Hc.
  - cbn [shl_go value]. repeat split; [constructor|]. change (32 * len []) with 0. now rewrite Z.mod_1_r.
  - cbn [shl_go value]. destruct (shl_parts d s Hd Hs) as (Hh & y & Ey & Hy & Ed).
    destruct (IH _ Hh) as (H1 & H2 & H3). rewrite Ey, lor_add by lia.
    split; [constructor; [unfold digit_ok; lia|done]|]. cbn [length]. split; [lia|].
    rewrite H3, len_cons. pose proof (len_nonneg a).
    replace (32 * (len a + 1)) with (32 + 32 * len a) by lia. rewrite Z.pow_add_r by lia.
    rewrite <- mod_low; [|lia|apply Z.pow_pos_nonneg; lia]. f_equal. nia.
Qed.

Lemma value_app a b : value (a ++ b) = value a + 2 ^ (32 * len a) * value b.
Proof.
  induction a as [|d a IH]; cbn [app value].
  - change (32 * len []) with 0. lia.
  - rewrite IH, len_cons. pose proof (len_nonneg a).
    replace (32 * (len a + 1)) with (32 + 32 * len a) by lia. rewrite Z.pow_add_r by lia. ring.
Qed.

Lemma value_zeros n : value (replicate n 0) = 0.
Proof. induction n; cbn [replicate value]; lia. Qed.

Lemma zeros_digits n : Forall digit_ok (replicate n 0).
Proof. apply Forall_replicate. unfold digit_ok. lia. Qed.

Lemma value_take n a : Forall digit_ok a -> value (take n a) = value a mod 2 ^ (32 * Z.of_nat n).
Proof.
  intros H. destruct (decide (n <= length a)%nat) as [Hn|Hn].
  - rewrite <- (take_drop n a) at 2. rewrite value_app. pose proof (take_bound a n H Hn).
    unfold len. rewrite length_take_le by done. rewrite (Z.mul_comm (2 ^ _)), Z.mod_add by lia.
    now rewrite Z.mod_small.
  - rewrite take_ge by lia. pose proof (value_bound a H) as Hb. symmetry. apply Z.mod_small.
    assert (2 ^ (32 * len a) <= 2 ^ (32 * Z.of_nat n)) by (apply Z.pow_le_mono_r; unfold len; lia). lia.
Qed.
#[export] Hint Resolve zeros_digits Forall_take Forall_drop Forall_app_2 : arith.

Lemma operator_shl_spec a shift : arith_ok a -> 0 <= shift ->
  arith_ok (operator_shl a shift) /\ value (operator_shl a shift) = (value a * 2^shift) mod 2^256.
Proof.
  intros Ha Hs. unfold operator_shl. rewrite shl_digits by auto with arith.
  destruct (shl_go_spec a (shift mod 32) 0) as (H1 & H2 & H3); auto with arith; [dlia|lia|].
  set (k := Z.to_nat (shift / 32)). set (g := shl_go _ _ _) in *.
  assert (Hd : Forall digit_ok (replicate k 0 ++ g)) by auto with arith. split; [split|].
  - rewrite length_take, length_app, length_replicate, H2, (arith_length _ Ha). unfold WIDTH. lia.
  - auto with arith.
  - rewrite value_take by done. rewrite value_app, value_zeros, H3, (len_arith _ Ha). change (32 * Z.of_nat WIDTH) with 256.
    unfold len. rewrite length_replicate. change (32 * 8) with 256.
    replace (value a * 2^shift) with (2 ^ (32 * Z.of_nat k) * (value a * 2 ^ (shift mod 32))).
    + rewrite !Z.add_0_l. now rewrite Zmult_mod_idemp_r.
    + rewrite (Z.mul_comm (value a)), Z.mul_assoc, <- Z.pow_add_r by dlia. rewrite Z.mul_comm. do 2 f_equal. subst k. dlia.
Qed.

Lemma low_part_spec s e : digit_ok e -> 0 <= s < 32 ->
  low_part s e = (e mod 2^s) * 2 ^ (32 - s).
Proof.
  intros He Hs. unfold low_part. destruct (Z.eqb_spec s 0) as [->|]; cbn [negb].
  - change (2^0) with 1. now rewrite Z.mod_1_r.
  - rewrite u32_mod, Z.shiftl_mul_pow2 by lia.
    replace (2^32) with (2^s * 2 ^ (32 - s)) by (rewrite <- Z.pow_add_r by lia; f_equal; lia).
    rewrite Z.mul_mod_distr_r; [done|apply Z.pow_nonzero; lia|apply Z.pow_nonzero; lia].
Qed.

Lemma value_hd_mod t s : 0 <= s < 32 -> value t mod 2^s = hd 0 t mod 2^s.
Proof.
  intros Hs. destruct t as [|e t]; [done|]. cbn [value hd].
  replace (2^32) with (2 ^ (32 - s) * 2^s) by (rewrite <- Z.pow_add_r by lia; f_equal; lia).
  replace (e + _ * _ * value t) with (e + (2 ^ (32 - s) * value t) * 2^s) by ring.
  apply Z.mod_add. apply Z.pow_nonzero; lia.
Qed.

Lemma shr_go_spec a s : Forall digit_ok a -> 0 <= s < 32 ->
  Forall digit_ok (shr_go s a) /\ length (shr_go s a) = length a /\
  value (shr_go s a) = value a / 2^s.
Proof.
  intros Ha Hs. induction Ha as [|d t Hd Ht (H1 & H2 & H3)]; [done|].
  cbn [shr_go value length]. rewrite H3, H2, Z.shiftr_div_pow2 by lia.
  assert (Hh : digit_ok (hd 0 t)) by (destruct Ht; cbn [hd]; [unfold digit_ok; lia|done]).
  rewrite low_part_spec, <- value_hd_mod by done.
  assert (E : 2^32 = 2 ^ (32 - s) * 2^s) by (rewrite <- Z.pow_add_r by lia; f_equal; lia).
  assert (0 < 2^s) by (apply Z.pow_pos_nonneg; lia). assert (0 < 2^(32-s)) by (apply Z.pow_pos_nonneg; lia).
  unfold digit_ok in *. pose proof (Z.mod_pos_bound (value t) (2^s)).
  assert (Hq : 0 <= d / 2^s < 2 ^ (32 - s)) by (split; [apply Z.div_pos; lia|apply Z.div_lt_upper_bound; lia]).
  rewrite lor_add by lia. split; [constructor; [nia|done]|]. split; [done|].
  replace (d + 2^32 * value t) with (d + (2 ^ (32 - s) * value t) * 2^s) by (rewrite E; ring).
  rewrite Z.div_add by lia. pose proof (Z.div_mod (value t) (2^s)). nia.
Qed.

Lemma value_drop n a : Forall digit_ok a -> value (drop n a) = value a / 2 ^ (32 * Z.of_nat n).
Proof.
  intros H. destruct (decide (n <= length a)%nat) as [Hn|Hn].
  - rewrite <- (take_drop n a) at 2. rewrite value_app. pose proof (take_bound a n H Hn).
    unfold len. rewrite length_take_le by done. rewrite (Z.mul_comm (2 ^ _)), Z.div_add by lia.
    rewrite Z.div_small by done. lia.
  - rewrite drop_ge by lia. pose proof (value_bound a H) as Hb. symmetry. apply Z.div_small.
    assert (2 ^ (32 * len a) <= 2 ^ (32 * Z.of_nat n)) by (apply Z.pow_le_mono_r; unfold len; lia). lia.
Qed.

Lemma operator_shr_spec a shift : arith_ok a -> 0 <= shift ->
  arith_ok (operator_shr a shift) /\ value (operator_shr a shift) = value a / 2^shift.
Proof.
  intros Ha Hs. unfold operator_shr. rewrite shr_digits by auto with arith.
  destruct (shr_go_spec a (shift mod 32)) as (H1 & H2 & H3); auto with arith; [dlia|].
  set (k := Z.to_nat (shift / 32)). set (g := shr_go _ _) in *.
  assert (Hd : Forall digit_ok (drop k g ++ replicate k 0)) by auto with arith. split; [split|].
  - rewrite length_take, length_app, length_replicate, length_drop, H2, (arith_length _ Ha). unfold WIDTH. lia.
  - auto with arith.
  - pose proof (arith_bound a Ha). assert (Hq : value (drop k g ++ replicate k 0) = value a / 2^shift).
    { rewrite value_app, value_zeros, Z.mul_0_r, Z.add_0_r, value_drop, H3 by done.
      rewrite Z.div_div by (try apply Z.pow_nonzero; try apply Z.pow_pos_nonneg; lia || dlia).
      rewrite <- Z.pow_add_r by dlia. do 2 f_equal. subst k. dlia. }
    rewrite value_take, Hq by done. apply Z.mod_small. change (32 * Z.of_nat WIDTH) with 256.
    assert (0 < 2^shift) by (apply Z.pow_pos_nonneg; lia).
    split; [apply Z.div_pos; lia|]. apply Z.div_lt_upper_bound; nia.
Qed.

(** ** Bit length *)
Lemma land_bit d i : 0 <= i -> (Z.land d (Z.shiftl 1 i) =? 0) = negb (Z.testbit d i).
Proof.
  intros Hi. rewrite Z.shiftl_1_l. destruct (Z.testbit d i) eqn:E; cbn [negb].
  - apply Z.eqb_neq. intros H. assert (T : Z.testbit (Z.land d (2^i)) i = true)
      by now rewrite Z.land_spec, E, Z.pow2_bits_true.
    now rewrite H, Z.bits_0 in T.
  - apply Z.eqb_eq, Z.bits_inj'. intros j Hj. rewrite Z.land_spec, Z.bits_0.
    destruct (decide (i = j)) as [->|]; [now rewrite E|]. rewrite Z.pow2_bits_false by lia. apply andb_false_r.
Qed.

Lemma testbit_top d i : 0 <= i -> 0 <= d < 2 ^ (i + 1) -> Z.testbit d i = (2^i <=? d).
Proof.
  intros Hi Hd. rewrite Z.pow_add_r in Hd by lia. destruct (Z.leb_spec (2^i) d).
  - apply Z.testbit_true; [done|]. replace (d / 2^i) with 1; [done|].
    apply Z.div_unique with (d - 2^i); lia.
  - rewrite Z.testbit_false, Z.div_small by lia. done.
Qed.

Lemma digit_bits_spec m d : 0 < d < 2 ^ (Z.of_nat m + 1) -> digit_bits m d = Z.log2 d + 1.
Proof.
  induction m as [|m IH]; intros Hd; cbn [digit_bits].
  - change (2 ^ (Z.of_nat 0 + 1)) with 2 in Hd. now replace d with 1 by lia.
  - rewrite land_bit, negb_involutive, testbit_top by lia. destruct (Z.leb_spec (2 ^ Z.of_nat (S m)) d).
    + f_equal. symmetry. apply Z.log2_unique; lia.
    + apply IH. replace (Z.of_nat m + 1) with (Z.of_nat (S m)) by lia. lia.
Qed.

(** The bit length of a number. *)
Definition bit_length (v : Z) : Z := if v =? 0 then 0 else Z.log2 v + 1.

Lemma bits_below_spec a j : Forall digit_ok a -> (j <= length a)%nat ->
  bits_below j a = bit_length (value (take j a)).
Proof.
  intros H. induction j as [|j IH]; intros Hj; [by rewrite take_0|]. cbn [bits_below].
  rewrite value_split by (done || lia). pose proof (take_bound a j H ltac:(lia)) as Hb.
  pose proof (nth_digit a j H) as Hd. unfold digit_ok in Hd.
  destruct (Z.eqb_spec (nth j a 0) 0) as [E|E]; cbn [negb].
  - rewrite E, Z.mul_0_l, Z.add_0_r. apply IH. lia.
  - rewrite digit_bits_spec by (cbn; lia). unfold bit_length.
    assert (Hp : 0 < 2 ^ (32 * Z.of_nat j)) by lia.
    assert (Z.log2 (value (take j a) + nth j a 0 * 2 ^ (32 * Z.of_nat j)) = 32 * Z.of_nat j + Z.log2 (nth j a 0)) as ->.
    { pose proof (Z.log2_spec (nth j a 0) ltac:(lia)) as [L1 L2]. pose proof (Z.log2_nonneg (nth j a 0)).
      apply Z.log2_unique; [lia|]. rewrite Z.pow_succ_r in * by lia. rewrite Z.pow_add_r by lia. nia. }
    destruct (Z.eqb_spec (value (take j a) + nth j a 0 * 2 ^ (32 * Z.of_nat j)) 0); [nia|lia].
Qed.

Lemma bits_spec a : arith_ok a -> bits a = bit_length (value a).
Proof.
  intros Ha. unfold bits. pose proof (arith_length _ Ha). rewrite bits_below_spec; auto with arith; [|lia].
  now rewrite take_ge by lia.
Qed.

Lemma bit_length_bounds v : 0 < v -> 2 ^ (bit_length v - 1) <= v < 2 ^ bit_length v.
Proof.
  intros Hv. unfold bit_length. destruct (Z.eqb_spec v 0); [lia|]. pose proof (Z.log2_spec v Hv).
  replace (Z.log2 v + 1 - 1) with (Z.log2 v) by lia. now rewrite <- Z.add_1_r in *.
Qed.

Lemma bit_length_le v n : 0 <= n -> 0 <= v < 2^n -> 0 <= bit_length v <= n.
Proof.
  intros Hn Hv. unfold bit_length. destruct (Z.eqb_spec v 0); [lia|].
  pose proof (Z.log2_nonneg v). assert (Z.log2 v < n) by (apply Z.log2_lt_pow2; lia). lia.
Qed.

(** ** Long division *)
Lemma value_insert q i x : (i < length q)%nat ->
  value (<[i := x]> q) = value q + (x - nth i q 0) * 2 ^ (32 * Z.of_nat i).
Proof.
  revert i. induction q as [|d q IH]; intros [|i] Hi; cbn [length] in Hi; try lia.
  - cbn. lia.
  - change (<[S i := x]> (d :: q)) with (d :: <[i := x]> q). cbn [value nth]. rewrite IH by lia.
    replace (32 * Z.of_nat (S i)) with (32 + 32 * Z.of_nat i) by lia. rewrite Z.pow_add_r by lia. ring.
Qed.

(** Setting a bit that the quotient does not have yet adds its weight. *)
Lemma set_bit_spec q m Q : arith_ok q -> (m < 256)%nat -> value q = Q * 2 ^ (Z.of_nat m + 1) ->
  let q' := or_at q (m / 32) (Z.shiftl 1 (Z.land (Z.of_nat m) 31)) in
  arith_ok q' /\ value q' = value q + 2 ^ Z.of_nat m.
Proof.
  intros Hq Hm E q'. subst q'. pose proof (arith_length _ Hq) as Hl. unfold WIDTH in Hl.
  change 31 with (Z.ones 5). rewrite Z.land_ones, Z.shiftl_1_l by lia. change (2^5) with 32.
  set (r := Z.of_nat m mod 32). set (i := (m / 32)%nat). assert (Hr : 0 <= r < 32) by (subst r; dlia).
  assert (Em : Z.of_nat m = 32 * Z.of_nat i + r) by (subst i r; dlia).
  assert (Hi : (i < 8)%nat) by lia.
  assert (Hbit : Z.testbit (nth i q 0) r = false).
  { pose proof (value_testbit q (Z.of_nat m) (arith_digits _ Hq) ltac:(lia)) as T.
    rewrite E, Z.mul_pow2_bits_low in T by lia. rewrite T. fold r. do 2 f_equal. subst i. dlia. }
  assert (Hdig : digit_ok (nth i q 0)) by auto with arith.
  assert (El : Z.lor (nth i q 0) (2^r) = nth i q 0 + 2^r).
  { rewrite <- Z.add_lor_land. enough (Z.land (nth i q 0) (2^r) = 0) by lia.
    apply Z.eqb_eq. rewrite <- Z.shiftl_1_l, land_bit, Hbit by lia. done. }
  unfold or_at. rewrite El. split; [split|].
  - now rewrite length_insert.
  - apply Forall_insert; [auto with arith|]. rewrite <- El. unfold digit_ok in *.
    split; [apply Z.lor_nonneg; lia|]. apply Z.log2_lt_cancel. rewrite Z.log2_lor, !Z.log2_pow2 by lia.
    apply Z.max_lub_lt; [|lia]. destruct (decide (nth i q 0 = 0)) as [->|]; [done|]. apply Z.log2_lt_pow2; lia.
  - rewrite value_insert by lia. rewrite Em, Z.pow_add_r by lia. ring.
Qed.

Lemma div_step_spec m num div q B Q : arith_ok num -> arith_ok div -> arith_ok q -> (m < 256)%nat ->
  value div = B * 2 ^ Z.of_nat m -> value num < 2 * value div -> value q = Q * 2 ^ (Z.of_nat m + 1) ->
  let '(num', q') := div_step m num div q in
  exists b, 0 <= b <= 1 /\ arith_ok num' /\ arith_ok q' /\ value num' < value div /\
    value num' = value num - b * value div /\ value q' = value q + b * 2 ^ Z.of_nat m.
Proof.
  intros Hn Hd Hq Hm Ed En Eq. unfold div_step. rewrite CompareTo_ge by done.
  pose proof (arith_bound _ Hn). pose proof (arith_bound _ Hd).
  destruct (Z.leb_spec (value div) (value num)).
  - destruct (operator_sub_spec num div Hn Hd) as [K1 K2]. destruct (set_bit_spec q m Q Hq Hm Eq) as [K3 K4].
    exists 1. rewrite Z.mod_small in K2 by lia. repeat split; try apply K1; try apply K3; lia.
  - exists 0. repeat split; try apply Hn; try apply Hq; lia.
Qed.

Lemma div_loop_spec m num div q B Q : arith_ok num -> arith_ok div -> arith_ok q -> (m < 256)%nat -> 0 < B ->
  value div = B * 2 ^ Z.of_nat m -> value num < 2 * value div -> value q = Q * 2 ^ (Z.of_nat m + 1) ->
  let '(num', q') := div_loop m num div q in
  arith_ok num' /\ arith_ok q' /\
  value num' = value num mod B /\ value q' = value q + value num / B.
Proof.
  revert num div q Q. induction m as [|m IH]; intros num div q Q Hn Hd Hq Hm HB Ed En Eq;
    cbn [div_loop]; pose proof (div_step_spec _ num div q B Q Hn Hd Hq Hm Ed En Eq) as Hs;
    destruct (div_step _ num div q) as [num' q']; destruct Hs as (b & Hb & Hn' & Hq' & Hlt & E1 & E2).
  - change (2 ^ Z.of_nat 0) with 1 in *. pose proof (arith_bound _ Hn').
    assert (Ediv : value num = B * b + value num') by lia.
    rewrite <- (Z.div_unique_pos (value num) B b (value num')), <- (Z.mod_unique_pos (value num) B b (value num')) by lia.
    repeat split; try apply Hn'; try apply Hq'; lia.
  - destruct (operator_shr_spec div 1 Hd ltac:(lia)) as [H1 H2].
    assert (Ed' : value (operator_shr div 1) = B * 2 ^ Z.of_nat m).
    { rewrite H2, Ed, Nat2Z.inj_succ, Z.pow_succ_r by lia. change (2^1) with 2.
      replace (B * (2 * 2 ^ Z.of_nat m)) with (B * 2 ^ Z.of_nat m * 2) by ring. apply Z.div_mul. lia. }
    assert (Ep : 2 ^ Z.of_nat (S m) = 2 * 2 ^ Z.of_nat m) by (rewrite Nat2Z.inj_succ, Z.pow_succ_r; lia).
    specialize (IH num' (operator_shr div 1) q' (2 * Q + b) Hn' H1 Hq' ltac:(lia) HB Ed' ltac:(lia)).
    assert (Eq' : value q' = (2 * Q + b) * 2 ^ (Z.of_nat m + 1)).
    { rewrite E2, Eq, Ep. replace (Z.of_nat (S m) + 1) with (Z.of_nat m + 1 + 1) by lia.
      rewrite !Z.pow_add_r by lia. change (2^1) with 2. ring. }
    specialize (IH Eq'). destruct (div_loop m num' (operator_shr div 1) q') as [n2 q2].
    destruct IH as (K1 & K2 & K3 & K4). repeat split; try apply K1; try apply K2.
    + rewrite K3, E1, Ed. replace (value num - b * (B * 2 ^ Z.of_nat (S m)))
        with (value num + (- b * 2 ^ Z.of_nat (S m)) * B) by ring. now rewrite Z.mod_add by lia.
    + rewrite K4, E2, E1, Ed. replace (value num - b * (B * 2 ^ Z.of_nat (S m)))
        with (value num + (- b * 2 ^ Z.of_nat (S m)) * B) by ring. rewrite Z.div_add by lia. lia.
Qed.

(** The shift-and-subtract loop computes the quotient of the integers. *)
Theorem operator_div_spec a b : arith_ok a -> arith_ok b -> 0 < value b ->
  exists q, operator_div a b = Ok q /\ arith_ok q /\ value q = value a / value b.
Proof.
  intros Ha Hb HB. unfold operator_div. rewrite !bits_spec by done.
  pose proof (bit_length_bounds _ HB) as [L1 L2]. pose proof (arith_bound _ Ha) as Ba. pose proof (arith_bound _ Hb) as Bb.
  pose proof (bit_length_le (value a) 256 ltac:(lia) Ba). pose proof (bit_length_le (value b) 256 ltac:(lia) Bb).
  destruct (of_uint64_spec 0 ltac:(lia)) as [Hz Ez].
  assert (0 < bit_length (value b)) by (unfold bit_length; destruct (Z.eqb_spec (value b) 0); pose proof (Z.log2_nonneg (value b)); lia).
  destruct (Z.eqb_spec (bit_length (value b)) 0); [lia|].
  assert (Hup : value a < 2 ^ bit_length (value a)).
  { destruct (decide (value a = 0)) as [->|]; [done|]. apply bit_length_bounds. lia. }
  destruct (Z.ltb_spec (bit_length (value a)) (bit_length (value b))) as [Hlt|Hge].
  - exists (of_uint64 0). repeat split; try apply Hz. rewrite Ez. symmetry. apply Z.div_small.
    assert (2 ^ bit_length (value a) <= 2 ^ (bit_length (value b) - 1)) by (apply Z.pow_le_mono_r; lia). lia.
  - set (sh := bit_length (value a) - bit_length (value b)) in *.
    destruct (operator_shl_spec b sh Hb ltac:(lia)) as [K1 K2].
    assert (P1 : 2 ^ bit_length (value a) = 2 ^ bit_length (value b) * 2 ^ sh)
      by (rewrite <- Z.pow_add_r by lia; f_equal; lia).
    assert (P2 : 2 ^ bit_length (value b) = 2 ^ (bit_length (value b) - 1) * 2)
      by (replace (bit_length (value b)) with (bit_length (value b) - 1 + 1) at 1 by lia; apply Z.pow_add_r; lia).
    assert (P3 : 2 ^ bit_length (value a) <= 2^256) by (apply Z.pow_le_mono_r; lia).
    assert (0 < 2^sh) by (apply Z.pow_pos_nonneg; lia).
    rewrite Z.mod_small in K2 by nia.
    pose proof (div_loop_spec (Z.to_nat sh) a (operator_shl b sh) (of_uint64 0) (value b) 0) as D.
    rewrite Z2Nat.id in D by lia. specialize (D Ha K1 Hz ltac:(lia) HB K2 ltac:(nia) Ez).
    destruct (div_loop _ _ _ _) as [n' q']. destruct D as (_ & D2 & _ & D4). exists q'. cbn [snd].
    repeat split; try apply D2. lia.
Qed.

(** ** The compact encoding, in integers *)
Definition compact_value (c : Z) : Z :=
  let size := c / 2^24 in
  let word := c mod 2^23 in
  if size <=? 3 then word / 2 ^ (8 * (3 - size)) else word * 2 ^ (8 * (size - 3)).

Definition mantissa (v : Z) : Z * Z :=
  let n := (bit_length v + 7) / 8 in
  (n, if n <=? 3 then v * 2 ^ (8 * (3 - n)) else v / 2 ^ (8 * (n - 3))).

Definition compact_of (v : Z) : Z :=
  let '(n, m) := mantissa v in
  if m <? 2^23 then m + n * 2^24 else m / 256 + (n + 1) * 2^24.

Lemma land_mask23 z : Z.land z 0x007fffff = z mod 2^23.
Proof. change 0x007fffff with (Z.ones 23). now rewrite Z.land_ones. Qed.

Lemma scaled_bound w size m k : 0 <= w <= m -> 3 < size <= k -> m * 2 ^ (8 * (k - 3)) < 2^256 ->
  w * 2 ^ (8 * (size - 3)) < 2^256.
Proof.
  intros Hw Hs H. eapply Z.le_lt_trans, H.
  apply Z.mul_le_mono_nonneg; [lia|lia|apply Z.pow_nonneg; lia|apply Z.pow_le_mono_r; lia].
Qed.

Lemma overflow_free w size : 0 <= w < 2^23 -> 3 < size ->
  negb (w =? 0) && ((34 <? size) || ((0xff <? w) && (33 <? size)) || ((0xffff <? w) && (32 <? size))) = false ->
  w * 2 ^ (8 * (size - 3)) < 2^256.
Proof.
  intros Hw Hs H. destruct (Z.eqb_spec w 0) as [->|]; [lia|]. cbn [negb andb] in H.
  apply orb_false_iff in H as [H H3]. apply orb_false_iff in H as [H1 H2].
  apply Z.ltb_ge in H1. destruct (Z.ltb_spec 0xff w) as [W1|W1]; [|apply (scaled_bound _ _ 0xff 34); [lia|lia|done]].
  apply Z.ltb_ge in H2. destruct (Z.ltb_spec 0xffff w) as [W2|W2]; [|apply (scaled_bound _ _ 0xffff 33); [lia|lia|done]].
  apply Z.ltb_ge in H3. apply (scaled_bound _ _ (2^23 - 1) 32); [lia|lia|done].
Qed.

Lemma SetCompact_spec c v neg ovf : 0 <= c < 2^32 -> SetCompact c = (v, neg, ovf) ->
  arith_ok v /\ (ovf = false -> value v = compact_value c /\ 0 <= compact_value c < 2^256).
Proof.
  intros Hc. unfold SetCompact, compact_value. rewrite land_mask23, Z.shiftr_div_pow2 by lia.
  set (size := c / 2^24). set (word := c mod 2^23).
  assert (Hw : 0 <= word < 2^23) by (subst word; dlia). assert (Hs : 0 <= size < 256) by (subst size; dlia).
  destruct (Z.leb_spec size 3) as [H3|H3]; intros [= <- <- <-].
  - rewrite Z.shiftr_div_pow2 by lia. assert (0 < 2 ^ (8 * (3 - size))) by (apply Z.pow_pos_nonneg; lia).
    assert (0 <= word / 2 ^ (8 * (3 - size)) <= word) by (split; [apply Z.div_pos; lia|apply Z.div_le_upper_bound; nia]).
    destruct (of_uint64_spec (word / 2 ^ (8 * (3 - size))) ltac:(lia)) as [K1 K2]. split; [done|]. intros _. lia.
  - destruct (of_uint64_spec word ltac:(lia)) as [K1 K2].
    destruct (operator_shl_spec (of_uint64 word) (8 * (size - 3)) K1 ltac:(lia)) as [K3 K4].
    split; [done|]. intros Ho. apply overflow_free in Ho; [|done|done].
    assert (0 < 2 ^ (8 * (size - 3))) by (apply Z.pow_pos_nonneg; lia).
    rewrite K4, K2, Z.mod_small by nia. nia.
Qed.

Lemma GetLow64_spec a : arith_ok a -> GetLow64 a = value a mod 2^64.
Proof.
  intros [(d0 & d1 & d2 & d3 & d4 & d5 & d6 & d7 & ->)%digits_8 Hd].
  apply Forall_cons_1 in Hd as [H0 Hd]. apply Forall_cons_1 in Hd as [H1 Hd]. unfold digit_ok in H0, H1.
  unfold GetLow64, u64. cbn [nth]. rewrite Z.shiftl_mul_pow2, (Z.mod_small (d1 * _)) by lia.
  rewrite lor_add by lia. cbn [value]. set (rest := d2 + _).
  replace (d0 + 2^32 * (d1 + 2^32 * rest)) with (d0 + d1 * 2^32 + rest * 2^64) by ring.
  rewrite Z.mod_add by lia. rewrite Z.mod_small; lia.
Qed.

(** The mantissa has three bytes, the first of them not zero. *)
Lemma mantissa_bound v : 0 <= v -> let '(n, m) := mantissa v in
  0 <= n /\ 0 <= m < 2^24 /\ (0 < v -> 2^16 <= m /\ 2 ^ (8 * (n - 1)) <= v < 2 ^ (8 * n)).
Proof.
  intros Hv. unfold mantissa. set (n := (bit_length v + 7) / 8).
  destruct (decide (v = 0)) as [->|Hnz]; [subst n; split; [done|split; [done|lia]]|].
  pose proof (bit_length_bounds v ltac:(lia)) as [L1 L2].
  assert (Hn : 8 * (n - 1) < bit_length v <= 8 * n) by (subst n; dlia).
  assert (Hb : 0 < bit_length v) by (unfold bit_length; destruct (Z.eqb_spec v 0); pose proof (Z.log2_nonneg v); lia).
  assert (V : 2 ^ (8 * (n - 1)) <= v < 2 ^ (8 * n)).
  { split; [etrans; [|apply L1]|eapply Z.lt_le_trans; [apply L2|]]; apply Z.pow_le_mono_r; lia. }
  split; [lia|]. destruct (Z.leb_spec n 3).
  - assert (0 < 2 ^ (8 * (3 - n))) by (apply Z.pow_pos_nonneg; lia).
    assert (E1 : 2^16 = 2 ^ (8 * (n - 1)) * 2 ^ (8 * (3 - n))) by (rewrite <- Z.pow_add_r by lia; f_equal; lia).
    assert (E2 : 2^24 = 2 ^ (8 * n) * 2 ^ (8 * (3 - n))) by (rewrite <- Z.pow_add_r by lia; f_equal; lia).
    rewrite E1, E2. nia.
  - assert (0 < 2 ^ (8 * (n - 3))) by (apply Z.pow_pos_nonneg; lia).
    assert (E1 : 2 ^ (8 * (n - 1)) = 2^16 * 2 ^ (8 * (n - 3))) by (rewrite <- Z.pow_add_r by lia; f_equal; lia).
    assert (E2 : 2 ^ (8 * n) = 2^24 * 2 ^ (8 * (n - 3))) by (rewrite <- Z.pow_add_r by lia; f_equal; lia).
    assert (2^16 <= v / 2 ^ (8 * (n - 3))) by (apply Z.div_le_lower_bound; nia).
    assert (v / 2 ^ (8 * (n - 3)) < 2^24) by (apply Z.div_lt_upper_bound; nia). lia.
Qed.

Lemma compact_parts_spec a : arith_ok a -> compact_parts a = mantissa (value a).
Proof.
  intros Ha. unfold compact_parts, mantissa. rewrite bits_spec by done.
  pose proof (arith_bound _ Ha) as Hv. pose proof (mantissa_bound (value a) ltac:(lia)) as Hm.
  unfold mantissa in Hm. set (n := (bit_length (value a) + 7) / 8) in *. f_equal.
  destruct (Z.leb_spec n 3); destruct Hm as (Hn & Hm & Hb).
  - assert (0 < 2 ^ (8 * (3 - n))) by (apply Z.pow_pos_nonneg; lia).
    assert (value a < 2^24) by nia. rewrite GetLow64_spec, (Z.mod_small (value a)), Z.shiftl_mul_pow2 by (done || lia).
    rewrite u32_mod. unfold u64. rewrite !Z.mod_small; rewrite ?Z.mod_small; lia.
  - destruct (operator_shr_spec a (8 * (n - 3)) Ha ltac:(lia)) as [K1 K2].
    rewrite GetLow64_spec, K2, u32_mod by done. rewrite !Z.mod_small; rewrite ?Z.mod_small; lia.
Qed.

Lemma unsigned_parts_spec n m : 0 <= m < 2^24 ->
  unsigned_parts (n, m) = if m <? 2^23 then (n, m) else (n + 1, m / 256).
Proof.
  intros Hm. unfold unsigned_parts. cbn [fst snd]. change 0x00800000 with (Z.shiftl 1 23).
  rewrite land_bit, testbit_top, negb_involutive by lia. rewrite Z.ltb_antisym. change (2^23) with 8388608.
  destruct (_ <=? m); cbn [negb]; [|done]. now rewrite Z.shiftr_div_pow2 by lia.
Qed.

(** The final size and mantissa: below the sign bit and within the assertions. *)
Lemma unsigned_parts_bound a : arith_ok a ->
  let '(n, m) := unsigned_parts (compact_parts a) in 0 <= n <= 33 /\ 0 <= m < 2^23.
Proof.
  intros Ha. rewrite compact_parts_spec by done. pose proof (arith_bound _ Ha) as Hv.
  pose proof (mantissa_bound (value a) ltac:(lia)) as Hm.
  pose proof (bit_length_le (value a) 256 ltac:(lia) Hv) as Hl.
  assert (Hn : (mantissa (value a)).1 <= 32) by (cbn; dlia).
  destruct (mantissa (value a)) as [n m]. cbn [fst] in Hn. rewrite unsigned_parts_spec by lia.
  destruct (Z.ltb_spec m (2^23)); [lia|]. dlia.
Qed.

Lemma GetCompact_asserts_hold a : arith_ok a -> GetCompact_asserts a = true.
Proof.
  intros Ha. unfold GetCompact_asserts. pose proof (unsigned_parts_bound a Ha) as H.
  destruct (unsigned_parts (compact_parts a)) as [n m]. destruct H as [Hn Hm].
  apply andb_true_intro. split; [|apply Z.ltb_lt; lia]. apply Z.eqb_eq.
  change (u32 (Z.lnot 0x007fffff)) with (511 * 2^23). apply Z.bits_inj'. intros i Hi.
  rewrite Z.land_spec, Z.bits_0. destruct (Z.lt_ge_cases i 23).
  - rewrite Z.mul_pow2_bits_low by lia. apply andb_false_r.
  - rewrite <- (Z.mod_small m (2^23)), Z.mod_pow2_bits_high by lia. done.
Qed.

Lemma GetCompact_spec a : arith_ok a -> GetCompact a = compact_of (value a).
Proof.
  intros Ha. pose proof (unsigned_parts_bound a Ha) as H. unfold GetCompact, compact_of.
  pose proof (arith_bound _ Ha). pose proof (mantissa_bound (value a) ltac:(lia)) as Hm.
  rewrite compact_parts_spec in * by done. destruct (mantissa (value a)) as [n m].
  rewrite unsigned_parts_spec in * by lia. destruct (Z.ltb_spec m (2^23)).
  - rewrite u32_mod, Z.shiftl_mul_pow2, Z.mod_small by lia. apply (lor_add m n 24); lia.
  - rewrite u32_mod, Z.shiftl_mul_pow2, Z.mod_small by lia. apply (lor_add (m / 256) (n + 1) 24); lia.
Qed.

Lemma compact_value_pack n m : 0 <= n -> 0 <= m < 2^23 ->
  compact_value (m + n * 2^24) =
  if n <=? 3 then m / 2 ^ (8 * (3 - n)) else m * 2 ^ (8 * (n - 3)).
Proof.
  intros Hn Hm. unfold compact_value. replace ((m + n * 2^24) / 2^24) with n by dlia.
  replace ((m + n * 2^24) mod 2^23) with m by dlia. done.
Qed.

(** The weight of the last bit that the encoding of [v] keeps. *)
Definition grain (v : Z) : Z :=
  let '(n, m) := mantissa v in 2 ^ (8 * Z.max 0 ((if m <? 2^23 then n else n + 1) - 3)).

Lemma compact_round v : 0 < v -> compact_value (compact_of v) = v / grain v * grain v.
Proof.
  intros Hv. pose proof (mantissa_bound v ltac:(lia)) as Hm. unfold compact_of, grain.
  destruct (mantissa v) as [n m] eqn:E. unfold mantissa in E. injection E as En Em.
  destruct Hm as (Hn & Hm & Hb). specialize (Hb Hv) as [Hlo Hv'].
  assert (Hn1 : 1 <= n).
  { destruct (decide (n = 0)) as [->|]; [|lia]. change (2 ^ (8 * 0)) with 1 in Hv'. lia. }
  rewrite En in Em. destruct (Z.ltb_spec m (2^23)).
  - rewrite compact_value_pack by lia. destruct (Z.leb_spec n 3).
    + rewrite Z.max_l by lia. change (2 ^ (8 * 0)) with 1. rewrite Z.div_1_r, Z.mul_1_r, <- Em.
      apply Z.div_mul. apply Z.pow_nonzero; lia.
    + now rewrite Z.max_r, Em by lia.
  - rewrite compact_value_pack by (lia || dlia). destruct (Z.leb_spec n 3), (Z.leb_spec (n + 1) 3); try lia.
    + rewrite Z.max_l by lia. change (2 ^ (8 * 0)) with 1. rewrite Z.div_1_r, Z.mul_1_r.
      replace (2 ^ (8 * (3 - n))) with (256 * 2 ^ (8 * (3 - (n + 1)))) in Em
        by (change 256 with (2^8); rewrite <- Z.pow_add_r by lia; f_equal; lia).
      assert (0 < 2 ^ (8 * (3 - (n + 1)))) by (apply Z.pow_pos_nonneg; lia).
      rewrite Z.div_div by lia. rewrite <- Em. apply Z.div_mul. lia.
    + replace n with 3 in * by lia. change (2 ^ (8 * (3 - 3))) with 1 in Em. cbn. rewrite <- Em, Z.mul_1_r. done.
    + rewrite Z.max_r by lia. replace (8 * (n + 1 - 3)) with (8 * (n - 3) + 8) by lia.
      rewrite Z.pow_add_r by lia. assert (0 < 2 ^ (8 * (n - 3))) by (apply Z.pow_pos_nonneg; lia).
      rewrite <- Z.div_div, Em by lia. done.
Qed.

Lemma grain_pos v : 0 < grain v.
Proof. unfold grain. destruct (mantissa v). apply Z.pow_pos_nonneg; lia. Qed.

Lemma grain_small v : 0 < v -> grain v = 1 \/ grain v * 2^15 <= v.
Proof.
  intros Hv. pose proof (mantissa_bound v ltac:(lia)) as Hm. unfold grain.
  destruct (mantissa v) as [n m] eqn:E. unfold mantissa in E. injection E as En Em. rewrite En in Em.
  destruct Hm as (Hn & Hm & Hb). specialize (Hb Hv) as [Hlo Hv'].
  set (n' := if m <? 2^23 then n else n + 1). destruct (Z.leb_spec n' 3); [left; now rewrite Z.max_l by lia|right].
  rewrite Z.max_r by lia. subst n'. destruct (Z.ltb_spec m (2^23)).
  - destruct (Z.leb_spec n 3); [lia|]. assert (0 < 2 ^ (8 * (n - 3))) by (apply Z.pow_pos_nonneg; lia).
    pose proof (Z.mul_div_le v (2 ^ (8 * (n - 3)))). nia.
  - replace (8 * (n + 1 - 3)) with (8 * (n - 3) + 8) by lia. destruct (Z.leb_spec n 3).
    + replace n with 3 in * by lia. change (2 ^ (8 * (3 - 3))) with 1 in Em. cbn. lia.
    + rewrite Z.pow_add_r by lia. assert (0 < 2 ^ (8 * (n - 3))) by (apply Z.pow_pos_nonneg; lia).
      pose proof (Z.mul_div_le v (2 ^ (8 * (n - 3)))). nia.
Qed.

Lemma compact_flags a v neg ovf : arith_ok a -> SetCompact (GetCompact a) = (v, neg, ovf) ->
  neg = false /\ ovf = false.
Proof.
  intros Ha. rewrite GetCompact_spec by done. unfold compact_of.
  pose proof (arith_bound _ Ha) as Hv. pose proof (mantissa_bound (value a) ltac:(lia)) as Hm.
  pose proof (bit_length_le (value a) 256 ltac:(lia) Hv) as Hl.
  assert (Hn : (mantissa (value a)).1 <= 32) by (cbn; dlia).
  destruct (mantissa (value a)) as [n m]. cbn [fst] in Hn. destruct Hm as (Hn0 & Hm & _).
  assert (G : forall n' m', 0 <= m' < 2^23 -> 0 <= n' -> (n' <= 32 \/ n' = 33 /\ m' < 2^16) ->
    SetCompact (m' + n' * 2^24) = (v, neg, ovf) -> neg = false /\ ovf = false).
  { intros n' m' Hm' Hn' Hs. unfold SetCompact. rewrite land_mask23, Z.shiftr_div_pow2 by lia.
    replace ((m' + n' * 2^24) / 2^24) with n' by dlia. replace ((m' + n' * 2^24) mod 2^23) with m' by dlia.
    change 0x00800000 with (Z.shiftl 1 23). rewrite land_bit, negb_involutive by lia.
    replace (Z.testbit (m' + n' * 2^24) 23) with false.
    2: { rewrite <- (Z.mod_pow2_bits_low _ 24) by lia. replace ((m' + n' * 2^24) mod 2^24) with m' by dlia.
         rewrite testbit_top by lia. symmetry. apply Z.leb_gt. lia. }
    intros [= _ <- <-]. split; [apply andb_false_r|].
    destruct (Z.leb_spec n' 3); [rewrite (proj2 (Z.ltb_ge 34 n')), (proj2 (Z.ltb_ge 33 n')), (proj2 (Z.ltb_ge 32 n')) by lia;
      by rewrite !andb_false_r|].
    rewrite (proj2 (Z.ltb_ge 34 n')), (proj2 (Z.ltb_ge 33 n')) by lia. rewrite andb_false_r. cbn [orb].
    destruct Hs as [Hs|[-> Hs]]; [rewrite (proj2 (Z.ltb_ge 32 n')) by lia|rewrite (proj2 (Z.ltb_ge 0xffff m')) by lia];
      rewrite ?andb_false_r; done. }
  destruct (Z.ltb_spec m (2^23)); apply G; dlia.
Qed.

(** Decoding the compact encoding of a target gives a target that is not larger,
    differs by less than one part in 2^15, is free of the sign and overflow
    flags, and has the same encoding. *)
Lemma GetCompact_decodes a : arith_ok a ->
  exists a', SetCompact (GetCompact a) = (a', false, false) /\ arith_ok a' /\
    value a' <= value a /\ (value a - value a') * 2^15 <= value a.
Proof.
  intros Ha. destruct (SetCompact (GetCompact a)) as [[a' neg] ovf] eqn:E. exists a'.
  destruct (compact_flags a _ _ _ Ha E) as [-> ->]. split; [done|].
  assert (Hc : 0 <= GetCompact a < 2^32).
  { unfold GetCompact. pose proof (unsigned_parts_bound a Ha) as H.
    destruct (unsigned_parts _) as [n m]. destruct H. rewrite u32_mod, Z.shiftl_mul_pow2, Z.mod_small, lor_add; lia. }
  destruct (SetCompact_spec _ _ _ _ Hc E) as [K1 K2]. destruct (K2 eq_refl) as [K3 K4]. split; [done|].
  rewrite GetCompact_spec in K3 by done. pose proof (arith_bound _ Ha).
  destruct (decide (value a = 0)) as [Z0|Hnz]; [rewrite Z0 in *; rewrite K3; done|].
  rewrite compact_round in K3 by lia. pose proof (grain_pos (value a)) as Hg. rewrite K3.
  pose proof (Z.mod_pos_bound (value a) (grain (value a)) Hg). pose proof (Z.div_mod (value a) (grain (value a))).
  destruct (grain_small (value a) ltac:(lia)) as [G|G]; [rewrite G, Z.div_1_r|]; nia.
Qed.

Lemma value_zero a : arith_ok a -> EqualTo a 0 = (value a =? 0).
Proof.
  intros [(d0 & d1 & d2 & d3 & d4 & d5 & d6 & d7 & ->)%digits_8 Hd].
  repeat (apply Forall_cons_1 in Hd as [? Hd]). unfold digit_ok in *. unfold EqualTo.
  cbn [drop skipn forallb nth value]. change (Z.shiftr 0 32) with 0. change (Z.land 0 0xffffffff) with 0.
  apply eq_bool_prop_intro. rewrite !andb_True, !Is_true_true, !Z.eqb_eq. lia.
Qed.

(** ** Conversions *)
Lemma read_le32_spec n b : bytes_ok b -> length b = (4 * n)%nat ->
  length (read_le32 n b) = n /\ Forall digit_ok (read_le32 n b) /\ value (read_le32 n b) = le_decode b.
Proof.
  revert b. induction n as [|n IH]; intros b Hb Hl.
  - destruct b; done.
  - destruct b as [|b0 [|b1 [|b2 [|b3 b]]]]; cbn [length] in Hl; try lia.
    cbn [read_le32]. change (drop 4 (b0 :: b1 :: b2 :: b3 :: b)) with b.
    change (take 4 (b0 :: b1 :: b2 :: b3 :: b)) with (b0 :: b1 :: b2 :: b3 :: take 0 b). rewrite take_0.
    cbn [length value]. do 4 (apply Forall_cons_1 in Hb as [? Hb]).
    destruct (IH b Hb ltac:(lia)) as (H1' & H2' & H3'). rewrite H1', H3'. split; [done|].
    assert (B4 : bytes_ok [b0; b1; b2; b3]) by (repeat apply bytes_ok_cons; done || apply bytes_ok_nil).
    pose proof (le_decode_bound _ B4) as Hlt. split; [constructor; [exact Hlt|done]|].
    rewrite !(le_decode_cons _ _) by done. change (le_decode []) with 0. unfold is_byte in *. lia.
Qed.

Lemma UintToArith256_spec h :
  arith_ok (UintToArith256 h) /\ value (UintToArith256 h) = le_decode (uint256_bytes h).
Proof.
  destruct (read_le32_spec WIDTH (uint256_bytes h) (uint256_bytes_ok h) (uint256_bytes_length h)) as (H1 & H2 & H3).
  by repeat split.
Qed.
