(* ===== verification/Sha256.v ===== *)
(** * SHA-256 (src/src/crypto/sha256.cpp, src/src/hash.h)

    The portable [sha256::Transform] and the streaming [CSHA256] object with
    its 64-byte buffer, [Save]/[Load]/[SafeWrite], and the double-SHA256
    [Hash]/[HashWriter::GetHash].  The object is proved to refine the one-shot
    specification [sha256]: however a message is cut into [Write] calls, the
    digest is the digest of the concatenation.  The SIMD back ends selected at
    run time by [SHA256AutoDetect] are not modelled. *)

From S2P Require Import Prelude.

(** ** The compression function *)
Module sha256.

Definition Ch (x y z : Z) : Z := Z.lxor z (Z.land x (Z.lxor y z)).
Definition Maj (x y z : Z) : Z := Z.lor (Z.land x y) (Z.land z (Z.lor x y)).

(** [x >> n | x << (32 - n)] on [uint32_t]. *)
Definition rot (x n : Z) : Z := Z.lor (Z.shiftr x n) (u32 (Z.shiftl x (32 - n))).

Definition Sigma0 (x : Z) : Z := Z.lxor (Z.lxor (rot x 2) (rot x 13)) (rot x 22).
Definition Sigma1 (x : Z) : Z := Z.lxor (Z.lxor (rot x 6) (rot x 11)) (rot x 25).
Definition sigma0 (x : Z) : Z := Z.lxor (Z.lxor (rot x 7) (rot x 18)) (Z.shiftr x 3).
Definition sigma1 (x : Z) : Z := Z.lxor (Z.lxor (rot x 17) (rot x 19)) (Z.shiftr x 10).

(** The eight 32-bit words [s[0..7]]. *)
Record Words := mkWords { wa : Z; wb : Z; wc : Z; wd : Z; we : Z; wf : Z; wg : Z; wh : Z }.

Definition Initialize : Words :=
  mkWords 0x6a09e667 0xbb67ae85 0x3c6ef372 0xa54ff53a
          0x510e527f 0x9b05688c 0x1f83d9ab 0x5be0cd19.

(** [Round] updates [d] and [h] in place; the caller then renames the eight
    variables one step to the right, which is the order returned here. *)
Definition Round (v : Words) (k : Z) : Words :=
  let t1 := u32 (v.(wh) + Sigma1 v.(we) + Ch v.(we) v.(wf) v.(wg) + k) in
  let t2 := u32 (Sigma0 v.(wa) + Maj v.(wa) v.(wb) v.(wc)) in
  mkWords (u32 (t1 + t2)) v.(wa) v.(wb) v.(wc) (u32 (v.(wd) + t1)) v.(we) v.(wf) v.(wg).

(** The round constants, one row per full rotation of the eight registers. *)
Definition K : list Z := concat [
  [0x428a2f98; 0x71374491; 0xb5c0fbcf; 0xe9b5dba5; 0x3956c25b; 0x59f111f1; 0x923f82a4; 0xab1c5ed5];
  [0xd807aa98; 0x12835b01; 0x243185be; 0x550c7dc3; 0x72be5d74; 0x80deb1fe; 0x9bdc06a7; 0xc19bf174];
  [0xe49b69c1; 0xefbe4786; 0x0fc19dc6; 0x240ca1cc; 0x2de92c6f; 0x4a7484aa; 0x5cb0a9dc; 0x76f988da];
  [0x983e5152; 0xa831c66d; 0xb00327c8; 0xbf597fc7; 0xc6e00bf3; 0xd5a79147; 0x06ca6351; 0x14292967];
  [0x27b70a85; 0x2e1b2138; 0x4d2c6dfc; 0x53380d13; 0x650a7354; 0x766a0abb; 0x81c2c92e; 0x92722c85];
  [0xa2bfe8a1; 0xa81a664b; 0xc24b8b70; 0xc76c51a3; 0xd192e819; 0xd6990624; 0xf40e3585; 0x106aa070];
  [0x19a4c116; 0x1e376c08; 0x2748774c; 0x34b0bcb5; 0x391c0cb3; 0x4ed8aa4a; 0x5b9cca4f; 0x682e6ff3];
  [0x748f82ee; 0x78a5636f; 0x84c87814; 0x8cc70208; 0x90befffa; 0xa4506ceb; 0xbef9a3f7; 0xc67178f2]].

(** [w] is the window [w0 .. w15] of the next sixteen schedule words: the
    source's [w0 += sigma1(w14) + w9 + sigma0(w1)] computes the word sixteen
    rounds ahead. *)
Fixpoint rounds (ks : list Z) (w : list Z) (v : Words) : Words :=
  match ks, w with
  | k :: ks', w0 :: w' =>
      let next := u32 (w0 + sigma1 (nth 14 w 0) + nth 9 w 0 + sigma0 (nth 1 w 0)) in
      rounds ks' (w' ++ [next]) (Round v (u32 (k + w0)))
  | _, _ => v
  end.

(** [ReadBE32(chunk + 4 * i)] for [i = 0 .. 15]. *)
Fixpoint read_words (n : nat) (chunk : bytes) : list Z :=
  match n with
  | O => []
  | S m => be_decode (take 4 chunk) :: read_words m (drop 4 chunk)
  end.

Definition Transform1 (s : Words) (chunk : bytes) : Words :=
  let v := rounds K (read_words 16 chunk) s in
  mkWords (u32 (s.(wa) + v.(wa))) (u32 (s.(wb) + v.(wb))) (u32 (s.(wc) + v.(wc)))
          (u32 (s.(wd) + v.(wd))) (u32 (s.(we) + v.(we))) (u32 (s.(wf) + v.(wf)))
          (u32 (s.(wg) + v.(wg))) (u32 (s.(wh) + v.(wh))).

(** [Transform(s, chunk, blocks)]. *)
Fixpoint Transform (s : Words) (chunk : bytes) (blocks : nat) : Words :=
  match blocks with
  | O => s
  | S n => Transform (Transform1 s (take 64 chunk)) (drop 64 chunk) n
  end.

(** The eight [WriteBE32] of [Midstate]. *)
Definition digest (s : Words) : bytes :=
  be_encode 4 s.(wa) ++ be_encode 4 s.(wb) ++ be_encode 4 s.(wc) ++ be_encode 4 s.(wd) ++
  be_encode 4 s.(we) ++ be_encode 4 s.(wf) ++ be_encode 4 s.(wg) ++ be_encode 4 s.(wh).

(** Reading [s] back, as [CSHA256::Load] does. *)
Definition undigest (d : bytes) : Words :=
  mkWords (be_decode (slice d 0 4)) (be_decode (slice d 4 4)) (be_decode (slice d 8 4))
          (be_decode (slice d 12 4)) (be_decode (slice d 16 4)) (be_decode (slice d 20 4))
          (be_decode (slice d 24 4)) (be_decode (slice d 28 4)).

End sha256.

(** ** The streaming object *)
Record CSHA256 := mkCSHA256 { hs : sha256.Words; hbuf : bytes; hbytes : Z }.

(** The members of a fresh object; [buf] is uninitialised in the source, and
    the results below hold whatever it contains. *)
Definition CSHA256_new : CSHA256 := mkCSHA256 sha256.Initialize (replicate 64 0) 0.

Definition CSHA256_Reset (h : CSHA256) : CSHA256 :=
  mkCSHA256 sha256.Initialize h.(hbuf) 0.

(** [memcpy(buf + off, data, data.size())]. *)
Definition memcpy (buf : bytes) (off : nat) (data : bytes) : bytes :=
  take off buf ++ data ++ drop (off + length data) buf.

Definition bufsize (h : CSHA256) : nat := Z.to_nat (h.(hbytes) mod 64).

(** The two halves of [CSHA256::Write]: filling and draining a partial buffer,
    then the whole blocks and the rest. *)
Definition Write_fill (h : CSHA256) (data : bytes) : CSHA256 * bytes :=
  let n := bufsize h in
  if negb (n =? 0)%nat && (64 <=? n + length data)%nat then
    let buf := memcpy h.(hbuf) n (take (64 - n) data) in
    (mkCSHA256 (sha256.Transform h.(hs) buf 1) buf (u64 (h.(hbytes) + (64 - Z.of_nat n))),
     drop (64 - n) data)
  else (h, data).

Definition Write_rest (h : CSHA256) (data : bytes) : CSHA256 :=
  let blocks := (length data / 64)%nat in
  let rest := drop (64 * blocks) data in
  let h1 := if (64 <=? length data)%nat
            then mkCSHA256 (sha256.Transform h.(hs) data blocks) h.(hbuf)
                           (u64 (h.(hbytes) + 64 * Z.of_nat blocks))
            else h in
  if (0 <? length rest)%nat
  then mkCSHA256 h1.(hs) (memcpy h1.(hbuf) (bufsize h1) rest) (u64 (h1.(hbytes) + len rest))
  else h1.

Definition CSHA256_Write (h : CSHA256) (data : bytes) : CSHA256 :=
  let (h1, data1) := Write_fill h data in Write_rest h1 data1.

Definition pad_size (bytes_ : Z) : nat := Z.to_nat (1 + (119 - bytes_ mod 64) mod 64).

Definition CSHA256_Finalize (h : CSHA256) : bytes :=
  let sizedesc := be_encode 8 (u64 (Z.shiftl h.(hbytes) 3)) in
  let pad := take (pad_size h.(hbytes)) (0x80 :: replicate 63 0) in
  sha256.digest (CSHA256_Write (CSHA256_Write h pad) sizedesc).(hs).

Definition SHA256_MAX : Z := 0x1FFFFFFFFFFFFFFF.

Definition CSHA256_SafeWrite (h : CSHA256) (data : bytes) : option CSHA256 :=
  if (SHA256_MAX <? h.(hbytes)) || (SHA256_MAX - h.(hbytes) <? len data) then None
  else Some (CSHA256_Write h data).

Definition CSHA256_Save (h : CSHA256) : bytes :=
  sha256.digest h.(hs) ++ le_encode 8 (u64 (Z.shiftl h.(hbytes) 3)) ++ take (bufsize h) h.(hbuf).

Definition CSHA256_Load (h : CSHA256) (vch : bytes) : option CSHA256 :=
  if (length vch <? 40)%nat then None else
  let bits := le_decode (slice vch 32 8) in
  let buf_size := Z.to_nat (Z.shiftr bits 3 mod 64) in
  if negb (Z.land bits 7 =? 0) || negb (length vch =? 40 + buf_size)%nat then None
  else Some (mkCSHA256 (sha256.undigest vch) (memcpy h.(hbuf) 0 (drop 40 vch)) (Z.shiftr bits 3)).

(** ** The one-shot specification *)
Definition sha256_padded (m : bytes) : bytes :=
  m ++ take (pad_size (len m)) (0x80 :: replicate 63 0) ++ be_encode 8 (u64 (8 * len m)).

Definition sha256 (m : bytes) : bytes :=
  let p := sha256_padded m in
  sha256.digest (sha256.Transform sha256.Initialize p (length p / 64)).

(** [Hash], [CHash256] and [HashWriter::GetHash]: SHA-256 of SHA-256, on the
    object the source uses. *)
Definition SHA256_once (m : bytes) : bytes := CSHA256_Finalize (CSHA256_Write CSHA256_new m).

Definition Hash256_bytes (m : bytes) : bytes :=
  let h := CSHA256_Write CSHA256_new m in
  let buf := CSHA256_Finalize h in
  CSHA256_Finalize (CSHA256_Write (CSHA256_Reset h) buf).

(** ** Lemmas on [Transform] *)
Lemma Transform_app s a b na nb : length a = (64 * na)%nat ->
  sha256.Transform s (a ++ b) (na + nb) = sha256.Transform (sha256.Transform s a na) b nb.
Proof.
  revert s a. induction na as [|na IH]; intros s a Ha.
  - destruct a; [done|cbn in Ha; dlia].
  - cbn [Nat.add sha256.Transform]. rewrite take_app_le, drop_app_le by dlia.
    apply IH. rewrite length_drop. dlia.
Qed.

Lemma Transform_prefix s a b n : length a = (64 * n)%nat ->
  sha256.Transform s (a ++ b) n = sha256.Transform s a n.
Proof.
  intros Ha. rewrite <- (Nat.add_0_r n) at 1. by rewrite Transform_app.
Qed.

Lemma Transform_split s a b nb : length a = (64 * (length a / 64))%nat ->
  sha256.Transform s (a ++ b) (length a / 64 + nb) =
  sha256.Transform (sha256.Transform s a (length a / 64)) b nb.
Proof. apply Transform_app. Qed.

(** The whole blocks of [a ++ b] are those of [a] followed by those of the
    unprocessed tail of [a] with [b]. *)
Lemma Transform_blocks s a b :
  let t := drop (64 * (length a / 64)) a ++ b in
  sha256.Transform s (a ++ b) (length (a ++ b) / 64) =
  sha256.Transform (sha256.Transform s a (length a / 64)) t (length t / 64).
Proof.
  cbv zeta. remember (length a / 64)%nat as q eqn:Eq.
  assert (Hq : (64 * q <= length a < 64 * q + 64)%nat) by dlia. clear Eq.
  assert (Ht : length (take (64 * q) a) = (64 * q)%nat) by (rewrite length_take; lia).
  rewrite <- (take_drop (64 * q) a) at 1 3. rewrite <- (app_assoc _ _ b).
  rewrite (Transform_prefix s (take (64 * q) a) (drop (64 * q) a)) by done.
  rewrite <- Transform_app by done.
  f_equal. rewrite !length_app, length_drop. dlia.
Qed.

Lemma memcpy_length buf off data : (off + length data <= length buf)%nat ->
  length (memcpy buf off data) = length buf.
Proof. intros. unfold memcpy. rewrite !length_app, length_take, length_drop. dlia. Qed.

Lemma memcpy_prefix buf off data : (off + length data <= length buf)%nat ->
  take (off + length data) (memcpy buf off data) = take off buf ++ data.
Proof.
  intros. unfold memcpy. rewrite app_assoc, take_app_le by (rewrite length_app, length_take; dlia).
  apply take_ge. rewrite length_app, length_take. dlia.
Qed.

(** ** The representation invariant
    [h] has absorbed exactly the message [m]. *)
Record absorbed (h : CSHA256) (m : bytes) : Prop := {
  ab_state : h.(hs) = sha256.Transform sha256.Initialize m (length m / 64);
  ab_bytes : h.(hbytes) = u64 (len m);
  ab_length : length h.(hbuf) = 64%nat;
  ab_buffer : take (length m mod 64) h.(hbuf) = drop (64 * (length m / 64)) m
}.


Lemma u64_mod64 z : u64 z mod 64 = z mod 64.
Proof. unfold u64. dlia. Qed.

Lemma u64_add a b : u64 (u64 a + b) = u64 (a + b).
Proof. unfold u64. dlia. Qed.

Lemma absorbed_bufsize h m : absorbed h m -> bufsize h = (length m mod 64)%nat.
Proof.
  intros [_ Hb _ _]. unfold bufsize. rewrite Hb, u64_mod64. unfold len. dlia.
Qed.

Lemma absorbed_new b : length b = 64%nat -> absorbed (mkCSHA256 sha256.Initialize b 0) [].
Proof. by intros; split. Qed.

Lemma Write_fill_absorbed h m d : absorbed h m ->
  exists d0, d = d0 ++ (Write_fill h d).2 /\ absorbed (Write_fill h d).1 (m ++ d0) /\
    ((length (m ++ d0) mod 64 = 0)%nat \/
     (length (m ++ d0) mod 64 + length (Write_fill h d).2 < 64)%nat).
Proof.
  intros Ha. pose proof (absorbed_bufsize _ _ Ha) as Hn. unfold Write_fill. rewrite Hn.
  set (n := (length m mod 64)%nat). assert (Hn64 : (n < 64)%nat) by (subst n; dlia).
  destruct (negb (n =? 0)%nat && (64 <=? n + length d)%nat) eqn:E; cbn [fst snd].
  - apply andb_prop in E as [E1 E2]. apply negb_true_iff, Nat.eqb_neq in E1. apply Nat.leb_le in E2.
    exists (take (64 - n) d). rewrite take_drop.
    assert (Hd : length (take (64 - n) d) = (64 - n)%nat) by (rewrite length_take; dlia).
    assert (Hm : (length (m ++ take (64 - n) d) mod 64 = 0)%nat)
      by (rewrite length_app, Hd; subst n; dlia).
    split_and!; [done| |by left].
    destruct Ha as [Hs Hb Hl Hbuf]. fold n in Hbuf.
    assert (Hcp : memcpy (hbuf h) n (take (64 - n) d) =
                  drop (64 * (length m / 64)) m ++ take (64 - n) d).
    { rewrite <- Hbuf. rewrite <- memcpy_prefix by dlia. rewrite Hd.
      symmetry. apply take_ge. rewrite memcpy_length; dlia. }
    split; cbn [hs hbytes hbuf].
    + rewrite Transform_blocks, <- Hs, Hcp. f_equal.
      rewrite length_app, length_drop, Hd. subst n. dlia.
    + rewrite Hb, u64_add. f_equal. rewrite len_app. unfold len. rewrite Hd. dlia.
    + rewrite memcpy_length; dlia.
    + rewrite Hm. symmetry. apply drop_ge. dlia.
  - exists []. rewrite app_nil_r. split_and!; [done|done|].
    apply andb_false_iff in E as [E|E].
    + apply negb_false_iff, Nat.eqb_eq in E. by left.
    + apply Nat.leb_gt in E. right. subst n. dlia.
Qed.

Lemma Write_rest_absorbed h m d : absorbed h m ->
  (length m mod 64 = 0)%nat \/ (length m mod 64 + length d < 64)%nat ->
  absorbed (Write_rest h d) (m ++ d).
Proof.
  intros Ha Hfit. unfold Write_rest. set (q := (length d / 64)%nat).
  assert (H1 : exists d0, d = d0 ++ drop (64 * q) d /\ length d0 = (64 * q)%nat /\
    absorbed (if (64 <=? length d)%nat
              then mkCSHA256 (sha256.Transform (hs h) d q) (hbuf h)
                             (u64 (hbytes h + 64 * Z.of_nat q)) else h) (m ++ d0)).
  { exists (take (64 * q) d). rewrite take_drop.
    assert (Hlen : length (take (64 * q) d) = (64 * q)%nat) by (rewrite length_take; subst q; dlia).
    split_and!; [done|done|].
    destruct (64 <=? length d)%nat eqn:E.
    - apply Nat.leb_le in E. assert (Hm : (length m mod 64 = 0)%nat) by dlia.
      destruct Ha as [Hs Hb Hl Hbuf].
      split; cbn [hs hbytes hbuf]; [| |done|].
      + rewrite Transform_blocks, <- Hs.
        rewrite (drop_ge m) by dlia. cbn [app]. rewrite Hlen, Nat.mul_comm, Nat.div_mul by dlia.
        rewrite <- (take_drop (64 * q) d) at 1. rewrite Transform_prefix by done.
        by rewrite Nat.mul_comm.
      + rewrite Hb, u64_add, len_app. f_equal. unfold len. rewrite Hlen. dlia.
      + replace (length (m ++ take (64 * q) d) mod 64)%nat with 0%nat
          by (rewrite length_app, Hlen; dlia).
        symmetry. apply drop_ge. rewrite length_app, Hlen. dlia.
    - apply Nat.leb_gt in E. assert (q = 0)%nat as -> by (subst q; dlia).
      cbn [take Nat.mul]. by rewrite take_0, app_nil_r. }
  destruct H1 as (d0 & Hd & Hd0 & Hab). cbv zeta.
  set (h1 := if (64 <=? length d)%nat then _ else _) in *. clearbody h1.
  set (rest := drop (64 * q) d) in *. clearbody rest.
  assert (Hmod : (length (m ++ d0) mod 64 = length m mod 64)%nat)
    by (rewrite length_app, Hd0; dlia).
  assert (Hq : (length rest < 64)%nat) by (subst q; rewrite Hd, length_app in Hd0; clear -Hd0; dlia).
  assert (Hroom : (length m mod 64 + length rest < 64)%nat).
  { destruct Hfit as [->|Hfit]; [dlia|]. rewrite Hd, length_app in Hfit. dlia. }
  rewrite Hd, app_assoc. pose proof (absorbed_bufsize _ _ Hab) as Hn.
  destruct (0 <? length rest)%nat eqn:E.
  - apply Nat.ltb_lt in E. destruct Hab as [Hs Hb Hl Hbuf]. rewrite Hmod in Hbuf, Hn.
    assert (Hlen : (length ((m ++ d0) ++ rest) / 64 = length (m ++ d0) / 64)%nat)
      by (rewrite (length_app _ rest); dlia).
    split; cbn [hs hbytes hbuf].
    + rewrite Transform_blocks, <- Hs.
      assert (length (drop (64 * (length (m ++ d0) / 64)) (m ++ d0) ++ rest) / 64 = 0)%nat as ->.
      { rewrite length_app, length_drop. dlia. }
      done.
    + by rewrite Hb, u64_add, <- len_app.
    + rewrite Hn, memcpy_length; dlia.
    + rewrite Hlen, Hn.
      replace (length ((m ++ d0) ++ rest) mod 64)%nat
        with (length m mod 64 + length rest)%nat by (rewrite (length_app _ rest); dlia).
      rewrite memcpy_prefix by dlia. by rewrite Hbuf, (drop_app_le (m ++ d0) rest) by dlia.
  - apply Nat.ltb_ge in E. destruct rest; [|cbn in E; dlia]. by rewrite app_nil_r.
Qed.

Lemma Write_absorbed h m d : absorbed h m -> absorbed (CSHA256_Write h d) (m ++ d).
Proof.
  intros Ha. destruct (Write_fill_absorbed h m d Ha) as (d0 & Hd & Hab & Hfit).
  unfold CSHA256_Write. destruct (Write_fill h d) as [h1 d1]. cbn [fst snd] in *.
  rewrite Hd, app_assoc. by apply Write_rest_absorbed.
Qed.

(** ** Refinement: the streaming object computes [sha256] *)
Lemma pad_shape m :
  let p := take (pad_size (len m)) (0x80 :: replicate 63 0) in
  (length (m ++ p) mod 64 = 56)%nat /\ length p = pad_size (len m).
Proof.
  cbv zeta. assert (Hlen : length (take (pad_size (len m)) (0x80 :: replicate 63 0)) = pad_size (len m)).
  { rewrite length_take. cbn [length]. rewrite length_replicate. unfold pad_size. dlia. }
  split; [|done]. rewrite length_app, Hlen. unfold pad_size, len. dlia.
Qed.

Lemma Finalize_absorbed h m : absorbed h m -> CSHA256_Finalize h = sha256 m.
Proof.
  intros Ha. unfold CSHA256_Finalize, sha256, sha256_padded.
  assert (pad_size (hbytes h) = pad_size (len m)) as ->.
  { unfold pad_size. by rewrite (ab_bytes _ _ Ha), u64_mod64. }
  assert (u64 (Z.shiftl (hbytes h) 3) = u64 (8 * len m)) as ->.
  { rewrite (ab_bytes _ _ Ha), Z.shiftl_mul_pow2 by lia. unfold u64.
    rewrite Z.mul_mod_idemp_l by lia. f_equal. lia. }
  set (p := take _ _). set (z := be_encode 8 _).
  pose proof (Write_absorbed _ _ z (Write_absorbed _ _ p Ha)) as Hab.
  rewrite (ab_state _ _ Hab). by rewrite <- app_assoc.
Qed.

Lemma Writes_absorbed h m ds : absorbed h m ->
  absorbed (fold_left CSHA256_Write ds h) (m ++ concat ds).
Proof.
  revert h m. induction ds as [|d ds IH]; intros h m Ha; cbn.
  - by rewrite app_nil_r.
  - rewrite app_assoc. apply IH. by apply Write_absorbed.
Qed.

(**  The streaming hasher computes SHA-256: whatever garbage the
    64-byte buffer holds and however the message is cut into [Write] calls,
    [Finalize] returns the digest of the concatenated message. *)
Theorem CSHA256_stream (buf : bytes) (ds : list bytes) : length buf = 64%nat ->
  CSHA256_Finalize (fold_left CSHA256_Write ds (mkCSHA256 sha256.Initialize buf 0))
  = sha256 (concat ds).
Proof.
  intros Hb. apply Finalize_absorbed. by apply (Writes_absorbed _ []), absorbed_new.
Qed.

Lemma SHA256_once_spec m : SHA256_once m = sha256 m.
Proof. apply Finalize_absorbed. by apply (Write_absorbed _ []), absorbed_new. Qed.

Lemma Hash256_spec m : Hash256_bytes m = sha256 (sha256 m).
Proof.
  unfold Hash256_bytes, CSHA256_Reset.
  pose proof (Write_absorbed _ _ m (absorbed_new (replicate 64 0) eq_refl)) as Hab.
  change (absorbed (CSHA256_Write CSHA256_new m) m) in Hab.
  rewrite (Finalize_absorbed _ _ Hab). apply Finalize_absorbed.
  apply (Write_absorbed _ []), absorbed_new. apply (ab_length _ _ Hab).
Qed.

(** ** Shape of the digest *)
Lemma digest_length s : length (sha256.digest s) = 32%nat.
Proof. unfold sha256.digest. rewrite !length_app, !be_encode_length. done. Qed.

Lemma digest_ok s : bytes_ok (sha256.digest s).
Proof. unfold sha256.digest. auto 20 with bytes_db. Qed.

Lemma sha256_length m : length (sha256 m) = 32%nat.
Proof. apply digest_length. Qed.

Lemma sha256_ok m : bytes_ok (sha256 m).
Proof. apply digest_ok. Qed.

#[export] Hint Resolve sha256_ok : bytes_db.
#[export] Hint Rewrite sha256_length : bytes_db.

(** ** [Save] and [Load] *)
Definition word_ok (w : Z) : Prop := 0 <= w < 2^32.

Definition words_ok (s : sha256.Words) : Prop :=
  word_ok s.(sha256.wa) /\ word_ok s.(sha256.wb) /\ word_ok s.(sha256.wc) /\ word_ok s.(sha256.wd) /\
  word_ok s.(sha256.we) /\ word_ok s.(sha256.wf) /\ word_ok s.(sha256.wg) /\ word_ok s.(sha256.wh).

Lemma u32_word z : word_ok (u32 z).
Proof. unfold word_ok. rewrite u32_mod. apply Z.mod_pos_bound. lia. Qed.

Lemma Transform1_ok s c : words_ok (sha256.Transform1 s c).
Proof.
  unfold sha256.Transform1. generalize (sha256.rounds sha256.K (sha256.read_words 16 c) s).
  intros v. unfold words_ok; cbn [sha256.wa sha256.wb sha256.wc sha256.wd
    sha256.we sha256.wf sha256.wg sha256.wh]. split_and!; apply u32_word.
Qed.

Lemma Transform_ok s c n : words_ok s -> words_ok (sha256.Transform s c n).
Proof.
  revert s c. induction n as [|n IH]; intros s c Hs; cbn [sha256.Transform]; [done|].
  apply IH, Transform1_ok.
Qed.

Lemma absorbed_words_ok h m : absorbed h m -> words_ok (hs h).
Proof.
  intros [-> _ _ _]. apply Transform_ok. unfold words_ok, word_ok; cbn. lia.
Qed.

Lemma undigest_digest s t : words_ok s -> sha256.undigest (sha256.digest s ++ t) = s.
Proof.
  intros Hok. destruct s as [a b c d e f g h]; unfold words_ok, word_ok in Hok; cbn in Hok.
  assert (H4 : forall z, exists p q r u, be_encode 4 z = [p; q; r; u]).
  { intros z. pose proof (be_encode_length 4 z) as Hl.
    destruct (be_encode 4 z) as [|p [|q [|r [|u [|]]]]]; cbn in Hl; try lia; eauto. }
  assert (Hr : forall z, word_ok z -> be_decode (be_encode 4 z) = z)
    by (intros z Hz; apply be_decode_encode; exact Hz).
  unfold sha256.undigest, sha256.digest; cbn [sha256.wa sha256.wb sha256.wc sha256.wd
    sha256.we sha256.wf sha256.wg sha256.wh].
  destruct Hok as (Ha & Hb & Hc & Hd & He & Hf & Hg & Hh).
  rewrite <- (Hr a Ha) at 9. rewrite <- (Hr b Hb) at 9. rewrite <- (Hr c Hc) at 9.
  rewrite <- (Hr d Hd) at 9. rewrite <- (Hr e He) at 9. rewrite <- (Hr f Hf) at 9.
  rewrite <- (Hr g Hg) at 9. rewrite <- (Hr h Hh) at 9.
  destruct (H4 a) as (?&?&?&?&->), (H4 b) as (?&?&?&?&->), (H4 c) as (?&?&?&?&->),
    (H4 d) as (?&?&?&?&->), (H4 e) as (?&?&?&?&->), (H4 f) as (?&?&?&?&->),
    (H4 g) as (?&?&?&?&->), (H4 h) as (?&?&?&?&->).
  reflexivity.
Qed.

Lemma absorbed_len h m : absorbed h m -> len m <= SHA256_MAX -> hbytes h = len m.
Proof.
  intros [_ -> _ _] Hm. unfold u64. apply Z.mod_small. pose proof (len_nonneg m).
  unfold SHA256_MAX in Hm. lia.
Qed.

Lemma absorbed_prefix_length h m : absorbed h m ->
  length (take (bufsize h) (hbuf h)) = bufsize h.
Proof.
  intros Ha. rewrite length_take, (ab_length _ _ Ha), (absorbed_bufsize _ _ Ha). dlia.
Qed.

(**  Loading a saved hasher into any hasher gives one that has
    absorbed the same message, for every message whose bit length fits the
    64-bit counter. *)
Theorem CSHA256_Load_Save (h0 h : CSHA256) (m : bytes) :
  absorbed h m -> len m <= SHA256_MAX -> length h0.(hbuf) = 64%nat ->
  exists h', CSHA256_Load h0 (CSHA256_Save h) = Some h' /\ absorbed h' m.
Proof.
  intros Ha Hm H0. pose proof (absorbed_len _ _ Ha Hm) as Hb.
  pose proof (absorbed_prefix_length _ _ Ha) as Hp. pose proof (len_nonneg m) as Hnn.
  assert (Hbits : u64 (Z.shiftl (hbytes h) 3) = hbytes h * 8).
  { rewrite Z.shiftl_mul_pow2 by lia. unfold u64, SHA256_MAX in *. apply Z.mod_small. lia. }
  unfold CSHA256_Load, CSHA256_Save. rewrite Hbits.
  set (buf := take (bufsize h) (hbuf h)) in *.
  assert (Hlen : length (sha256.digest (hs h) ++ le_encode 8 (hbytes h * 8) ++ buf)
                 = (40 + bufsize h)%nat).
  { rewrite !length_app, digest_length, le_encode_length, Hp. lia. }
  assert (Hs : slice (sha256.digest (hs h) ++ le_encode 8 (hbytes h * 8) ++ buf) 32 8
               = le_encode 8 (hbytes h * 8)).
  { unfold slice. rewrite drop_app_length' by (by rewrite digest_length).
    by rewrite take_app_length' by (by rewrite le_encode_length). }
  rewrite Hs, Hlen, le_decode_encode by (unfold SHA256_MAX in Hm; lia).
  rewrite Z.shiftr_div_pow2, Z.div_mul by lia. fold (bufsize h).
  replace (Z.land (hbytes h * 8) 7) with 0
    by (change 7 with (Z.ones 3); rewrite Z.land_ones, Z.mod_mul by lia; done).
  rewrite Nat.eqb_refl. cbn [negb orb Z.eqb].
  destruct (40 + bufsize h <? 40)%nat eqn:E; [apply Nat.ltb_lt in E; lia|].
  eexists; split; [done|].
  rewrite app_assoc, drop_app_length' by (rewrite length_app, digest_length; done).
  assert (Hfit : (0 + length buf <= length (hbuf h0))%nat).
  { rewrite Hp, H0, (absorbed_bufsize _ _ Ha). dlia. }
  split; cbn [hs hbuf hbytes].
  - rewrite <- app_assoc, undigest_digest by (by eapply absorbed_words_ok). apply Ha.
  - apply Ha.
  - by rewrite memcpy_length.
  - rewrite <- (absorbed_bufsize _ _ Ha), <- Hp at 1.
    change (length buf) with (0 + length buf)%nat. rewrite memcpy_prefix by done.
    subst buf. rewrite (absorbed_bufsize _ _ Ha). apply Ha.
Qed.

(** [SafeWrite] refuses exactly the data that would make the
    message longer than the 64-bit bit counter allows, and otherwise absorbs
    it. *)
Theorem CSHA256_SafeWrite_spec (h : CSHA256) (m d : bytes) :
  absorbed h m -> len m <= SHA256_MAX ->
  match CSHA256_SafeWrite h d with
  | Some h' => len (m ++ d) <= SHA256_MAX /\ absorbed h' (m ++ d)
  | None => SHA256_MAX < len (m ++ d)
  end.
Proof.
  intros Ha Hm. unfold CSHA256_SafeWrite. rewrite (absorbed_len _ _ Ha Hm), len_app.
  destruct ((SHA256_MAX <? len m) || (SHA256_MAX - len m <? len d)) eqn:E.
  - apply orb_true_iff in E as [E|E]; bool_simp; pose proof (len_nonneg d); lia.
  - bool_simp. split; [lia|by apply Write_absorbed].
Qed.

(** ** Instances of the theorems *)
Definition zero_buffer : bytes := repeat 0 64.
Definition fresh_hasher : CSHA256 := mkCSHA256 sha256.Initialize zero_buffer 0.

Lemma CSHA256_stream_witness :
  CSHA256_Finalize (fold_left CSHA256_Write [[97]; [98; 99]] fresh_hasher) = sha256 [97; 98; 99] /\
  uint256_of (sha256 [97; 98; 99]) = 0xba7816bf8f01cfea414140de5dae2223b00361a396177a9cb410ff61f20015ad.
Proof.
  split; [|vm_compute; reflexivity].
  apply (CSHA256_stream zero_buffer [[97]; [98; 99]]). reflexivity.
Defined.

Lemma CSHA256_Load_Save_witness :
  exists h', CSHA256_Load fresh_hasher (CSHA256_Save fresh_hasher) = Some h' /\ absorbed h' [].
Proof.
  apply (CSHA256_Load_Save fresh_hasher fresh_hasher []).
  - apply absorbed_new. reflexivity.
  - vm_compute. discriminate.
  - reflexivity.
Defined.

Lemma CSHA256_SafeWrite_spec_witness : exists h',
  CSHA256_SafeWrite fresh_hasher [97; 98; 99] = Some h' /\ absorbed h' [97; 98; 99].
Proof.
  pose proof (CSHA256_SafeWrite_spec fresh_hasher [] [97; 98; 99] (absorbed_new zero_buffer eq_refl)
    ltac:(vm_compute; discriminate)) as H.
  destruct (CSHA256_SafeWrite fresh_hasher [97; 98; 99]) as [h'|] eqn:E.
  - exists h'. split; [reflexivity|]. exact (proj2 H).
  - vm_compute in H. discriminate H.
Defined.
