(* ===== verification/Script.v ===== *)
(** * Scripts (src/src/script/script.{h,cpp}, src/src/drivechain_treasury.h)

    [GetScriptOp], the [CScript::operator<<] push encoder, the OP_RETURN
    payload extractors of mainchainrpc.cpp and drivechain_withdrawal.cpp, and
    the treasury script recogniser. *)

From S2P Require Import Prelude.

Definition OP_FALSE : Z := 0x00.
Definition OP_PUSHDATA1 : Z := 0x4c.
Definition OP_PUSHDATA2 : Z := 0x4d.
Definition OP_PUSHDATA4 : Z := 0x4e.
Definition OP_TRUE : Z := 0x51.
Definition OP_RETURN : Z := 0x6a.
Definition OP_DROP : Z := 0x75.

(** The operand of a push: [nSize] bytes at the cursor. *)
Definition take_operand (opcode nSize : Z) (pc : bytes) : bytes * option (Z * bytes) :=
  if u32 (len pc) <? nSize then (pc, None)
  else (drop (Z.to_nat nSize) pc, Some (opcode, take (Z.to_nat nSize) pc)).

(** [GetScriptOp(pc, end, opcode, &data)]: [pc] is the rest of the script.
    The cursor is returned on failure too, because the source advances it
    before it discovers that an operand is truncated. *)
Definition GetScriptOp (pc : bytes) : bytes * option (Z * bytes) :=
  match pc with
  | [] => ([], None)
  | opcode :: pc1 =>
      if opcode <=? OP_PUSHDATA4 then
        if opcode <? OP_PUSHDATA1 then take_operand opcode opcode pc1
        else if opcode =? OP_PUSHDATA1 then
          if len pc1 <? 1 then (pc1, None)
          else take_operand opcode (at_ pc1 0) (drop 1 pc1)
        else if opcode =? OP_PUSHDATA2 then
          if len pc1 <? 2 then (pc1, None)
          else take_operand opcode (le_decode (take 2 pc1)) (drop 2 pc1)
        else
          if len pc1 <? 4 then (pc1, None)
          else take_operand opcode (le_decode (take 4 pc1)) (drop 4 pc1)
      else (pc1, Some (opcode, []))
  end.

(** [CScript::AppendDataSize]. *)
Definition AppendDataSize (size : Z) : bytes :=
  if size <? OP_PUSHDATA1 then [u8 size]
  else if size <=? 0xff then [OP_PUSHDATA1; u8 size]
  else if size <=? 0xffff then OP_PUSHDATA2 :: le_encode 2 size
  else OP_PUSHDATA4 :: le_encode 4 size.

(** [CScript::operator<<] of a byte vector, as the bytes it appends. *)
Definition push_data (data : bytes) : bytes := AppendDataSize (u32 (len data)) ++ data.

(** ** OP_RETURN payloads *)

(** mainchainrpc.cpp: any push opcode, exactly one push, nothing after it. *)
Definition ExtractSingleOpReturnPush (script : bytes) : option bytes :=
  match GetScriptOp script with
  | (pc, Some (op, _)) =>
      if negb (op =? OP_RETURN) then None else
      match GetScriptOp pc with
      | (pc2, Some (op2, pushed)) =>
          if (OP_PUSHDATA4 <? op2) || negb (bytes_eqb pc2 []) then None else Some pushed
      | (_, None) => None
      end
  | (_, None) => None
  end.

(** mainchainrpc.cpp: [IsExactOpReturnAddress] on the output's script. *)
Definition IsExactOpReturnAddress (script address : bytes) : bool :=
  match GetScriptOp script with
  | (pc, Some (op, _)) =>
      (op =? OP_RETURN) &&
      match GetScriptOp pc with
      | (pc2, Some (op2, pushed)) =>
          (op2 <=? OP_PUSHDATA4) && bytes_eqb pushed address && bytes_eqb pc2 []
      | (_, None) => false
      end
  | (_, None) => false
  end.

(** drivechain_withdrawal.cpp. *)
Definition BuildSinglePushScript (payload : bytes) : bytes := OP_RETURN :: push_data payload.

Definition ExtractSingleCanonicalPush (script : bytes) (expected_size : Z) : option bytes :=
  match GetScriptOp script with
  | (pc, Some (op, _)) =>
      if negb (op =? OP_RETURN) then None else
      match GetScriptOp pc with
      | (pc2, Some (op2, payload)) =>
          if (OP_PUSHDATA4 <? op2) || negb (len payload =? expected_size) ||
             negb (bytes_eqb pc2 []) then None
          else if bytes_eqb script (BuildSinglePushScript payload) then Some payload else None
      | (_, None) => None
      end
  | (_, None) => None
  end.

(** ** Treasury scripts *)
Inductive TreasuryOpcode := NOP5 | NOP8.

Definition TreasuryOpcode_byte (o : TreasuryOpcode) : Z :=
  match o with NOP5 => 0xb4 | NOP8 => 0xb7 end.

Definition ExtractTreasurySlot (script : bytes) (opcode : TreasuryOpcode) : option Z :=
  if negb (len script =? 4) || negb (at_ script 0 =? TreasuryOpcode_byte opcode) ||
     negb (at_ script 1 =? 0x01) || negb (at_ script 3 =? 0x51)
  then None else Some (at_ script 2).

Definition IsTreasuryScript (script : bytes) (opcode : TreasuryOpcode) (expected_slot : Z) : bool :=
  (0 <=? expected_slot) && (expected_slot <=? 255) &&
  match ExtractTreasurySlot script opcode with
  | Some slot => slot =? expected_slot
  | None => false
  end.

(** ** Facts *)
Lemma AppendDataSize_ok n : bytes_ok (AppendDataSize n).
Proof.
  unfold AppendDataSize, OP_PUSHDATA1, OP_PUSHDATA2, OP_PUSHDATA4.
  repeat case_match; auto with bytes_db; apply bytes_ok_cons; auto with bytes_db; done.
Qed.

Lemma push_data_ok d : bytes_ok d -> bytes_ok (push_data d).
Proof. intros. unfold push_data. auto using AppendDataSize_ok with bytes_db. Qed.

#[export] Hint Resolve push_data_ok : bytes_db.

Lemma len_u32 {A} (l : list A) : len l < 2^32 -> u32 (len l) = len l.
Proof. intros. rewrite u32_mod. apply Z.mod_small. pose proof (len_nonneg l). lia. Qed.

Lemma take_operand_app op d rest : len d + len rest < 2^32 ->
  take_operand op (len d) (d ++ rest) = (rest, Some (op, d)).
Proof.
  intros Hlt. unfold take_operand. rewrite len_u32, len_app by (rewrite len_app; lia).
  pose proof (len_nonneg rest). destruct (Z.ltb_spec (len d + len rest) (len d)); [lia|].
  unfold len. rewrite Nat2Z.id. by rewrite drop_app_length, take_app_length.
Qed.

(** The length prefix of an operand, read back. *)
Lemma le_prefix_read n z t : 0 <= z < 256 ^ Z.of_nat n ->
  (len (le_encode n z ++ t) <? Z.of_nat n) = false /\
  le_decode (take n (le_encode n z ++ t)) = z /\ drop n (le_encode n z ++ t) = t.
Proof.
  intros Hz. split_and!.
  - apply Z.ltb_ge. rewrite len_app. unfold len at 1. rewrite le_encode_length.
    pose proof (len_nonneg t). lia.
  - rewrite take_app_length' by (by rewrite le_encode_length). by apply le_decode_encode.
  - by rewrite drop_app_length' by (by rewrite le_encode_length).
Qed.

(** Reading back one push. *)
Lemma GetScriptOp_push d rest : len d + len rest < 2^32 ->
  exists op, op <= OP_PUSHDATA4 /\ GetScriptOp (push_data d ++ rest) = (rest, Some (op, d)).
Proof.
  intros Hlt. pose proof (len_nonneg d) as Hd. pose proof (len_nonneg rest) as Hr.
  pose proof (fun op => take_operand_app op d rest Hlt) as Hop.
  unfold push_data. rewrite len_u32 by lia. unfold AppendDataSize.
  destruct (Z.ltb_spec (len d) OP_PUSHDATA1) as [H1|H1].
  { exists (len d). unfold OP_PUSHDATA1, OP_PUSHDATA4 in *. split; [lia|].
    rewrite u8_small by (unfold is_byte; lia). cbn [app GetScriptOp].
    unfold OP_PUSHDATA1, OP_PUSHDATA4.
    destruct (Z.leb_spec (len d) 0x4e); [|lia]. by destruct (Z.ltb_spec (len d) 0x4c); [|lia]. }
  destruct (Z.leb_spec (len d) 0xff) as [H2|H2].
  { exists OP_PUSHDATA1. split; [done|]. rewrite <- (Hop OP_PUSHDATA1).
    destruct (le_prefix_read 1 (len d) (d ++ rest)) as (E1 & _ & E3); [lia|].
    cbn [le_encode app] in E1, E3. cbn -[take_operand len u8 drop]. change 1%Z with (Z.of_nat 1).
    rewrite E1, E3. unfold at_; cbn [nth]. by rewrite u8_small by (unfold is_byte; lia). }
  destruct (Z.leb_spec (len d) 0xffff) as [H3|H3].
  { exists OP_PUSHDATA2. split; [done|]. rewrite <- (Hop OP_PUSHDATA2).
    destruct (le_prefix_read 2 (len d) (d ++ rest)) as (E1 & E2 & E3); [lia|].
    cbn -[take_operand len le_encode le_decode take drop]. rewrite <- app_assoc.
    change 2%Z with (Z.of_nat 2). by rewrite E1, E2, E3. }
  exists OP_PUSHDATA4. split; [done|]. rewrite <- (Hop OP_PUSHDATA4).
  destruct (le_prefix_read 4 (len d) (d ++ rest)) as (E1 & E2 & E3); [lia|].
  cbn -[take_operand len le_encode le_decode take drop]. rewrite <- app_assoc.
  change 4%Z with (Z.of_nat 4). by rewrite E1, E2, E3.
Qed.

Lemma GetScriptOp_return rest : GetScriptOp (OP_RETURN :: rest) = (rest, Some (OP_RETURN, [])).
Proof. done. Qed.

(** ** Extractors read back what the builder writes *)
Lemma ExtractSingleOpReturnPush_build p : len p < 2^32 ->
  ExtractSingleOpReturnPush (BuildSinglePushScript p) = Some p.
Proof.
  intros Hp. unfold ExtractSingleOpReturnPush, BuildSinglePushScript. rewrite GetScriptOp_return.
  destruct (GetScriptOp_push p []) as (op & Hop & E); [rewrite len_nil; lia|].
  rewrite app_nil_r in E. cbn [negb Z.eqb]. change (OP_RETURN =? OP_RETURN) with true. cbn [negb].
  rewrite E. by destruct (Z.ltb_spec OP_PUSHDATA4 op); [lia|].
Qed.

Lemma ExtractSingleCanonicalPush_build p : len p < 2^32 ->
  ExtractSingleCanonicalPush (BuildSinglePushScript p) (len p) = Some p.
Proof.
  intros Hp. unfold ExtractSingleCanonicalPush. unfold BuildSinglePushScript at 1.
  rewrite GetScriptOp_return. change (OP_RETURN =? OP_RETURN) with true. cbn [negb].
  destruct (GetScriptOp_push p []) as (op & Hop & E); [rewrite len_nil; lia|].
  rewrite app_nil_r in E. rewrite E. destruct (Z.ltb_spec OP_PUSHDATA4 op); [lia|].
  rewrite Z.eqb_refl. unfold bytes_eqb. by rewrite !bool_decide_eq_true_2 by done.
Qed.

(** A canonical payload determines the whole script. *)
Lemma ExtractSingleCanonicalPush_inv script n p :
  ExtractSingleCanonicalPush script n = Some p -> script = BuildSinglePushScript p /\ len p = n.
Proof.
  unfold ExtractSingleCanonicalPush. intros H. repeat case_match; simplify_eq.
  bool_simp. done.
Qed.

Lemma BuildSinglePushScript_ok p : bytes_ok p -> bytes_ok (BuildSinglePushScript p).
Proof. intros. apply bytes_ok_cons; auto with bytes_db. done. Qed.

#[export] Hint Resolve BuildSinglePushScript_ok : bytes_db.

Lemma BuildSinglePushScript_ok_inv p : bytes_ok (BuildSinglePushScript p) -> bytes_ok p.
Proof. intros H. inversion_clear H as [|? ? _ H']. by apply Forall_app in H' as [_ ?]. Qed.

Lemma IsExactOpReturnAddress_iff script address :
  IsExactOpReturnAddress script address = true <->
  ExtractSingleOpReturnPush script = Some address.
Proof.
  unfold IsExactOpReturnAddress, ExtractSingleOpReturnPush.
  destruct (GetScriptOp script) as [pc [[op d]|]]; [|by split; intros [=]].
  destruct (op =? OP_RETURN); cbn [negb andb]; [|by split; intros [=]].
  destruct (GetScriptOp pc) as [pc2 [[op2 pushed]|]]; [|by split; intros [=]].
  rewrite Z.ltb_antisym.
  destruct (op2 <=? OP_PUSHDATA4); cbn [negb orb andb]; [|by split; intros [=]].
  destruct (bytes_eqb pc2 []); cbn [negb];
    rewrite ?andb_true_r, ?andb_false_r; [|by split; intros [=]].
  rewrite bytes_eqb_eq. split; [by intros ->|by intros [= ->]].
Qed.

Lemma ExtractTreasurySlot_inv script o slot :
  ExtractTreasurySlot script o = Some slot ->
  script = [TreasuryOpcode_byte o; 0x01; slot; 0x51].
Proof.
  unfold ExtractTreasurySlot. intros H. case_match; simplify_eq. bool_simp.
  destruct script as [|a [|b [|c [|d [|]]]]]; unfold len in *; cbn [length] in *; try lia.
  unfold at_ in *; cbn [nth] in *. congruence.
Qed.

Lemma ExtractTreasurySlot_build o slot :
  ExtractTreasurySlot [TreasuryOpcode_byte o; 0x01; slot; 0x51] o = Some slot.
Proof. by destruct o. Qed.

(** The two parent networks never recognise each other's treasury outputs. *)
Lemma ExtractTreasurySlot_disjoint script slot slot' :
  ExtractTreasurySlot script NOP5 = Some slot -> ExtractTreasurySlot script NOP8 = Some slot' -> False.
Proof. intros ->%ExtractTreasurySlot_inv [=]%ExtractTreasurySlot_inv. Qed.
