(* ===== verification/Transaction.v ===== *)
(** * Parent-chain transactions (src/src/primitives/bitcoin/transaction.{h,cpp},
      src/src/serialize.h, src/src/consensus/amount.h)

    The Bitcoin transaction types of [Sidechain::Bitcoin], their CompactSize
    serialization with and without witness data, and the transaction id.  A
    C++ stream that throws [std::ios_base::failure] is a reader that returns
    [None]. *)

From S2P Require Import Prelude Sha256 Script.

(** ** Amounts *)
Definition COIN : Z := 100000000.
Definition MAX_MONEY : Z := 21000000 * COIN.
Definition MoneyRange (v : Z) : bool := (0 <=? v) && (v <=? MAX_MONEY).

(** ** Hashing *)
Definition Hash (m : bytes) : uint256 := uint256_of (Hash256_bytes m).

(** Conversion unfolds the hash last. *)
#[global] Strategy 1000 [Hash256_bytes Hash].

(** ** Data *)
Record COutPoint := mkOutPoint { hash : uint256; n : Z }.

Definition NULL_INDEX : Z := UINT32_MAX.
Definition COutPoint_IsNull (o : COutPoint) : bool := IsNull o.(hash) && (o.(n) =? NULL_INDEX).

#[global] Instance COutPoint_eq_dec : EqDecision COutPoint.
Proof. solve_decision. Defined.

#[global] Instance COutPoint_countable : Countable COutPoint :=
  inj_countable' (fun o => (o.(hash), o.(n))) (fun p => mkOutPoint p.1 p.2)
    (fun o => match o with mkOutPoint _ _ => eq_refl end).

Record CTxIn := mkTxIn {
  prevout : COutPoint; scriptSig : bytes; nSequence : Z; scriptWitness : list bytes }.

Record CTxOut := mkTxOut { nValue : Z; scriptPubKey : bytes }.

(** [CTransaction] and [CMutableTransaction]: the immutable form caches the
    hash that [GetHash] below computes. *)
Record CTransaction := mkTx {
  vin : list CTxIn; vout : list CTxOut; version : Z; nLockTime : Z }.

Definition CURRENT_VERSION : Z := 2.

#[global] Instance CTxIn_eq_dec : EqDecision CTxIn.
Proof. solve_decision. Defined.
#[global] Instance CTxOut_eq_dec : EqDecision CTxOut.
Proof. solve_decision. Defined.
#[global] Instance CTransaction_eq_dec : EqDecision CTransaction.
Proof. solve_decision. Defined.

Definition IsCoinBase (tx : CTransaction) : bool :=
  match tx.(vin) with
  | [i] => COutPoint_IsNull i.(prevout)
  | _ => false
  end.

Definition HasWitness (tx : CTransaction) : bool :=
  existsb (fun i => negb (bool_decide (i.(scriptWitness) = []))) tx.(vin).

(** ** Writers *)
Definition WriteCompactSize (nSize : Z) : bytes :=
  if nSize <? 253 then le_encode 1 nSize
  else if nSize <=? UINT16_MAX then 253 :: le_encode 2 nSize
  else if nSize <=? UINT32_MAX then 254 :: le_encode 4 nSize
  else 255 :: le_encode 8 nSize.

Definition ser_bytes (b : bytes) : bytes := WriteCompactSize (len b) ++ b.
Definition ser_vector {A} (f : A -> bytes) (l : list A) : bytes :=
  WriteCompactSize (len l) ++ concat (map f l).

Definition ser_outpoint (o : COutPoint) : bytes := uint256_bytes o.(hash) ++ le_encode 4 o.(n).
Definition ser_txin (i : CTxIn) : bytes :=
  ser_outpoint i.(prevout) ++ ser_bytes i.(scriptSig) ++ le_encode 4 i.(nSequence).
Definition ser_txout (o : CTxOut) : bytes := le_encode 8 o.(nValue) ++ ser_bytes o.(scriptPubKey).

Definition SerializeTransaction (allow_witness : bool) (tx : CTransaction) : bytes :=
  let flag := allow_witness && HasWitness tx in
  le_encode 4 tx.(version) ++
  (if flag then ser_vector ser_txin [] ++ [1] else []) ++
  ser_vector ser_txin tx.(vin) ++
  ser_vector ser_txout tx.(vout) ++
  (if flag then concat (map (fun i => ser_vector ser_bytes i.(scriptWitness)) tx.(vin)) else []) ++
  le_encode 4 tx.(nLockTime).

(** [GetHash]: double SHA-256 of the witness-free serialization. *)
Definition GetHash (tx : CTransaction) : uint256 := Hash (SerializeTransaction false tx).

#[global] Arguments Hash : simpl never.
#[global] Arguments GetHash : simpl never.
#[global] Strategy 500 [GetHash].

(** ** Readers *)
Definition reader (A : Type) : Type := bytes -> option (A * bytes).

Definition rret {A} (a : A) : reader A := fun s => Some (a, s).
Definition rbind {A B} (r : reader A) (f : A -> reader B) : reader B :=
  fun s => match r s with Some (a, s') => f a s' | None => None end.
Notation "'let*' x := r 'in' k" := (rbind r (fun x => k))
  (at level 10, x name, r at level 100, k at level 200).
Definition rfail {A} : reader A := fun _ => None.

Definition read_bytes (k : nat) : reader bytes := fun s =>
  if (length s <? k)%nat then None else Some (take k s, drop k s).
Definition read_le (k : nat) : reader Z := let* b := read_bytes k in rret (le_decode b).

Definition to_int64 (v : Z) : Z := if v <? 2^63 then v else v - 2^64.

Definition MAX_SIZE : Z := 0x02000000.

(** [ReadCompactSize(is, range_check = true)]. *)
Definition ReadCompactSize : reader Z :=
  let* ch := read_le 1 in
  let* v := (if ch <? 253 then rret ch
             else if ch =? 253 then let* v := read_le 2 in if v <? 253 then rfail else rret v
             else if ch =? 254 then let* v := read_le 4 in if v <? 0x10000 then rfail else rret v
             else let* v := read_le 8 in if v <? 0x100000000 then rfail else rret v) in
  if MAX_SIZE <? v then rfail else rret v.

Fixpoint read_n {A} (r : reader A) (k : nat) : reader (list A) :=
  match k with
  | O => rret []
  | S m => let* x := r in let* l := read_n r m in rret (x :: l)
  end.

Definition read_vector {A} (r : reader A) : reader (list A) :=
  let* k := ReadCompactSize in read_n r (Z.to_nat k).
Definition read_script : reader bytes :=
  let* k := ReadCompactSize in read_bytes (Z.to_nat k).

Definition read_uint256 : reader uint256 := let* b := read_bytes 32 in rret (uint256_of b).
Definition read_outpoint : reader COutPoint :=
  let* h := read_uint256 in let* i := read_le 4 in rret (mkOutPoint h i).
Definition read_txin : reader CTxIn :=
  let* o := read_outpoint in let* s := read_script in let* q := read_le 4 in
  rret (mkTxIn o s q []).
Definition read_txout : reader CTxOut :=
  let* v := read_le 8 in let* s := read_script in rret (mkTxOut (to_int64 v) s).

Fixpoint read_witnesses (ins : list CTxIn) : reader (list CTxIn) :=
  match ins with
  | [] => rret []
  | i :: t =>
      let* w := read_vector read_script in
      let* l := read_witnesses t in
      rret (mkTxIn i.(prevout) i.(scriptSig) i.(nSequence) w :: l)
  end.

Definition UnserializeTransaction (allow_witness : bool) : reader CTransaction :=
  let* ver := read_le 4 in
  let* vin0 := read_vector read_txin in
  let* body :=
    (if bool_decide (vin0 = []) && allow_witness then
       let* flags := read_le 1 in
       if negb (flags =? 0) then
         let* vin1 := read_vector read_txin in
         let* vout1 := read_vector read_txout in
         rret (flags, vin1, vout1)
       else rret (flags, [], [])
     else let* vout0 := read_vector read_txout in rret (0, vin0, vout0)) in
  let '(flags, ins, outs) := body in
  let* wit :=
    (if negb (Z.land flags 1 =? 0) && allow_witness then
       let* ins' := read_witnesses ins in
       if HasWitness (mkTx ins' outs ver 0) then rret (Z.lxor flags 1, ins') else rfail
     else rret (flags, ins)) in
  let '(flags', ins') := wit in
  if negb (flags' =? 0) then rfail
  else let* lock := read_le 4 in rret (mkTx ins' outs ver lock).

(** ** Well-formed values: every field within its C++ type, every vector short
    enough for [ReadCompactSize]. *)
Definition script_ok (s : bytes) : Prop := bytes_ok s /\ len s <= MAX_SIZE.
Definition outpoint_ok (o : COutPoint) : Prop := uint256_ok o.(hash) /\ 0 <= o.(n) < 2^32.
Definition txin_ok (i : CTxIn) : Prop :=
  outpoint_ok i.(prevout) /\ script_ok i.(scriptSig) /\ 0 <= i.(nSequence) < 2^32 /\
  Forall script_ok i.(scriptWitness) /\ len i.(scriptWitness) <= MAX_SIZE.
Definition txout_ok (o : CTxOut) : Prop := - 2^63 <= o.(nValue) < 2^63 /\ script_ok o.(scriptPubKey).
Definition tx_ok (tx : CTransaction) : Prop :=
  0 <= tx.(version) < 2^32 /\ 0 <= tx.(nLockTime) < 2^32 /\
  Forall txin_ok tx.(vin) /\ len tx.(vin) <= MAX_SIZE /\
  Forall txout_ok tx.(vout) /\ len tx.(vout) <= MAX_SIZE.

Definition strip_witness (tx : CTransaction) : CTransaction :=
  mkTx (map (fun i => mkTxIn i.(prevout) i.(scriptSig) i.(nSequence) []) tx.(vin))
       tx.(vout) tx.(version) tx.(nLockTime).

(** ** Round trips
    [reads r x l]: the reader consumes exactly [l] and yields [x]. *)
Definition reads {A} (r : reader A) (x : A) (l : bytes) : Prop := forall t, r (l ++ t) = Some (x, t).

Lemma reads_ret {A} (x : A) : reads (rret x) x [].
Proof. done. Qed.

Lemma reads_bind {A B} (r : reader A) (f : A -> reader B) x y l1 l2 :
  reads r x l1 -> reads (f x) y l2 -> reads (rbind r f) y (l1 ++ l2).
Proof. intros H1 H2 t. unfold rbind. rewrite <- app_assoc, H1. apply H2. Qed.

Lemma reads_bind_nil {A B} (r : reader A) (f : A -> reader B) x y l :
  reads r x l -> reads (f x) y [] -> reads (rbind r f) y l.
Proof. intros H1 H2. rewrite <- (app_nil_r l). by eapply reads_bind. Qed.

Lemma reads_pure {A B} (x : A) (f : A -> reader B) y l : reads (f x) y l -> reads (rbind (rret x) f) y l.
Proof. done. Qed.

Lemma reads_bytes l k : k = length l -> reads (read_bytes k) l l.
Proof.
  intros -> t. unfold read_bytes. rewrite length_app.
  destruct (Nat.ltb_spec (length l + length t) (length l)); [lia|].
  by rewrite take_app_length, drop_app_length.
Qed.

Lemma reads_le k z : 0 <= z < 256 ^ Z.of_nat k -> reads (read_le k) z (le_encode k z).
Proof.
  intros Hz. eapply reads_bind_nil; [by apply reads_bytes; rewrite le_encode_length|].
  rewrite le_decode_encode by done. apply reads_ret.
Qed.

Lemma reads_CompactSize z : 0 <= z <= MAX_SIZE -> reads ReadCompactSize z (WriteCompactSize z).
Proof.
  unfold MAX_SIZE. intros Hz. unfold ReadCompactSize, WriteCompactSize, UINT16_MAX, UINT32_MAX.
  assert (Hfin : reads (if MAX_SIZE <? z then rfail else rret z) z []).
  { unfold MAX_SIZE. by destruct (Z.ltb_spec 0x02000000 z); [lia|]. }
  destruct (Z.ltb_spec z 253) as [H1|H1].
  { eapply reads_bind_nil; [apply reads_le; lia|]. destruct (Z.ltb_spec z 253); [|lia].
    eapply reads_bind_nil; [apply reads_ret|done]. }
  destruct (Z.leb_spec z (2^16 - 1)) as [H2|H2].
  { eapply (reads_bind _ _ 253 _ [253]); [apply (reads_le 1); lia|]. cbn [Z.ltb Z.eqb].
    eapply reads_bind_nil; [|done]. eapply reads_bind_nil; [apply reads_le; lia|].
    by destruct (Z.ltb_spec z 253); [lia|]. }
  destruct (Z.leb_spec z (2^32 - 1)) as [H3|H3]; [|lia].
  eapply (reads_bind _ _ 254 _ [254]); [apply (reads_le 1); lia|]. cbn [Z.ltb Z.eqb].
  eapply reads_bind_nil; [|done]. eapply reads_bind_nil; [apply reads_le; lia|].
  by destruct (Z.ltb_spec z 0x10000); [lia|].
Qed.

Lemma reads_vector {A} (r : reader A) (f : A -> bytes) l :
  Forall (fun x => reads r x (f x)) l -> len l <= MAX_SIZE ->
  reads (read_vector r) l (ser_vector f l).
Proof.
  intros Hall Hlen. eapply reads_bind; [apply reads_CompactSize; pose proof (len_nonneg l); lia|].
  unfold len. rewrite Nat2Z.id. clear Hlen. induction Hall as [|x l Hx _ IH]; cbn.
  - apply reads_ret.
  - eapply reads_bind; [done|]. eapply reads_bind_nil; [done|apply reads_ret].
Qed.

Lemma reads_script s : script_ok s -> reads read_script s (ser_bytes s).
Proof.
  intros [_ Hlen]. eapply reads_bind; [apply reads_CompactSize; pose proof (len_nonneg s); lia|].
  apply reads_bytes. unfold len. by rewrite Nat2Z.id.
Qed.

Lemma reads_uint256 h : uint256_ok h -> reads read_uint256 h (uint256_bytes h).
Proof.
  intros Hh. eapply reads_bind_nil; [by apply reads_bytes; rewrite uint256_bytes_length|].
  rewrite uint256_of_bytes by done. apply reads_ret.
Qed.

Lemma reads_outpoint o : outpoint_ok o -> reads read_outpoint o (ser_outpoint o).
Proof.
  intros [H1 H2]. eapply reads_bind; [by apply reads_uint256|].
  eapply reads_bind_nil; [apply reads_le; exact H2|]. by destruct o.
Qed.

Definition no_witness (i : CTxIn) : CTxIn := mkTxIn i.(prevout) i.(scriptSig) i.(nSequence) [].

Lemma reads_txin i : txin_ok i -> reads read_txin (no_witness i) (ser_txin i).
Proof.
  intros (H1 & H2 & H3 & _). eapply reads_bind; [by apply reads_outpoint|].
  eapply reads_bind; [by apply reads_script|].
  eapply reads_bind_nil; [apply reads_le; exact H3|apply reads_ret].
Qed.

Lemma le_encode_int64 v : - 2^63 <= v < 2^63 -> le_encode 8 v = le_encode 8 (u64 v).
Proof.
  intros Hv.
  assert (Hgen : forall k v, le_encode k v = le_encode k (v mod 256 ^ Z.of_nat k)).
  { clear. induction k as [|k IH]; intros v; [done|]. cbn [le_encode].
    rewrite (IH (Z.shiftr v 8)), (IH (Z.shiftr (v mod _) 8)), !Z.shiftr_div_pow2 by lia.
    rewrite Nat2Z.inj_succ, Z.pow_succ_r by lia. unfold u8. change (2^8) with 256.
    rewrite (Z.mul_comm 256), (Z.mul_comm _ 256), Z.rem_mul_r by lia.
    f_equal; [|f_equal].
    - rewrite (Z.mul_comm 256), Z.mod_add, Z.mod_mod by lia. done.
    - rewrite (Z.mul_comm 256), Z.div_add by lia.
      rewrite (Z.div_small (v mod 256)) by (apply Z.mod_pos_bound; lia).
      by rewrite Z.add_0_l, Z.mod_mod by lia. }
  apply Hgen.
Qed.

Lemma reads_txout o : txout_ok o -> reads read_txout o (ser_txout o).
Proof.
  intros [H1 H2]. unfold ser_txout. rewrite le_encode_int64 by done.
  eapply reads_bind; [apply reads_le; unfold u64; apply Z.mod_pos_bound; lia|].
  eapply reads_bind_nil; [by apply reads_script|].
  replace (to_int64 (u64 (nValue o))) with (nValue o); [by destruct o|].
  unfold to_int64, u64. destruct (Z.ltb_spec (nValue o mod 2 ^ 64) (2 ^ 63)); dlia.
Qed.

Lemma reads_vins l : Forall txin_ok l -> len l <= MAX_SIZE ->
  reads (read_vector read_txin) (map no_witness l) (ser_vector ser_txin l).
Proof.
  intros Hall Hlen. replace (ser_vector ser_txin l) with (ser_vector ser_txin (map no_witness l)).
  - apply reads_vector; [|unfold len in *; by rewrite length_map].
    apply Forall_fmap. eapply Forall_impl; [|exact Hall]. intros i Hi.
    apply (reads_txin i Hi).
  - unfold ser_vector, len. rewrite length_map, map_map. done.
Qed.

Lemma reads_vouts l : Forall txout_ok l -> len l <= MAX_SIZE ->
  reads (read_vector read_txout) l (ser_vector ser_txout l).
Proof. intros. apply reads_vector; [|done]. eapply Forall_impl; [apply reads_txout|done]. Qed.

Lemma reads_witnesses l : Forall txin_ok l ->
  reads (read_witnesses (map no_witness l)) l
        (concat (map (fun i => ser_vector ser_bytes i.(scriptWitness)) l)).
Proof.
  induction 1 as [|i l Hi _ IH]; cbn; [apply reads_ret|].
  destruct Hi as (_ & _ & _ & H4 & H5). eapply reads_bind.
  - apply (reads_vector _ ser_bytes); [|done]. eapply Forall_impl; [apply reads_script|done].
  - eapply reads_bind_nil; [exact IH|]. by destruct i.
Qed.

Lemma reads_transaction_legacy tx : tx_ok tx ->
  reads (UnserializeTransaction false) (strip_witness tx) (SerializeTransaction false tx).
Proof.
  intros (H1 & H2 & H3 & H4 & H5 & H6).
  unfold UnserializeTransaction, SerializeTransaction. cbn [andb app].
  eapply reads_bind; [apply reads_le; exact H1|].
  eapply reads_bind; [by apply reads_vins|]. rewrite andb_false_r.
  eapply reads_bind; [eapply reads_bind_nil; [by apply reads_vouts|apply reads_ret]|].
  cbv beta iota. rewrite andb_false_r.
  apply reads_pure. cbn [negb Z.eqb].
  eapply reads_bind_nil; [apply reads_le; exact H2|apply reads_ret].
Qed.

Lemma no_witness_id l : existsb (fun i => negb (bool_decide (i.(scriptWitness) = []))) l = false ->
  map no_witness l = l.
Proof.
  induction l as [|i l IH]; cbn; [done|]. intros H. bool_simp. rewrite IH by done.
  destruct i; cbn in *; by subst.
Qed.

Lemma map_nil_inv {A B} (f : A -> B) l : map f l = [] -> l = [].
Proof. by destruct l. Qed.

Lemma reads_transaction_witness tx : tx_ok tx -> tx.(vin) <> [] ->
  reads (UnserializeTransaction true) tx (SerializeTransaction true tx).
Proof.
  intros (H1 & H2 & H3 & H4 & H5 & H6) Hvin.
  unfold UnserializeTransaction, SerializeTransaction. cbn [andb].
  eapply reads_bind; [apply reads_le; exact H1|].
  destruct (HasWitness tx) eqn:Hw.
  - rewrite <- !app_assoc.
    eapply reads_bind; [apply (reads_vins []); [constructor|done]|]. cbn [map].
    rewrite bool_decide_eq_true_2 by done. cbn [andb]. rewrite !(app_assoc [1]).
    rewrite (app_assoc _ (ser_vector ser_txout _)).
    eapply reads_bind.
    { rewrite <- app_assoc. eapply reads_bind; [apply (reads_le 1 1); lia|]. cbn [Z.eqb negb].
      eapply reads_bind; [by apply reads_vins|].
      eapply reads_bind_nil; [by apply reads_vouts|apply reads_ret]. }
    cbv beta iota. cbn [Z.land Pos.land Z.eqb negb andb].
    eapply reads_bind.
    { eapply reads_bind_nil; [by apply reads_witnesses|].
      unfold HasWitness in *. cbn [vin]. rewrite Hw. apply reads_ret. }
    cbn [Z.lxor Pos.lxor Z.eqb negb].
    eapply reads_bind_nil; [apply reads_le; exact H2|]. by destruct tx.
  - cbn [app].
    eapply reads_bind; [by apply reads_vins|].
    rewrite bool_decide_eq_false_2 by (by intros ?%map_nil_inv). cbn [andb].
    eapply reads_bind; [eapply reads_bind_nil; [by apply reads_vouts|apply reads_ret]|].
    cbv beta iota. cbn [Z.land Z.eqb negb andb app].
    apply reads_pure. cbn [negb Z.eqb].
    eapply reads_bind_nil; [apply reads_le; exact H2|].
    rewrite no_witness_id by done. by destruct tx.
Qed.

(** ** Canonicity
    [canon r f]: whatever the reader accepts is what the writer produces, so
    no two byte strings are read as the same value. *)
Definition canon {A} (r : reader A) (f : A -> bytes) : Prop :=
  forall s x t, bytes_ok s -> r s = Some (x, t) -> s = f x ++ t.

Lemma rbind_Some {A B} (r : reader A) (k : A -> reader B) s y t :
  rbind r k s = Some (y, t) <-> exists x s', r s = Some (x, s') /\ k x s' = Some (y, t).
Proof.
  unfold rbind. split.
  - destruct (r s) as [[x s']|]; [by eauto|done].
  - by intros (x & s' & -> & ?).
Qed.

Ltac rinv :=
  repeat match goal with
  | H : rbind _ _ _ = Some _ |- _ =>
      apply rbind_Some in H;
      let x := fresh "x" in let s := fresh "s" in let H1 := fresh "Hr" in
      destruct H as (x & s & H1 & H); cbv beta in H
  | H : rret _ _ = Some _ |- _ => unfold rret in H; simplify_eq
  | H : rfail _ = Some _ |- _ => discriminate H
  end.

Lemma canon_step {A} (r : reader A) f s x t : canon r f -> bytes_ok s -> r s = Some (x, t) ->
  s = f x ++ t /\ bytes_ok t.
Proof.
  intros Hc Hs Hr. pose proof (Hc _ _ _ Hs Hr) as ->. split; [done|].
  by apply Forall_app in Hs as [_ Ht].
Qed.

Lemma canon_bytes k : canon (read_bytes k) id.
Proof.
  intros s x t _. unfold read_bytes. case_match; [done|]. intros [= <- <-]. cbn. by rewrite take_drop.
Qed.

Lemma read_bytes_length k s x t : read_bytes k s = Some (x, t) -> length x = k.
Proof.
  unfold read_bytes. destruct (Nat.ltb_spec (length s) k); [done|]. intros [= <- <-].
  rewrite length_take. lia.
Qed.

Lemma canon_le k : canon (read_le k) (le_encode k).
Proof.
  intros s x t Hs Hr. unfold read_le in Hr. rinv.
  pose proof (read_bytes_length _ _ _ _ Hr0) as <-.
  apply canon_step with (f := id) in Hr0 as [-> _]; [|apply canon_bytes|done].
  apply Forall_app in Hs as [Hx _]. cbn. by rewrite le_encode_decode.
Qed.

Lemma read_le_bound k s x t : bytes_ok s -> read_le k s = Some (x, t) -> 0 <= x < 256 ^ Z.of_nat k.
Proof.
  intros Hs Hr. unfold read_le in Hr. rinv. pose proof (read_bytes_length _ _ _ _ Hr0) as <-.
  apply canon_bytes in Hr0 as ->; [|done]. apply Forall_app in Hs as [Hx _].
  by apply le_decode_bound.
Qed.

(** The wide forms of [ReadCompactSize] reject a value a shorter form holds. *)
Lemma canon_wide k lo s z t : bytes_ok s ->
  (let* v := read_le k in if v <? lo then rfail else rret v) s = Some (z, t) ->
  s = le_encode k z ++ t /\ lo <= z < 256 ^ Z.of_nat k.
Proof.
  intros Hs Hr. apply rbind_Some in Hr as (v & s' & H1 & H2).
  pose proof (read_le_bound _ _ _ _ Hs H1). apply canon_le in H1 as ->; [|done].
  destruct (Z.ltb_spec v lo); rinv. split; [done|lia].
Qed.

Lemma ReadCompactSize_inv s z t : bytes_ok s -> ReadCompactSize s = Some (z, t) ->
  s = WriteCompactSize z ++ t /\ 0 <= z.
Proof.
  intros Hs Hr. apply rbind_Some in Hr as (ch & s' & H1 & Hr).
  apply rbind_Some in Hr as (v & s2 & H2 & H3). case_match; rinv. clear H.
  pose proof (read_le_bound _ _ _ _ Hs H1) as Hb.
  apply (canon_step _ _ _ _ _ (canon_le 1) Hs) in H1 as [-> Hok].
  unfold WriteCompactSize, UINT16_MAX, UINT32_MAX.
  destruct (Z.ltb_spec ch 253); [rinv; case_match; bool_simp; [|lia]; split; [done|lia]|].
  destruct (Z.eqb_spec ch 253) as [->|]; [|destruct (Z.eqb_spec ch 254) as [->|]];
    apply canon_wide in H2 as [-> ?]; try done;
    (destruct (Z.ltb_spec z 253); [lia|]).
  - destruct (Z.leb_spec z (2^16 - 1)); [|lia]. split; [done|lia].
  - destruct (Z.leb_spec z (2^16 - 1)); [lia|]. destruct (Z.leb_spec z (2^32 - 1)); [|lia].
    split; [done|lia].
  - destruct (Z.leb_spec z (2^16 - 1)); [lia|]. destruct (Z.leb_spec z (2^32 - 1)); [lia|].
    replace ch with 255 by lia. split; [done|lia].
Qed.

Lemma canon_CompactSize : canon ReadCompactSize WriteCompactSize.
Proof. intros s z t Hs Hr. by apply ReadCompactSize_inv in Hr as [-> _]. Qed.

Lemma canon_n {A} (r : reader A) f k : canon r f ->
  forall s l t, bytes_ok s -> read_n r k s = Some (l, t) -> s = concat (map f l) ++ t /\ length l = k.
Proof.
  intros Hc. induction k as [|k IH]; cbn; intros s l t Hs Hr; rinv; [done|].
  apply (canon_step _ _ _ _ _ Hc Hs) in Hr0 as [-> Hok].
  apply IH in Hr1 as [-> <-]; [|done]. cbn. by rewrite app_assoc.
Qed.

Lemma canon_vector {A} (r : reader A) f : canon r f -> canon (read_vector r) (ser_vector f).
Proof.
  intros Hc s l t Hs Hr. unfold read_vector in Hr. rinv.
  pose proof (proj2 (ReadCompactSize_inv _ _ _ Hs Hr0)).
  apply (canon_step _ _ _ _ _ canon_CompactSize Hs) in Hr0 as [-> Hok].
  apply (canon_n r f) in Hr as [-> Hl]; [|done|done].
  unfold ser_vector, len. rewrite Hl, Z2Nat.id by done. by rewrite app_assoc.
Qed.

Lemma canon_script : canon read_script ser_bytes.
Proof.
  intros s l t Hs Hr. unfold read_script in Hr. rinv.
  pose proof (proj2 (ReadCompactSize_inv _ _ _ Hs Hr0)).
  apply (canon_step _ _ _ _ _ canon_CompactSize Hs) in Hr0 as [-> Hok].
  pose proof (read_bytes_length _ _ _ _ Hr) as Hl. apply canon_bytes in Hr as ->; [|done].
  unfold ser_bytes, len. rewrite Hl, Z2Nat.id by done. cbn. by rewrite app_assoc.
Qed.

Lemma canon_uint256 : canon read_uint256 uint256_bytes.
Proof.
  intros s x t Hs Hr. unfold read_uint256 in Hr. rinv.
  pose proof (read_bytes_length _ _ _ _ Hr0) as Hl. apply canon_bytes in Hr0 as ->; [|done].
  apply Forall_app in Hs as [Hx _]. by rewrite uint256_bytes_of.
Qed.

Lemma canon_outpoint : canon read_outpoint ser_outpoint.
Proof.
  intros s x t Hs Hr. unfold read_outpoint in Hr. rinv.
  apply (canon_step _ _ _ _ _ canon_uint256 Hs) in Hr0 as [-> Hok].
  apply (canon_le 4) in Hr1 as ->; [|done]. unfold ser_outpoint. cbn [hash n]. by rewrite <- app_assoc.
Qed.

Lemma canon_txin : canon read_txin ser_txin.
Proof.
  intros s x t Hs Hr. unfold read_txin in Hr. rinv.
  apply (canon_step _ _ _ _ _ canon_outpoint Hs) in Hr0 as [-> Hok].
  apply (canon_step _ _ _ _ _ canon_script Hok) in Hr1 as [-> Hok2].
  apply (canon_le 4) in Hr2 as ->; [|done]. unfold ser_txin. cbn [prevout scriptSig nSequence]. by rewrite <- !app_assoc.
Qed.

Lemma canon_txout : canon read_txout ser_txout.
Proof.
  intros s x t Hs Hr. unfold read_txout in Hr. rinv.
  pose proof (read_le_bound _ _ _ _ Hs Hr0) as Hb.
  apply (canon_step _ _ _ _ _ (canon_le 8) Hs) in Hr0 as [-> Hok].
  apply canon_script in Hr1 as ->; [|done]. unfold ser_txout. cbn -[le_encode].
  assert (Hz : - 2^63 <= to_int64 x0 < 2^63 /\ u64 (to_int64 x0) = x0).
  { unfold to_int64, u64. destruct (Z.ltb_spec x0 (2^63)); split; dlia. }
  rewrite (le_encode_int64 (to_int64 x0)), (proj2 Hz) by apply Hz. by rewrite <- app_assoc.
Qed.

Lemma read_n_Forall {A} (P : A -> Prop) (r : reader A) k :
  (forall s x t, r s = Some (x, t) -> P x) -> forall s l t, read_n r k s = Some (l, t) -> Forall P l.
Proof.
  intros HP. induction k as [|k IH]; cbn; intros s l t Hr; rinv; [constructor|].
  constructor; eauto.
Qed.

Lemma read_vins_no_witness s l t : read_vector read_txin s = Some (l, t) ->
  existsb (fun i => negb (bool_decide (i.(scriptWitness) = []))) l = false.
Proof.
  intros Hr. unfold read_vector in Hr. rinv.
  assert (Hall : Forall (fun i => i.(scriptWitness) = []) l).
  { eapply read_n_Forall; [|exact Hr]. intros ? ? ? H. unfold read_txin in H. by rinv. }
  clear -Hall. induction Hall as [|i l Hi _ IH]; [done|]. cbn. rewrite Hi, IH. done.
Qed.

(** Reading the witnesses changes nothing else of the inputs. *)
Lemma read_witnesses_inv ins s ins' t : bytes_ok s -> read_witnesses ins s = Some (ins', t) ->
  s = concat (map (fun i => ser_vector ser_bytes i.(scriptWitness)) ins') ++ t /\
  bytes_ok t /\ ser_vector ser_txin ins' = ser_vector ser_txin ins.
Proof.
  assert (Hgen : forall ins s ins' t, bytes_ok s -> read_witnesses ins s = Some (ins', t) ->
    s = concat (map (fun i => ser_vector ser_bytes i.(scriptWitness)) ins') ++ t /\
    bytes_ok t /\ map ser_txin ins' = map ser_txin ins).
  { clear. induction ins as [|i ins IH]; cbn; intros s ins' t Hs Hr; rinv; [done|].
    apply (canon_step _ _ _ _ _ (canon_vector _ _ canon_script) Hs) in Hr0 as [-> Hok].
    apply IH in Hr1 as (-> & ? & Heq); [|done]. cbn. rewrite Heq, <- app_assoc. done. }
  intros Hs Hr. apply Hgen in Hr as (? & ? & Heq); [|done]. split_and!; [done..|].
  unfold ser_vector, len. by rewrite <- (length_map ser_txin ins), <- Heq, length_map.
Qed.

Lemma canon_transaction aw : canon (UnserializeTransaction aw) (SerializeTransaction aw).
Proof.
  intros s tx t Hs Hr. unfold UnserializeTransaction in Hr.
  apply rbind_Some in Hr as (ver & s1 & H1 & Hr).
  apply (canon_step _ _ _ _ _ (canon_le 4) Hs) in H1 as [-> Hok1].
  apply rbind_Some in Hr as (vin0 & s2 & H2 & Hr). pose proof (read_vins_no_witness _ _ _ H2) as Hnw.
  apply (canon_step _ _ _ _ _ (canon_vector _ _ canon_txin) Hok1) in H2 as [-> Hok2].
  apply rbind_Some in Hr as ([[flags ins] outs] & s3 & Hbody & Hr).
  apply rbind_Some in Hr as ([flags' ins'] & s4 & Hwit & Hr).
  destruct (Z.eqb_spec flags' 0) as [->|]; [|done]. cbn [negb] in Hr. rinv.
  unfold SerializeTransaction. cbn [vin vout version nLockTime].
  destruct (bool_decide (vin0 = []) && aw) eqn:Hmark.
  - apply andb_true_iff in Hmark as [->%bool_decide_eq_true ->].
    apply rbind_Some in Hbody as (fl & s5 & H5 & Hbody).
    pose proof (read_le_bound _ _ _ _ Hok2 H5) as Hfl.
    apply (canon_step _ _ _ _ _ (canon_le 1) Hok2) in H5 as [-> Hok5].
    destruct (Z.eqb_spec fl 0) as [->|Hfl0]; cbn [negb] in Hbody.
    + rinv. change (negb (Z.land 0 1 =? 0)) with false in Hwit. cbn [andb] in Hwit. rinv.
      apply (canon_le 4) in Hr0 as ->; [|done]. rewrite <- !app_assoc. done.
    + apply rbind_Some in Hbody as (vin1 & s6 & H6 & Hbody).
      apply (canon_step _ _ _ _ _ (canon_vector _ _ canon_txin) Hok5) in H6 as [-> Hok6].
      apply rbind_Some in Hbody as (vout1 & s7 & H7 & Hbody).
      apply (canon_step _ _ _ _ _ (canon_vector _ _ canon_txout) Hok6) in H7 as [-> Hok7]. rinv.
      rewrite andb_true_r in Hwit. destruct (negb (Z.land flags 1 =? 0)); [|by rinv].
      apply rbind_Some in Hwit as (ins2 & s8 & H8 & Hwit).
      apply read_witnesses_inv in H8 as (-> & Hok8 & <-); [|done].
      destruct (HasWitness _) eqn:Hhw; unfold rret, rfail in Hwit; [|done].
      injection Hwit as Hx -> ->. apply Z.lxor_eq in Hx as ->.
      apply (canon_le 4) in Hr0 as ->; [|done]. unfold HasWitness in *. cbn [vin] in *.
      rewrite Hhw. cbn [andb]. rewrite <- !app_assoc. done.
  - apply rbind_Some in Hbody as (vout1 & s5 & H5 & Hbody).
    apply (canon_step _ _ _ _ _ (canon_vector _ _ canon_txout) Hok2) in H5 as [-> Hok5]. rinv.
    change (negb (Z.land 0 1 =? 0)) with false in Hwit. cbn [andb] in Hwit. rinv.
    apply (canon_le 4) in Hr0 as ->; [|done]. unfold HasWitness. cbn [vin].
    rewrite Hnw, andb_false_r. rewrite <- !app_assoc. done.
Qed.

Lemma strip_witness_id tx : HasWitness tx = false -> strip_witness tx = tx.
Proof.
  intros H. destruct tx as [ins outs ver lock]. unfold strip_witness. cbn [vin vout version nLockTime].
  f_equal. by apply no_witness_id.
Qed.

(**  Parsing a parent transaction and serializing it are inverse to each
    other, with and without witnesses: the bytes [s] parse to [tx] with rest [t]
    exactly when they are the serialization of [tx] followed by [t].  So no two
    encodings give the same transaction and no trailing data is absorbed. *)
Theorem Transaction_codec (aw : bool) (tx : CTransaction) (s t : bytes) :
  tx_ok tx -> (if aw then tx.(vin) <> [] else HasWitness tx = false) -> bytes_ok s ->
  UnserializeTransaction aw s = Some (tx, t) <-> s = SerializeTransaction aw tx ++ t.
Proof.
  intros Htx Haw Hs. split; [by apply canon_transaction|]. intros ->. destruct aw.
  - by apply reads_transaction_witness.
  - rewrite <- (strip_witness_id tx) at 2 by done. by apply reads_transaction_legacy.
Qed.

Lemma Hash_ok m : uint256_ok (Hash m).
Proof. unfold Hash. rewrite Hash256_spec. apply uint256_of_ok; auto using sha256_length, sha256_ok. Qed.

Lemma GetHash_ok tx : uint256_ok (GetHash tx).
Proof. apply Hash_ok. Qed.

Lemma MoneyRange_iff v : MoneyRange v = true <-> 0 <= v <= MAX_MONEY.
Proof. unfold MoneyRange. rewrite andb_true_iff, !Z.leb_le. done. Qed.

(** ** An instance of the codec theorem *)
Definition sample_tx : CTransaction :=
  mkTx [mkTxIn (mkOutPoint 9 0) [0x51] 0 [[1; 2]; []]] [mkTxOut 1000 [0x6a]] 2 0.

Lemma sample_tx_ok : tx_ok sample_tx.
Proof.
  unfold tx_ok, txin_ok, txout_ok, outpoint_ok, script_ok, uint256_ok. cbn [vin vout version nLockTime sample_tx].
  repeat split; try (by apply (bool_decide_unpack _)); repeat constructor; cbn;
    try (by apply (bool_decide_unpack _)); try lia.
Qed.

Lemma Transaction_codec_witness :
  UnserializeTransaction true (SerializeTransaction true sample_tx ++ [7]) = Some (sample_tx, [7]).
Proof.
  apply (Transaction_codec true sample_tx _ [7]).
  - exact sample_tx_ok.
  - discriminate.
  - by apply (bool_decide_unpack _).
  - reflexivity.
Defined.
