(* ===== verification/Confidential.v ===== *)
(** * Elements outputs (src/src/primitives/confidential.{h,cpp},
      src/src/primitives/transaction.h, src/src/primitives/txwitness.h)

    The child chain's outputs: explicit or committed assets, values and nonces.
    [g_con_elementsmode] is true on this network, so the Elements branch of
    each mode-dependent method is the one modelled. *)

From S2P Require Import Prelude Script Transaction.

(** The three instantiations of [CConfidentialCommitment]. *)
Inductive conf_kind := ConfAsset | ConfValue | ConfNonce.

Definition nExplicitSize (k : conf_kind) : Z :=
  match k with ConfAsset => 33 | ConfValue => 9 | ConfNonce => 33 end.
Definition PrefixA (k : conf_kind) : Z :=
  match k with ConfAsset => 10 | ConfValue => 8 | ConfNonce => 2 end.
Definition PrefixB (k : conf_kind) : Z :=
  match k with ConfAsset => 11 | ConfValue => 9 | ConfNonce => 3 end.
Definition nCommittedSize : Z := 33.

(** A commitment is its [vchCommitment]. *)
Module Conf.
Definition IsNull (vch : bytes) : bool := bytes_eqb vch [].
Definition IsExplicit (k : conf_kind) (vch : bytes) : bool :=
  (len vch =? nExplicitSize k) && (at_ vch 0 =? 1).
Definition IsCommitment (k : conf_kind) (vch : bytes) : bool :=
  (len vch =? nCommittedSize) && ((at_ vch 0 =? PrefixA k) || (at_ vch 0 =? PrefixB k)).
Definition IsValid (k : conf_kind) (vch : bytes) : bool :=
  IsNull vch || IsExplicit k vch || IsCommitment k vch.

Definition Serialize (vch : bytes) : bytes :=
  match vch with [] => [0] | ver :: t => ver :: t end.

Definition Unserialize (k : conf_kind) : reader bytes :=
  let* ver := read_le 1 in
  if ver =? 0 then rret []
  else
    let* sz := (if ver =? 1 then rret (nExplicitSize k)
                else if (ver =? PrefixA k) || (ver =? PrefixB k) then rret nCommittedSize
                else rfail) in
    let* t := read_bytes (Z.to_nat (sz - 1)) in rret (ver :: t).
End Conf.

(** [CConfidentialAsset]. *)
Definition SetToAsset (asset : uint256) : bytes := 1 :: uint256_bytes asset.
Definition GetAsset (nAsset : bytes) : uint256 := uint256_of (drop 1 nAsset).

(** [CConfidentialValue]. *)
Definition SetToAmount (amount : Z) : bytes := 1 :: be_encode 8 (u64 amount).
Definition GetAmount (nValue : bytes) : Z := to_int64 (be_decode (drop 1 nValue)).

Module Elements.
Record CTxOut := mkTxOut {
  nAsset : bytes; nValue : bytes; nNonce : bytes; scriptPubKey : bytes }.

Definition CTxOut_new (asset : uint256) (value : Z) (script : bytes) : CTxOut :=
  mkTxOut (SetToAsset asset) (SetToAmount value) [] script.

Definition IsFee (o : CTxOut) : bool :=
  bytes_eqb o.(scriptPubKey) [] && Conf.IsExplicit ConfValue o.(nValue) &&
  Conf.IsExplicit ConfAsset o.(nAsset).

Definition ser_txout (o : CTxOut) : bytes :=
  Conf.Serialize o.(nAsset) ++ Conf.Serialize o.(nValue) ++ Conf.Serialize o.(nNonce) ++
  ser_bytes o.(scriptPubKey).

Definition read_txout : reader CTxOut :=
  let* a := Conf.Unserialize ConfAsset in
  let* v := Conf.Unserialize ConfValue in
  let* c := Conf.Unserialize ConfNonce in
  if Conf.IsNull a || Conf.IsNull v then rfail
  else let* s := read_script in rret (mkTxOut a v c s).

Record CTxOutWitness := mkTxOutWitness { vchSurjectionproof : bytes; vchRangeproof : bytes }.

Definition CTxOutWitness_IsNull (w : CTxOutWitness) : bool :=
  bytes_eqb w.(vchSurjectionproof) [] && bytes_eqb w.(vchRangeproof) [].
End Elements.

(** ** Facts *)
Lemma drop1_cons (b : Z) t : drop 1 (b :: t) = t.
Proof. done. Qed.

Lemma SetToAsset_explicit a : Conf.IsExplicit ConfAsset (SetToAsset a) = true.
Proof.
  unfold Conf.IsExplicit, SetToAsset, len. cbn [length]. by rewrite uint256_bytes_length.
Qed.

Lemma GetAsset_SetToAsset a : uint256_ok a -> GetAsset (SetToAsset a) = a.
Proof. apply uint256_of_bytes. Qed.

Lemma SetToAmount_explicit v : Conf.IsExplicit ConfValue (SetToAmount v) = true.
Proof. done. Qed.

Lemma to_int64_u64 v : - 2^63 <= v < 2^63 -> to_int64 (u64 v) = v.
Proof. intros. unfold to_int64, u64. destruct (Z.ltb_spec (v mod 2^64) (2^63)); dlia. Qed.

Lemma GetAmount_SetToAmount v : - 2^63 <= v < 2^63 -> GetAmount (SetToAmount v) = v.
Proof.
  intros Hv. unfold GetAmount, SetToAmount. rewrite drop1_cons.
  rewrite be_decode_encode by (unfold u64; apply Z.mod_pos_bound; lia).
  by apply to_int64_u64.
Qed.

(** An explicit asset or value is determined by what it reads as. *)
Lemma explicit_inv k v : Conf.IsExplicit k v = true ->
  exists t, v = 1 :: t /\ len t = nExplicitSize k - 1.
Proof.
  unfold Conf.IsExplicit. intros H. bool_simp. destruct v as [|b t].
  - by destruct k.
  - exists t. unfold at_ in *. cbn in *. rewrite len_cons in *. subst. split; [done|lia].
Qed.

Lemma SetToAsset_GetAsset v : bytes_ok v -> Conf.IsExplicit ConfAsset v = true ->
  SetToAsset (GetAsset v) = v.
Proof.
  intros Hok (t & -> & Hl)%explicit_inv. unfold SetToAsset, GetAsset. rewrite drop1_cons. f_equal.
  inversion_clear Hok. apply uint256_bytes_of; [|done]. unfold len in Hl. cbn in Hl. lia.
Qed.

Lemma SetToAmount_GetAmount v : bytes_ok v -> Conf.IsExplicit ConfValue v = true ->
  SetToAmount (GetAmount v) = v.
Proof.
  intros Hok (t & -> & Hl)%explicit_inv. unfold SetToAmount, GetAmount. rewrite drop1_cons. f_equal.
  inversion_clear Hok as [|? ? _ Ht]. pose proof (be_decode_bound t Ht) as Hb.
  rewrite Hl in Hb. cbn [nExplicitSize] in *.
  assert (Hn : length t = 8%nat) by (unfold len in Hl; lia).
  replace (u64 (to_int64 (be_decode t))) with (be_decode t).
  - rewrite <- Hn. by apply be_encode_decode.
  - unfold to_int64, u64. destruct (Z.ltb_spec (be_decode t) (2^63)); dlia.
Qed.

Lemma reads_conf k v : Conf.IsValid k v = true -> reads (Conf.Unserialize k) v (Conf.Serialize v).
Proof.
  intros Hv. unfold Conf.Unserialize. destruct v as [|ver t]; cbn [Conf.Serialize].
  { eapply reads_bind_nil; [apply (reads_le 1 0); lia|]. apply reads_ret. }
  assert (Hver : (ver = 1 /\ len t = nExplicitSize k - 1) \/
    ((ver = PrefixA k \/ ver = PrefixB k) /\ len t = nCommittedSize - 1)).
  { unfold Conf.IsValid, Conf.IsExplicit, Conf.IsCommitment, Conf.IsNull, at_, bytes_eqb in Hv.
    rewrite bool_decide_eq_false_2 in Hv by done. rewrite len_cons in Hv. cbn [nth orb] in Hv.
    apply orb_true_iff in Hv as [Hv|Hv]; bool_simp; [left; split; [done|lia]|right].
    apply orb_true_iff in H0 as [H0|H0]; bool_simp; split; auto; lia. }
  eapply (reads_bind _ _ ver _ [ver]).
  { replace [ver] with (le_encode 1 ver); [apply reads_le|].
    - destruct k; cbn in *; lia.
    - cbn. rewrite u8_small; [done|]. unfold is_byte. destruct k; cbn in *; lia. }
  destruct (Z.eqb_spec ver 0); [destruct k; cbn in *; lia|].
  destruct Hver as [[-> Hl]|[Hp Hl]].
  - cbn [Z.eqb Pos.eqb]. apply reads_pure.
    eapply reads_bind_nil; [apply reads_bytes; unfold len in Hl; lia|apply reads_ret].
  - destruct (Z.eqb_spec ver 1); [destruct k; cbn in *; lia|].
    replace ((ver =? PrefixA k) || (ver =? PrefixB k)) with true by lia. apply reads_pure.
    eapply reads_bind_nil; [apply reads_bytes; unfold len in Hl; lia|apply reads_ret].
Qed.

(** An Elements output with valid asset, value and nonce
    commitments, of which the asset and the value are not null, is read back
    from its serialization, leaving what follows it. *)
Theorem Elements_read_txout (o : Elements.CTxOut) (t : bytes) :
  Conf.IsValid ConfAsset o.(Elements.nAsset) = true ->
  Conf.IsValid ConfValue o.(Elements.nValue) = true ->
  Conf.IsValid ConfNonce o.(Elements.nNonce) = true ->
  o.(Elements.nAsset) <> [] -> o.(Elements.nValue) <> [] -> script_ok o.(Elements.scriptPubKey) ->
  Elements.read_txout (Elements.ser_txout o ++ t) = Some (o, t).
Proof.
  intros Ha Hv Hn Ha0 Hv0 Hs. revert t.
  change (reads Elements.read_txout o (Elements.ser_txout o)).
  eapply reads_bind; [by apply reads_conf|]. eapply reads_bind; [by apply reads_conf|].
  eapply reads_bind; [by apply reads_conf|].
  unfold Conf.IsNull, bytes_eqb. rewrite !bool_decide_eq_false_2 by done. cbn [orb].
  eapply reads_bind_nil; [by apply reads_script|]. by destruct o.
Qed.

(** ** An instance of the theorem *)
Definition sample_confidential_output : Elements.CTxOut := Elements.CTxOut_new 7 1000 [0x6a].

Lemma Elements_read_txout_witness :
  Elements.read_txout (Elements.ser_txout sample_confidential_output ++ [9])
  = Some (sample_confidential_output, [9]).
Proof.
  apply (Elements_read_txout sample_confidential_output [9]);
    [reflexivity|reflexivity|reflexivity|discriminate|discriminate|].
  split; [by apply (bool_decide_unpack _)|vm_compute; discriminate].
Defined.
