(* ===== verification/Withdrawal.v ===== *)
(** * Native withdrawals (src/src/drivechain_withdrawal.{h,cpp})

    The canonical burn output of the child chain, the blinded M6 transaction
    that pays it on the parent chain, and the 74-byte reference that ties the
    second to the first.  Outputs of the C++ functions that are reset before
    an early return are the absent outputs of an [Err]. *)

From S2P Require Import Prelude Sha256 Script Transaction Confidential.

Definition NATIVE_WITHDRAWAL_MAX_DESTINATION_SIZE : Z := 128.
Definition NATIVE_WITHDRAWAL_M6_REFERENCE_SIZE : Z := 74.
Definition NATIVE_WITHDRAWAL_MAX_M6_LEGACY_SIZE : Z := 251.

Record NativeWithdrawal := mkNativeWithdrawal {
  parent_genesis : uint256;
  destination : bytes;
  burn_amount : Z;
  parent_fee : Z;
  payout_amount : Z }.

Record NativeWithdrawalM6 := mkNativeWithdrawalM6 {
  blinded_transaction : CTransaction;
  burn_commitment : bytes;
  m6_burn_amount : Z;
  m6_parent_fee : Z;
  m6_payout_amount : Z;
  m6_destination : bytes;
  legacy_serialization : bytes;
  m6id : uint256 }.

Definition M6_REFERENCE_MAGIC : bytes := [69; 76; 87; 68].   (* "ELWD" *)
Definition M6_REFERENCE_VERSION : Z := 1.
Definition M6_REFERENCE_GENESIS_OFFSET : nat := 5.
Definition M6_REFERENCE_SLOT_OFFSET : nat := M6_REFERENCE_GENESIS_OFFSET + 32.
Definition M6_REFERENCE_TXID_OFFSET : nat := M6_REFERENCE_SLOT_OFFSET + 1.
Definition M6_REFERENCE_VOUT_OFFSET : nat := M6_REFERENCE_TXID_OFFSET + 32.

(** ** Amounts *)
Definition EncodeFee (fee : Z) : bytes := be_encode 8 (u64 fee).

Definition DecodeFee (encoded : bytes) : result Z :=
  ensure (len encoded =? 8) "native withdrawal parent fee is not eight bytes";;
  let value := be_decode encoded in
  ensure (value <=? MAX_MONEY) "native withdrawal parent fee is outside the money range";;
  Ok value.

Definition CheckAmounts (burn fee : Z) : result Z :=
  ensure (negb ((burn <=? 0) || negb (MoneyRange burn)))
    "native withdrawal burn amount is outside the money range";;
  ensure (negb ((fee <? 0) || negb (MoneyRange fee)))
    "native withdrawal parent fee is outside the money range";;
  ensure (negb (burn <=? fee)) "native withdrawal burn amount must exceed its parent fee";;
  let payout := burn - fee in
  ensure (negb ((payout <=? 0) || negb (MoneyRange payout)))
    "native withdrawal payout amount is outside the money range";;
  Ok payout.

Definition destination_size_ok (dest : bytes) : bool :=
  negb (bytes_eqb dest [] || (NATIVE_WITHDRAWAL_MAX_DESTINATION_SIZE <? len dest)).

(** ** The burn script *)
Definition BuildNativeWithdrawalScript (genesis : uint256) (dest : bytes) (fee : Z) : result bytes :=
  ensure (negb (IsNull genesis)) "native withdrawal parent genesis is null";;
  ensure (destination_size_ok dest) "native withdrawal destination size is outside 1..128 bytes";;
  ensure (negb ((fee <? 0) || negb (MoneyRange fee)))
    "native withdrawal parent fee is outside the money range";;
  Ok (OP_RETURN :: push_data (uint256_bytes genesis) ++ push_data dest ++ push_data (EncodeFee fee)).

(** [GetOp(cursor, opcode, data)] whose opcode must be a push. *)
Definition GetPush (pc : bytes) : option (bytes * bytes) :=
  match GetScriptOp pc with
  | (pc', Some (op, data)) => if OP_PUSHDATA4 <? op then None else Some (pc', data)
  | (_, None) => None
  end.

(** OP_RETURN and exactly three pushes. *)
Definition SplitWithdrawalScript (script : bytes) : option (bytes * bytes * bytes) :=
  match GetScriptOp script with
  | (pc, Some (op, _)) =>
      if negb (op =? OP_RETURN) then None else
      '(pc1, genesis_bytes) ← GetPush pc;
      '(pc2, destination_bytes) ← GetPush pc1;
      '(pc3, fee_bytes) ← GetPush pc2;
      if bytes_eqb pc3 [] then Some (genesis_bytes, destination_bytes, fee_bytes) else None
  | (_, None) => None
  end.

Definition ParseNativeWithdrawalScript (script : bytes) (expected_parent_genesis : uint256)
    : result (bytes * Z) :=
  ensure (negb (IsNull expected_parent_genesis)) "native withdrawal parent genesis is null";;
  match SplitWithdrawalScript script with
  | None => Err "native withdrawal script is malformed or has trailing bytes"
  | Some (genesis_bytes, destination_bytes, fee_bytes) =>
      ensure ((len genesis_bytes =? 32) && (uint256_of genesis_bytes =? expected_parent_genesis))
        "native withdrawal script has the wrong parent genesis";;
      ensure (destination_size_ok destination_bytes)
        "native withdrawal destination size is outside 1..128 bytes";;
      fee ← DecodeFee fee_bytes;
      canonical ← BuildNativeWithdrawalScript expected_parent_genesis destination_bytes fee;
      ensure (bytes_eqb script canonical)
        "native withdrawal script uses a noncanonical push encoding";;
      Ok (destination_bytes, fee)
  end.

(** ** The burn output *)
Definition BuildNativeWithdrawalOutput (pegged_asset genesis : uint256) (dest : bytes)
    (burn fee : Z) : result Elements.CTxOut :=
  ensure (negb (IsNull pegged_asset)) "native withdrawal pegged asset is null";;
  CheckAmounts burn fee;;
  script ← BuildNativeWithdrawalScript genesis dest fee;
  Ok (Elements.CTxOut_new pegged_asset burn script).

Definition ParseNativeWithdrawalOutput (output : Elements.CTxOut)
    (output_witness : option Elements.CTxOutWitness)
    (expected_pegged_asset expected_parent_genesis : uint256) : result NativeWithdrawal :=
  ensure (negb (IsNull expected_pegged_asset)) "native withdrawal pegged asset is null";;
  ensure (Conf.IsExplicit ConfAsset output.(Elements.nAsset) &&
          (GetAsset output.(Elements.nAsset) =? expected_pegged_asset))
    "native withdrawal asset is not the explicit pegged asset";;
  ensure (Conf.IsExplicit ConfValue output.(Elements.nValue))
    "native withdrawal value is not explicit";;
  ensure (Conf.IsNull output.(Elements.nNonce)) "native withdrawal nonce is not null";;
  ensure (match output_witness with
          | Some w => Elements.CTxOutWitness_IsNull w
          | None => true
          end) "native withdrawal output proofs are not empty";;
  '(dest, fee) ← ParseNativeWithdrawalScript output.(Elements.scriptPubKey) expected_parent_genesis;
  let burn := GetAmount output.(Elements.nValue) in
  payout ← CheckAmounts burn fee;
  Ok (mkNativeWithdrawal expected_parent_genesis dest burn fee payout).

(** ** The M6 burn reference *)
Definition ComputeNativeWithdrawalM6Commitment (elements_genesis : uint256) (sidechain_slot : Z)
    (burn_txid : uint256) (burn_vout : Z) : bytes :=
  M6_REFERENCE_MAGIC ++ [M6_REFERENCE_VERSION] ++ uint256_bytes elements_genesis ++
  [u8 sidechain_slot] ++ uint256_bytes burn_txid ++ be_encode 4 burn_vout.

Definition ParseNativeWithdrawalM6Commitment (commitment_script : bytes)
    : result (uint256 * Z * uint256 * Z) :=
  match ExtractSingleCanonicalPush commitment_script NATIVE_WITHDRAWAL_M6_REFERENCE_SIZE with
  | None => Err "blinded M6 burn reference is not canonical"
  | Some payload =>
      ensure (bytes_eqb (take 4 payload) M6_REFERENCE_MAGIC)
        "blinded M6 burn reference has the wrong domain";;
      ensure (at_ payload 4 =? M6_REFERENCE_VERSION)
        "blinded M6 burn reference has an unsupported version";;
      let elements_genesis := uint256_of (slice payload M6_REFERENCE_GENESIS_OFFSET 32) in
      let sidechain_slot := at_ payload M6_REFERENCE_SLOT_OFFSET in
      let burn_txid := uint256_of (slice payload M6_REFERENCE_TXID_OFFSET 32) in
      let burn_vout := be_decode (slice payload M6_REFERENCE_VOUT_OFFSET 4) in
      ensure (negb (IsNull elements_genesis))
        "blinded M6 burn reference has a null Elements genesis";;
      ensure (negb (IsNull burn_txid || (burn_vout =? UINT32_MAX)))
        "blinded M6 burn reference has an unknown burn outpoint";;
      Ok (elements_genesis, sidechain_slot, burn_txid, burn_vout)
  end.

(** ** The blinded M6 *)
Definition SerializeNativeWithdrawalM6Legacy (tx : CTransaction) : bytes :=
  SerializeTransaction false tx.

(** The preflight's [consume_output]: the cursor is the rest of the buffer. *)
Definition consume_output (minimum maximum : Z) (rest : bytes) : option bytes :=
  if len rest <? 9 then None else
  let script_size := at_ rest 8 in
  if (script_size <? minimum) || (maximum <? script_size) || (len rest <? 9 + script_size) then None
  else Some (drop (Z.to_nat (9 + script_size)) rest).

Definition preflight_outputs (rest : bytes) : option bytes :=
  rest ← consume_output 10 10 rest;
  rest ← consume_output 76 76 rest;
  consume_output 1 NATIVE_WITHDRAWAL_MAX_DESTINATION_SIZE rest.

Definition DeserializeNativeWithdrawalM6Legacy (b : bytes) : result CTransaction :=
  ensure (negb ((len b <? 124) || (NATIVE_WITHDRAWAL_MAX_M6_LEGACY_SIZE <? len b) ||
                negb (at_ b 4 =? 0) || negb (at_ b 5 =? 3)))
    "blinded M6 does not have the bounded legacy zero-input/three-output frame";;
  ensure (match preflight_outputs (drop 6 b) with
          | Some rest => len rest =? 4
          | None => false
          end) "blinded M6 has noncanonical output lengths or trailing bytes";;
  match UnserializeTransaction false b with
  | None => Err "invalid blinded M6 legacy serialization: "
  | Some (tx, rest) =>
      ensure (bytes_eqb rest []) "blinded M6 legacy serialization has trailing bytes";;
      Ok tx
  end.

Definition ComputeNativeWithdrawalM6Id (tx : CTransaction) : uint256 :=
  Hash (SerializeNativeWithdrawalM6Legacy tx).

Definition check_m6_outpoint (elements_genesis burn_txid : uint256) (burn_vout : Z) : result unit :=
  ensure (negb (IsNull elements_genesis)) "blinded M6 Elements genesis is null";;
  ensure (negb (IsNull burn_txid || (burn_vout =? UINT32_MAX))) "blinded M6 burn outpoint is unknown".

Definition BuildNativeWithdrawalM6 (elements_genesis : uint256) (sidechain_slot : Z)
    (burn_txid : uint256) (burn_vout : Z) (w : NativeWithdrawal) : result NativeWithdrawalM6 :=
  check_m6_outpoint elements_genesis burn_txid burn_vout;;
  ensure (destination_size_ok w.(destination)) "blinded M6 destination size is outside 1..128 bytes";;
  payout ← CheckAmounts w.(burn_amount) w.(parent_fee);
  ensure (negb (negb (w.(payout_amount) =? 0) && negb (w.(payout_amount) =? payout)))
    "blinded M6 withdrawal has an inconsistent payout amount";;
  let commitment :=
    ComputeNativeWithdrawalM6Commitment elements_genesis sidechain_slot burn_txid burn_vout in
  let tx := mkTx []
    [mkTxOut 0 (BuildSinglePushScript (EncodeFee w.(parent_fee)));
     mkTxOut 0 (BuildSinglePushScript commitment);
     mkTxOut payout w.(destination)] CURRENT_VERSION 0 in
  let legacy := SerializeNativeWithdrawalM6Legacy tx in
  Ok (mkNativeWithdrawalM6 tx commitment w.(burn_amount) w.(parent_fee) payout
        w.(destination) legacy (Hash legacy)).

Definition ParseNativeWithdrawalM6 (tx : CTransaction) (elements_genesis : uint256)
    (sidechain_slot : Z) (burn_txid : uint256) (burn_vout : Z) : result NativeWithdrawalM6 :=
  check_m6_outpoint elements_genesis burn_txid burn_vout;;
  match tx.(vin), tx.(vout) with
  | [], [fee_output; commitment_output; payout_output] =>
      ensure ((tx.(version) =? CURRENT_VERSION) && (tx.(nLockTime) =? 0))
        "blinded M6 does not have canonical version, inputs, outputs, and locktime";;
      ensure ((fee_output.(nValue) =? 0) && (commitment_output.(nValue) =? 0))
        "blinded M6 commitment outputs are not zero-valued";;
      match ExtractSingleCanonicalPush fee_output.(scriptPubKey) 8 with
      | None => Err "blinded M6 fee commitment is not canonical"
      | Some fee_bytes =>
          fee ← DecodeFee fee_bytes;
          '(g, slot, txid, vout) ← ParseNativeWithdrawalM6Commitment commitment_output.(scriptPubKey);
          ensure ((g =? elements_genesis) && (slot =? sidechain_slot) && (txid =? burn_txid) &&
                  (vout =? burn_vout))
            "blinded M6 burn reference does not match its Elements outpoint";;
          let payout := payout_output.(nValue) in
          ensure (destination_size_ok payout_output.(scriptPubKey) &&
                  negb ((payout <=? 0) || negb (MoneyRange payout) || (MAX_MONEY - payout <? fee)))
            "blinded M6 payout is outside canonical bounds";;
          let burn := fee + payout in
          checked ← CheckAmounts burn fee;
          ensure (checked =? payout) EmptyString;;
          let legacy := SerializeNativeWithdrawalM6Legacy tx in
          Ok (mkNativeWithdrawalM6 tx
                (ComputeNativeWithdrawalM6Commitment elements_genesis sidechain_slot burn_txid burn_vout)
                burn fee payout payout_output.(scriptPubKey) legacy (Hash legacy))
      end
  | _, _ => Err "blinded M6 does not have canonical version, inputs, outputs, and locktime"
  end.

(** ** Facts on amounts *)
Lemma CheckAmounts_iff burn fee payout :
  CheckAmounts burn fee = Ok payout <->
  0 <= fee < burn /\ burn <= MAX_MONEY /\ payout = burn - fee.
Proof.
  unfold CheckAmounts, MoneyRange. split.
  - intros H. inv_ok. bool_simp. lia.
  - intros (H1 & H2 & ->). ensure_lia.
Qed.

Lemma CheckAmounts_ok burn fee : 0 <= fee < burn -> burn <= MAX_MONEY ->
  CheckAmounts burn fee = Ok (burn - fee).
Proof. intros. by apply CheckAmounts_iff. Qed.

Lemma EncodeFee_length fee : len (EncodeFee fee) = 8.
Proof. unfold len, EncodeFee. by rewrite be_encode_length. Qed.

Lemma DecodeFee_EncodeFee fee : 0 <= fee <= MAX_MONEY -> DecodeFee (EncodeFee fee) = Ok fee.
Proof.
  intros Hf. unfold DecodeFee. rewrite EncodeFee_length. ensure_lia.
  unfold EncodeFee, MAX_MONEY, COIN in *. unfold u64. rewrite Z.mod_small by lia.
  rewrite be_decode_encode by lia. ensure_lia.
Qed.

Lemma DecodeFee_inv b fee : bytes_ok b -> DecodeFee b = Ok fee ->
  b = EncodeFee fee /\ 0 <= fee <= MAX_MONEY.
Proof.
  intros Hok H. unfold DecodeFee in H. inv_ok. bool_simp. pose proof (be_decode_bound b Hok) as Hb.
  assert (Hl : length b = 8%nat) by (unfold len in *; lia).
  split; [|lia]. unfold EncodeFee, u64. unfold MAX_MONEY, COIN in *.
  rewrite Z.mod_small by lia. rewrite <- Hl. by rewrite be_encode_decode.
Qed.

Lemma destination_size_ok_iff d : destination_size_ok d = true <-> 1 <= len d <= 128.
Proof.
  unfold destination_size_ok, NATIVE_WITHDRAWAL_MAX_DESTINATION_SIZE. pose proof (len_nonneg d).
  destruct d as [|b d]; [rewrite len_nil; cbn; split; [done|lia]|]. rewrite len_cons in *. pose proof (len_nonneg d).
  unfold bytes_eqb. rewrite bool_decide_eq_false_2 by done. cbn [orb].
  rewrite negb_true_iff, Z.ltb_ge. lia.
Qed.

(** ** The burn script *)
Lemma GetPush_push d rest : len d + len rest < 2^32 -> GetPush (push_data d ++ rest) = Some (rest, d).
Proof.
  intros H. destruct (GetScriptOp_push d rest H) as (op & Hop & E). unfold GetPush. rewrite E.
  by destruct (Z.ltb_spec OP_PUSHDATA4 op); [lia|].
Qed.

Lemma SplitWithdrawalScript_build a b c : len a <= 1000 -> len b <= 1000 -> len c <= 1000 ->
  SplitWithdrawalScript (OP_RETURN :: push_data a ++ push_data b ++ push_data c) = Some (a, b, c).
Proof.
  intros Ha Hb Hc. unfold SplitWithdrawalScript. rewrite GetScriptOp_return.
  change (OP_RETURN =? OP_RETURN) with true. cbn [negb].
  assert (Hp : forall x, len x <= 1000 -> len (push_data x) <= 1005).
  { intros x Hx. unfold push_data. rewrite len_app. unfold AppendDataSize.
    repeat case_match; unfold len in *; cbn [length]; rewrite ?le_encode_length; lia. }
  pose proof (Hp b Hb). pose proof (Hp c Hc).
  rewrite GetPush_push by (rewrite len_app; lia). cbn [mbind option_bind].
  rewrite GetPush_push by lia. cbn [mbind option_bind].
  rewrite <- (app_nil_r (push_data c)). rewrite GetPush_push by (rewrite len_nil; lia). done.
Qed.

Lemma BuildNativeWithdrawalScript_Ok g d f s :
  BuildNativeWithdrawalScript g d f = Ok s <->
  g <> 0 /\ 1 <= len d <= 128 /\ 0 <= f <= MAX_MONEY /\
  s = OP_RETURN :: push_data (uint256_bytes g) ++ push_data d ++ push_data (EncodeFee f).
Proof.
  unfold BuildNativeWithdrawalScript, IsNull. split.
  - intros H. inv_ok. rewrite destination_size_ok_iff in *. bool_simp.
    rewrite MoneyRange_iff in *. done.
  - intros (H1 & H2 & H3 & ->). rewrite <- destination_size_ok_iff in H2. rewrite H2.
    rewrite (proj2 (MoneyRange_iff f)) by done. ensure_lia.
Qed.

Lemma ParseNativeWithdrawalScript_inv s g d f :
  ParseNativeWithdrawalScript s g = Ok (d, f) -> BuildNativeWithdrawalScript g d f = Ok s.
Proof.
  unfold ParseNativeWithdrawalScript. intros H. inv_ok.
  destruct (SplitWithdrawalScript s) as [[[gb db] fb]|]; [|done]. inv_ok. bool_simp. by subst.
Qed.

(** The parser accepts exactly the scripts the builder writes. *)
Lemma ParseNativeWithdrawalScript_iff (s : bytes) (g : uint256) (d : bytes) (f : Z) :
  uint256_ok g ->
  ParseNativeWithdrawalScript s g = Ok (d, f) <-> BuildNativeWithdrawalScript g d f = Ok s.
Proof.
  intros Hg. split; [apply ParseNativeWithdrawalScript_inv|].
  - intros HB. pose proof HB as (H1 & H2 & H3 & Hs)%BuildNativeWithdrawalScript_Ok.
    unfold ParseNativeWithdrawalScript. subst s. rewrite SplitWithdrawalScript_build;
      [|by rewrite uint256_bytes_len|lia|by rewrite EncodeFee_length].
    cbv beta iota. unfold IsNull. rewrite uint256_bytes_len, uint256_of_bytes by done.
    rewrite (proj2 (destination_size_ok_iff d)) by done. ensure_lia.
    rewrite DecodeFee_EncodeFee by done. cbn [mbind result_bind].
    rewrite HB. cbn [mbind result_bind]. by rewrite bytes_eqb_refl.
Qed.

(** ** The burn output *)
Definition elements_output_ok (o : Elements.CTxOut) : Prop :=
  bytes_ok o.(Elements.nAsset) /\ bytes_ok o.(Elements.nValue).

(**  The burn output parser accepts exactly the outputs the builder
    makes: an output parses to a withdrawal if and only if building with the
    parsed destination, amount and fee yields that very output, with the payout
    equal to the amount less the fee and no blinding data attached. *)
Theorem NativeWithdrawalOutput_roundtrip (o : Elements.CTxOut) (wit : option Elements.CTxOutWitness)
    (a g : uint256) (w : NativeWithdrawal) :
  uint256_ok a -> uint256_ok g -> elements_output_ok o ->
  ParseNativeWithdrawalOutput o wit a g = Ok w <->
  BuildNativeWithdrawalOutput a g w.(destination) w.(burn_amount) w.(parent_fee) = Ok o /\
  w.(parent_genesis) = g /\ w.(payout_amount) = w.(burn_amount) - w.(parent_fee) /\
  (wit = None \/ wit = Some (Elements.mkTxOutWitness [] [])).
Proof.
  intros Ha Hg [Hoa Hov].
  unfold ParseNativeWithdrawalOutput, BuildNativeWithdrawalOutput. split.
  - intros H. inv_ok. bool_simp.
    apply ParseNativeWithdrawalScript_iff in Hok4; [|done].
    unfold Conf.IsNull in *. cbn [destination burn_amount parent_fee parent_genesis payout_amount].
    rewrite Hok5, ensure_bind by (by apply negb_true_iff). cbn [mbind result_bind].
    apply CheckAmounts_iff in Hok5 as (_ & _ & ->).
    rewrite Hok4. cbn [mbind result_bind]. split_and!; [|done|done|].
    + f_equal. unfold Elements.CTxOut_new. destruct o as [oa ov on os].
      cbn [Elements.nAsset Elements.nValue Elements.nNonce Elements.scriptPubKey] in *. subst a.
      apply bytes_eqb_eq in Hok2 as ->.
      by rewrite SetToAsset_GetAsset, SetToAmount_GetAmount.
    + destruct wit as [[wx wy]|]; [right|by left]. unfold Elements.CTxOutWitness_IsNull in Hok3.
      cbn in Hok3. bool_simp. by subst.
  - intros (H & <- & Hp & Hw). inv_ok. pose proof Hok0 as HC. apply CheckAmounts_iff in Hok0 as (Hf & Hb & ->).
    assert (Hr : - 2^63 <= burn_amount w < 2^63) by (unfold MAX_MONEY, COIN in Hb; lia).
    unfold Elements.CTxOut_new. cbn [Elements.nAsset Elements.nValue Elements.nNonce Elements.scriptPubKey].
    rewrite SetToAsset_explicit, SetToAmount_explicit, GetAsset_SetToAsset, GetAmount_SetToAmount by done.
    rewrite Z.eqb_refl. apply ParseNativeWithdrawalScript_iff in Hok1; [|done].
    rewrite ensure_bind by done. do 3 rewrite ensure_bind by done.
    rewrite ensure_bind by (by destruct Hw as [-> | ->]).
    rewrite Hok1. cbn [mbind result_bind]. rewrite HC. cbn [mbind result_bind].
    rewrite <- Hp. by destruct w.
Qed.


(** ** The M6 burn reference *)
Definition burn_ref_ok (g : uint256) (slot : Z) (txid : uint256) (vout : Z) : Prop :=
  uint256_ok g /\ is_byte slot /\ uint256_ok txid /\ 0 <= vout < 2^32 /\
  g <> 0 /\ txid <> 0 /\ vout <> UINT32_MAX.

Lemma ComputeNativeWithdrawalM6Commitment_len g slot txid vout :
  len (ComputeNativeWithdrawalM6Commitment g slot txid vout) = NATIVE_WITHDRAWAL_M6_REFERENCE_SIZE.
Proof. done. Qed.

Lemma ComputeNativeWithdrawalM6Commitment_ok g slot txid vout :
  bytes_ok (ComputeNativeWithdrawalM6Commitment g slot txid vout).
Proof.
  unfold ComputeNativeWithdrawalM6Commitment, M6_REFERENCE_MAGIC, M6_REFERENCE_VERSION.
  repeat apply bytes_ok_app; auto with bytes_db; by apply (bool_decide_unpack _).
Qed.

#[export] Hint Resolve ComputeNativeWithdrawalM6Commitment_ok : bytes_db.

(** The fields of a reference sit at the offsets the parser reads. *)
Lemma commitment_fields g slot txid vout (c := ComputeNativeWithdrawalM6Commitment g slot txid vout) :
  take 4 c = M6_REFERENCE_MAGIC /\ at_ c 4 = M6_REFERENCE_VERSION /\
  slice c M6_REFERENCE_GENESIS_OFFSET 32 = uint256_bytes g /\
  at_ c M6_REFERENCE_SLOT_OFFSET = u8 slot /\
  slice c M6_REFERENCE_TXID_OFFSET 32 = uint256_bytes txid /\
  slice c M6_REFERENCE_VOUT_OFFSET 4 = be_encode 4 vout.
Proof. by split_and!. Qed.

(** A 74-byte payload is the concatenation of its fields. *)
Lemma commitment_unslice c : length c = 74%nat ->
  c = take 4 c ++ [at_ c 4] ++ slice c 5 32 ++ [at_ c 37] ++ slice c 38 32 ++ slice c 70 4.
Proof.
  intros Hl. do 74 (destruct c as [|? c]; [done|]). by destruct c.
Qed.

Lemma ParseNativeWithdrawalM6Commitment_iff script g slot txid vout :
  bytes_ok script ->
  ParseNativeWithdrawalM6Commitment script = Ok (g, slot, txid, vout) <->
  script = BuildSinglePushScript (ComputeNativeWithdrawalM6Commitment g slot txid vout) /\
  burn_ref_ok g slot txid vout.
Proof.
  intros Hok. unfold ParseNativeWithdrawalM6Commitment. split.
  - destruct (ExtractSingleCanonicalPush _ _) as [p|] eqn:E; [|done].
    apply ExtractSingleCanonicalPush_inv in E as [-> Hl]. intros H. inv_ok.
    unfold IsNull in *. bool_simp.
    assert (Hp : bytes_ok p) by (by apply BuildSinglePushScript_ok_inv).
    assert (Hn : length p = 74%nat) by (unfold len, NATIVE_WITHDRAWAL_M6_REFERENCE_SIZE in Hl; lia).
    assert (Hs : forall i n, (i + n <= 74)%nat -> length (slice p i n) = n)
      by (intros; apply slice_length; lia).
    assert (Hb : is_byte (at_ p 37)) by (apply at_byte; [done|lia]).
    unfold burn_ref_ok, M6_REFERENCE_VOUT_OFFSET, M6_REFERENCE_TXID_OFFSET, M6_REFERENCE_SLOT_OFFSET,
      M6_REFERENCE_GENESIS_OFFSET in *. cbn [Nat.add] in *.
    split; [f_equal|].
    + unfold ComputeNativeWithdrawalM6Commitment.
      rewrite (uint256_bytes_of (slice p 5 32)), (uint256_bytes_of (slice p 38 32))
        by first [apply Hs; lia|auto with bytes_db].
      rewrite u8_small by done.
      replace (be_encode 4 (be_decode (slice p 70 4))) with (slice p 70 4).
      * rewrite <- Hok0, <- Hok1. by apply commitment_unslice.
      * pose proof (be_encode_decode (slice p 70 4)) as E. rewrite Hs in E by done.
        by rewrite E by auto with bytes_db.
    + pose proof (be_decode_bound (slice p 70 4) ltac:(auto with bytes_db)) as Hv.
      unfold len in Hv. rewrite Hs in Hv by done.
      refine (conj _ (conj _ (conj _ (conj Hv (conj _ (conj _ _)))))); auto;
        apply uint256_of_ok; first [apply Hs; lia|auto with bytes_db].
  - intros [-> (Hg & Hsl & Ht & Hv & Hg0 & Ht0 & Hv0)].
    rewrite <- (ComputeNativeWithdrawalM6Commitment_len g slot txid vout).
    rewrite ExtractSingleCanonicalPush_build by done.
    destruct (commitment_fields g slot txid vout) as (-> & -> & -> & -> & -> & ->).
    rewrite !uint256_of_bytes, be_decode_encode, u8_small by done. unfold IsNull.
    rewrite bytes_eqb_refl. change (M6_REFERENCE_VERSION =? M6_REFERENCE_VERSION) with true.
    ensure_lia.
Qed.

(** ** The blinded M6 *)
Definition blinded_m6_tx (g : uint256) (slot : Z) (txid : uint256) (vout fee payout : Z)
    (dest : bytes) : CTransaction :=
  mkTx [] [mkTxOut 0 (BuildSinglePushScript (EncodeFee fee));
           mkTxOut 0 (BuildSinglePushScript (ComputeNativeWithdrawalM6Commitment g slot txid vout));
           mkTxOut payout dest] CURRENT_VERSION 0.

Definition m6_of (g : uint256) (slot : Z) (txid : uint256) (vout fee payout : Z) (dest : bytes)
    : NativeWithdrawalM6 :=
  let tx := blinded_m6_tx g slot txid vout fee payout dest in
  mkNativeWithdrawalM6 tx (ComputeNativeWithdrawalM6Commitment g slot txid vout)
    (fee + payout) fee payout dest (SerializeNativeWithdrawalM6Legacy tx)
    (ComputeNativeWithdrawalM6Id tx).

Definition m6_amounts_ok (fee payout : Z) (dest : bytes) : Prop :=
  0 <= fee /\ 0 < payout /\ fee + payout <= MAX_MONEY /\ 1 <= len dest <= 128.

(** The record the builder returns, once its checks passed. *)
Lemma m6_of_burn g slot txid vout burn fee dest :
  mkNativeWithdrawalM6 (blinded_m6_tx g slot txid vout fee (burn - fee) dest)
    (ComputeNativeWithdrawalM6Commitment g slot txid vout) burn fee (burn - fee) dest
    (SerializeNativeWithdrawalM6Legacy (blinded_m6_tx g slot txid vout fee (burn - fee) dest))
    (ComputeNativeWithdrawalM6Id (blinded_m6_tx g slot txid vout fee (burn - fee) dest))
  = m6_of g slot txid vout fee (burn - fee) dest.
Proof. unfold m6_of. by replace (fee + (burn - fee)) with burn by lia. Qed.

Lemma check_m6_outpoint_ok g txid vout : g <> 0 -> txid <> 0 -> vout <> UINT32_MAX ->
  check_m6_outpoint g txid vout = Ok tt.
Proof. intros. unfold check_m6_outpoint, IsNull. rewrite ensure_bind, ensure_true by lia. done. Qed.

Lemma BuildNativeWithdrawalM6_Ok g slot txid vout w m6 :
  BuildNativeWithdrawalM6 g slot txid vout w = Ok m6 <->
  let payout := w.(burn_amount) - w.(parent_fee) in
  g <> 0 /\ txid <> 0 /\ vout <> UINT32_MAX /\
  m6_amounts_ok w.(parent_fee) payout w.(destination) /\
  (w.(payout_amount) = 0 \/ w.(payout_amount) = payout) /\
  m6 = m6_of g slot txid vout w.(parent_fee) payout w.(destination).
Proof.
  cbv zeta. rewrite <- m6_of_burn. unfold BuildNativeWithdrawalM6,
    check_m6_outpoint, IsNull, m6_amounts_ok, ComputeNativeWithdrawalM6Id.
  cbv zeta. split.
  - intros H. inv_ok. rewrite destination_size_ok_iff in *.
    apply CheckAmounts_iff in Hok1 as (? & ? & ->). bool_simp.
    refine (conj _ (conj _ (conj _ (conj _ (conj _ _))))); [lia..|reflexivity].
  - intros (Hg & Ht & Hv & Ha & Hp & ->).
    rewrite (proj2 (destination_size_ok_iff _)) by apply Ha.
    rewrite ensure_bind by lia. rewrite ensure_true by lia. cbn [mbind result_bind].
    rewrite ensure_bind by lia. rewrite CheckAmounts_ok by lia. cbn [mbind result_bind].
    rewrite ensure_bind by lia. reflexivity.
Qed.

Lemma ParseNativeWithdrawalM6_sound tx g slot txid vout m6 :
  Forall txout_ok tx.(Transaction.vout) ->
  ParseNativeWithdrawalM6 tx g slot txid vout = Ok m6 ->
  exists fee payout dest, burn_ref_ok g slot txid vout /\ m6_amounts_ok fee payout dest /\
    tx = blinded_m6_tx g slot txid vout fee payout dest /\
    m6 = m6_of g slot txid vout fee payout dest.
Proof.
  intros Houts H. unfold ParseNativeWithdrawalM6 in H. inv_ok.
  destruct tx as [ins outs ver lock]. cbn [vin Transaction.vout] in *.
  destruct ins; [|done]. destruct outs as [|[fv fs] [|[cv cs] [|[pv ps] [|]]]]; try done.
  do 3 (apply Forall_cons_1 in Houts as [[_ [? _]] Houts]).
  cbn [nValue scriptPubKey version nLockTime] in *. inv_ok.
  destruct (ExtractSingleCanonicalPush fs 8) as [fb|] eqn:Efee; [|done].
  apply ExtractSingleCanonicalPush_inv in Efee as [-> _]. inv_ok.
  bool_simp. subst.
  match goal with H : ParseNativeWithdrawalM6Commitment _ = Ok _ |- _ =>
    apply ParseNativeWithdrawalM6Commitment_iff in H as [-> Href]; [|done] end.
  match goal with H : DecodeFee _ = Ok ?f |- _ =>
    apply DecodeFee_inv in H as [-> Hfee]; [|by apply BuildSinglePushScript_ok_inv]; exists f, pv, ps end.
  rewrite destination_size_ok_iff, MoneyRange_iff in *.
  rewrite CheckAmounts_iff in *.
  refine (conj Href (conj _ (conj _ _))); [unfold m6_amounts_ok; lia|reflexivity|reflexivity].
Qed.

Lemma ParseNativeWithdrawalM6_complete g slot txid vout fee payout dest :
  burn_ref_ok g slot txid vout -> m6_amounts_ok fee payout dest ->
  ParseNativeWithdrawalM6 (blinded_m6_tx g slot txid vout fee payout dest) g slot txid vout =
  Ok (m6_of g slot txid vout fee payout dest).
Proof.
  intros Href (H1 & H2 & H3 & H4). pose proof Href as (_ & _ & _ & _ & Hg & Ht & Hv).
  unfold ParseNativeWithdrawalM6. rewrite check_m6_outpoint_ok by done.
  cbn [mbind result_bind blinded_m6_tx vin Transaction.vout version nLockTime nValue scriptPubKey].
  do 2 rewrite ensure_bind by done.
  rewrite <- (EncodeFee_length fee), ExtractSingleCanonicalPush_build by (by rewrite EncodeFee_length).
  rewrite DecodeFee_EncodeFee by lia. cbn [mbind result_bind].
  assert (Hp : ParseNativeWithdrawalM6Commitment (BuildSinglePushScript
    (ComputeNativeWithdrawalM6Commitment g slot txid vout)) = Ok (g, slot, txid, vout)).
  { apply ParseNativeWithdrawalM6Commitment_iff; auto with bytes_db. }
  rewrite Hp.
  cbn [mbind result_bind]. rewrite ensure_bind by lia.
  rewrite ensure_bind; cycle 1.
  { rewrite (proj2 (destination_size_ok_iff dest)), (proj2 (MoneyRange_iff payout)) by lia. lia. }
  rewrite CheckAmounts_ok by lia. cbn [mbind result_bind]. rewrite ensure_bind by lia. reflexivity.
Qed.

(**  The M6 parser accepts exactly the transactions the builder makes:
    a transaction parses to an M6 for a burn if and only if the builder returns
    that M6 for some withdrawal and the transaction is its blinded one. *)
Theorem NativeWithdrawalM6_roundtrip (tx : CTransaction) (g : uint256) (slot : Z) (txid : uint256)
    (vout : Z) (m6 : NativeWithdrawalM6) :
  Forall txout_ok tx.(Transaction.vout) ->
  is_byte slot -> uint256_ok g -> uint256_ok txid -> 0 <= vout < 2^32 ->
  ParseNativeWithdrawalM6 tx g slot txid vout = Ok m6 <->
  exists w, BuildNativeWithdrawalM6 g slot txid vout w = Ok m6 /\ m6.(blinded_transaction) = tx.
Proof.
  intros Houts Hsl Hg Ht Hv. split.
  - intros (fee & payout & dest & Href & Ha & -> & ->)%ParseNativeWithdrawalM6_sound; [|done].
    destruct Href as (_ & _ & _ & _ & ? & ? & ?).
    exists (mkNativeWithdrawal 0 dest (fee + payout) fee payout). split; [|reflexivity].
    apply BuildNativeWithdrawalM6_Ok. cbn [burn_amount parent_fee payout_amount destination].
    replace (fee + payout - fee) with payout by lia. auto 10.
  - intros (w & (H1 & H2 & H3 & Ha & _ & ->)%BuildNativeWithdrawalM6_Ok & <-).
    by apply ParseNativeWithdrawalM6_complete.
Qed.

(** A short output is eight value bytes, a length byte and the script. *)
Lemma ser_txout_short v s : len s < 253 ->
  ser_txout (mkTxOut v s) = le_encode 8 v ++ [len s] ++ s.
Proof.
  intros H. pose proof (len_nonneg s). unfold ser_txout, ser_bytes, WriteCompactSize.
  cbn [nValue scriptPubKey]. destruct (Z.ltb_spec (len s) 253); [|lia].
  cbn [le_encode]. by rewrite (u8_small (len s)) by (unfold is_byte; lia).
Qed.

Lemma consume_output_ser v s rest lo hi : lo <= len s <= hi -> len s < 253 ->
  consume_output lo hi (ser_txout (mkTxOut v s) ++ rest) = Some rest.
Proof.
  intros Hs H. pose proof (len_nonneg rest). pose proof (len_nonneg s).
  rewrite ser_txout_short by done. unfold consume_output.
  assert (Hl : len ((le_encode 8 v ++ [len s] ++ s) ++ rest) = 9 + len s + len rest).
  { rewrite !len_app, len_cons, len_nil. unfold len at 1. rewrite le_encode_length. lia. }
  assert (Hat : at_ ((le_encode 8 v ++ [len s] ++ s) ++ rest) 8 = len s).
  { rewrite <- app_assoc, at_app_next by (by rewrite le_encode_length).
    by rewrite le_encode_length. }
  rewrite Hl, Hat. cbv zeta. replace (9 + len s + len rest <? 9) with false by lia.
  replace ((len s <? lo) || (hi <? len s) || (9 + len s + len rest <? 9 + len s)) with false by lia.
  f_equal. apply drop_app_length'. unfold len in *. rewrite length_app in Hl. lia.
Qed.

Lemma m6_fee_script_len fee : len (BuildSinglePushScript (EncodeFee fee)) = 10.
Proof. done. Qed.

Lemma m6_commitment_script_len g slot txid vout :
  len (BuildSinglePushScript (ComputeNativeWithdrawalM6Commitment g slot txid vout)) = 76.
Proof. done. Qed.

(** The legacy serialization: version, no inputs, three outputs, locktime. *)
Lemma m6_legacy_layout g slot txid vout fee payout dest :
  SerializeNativeWithdrawalM6Legacy (blinded_m6_tx g slot txid vout fee payout dest) =
  le_encode 4 CURRENT_VERSION ++ [0; 3] ++
  ser_txout (mkTxOut 0 (BuildSinglePushScript (EncodeFee fee))) ++
  ser_txout (mkTxOut 0 (BuildSinglePushScript (ComputeNativeWithdrawalM6Commitment g slot txid vout))) ++
  ser_txout (mkTxOut payout dest) ++ le_encode 4 0.
Proof.
  unfold SerializeNativeWithdrawalM6Legacy, SerializeTransaction, ser_vector, blinded_m6_tx.
  cbn [vin Transaction.vout version nLockTime andb map concat].
  rewrite app_nil_r, <- !app_assoc. reflexivity.
Qed.

Lemma m6_legacy_len g slot txid vout fee payout dest : len dest < 253 ->
  len (SerializeNativeWithdrawalM6Legacy (blinded_m6_tx g slot txid vout fee payout dest)) =
  123 + len dest.
Proof.
  intros H. rewrite m6_legacy_layout, !ser_txout_short by done.
  rewrite !len_app, !len_cons, !len_nil, m6_fee_script_len, m6_commitment_script_len.
  unfold len at 1 2 3 4 6. rewrite !le_encode_length. lia.
Qed.

Lemma m6_tx_ok g slot txid vout fee payout dest : m6_amounts_ok fee payout dest -> bytes_ok dest ->
  tx_ok (blinded_m6_tx g slot txid vout fee payout dest).
Proof.
  intros (H1 & H2 & H3 & H4) Hd. unfold tx_ok, blinded_m6_tx. cbn [vin Transaction.vout version nLockTime].
  assert (Hs : forall v sc, 0 <= v <= MAX_MONEY -> bytes_ok sc -> len sc <= 128 -> txout_ok (mkTxOut v sc)).
  { intros v sc Hv Hsc Hl. unfold txout_ok, script_ok. cbn. unfold MAX_MONEY, COIN, MAX_SIZE in *.
    split; [lia|]. split; [done|lia]. }
  split_and!; try done.
  repeat (apply Forall_cons_2; [apply Hs; auto with bytes_db; try lia|]); [..|done].
  - apply BuildSinglePushScript_ok. unfold EncodeFee. auto with bytes_db.
  - by rewrite m6_fee_script_len.
  - by rewrite m6_commitment_script_len.
Qed.

Lemma DeserializeNativeWithdrawalM6Legacy_ok g slot txid vout fee payout dest :
  m6_amounts_ok fee payout dest -> bytes_ok dest ->
  let tx := blinded_m6_tx g slot txid vout fee payout dest in
  DeserializeNativeWithdrawalM6Legacy (SerializeNativeWithdrawalM6Legacy tx) = Ok tx.
Proof.
  intros Ha Hd tx. pose proof Ha as (H1 & H2 & H3 & H4). unfold DeserializeNativeWithdrawalM6Legacy.
  pose proof (m6_legacy_len g slot txid vout fee payout dest ltac:(lia)) as Hl. fold tx in Hl.
  rewrite Hl. unfold NATIVE_WITHDRAWAL_MAX_M6_LEGACY_SIZE. rewrite ensure_bind; cycle 1.
  { unfold tx. rewrite m6_legacy_layout. cbn [app at_ nth le_encode]. lia. }
  rewrite ensure_bind; cycle 1.
  { unfold tx. rewrite m6_legacy_layout. rewrite app_assoc.
    rewrite drop_app_length' by done. unfold preflight_outputs.
    rewrite consume_output_ser by (by rewrite m6_fee_script_len). cbn [mbind option_bind].
    rewrite consume_output_ser by (by rewrite m6_commitment_script_len). cbn [mbind option_bind].
    rewrite consume_output_ser by (unfold NATIVE_WITHDRAWAL_MAX_DESTINATION_SIZE; lia). done. }
  pose proof (reads_transaction_legacy tx (m6_tx_ok g slot txid vout _ _ _ Ha Hd) []) as Hr.
  rewrite app_nil_r in Hr. unfold SerializeNativeWithdrawalM6Legacy. rewrite Hr. done.
Qed.

(**  The legacy encoding of a built M6 stays within its size bound
    and is the only byte string that decodes to the M6's transaction. *)
Theorem NativeWithdrawalM6Legacy_codec (g : uint256) (slot : Z) (txid : uint256) (vout : Z)
    (w : NativeWithdrawal) (m6 : NativeWithdrawalM6) (b : bytes) :
  bytes_ok w.(destination) -> BuildNativeWithdrawalM6 g slot txid vout w = Ok m6 -> bytes_ok b ->
  124 <= len m6.(legacy_serialization) <= NATIVE_WITHDRAWAL_MAX_M6_LEGACY_SIZE /\
  (DeserializeNativeWithdrawalM6Legacy b = Ok m6.(blinded_transaction) <->
   b = m6.(legacy_serialization)).
Proof.
  intros Hd (_ & _ & _ & Ha & _ & ->)%BuildNativeWithdrawalM6_Ok Hb. cbn [legacy_serialization m6_of blinded_transaction].
  split; [|split].
  - pose proof Ha as (_ & _ & _ & Hl). rewrite m6_legacy_len by lia.
    unfold NATIVE_WITHDRAWAL_MAX_M6_LEGACY_SIZE. lia.
  - unfold DeserializeNativeWithdrawalM6Legacy. intros H. inv_ok.
    destruct (UnserializeTransaction false b) as [[tx rest]|] eqn:E; [|done]. inv_ok.
    apply canon_transaction in E; [|done]. apply bytes_eqb_eq in Hok1 as ->. by rewrite app_nil_r in E.
  - intros ->. by apply DeserializeNativeWithdrawalM6Legacy_ok.
Qed.

(** C36.  Every burn the sidechain accepts can be paid: from the parsed
    withdrawal the builder makes an M6 that the M6 parser accepts for that burn,
    whose payout and fee add up to the burned amount, with a positive payout. *)
Theorem accepted_burn_is_payable (o : Elements.CTxOut) (wit : option Elements.CTxOutWitness)
    (asset parent_g g : uint256) (slot : Z) (txid : uint256) (vout : Z) (w : NativeWithdrawal) :
  ParseNativeWithdrawalOutput o wit asset parent_g = Ok w -> burn_ref_ok g slot txid vout ->
  exists m6, BuildNativeWithdrawalM6 g slot txid vout w = Ok m6 /\
    ParseNativeWithdrawalM6 m6.(blinded_transaction) g slot txid vout = Ok m6 /\
    m6.(m6_payout_amount) + m6.(m6_parent_fee) = GetAmount o.(Elements.nValue) /\
    0 < m6.(m6_payout_amount) /\ 0 <= m6.(m6_parent_fee) /\
    ComputeNativeWithdrawalM6Id m6.(blinded_transaction) = m6.(m6id).
Proof.
  intros H Href. unfold ParseNativeWithdrawalOutput in H. inv_ok.
  match goal with H : CheckAmounts _ _ = Ok _ |- _ => apply CheckAmounts_iff in H as (? & ? & ->) end.
  match goal with H : ParseNativeWithdrawalScript _ _ = Ok _ |- _ =>
    apply ParseNativeWithdrawalScript_inv, BuildNativeWithdrawalScript_Ok in H as (_ & Hd & _) end.
  pose proof Href as (_ & _ & _ & _ & Hg & Ht & Hv).
  assert (Ha : m6_amounts_ok y (GetAmount (Elements.nValue o) - y) x) by (unfold m6_amounts_ok; lia).
  eexists. split.
  { apply BuildNativeWithdrawalM6_Ok. cbn [burn_amount parent_fee payout_amount destination].
    refine (conj Hg (conj Ht (conj Hv (conj Ha (conj _ eq_refl))))). by right. }
  cbn [m6_of blinded_transaction m6_payout_amount m6_parent_fee m6id].
  split; [by apply ParseNativeWithdrawalM6_complete|]. destruct Ha. split_and!; [lia..|reflexivity].
Qed.

(** ** Instances of the theorems *)
Definition sample_burn_output : Elements.CTxOut :=
  Elements.CTxOut_new 7 1000
    (OP_RETURN :: push_data (uint256_bytes 9) ++ push_data [0; 1; 33] ++ push_data (EncodeFee 10)).
Definition sample_withdrawal : NativeWithdrawal := mkNativeWithdrawal 9 [0; 1; 33] 1000 10 990.

Lemma sample_output_ok : elements_output_ok sample_burn_output.
Proof. split; by apply (bool_decide_unpack _). Qed.

Lemma NativeWithdrawalOutput_roundtrip_witness :
  ParseNativeWithdrawalOutput sample_burn_output None 7 9 = Ok sample_withdrawal.
Proof.
  apply (NativeWithdrawalOutput_roundtrip sample_burn_output None 7 9 sample_withdrawal);
    [by vm_compute..|exact sample_output_ok|].
  split; [by vm_compute|]. split; [done|]. split; [done|]. by left.
Defined.

Lemma sample_burn_ref : burn_ref_ok 5 24 6 1.
Proof. unfold burn_ref_ok, is_byte, UINT32_MAX. unfold uint256_ok. lia. Qed.

Lemma accepted_burn_is_payable_witness :
  exists m6, BuildNativeWithdrawalM6 5 24 6 1 sample_withdrawal = Ok m6 /\
    m6.(m6_payout_amount) + m6.(m6_parent_fee) = 1000.
Proof.
  destruct (accepted_burn_is_payable sample_burn_output None 7 9 5 24 6 1 sample_withdrawal)
    as (m6 & H & _ & Hsum & _); [by vm_compute|exact sample_burn_ref|].
  exists m6. split; [exact H|]. rewrite Hsum. by vm_compute.
Defined.

Definition sample_m6_tx : CTransaction := blinded_m6_tx 5 24 6 1 10 990 [0; 1; 33].

Lemma sample_m6_tx_ok : tx_ok sample_m6_tx.
Proof. apply m6_tx_ok; [|by apply (bool_decide_unpack _)]. unfold m6_amounts_ok, MAX_MONEY, COIN, len. cbn. lia. Qed.

Lemma NativeWithdrawalM6_roundtrip_witness :
  exists w, BuildNativeWithdrawalM6 5 24 6 1 w = Ok (m6_of 5 24 6 1 10 990 [0; 1; 33]).
Proof.
  destruct (proj1 (NativeWithdrawalM6_roundtrip sample_m6_tx 5 24 6 1 (m6_of 5 24 6 1 10 990 [0; 1; 33])
    (proj1 (proj2 (proj2 (proj2 (proj2 sample_m6_tx_ok))))) ltac:(by vm_compute) ltac:(by vm_compute)
    ltac:(by vm_compute) ltac:(by vm_compute))) as (w & H & _).
  - by vm_compute.
  - exists w. exact H.
Defined.

Lemma NativeWithdrawalM6Legacy_codec_witness :
  let b := SerializeNativeWithdrawalM6Legacy sample_m6_tx in
  DeserializeNativeWithdrawalM6Legacy b = Ok sample_m6_tx.
Proof.
  apply (NativeWithdrawalM6Legacy_codec 5 24 6 1 sample_withdrawal (m6_of 5 24 6 1 10 990 [0; 1; 33])
    (SerializeNativeWithdrawalM6Legacy sample_m6_tx)); [by apply (bool_decide_unpack _)|by vm_compute| |done].
  by apply (bool_decide_unpack _).
Defined.
