(* ===== verification/ParentMessage.v ===== *)
(** * Parent-chain blocks and their BIP300/301 messages
      (src/src/primitives/bitcoin/block.{h,cpp}, src/src/mainchainrpc.cpp)

    The parent block, the coinbase message parser (M1, M2, M3, M4, M7), the
    M8 request parser and the block-level matchers built on them. *)

From S2P Require Import Prelude Sha256 Script Transaction.

(** ** Blocks *)
Record CBlockHeader := mkHeader {
  nVersion : Z; hashPrevBlock : uint256; hashMerkleRoot : uint256;
  nTime : Z; nBits : Z; nNonce : Z }.

Record CBlock := mkBlock { header : CBlockHeader; vtx : list CTransaction }.

Definition ser_header (h : CBlockHeader) : bytes :=
  le_encode 4 h.(nVersion) ++ uint256_bytes h.(hashPrevBlock) ++ uint256_bytes h.(hashMerkleRoot) ++
  le_encode 4 h.(nTime) ++ le_encode 4 h.(nBits) ++ le_encode 4 h.(nNonce).

Definition GetBlockHash (b : CBlock) : uint256 := Hash (ser_header b.(header)).

#[global] Arguments GetBlockHash : simpl never.
#[global] Strategy 500 [GetBlockHash].

(** ** Messages *)
Inductive DrivechainParentMessageType :=
| NONE | PROPOSAL | ACK | WITHDRAWAL_PROPOSAL | WITHDRAWAL_ACK | BMM_ACCEPT.

Inductive DrivechainM4Encoding := M4_NONE | REPEAT_PREVIOUS | EXPLICIT | LEADING_BY_50.

#[global] Instance message_type_eq_dec : EqDecision DrivechainParentMessageType.
Proof. solve_decision. Defined.
#[global] Instance m4_encoding_eq_dec : EqDecision DrivechainM4Encoding.
Proof. solve_decision. Defined.

Record DrivechainParentMessage := mkMessage {
  type : DrivechainParentMessageType;
  slot : Z;
  proposal_hash : uint256;
  m4_encoding : DrivechainM4Encoding;
  m4_votes : list Z }.

Definition no_message : DrivechainParentMessage := mkMessage NONE 0 0 M4_NONE [].

Definition M1_TAG : bytes := [0xd5; 0xe0; 0xc4; 0xaf].
Definition M2_TAG : bytes := [0xd6; 0xe1; 0xc5; 0xdf].
Definition M3_TAG : bytes := [0xd4; 0x5a; 0xa9; 0x43].
Definition M4_TAG : bytes := [0xd7; 0x7d; 0x17; 0x76].
Definition M7_TAG : bytes := [0xd1; 0x61; 0x73; 0x68].
Definition M8_TAG : bytes := [0x00; 0xbf; 0x00].

Definition has_tag (tag payload : bytes) : bool := bytes_eqb (take (length tag) payload) tag.

(** One-byte votes: 0xff and 0xfe widen to the abstain and alarm sentinels. *)
Definition widen_vote (b : Z) : Z :=
  if b =? 0xff then 0xffff else if b =? 0xfe then 0xfffe else b.

Fixpoint two_byte_votes (l : bytes) : list Z :=
  match l with
  | lo :: hi :: t => Z.lor lo (Z.shiftl hi 8) :: two_byte_votes t
  | _ => []
  end.

(** The M4 branch of the parser. *)
Definition ParseM4 (payload : bytes) : DrivechainParentMessage :=
  let ack enc votes := mkMessage WITHDRAWAL_ACK 0 0 enc votes in
  match at_ payload 4 with
  | 0 => if negb (len payload =? 5) then no_message else ack REPEAT_PREVIOUS []
  | 1 => ack EXPLICIT (map widen_vote (drop 5 payload))
  | 2 =>
      if negb (Z.land (len payload - 5) 1 =? 0) then no_message
      else
        let votes := two_byte_votes (drop 5 payload) in
        ack (if forallb (fun v => v <=? 253) votes then M4_NONE else EXPLICIT) votes
  | 3 => if negb (len payload =? 5) then no_message else ack LEADING_BY_50 []
  | _ => no_message
  end.

Definition ParseDrivechainParentMessage (script : bytes) : DrivechainParentMessage :=
  match ExtractSingleOpReturnPush script with
  | None => no_message
  | Some payload =>
      if len payload <? 5 then no_message
      else if has_tag M1_TAG payload then
        mkMessage PROPOSAL (at_ payload 4) (Hash (drop 5 payload)) M4_NONE []
      else if (len payload =? 37) && has_tag M2_TAG payload then
        mkMessage ACK (at_ payload 4) (uint256_of (drop 5 payload)) M4_NONE []
      else if (len payload =? 37) && has_tag M3_TAG payload then
        mkMessage WITHDRAWAL_PROPOSAL (at_ payload 4) (uint256_of (drop 5 payload)) M4_NONE []
      else if has_tag M4_TAG payload then ParseM4 payload
      else if (len payload =? 37) && has_tag M7_TAG payload then
        mkMessage BMM_ACCEPT (at_ payload 4) (uint256_of_display (drop 5 payload)) M4_NONE []
      else no_message
  end.

(** ** M8 *)
Record DrivechainM8BmmRequest := mkM8 {
  m8_slot : Z; sidechain_block_hash : uint256; previous_mainchain_block_hash : uint256 }.

Definition M8_PAYLOAD_SIZE : Z := 3 + 1 + 32 + 32.
Definition M8_SCRIPT_SIZE : Z := 1 + 1 + M8_PAYLOAD_SIZE.

Definition ExtractDrivechainM8BmmRequest (tx : CTransaction) : option DrivechainM8BmmRequest :=
  match tx.(vout) with
  | [] => None
  | o :: _ =>
      let script := o.(scriptPubKey) in
      if negb (len script =? M8_SCRIPT_SIZE) || negb (at_ script 0 =? OP_RETURN) ||
         negb (at_ script 1 =? M8_PAYLOAD_SIZE) || negb (bytes_eqb (slice script 2 3) M8_TAG)
      then None
      else Some (mkM8 (at_ script 5) (uint256_of_display (slice script 6 32))
                      (uint256_of (slice script 38 32)))
  end.

(** ** Block matchers *)
Definition has_coinbase (b : CBlock) : bool :=
  match b.(vtx) with [] => false | cb :: _ => IsCoinBase cb end.

Definition coinbase_outputs (b : CBlock) : list CTxOut :=
  match b.(vtx) with [] => [] | cb :: _ => cb.(vout) end.

(** The M7 test of one coinbase output. *)
Definition M7_commitment (sidechain_slot : Z) (script : bytes) : option uint256 :=
  match ExtractSingleOpReturnPush script with
  | None => None
  | Some payload =>
      if negb (len payload =? 37) || negb (has_tag M7_TAG payload) ||
         negb (at_ payload 4 =? u8 sidechain_slot) then None
      else Some (uint256_of_display (drop 5 payload))
  end.

(** The scan's [matches], [matched_index] and [parsed_hash]. *)
Definition M7_scan (sidechain_slot : Z) (outs : list CTxOut) : Z * Z * uint256 :=
  fold_left (fun '(matches, index, h) '(i, o) =>
      match M7_commitment sidechain_slot o.(scriptPubKey) with
      | None => (matches, index, h)
      | Some c => (matches + 1, u32 (Z.of_nat i), c)
      end) (imap (fun i o => (i, o)) outs) (0, 0, 0).

Definition ExtractCanonicalDrivechainBmmCommitmentInBlock (block : CBlock) (sidechain_slot : Z)
    : result (uint256 * Z) :=
  ensure (negb ((sidechain_slot <? 0) || (255 <? sidechain_slot)))
    "BIP301 M7 sidechain slot is outside the uint8 range";;
  ensure (has_coinbase block) "raw BMM block has no coinbase transaction";;
  let '(matches, index, h) := M7_scan sidechain_slot (coinbase_outputs block) in
  ensure (negb (matches =? 0)) "BMM successor has no enforcer-recognized M7 for sidechain slot %d";;
  ensure (matches =? 1)
    "BMM successor has %u enforcer-recognized M7 outputs for sidechain slot %d";;
  Ok (h, index).

Definition MatchDrivechainBmmCommitmentInBlock (block : CBlock) (sidechain_slot : Z)
    (expected_critical_hash : uint256) : result Z :=
  '(committed_hash, index) ← ExtractCanonicalDrivechainBmmCommitmentInBlock block sidechain_slot;
  ensure (committed_hash =? expected_critical_hash)
    "BMM successor commits to critical hash %s, expected %s";;
  Ok index.
