(* ===== verification/BlockMerkle.v ===== *)
(** * Merkle roots of blocks (src/src/consensus/merkle.cpp)

    [ComputeMerkleRoot] halves the list of hashes until one is left and reports
    whether two hashes that were paired are equal, the mark of a list that was
    extended by repeating its end.  Two lists that are not mutated and have the
    same root are equal, or one is a layer above the other, or the lists exhibit
    a collision of the hash. *)

From S2P Require Import Prelude Sha256 Script Transaction.

(** [Hash(left, right)] and [SHA256D64] on one pair. *)
Definition hash_pair (l r : uint256) : uint256 := Hash (uint256_bytes l ++ uint256_bytes r).

#[global] Arguments hash_pair : simpl never.
#[global] Strategy 500 [hash_pair].

(** One pass of the loop: the last hash of an odd list is repeated, then
    [SHA256D64] replaces every pair by its hash. *)
Fixpoint pair_up (hashes : list uint256) : list uint256 :=
  match hashes with
  | x :: y :: t => hash_pair x y :: pair_up t
  | [x] => [hash_pair x x]
  | [] => []
  end.

(** The scan for [hashes[pos] == hashes[pos + 1]] at even positions. *)
Fixpoint has_twin (hashes : list uint256) : bool :=
  match hashes with
  | x :: y :: t => (x =? y) || has_twin t
  | _ => false
  end.

Fixpoint merkle_loop (fuel : nat) (hashes : list uint256) (mutation : bool) : list uint256 * bool :=
  match fuel with
  | O => (hashes, mutation)
  | S f => if (1 <? length hashes)%nat then merkle_loop f (pair_up hashes) (mutation || has_twin hashes)
           else (hashes, mutation)
  end.

(** The root and [*mutated].  The list shrinks in every pass, so that its length
    bounds the number of passes. *)
Definition ComputeMerkleRoot (hashes : list uint256) : uint256 * bool :=
  let '(h, mutation) := merkle_loop (length hashes) hashes false in (hd 0 h, mutation).

(** ** Layers *)
Lemma list_two_ind (P : list uint256 -> Prop) :
  P [] -> (forall x, P [x]) -> (forall x y t, P t -> P (x :: y :: t)) -> forall l, P l.
Proof.
  intros H0 H1 H2. fix IH 1. intros [|x [|y t]]; [done|apply H1|apply H2, IH].
Qed.

Lemma length_pair_up l : length (pair_up l) = ((length l + 1) / 2)%nat.
Proof.
  induction l as [| |x y t IH] using list_two_ind; [done|done|]. cbn [pair_up length]. rewrite IH.
  replace (S (S (length t)) + 1)%nat with (length t + 1 + 1 * 2)%nat by lia. rewrite Nat.div_add; lia.
Qed.

Lemma pair_up_ok l : Forall uint256_ok (pair_up l).
Proof.
  induction l as [| |x y t IH] using list_two_ind; cbn [pair_up]; [constructor|..];
  (apply Forall_cons_2; [apply Hash_ok|]); [constructor|done].
Qed.
#[export] Hint Resolve pair_up_ok Hash_ok : bytes_db.

(** The list after [k] passes. *)
Fixpoint layer (k : nat) (l : list uint256) : list uint256 :=
  match k with O => l | S j => layer j (pair_up l) end.

Lemma layer_add j k l : layer (j + k) l = layer k (layer j l).
Proof. revert l. induction j as [|j IH]; intros l; [done|]. apply IH. Qed.

Lemma layer_ok k l : Forall uint256_ok l -> Forall uint256_ok (layer k l).
Proof. revert l. induction k as [|k IH]; intros l H; [done|]. apply IH, pair_up_ok. Qed.

Lemma layer_nonempty k l : l <> [] -> layer k l <> [].
Proof.
  revert l. induction k as [|k IH]; intros l H; [done|]. apply IH. by destruct l as [|x [|y t]].
Qed.

(** The number of passes, and that none of them sees twins. *)
Fixpoint passes (fuel : nat) (l : list uint256) : nat :=
  match fuel with
  | O => O
  | S f => if (1 <? length l)%nat then S (passes f (pair_up l)) else O
  end.

Fixpoint twin_free (k : nat) (l : list uint256) : bool :=
  match k with O => true | S j => negb (has_twin l) && twin_free j (pair_up l) end.

Lemma merkle_loop_spec fuel l m :
  merkle_loop fuel l m = (layer (passes fuel l) l, m || negb (twin_free (passes fuel l) l)).
Proof.
  revert l m. induction fuel as [|f IH]; intros l m; cbn [merkle_loop passes].
  - cbn. by rewrite orb_false_r.
  - destruct (1 <? length l)%nat; [|cbn; by rewrite orb_false_r].
    rewrite IH. cbn [layer twin_free]. f_equal. destruct m, (has_twin l); cbn; done.
Qed.

Lemma passes_end fuel l : (length l <= fuel)%nat -> (length (layer (passes fuel l) l) <= 1)%nat.
Proof.
  revert l. induction fuel as [|f IH]; intros l Hl; cbn [passes]; [cbn; lia|].
  destruct (Nat.ltb_spec 1 (length l)); [|done]. cbn [layer]. apply IH. rewrite length_pair_up.
  apply Nat.lt_succ_r, Nat.Div0.div_lt_upper_bound. lia.
Qed.

(** All passes leave one hash, the root. *)
Lemma layer_root l : l <> [] -> layer (passes (length l) l) l = [(ComputeMerkleRoot l).1].
Proof.
  intros Hl. unfold ComputeMerkleRoot. rewrite merkle_loop_spec. cbn [fst].
  pose proof (passes_end (length l) l (le_n _)) as He.
  pose proof (layer_nonempty (passes (length l) l) l Hl) as Hn.
  destruct (layer _ l) as [|x [|y t]]; [done|done|cbn in He; lia].
Qed.

Lemma unmutated l : (ComputeMerkleRoot l).2 = false -> twin_free (passes (length l) l) l = true.
Proof. unfold ComputeMerkleRoot. rewrite merkle_loop_spec. cbn. by destruct (twin_free _ _). Qed.

(** ** Collisions *)
Definition pair_bytes (p : uint256 * uint256) : bytes := uint256_bytes p.1 ++ uint256_bytes p.2.

(** Two pairs with the same hash: equal, or a collision. *)
Definition differ (p q : uint256 * uint256) (k : option (bytes * bytes)) : option (bytes * bytes) :=
  if bool_decide (p = q) then k else Some (pair_bytes p, pair_bytes q).

Fixpoint pair_collision (l1 l2 : list uint256) : option (bytes * bytes) :=
  match l1, l2 with
  | x :: y :: t, x' :: y' :: t' => differ (x, y) (x', y') (pair_collision t t')
  | [x], x' :: y' :: _ => differ (x, x) (x', y') None
  | x :: y :: _, [x'] => differ (x, y) (x', x') None
  | [x], [x'] => differ (x, x) (x', x') None
  | _, _ => None
  end.

Fixpoint layer_collision (k : nat) (l1 l2 : list uint256) : option (bytes * bytes) :=
  match k with
  | O => None
  | S j => match layer_collision j (pair_up l1) (pair_up l2) with
           | Some c => Some c
           | None => pair_collision l1 l2
           end
  end.

Definition is_collision (c : bytes * bytes) : Prop := c.1 <> c.2 /\ Hash c.1 = Hash c.2.

Lemma pair_bytes_inj p q : uint256_ok p.1 -> uint256_ok p.2 -> uint256_ok q.1 -> uint256_ok q.2 ->
  pair_bytes p = pair_bytes q -> p = q.
Proof.
  intros H1 H2 H3 H4 E. unfold pair_bytes in E.
  apply app_inj_1 in E as [E1 E2]; [|by rewrite !uint256_bytes_length].
  destruct p as [u u0], q as [v v0]. cbn [fst snd] in *. f_equal.
  - by rewrite <- (uint256_of_bytes u), E1, uint256_of_bytes.
  - by rewrite <- (uint256_of_bytes u0), E2, uint256_of_bytes.
Qed.

Lemma differ_spec p q k : uint256_ok p.1 -> uint256_ok p.2 -> uint256_ok q.1 -> uint256_ok q.2 ->
  hash_pair p.1 p.2 = hash_pair q.1 q.2 ->
  (p = q /\ differ p q k = k) \/ (exists c, differ p q k = Some c /\ is_collision c).
Proof.
  intros H1 H2 H3 H4 E. unfold differ. destruct (decide (p = q)) as [Hd|Hd].
  - left. rewrite bool_decide_true by exact Hd. split; [exact Hd|reflexivity].
  - right. rewrite bool_decide_false by exact Hd. eexists. split; [reflexivity|]. unfold is_collision. cbn [fst snd].
    unfold hash_pair in E. split; [|unfold pair_bytes; exact E].
    intros Eb. exact (Hd (pair_bytes_inj p q H1 H2 H3 H4 Eb)).
Qed.

Lemma cons_inj {A} (x y : A) l k : x :: l = y :: k -> x = y /\ l = k.
Proof. by intros [= -> ->]. Qed.

Lemma pair_up_inj l1 l2 : Forall uint256_ok l1 -> Forall uint256_ok l2 ->
  has_twin l1 = false -> has_twin l2 = false -> pair_up l1 = pair_up l2 ->
  l1 = l2 \/ exists c, pair_collision l1 l2 = Some c /\ is_collision c.
Proof.
  intros H1. revert l2. induction l1 as [|x|x y t IH] using list_two_ind; intros [|x' [|y' t']] H2 T1 T2 E;
    cbn [pair_up] in E; assert (El := f_equal length E).
  1: left; reflexivity.
  1, 2, 3, 6: cbn [length] in El; lia.
  - apply Forall_cons_1 in H1 as [Hx _]. apply Forall_cons_1 in H2 as [Hx' _]. apply cons_inj in E as [E _].
    destruct (differ_spec (x, x) (x', x') None Hx Hx Hx' Hx' E) as [[[= ->] _]|Hc]; [left; reflexivity|right; exact Hc].
  - apply Forall_cons_1 in H1 as [Hx _]. apply Forall_cons_1 in H2 as [Hx' H2]. apply Forall_cons_1 in H2 as [Hy' _].
    apply cons_inj in E as [E _].
    destruct (differ_spec (x, x) (x', y') None Hx Hx Hx' Hy' E) as [[[= <- <-] _]|Hc]; [|right; exact Hc].
    cbn in T2. rewrite Z.eqb_refl in T2. discriminate T2.
  - apply Forall_cons_1 in H1 as [Hx H1]. apply Forall_cons_1 in H1 as [Hy _]. apply Forall_cons_1 in H2 as [Hx' _].
    apply cons_inj in E as [E _].
    destruct (differ_spec (x, y) (x', x') None Hx Hy Hx' Hx' E) as [[[= -> ->] _]|Hc]; [|right; exact Hc].
    cbn in T1. rewrite Z.eqb_refl in T1. discriminate T1.
  - apply Forall_cons_1 in H1 as [Hx H1]. apply Forall_cons_1 in H1 as [Hy H1].
    apply Forall_cons_1 in H2 as [Hx' H2]. apply Forall_cons_1 in H2 as [Hy' H2]. cbn [has_twin] in T1, T2.
    apply orb_false_iff in T1 as [_ T1]. apply orb_false_iff in T2 as [_ T2]. apply cons_inj in E as [E H].
    destruct (differ_spec (x, y) (x', y') (pair_collision t t') Hx Hy Hx' Hy' E) as [[[= -> ->] Ek]|Hc];
      [|right; exact Hc].
    cbn [pair_collision]. rewrite Ek. destruct (IH H1 t' H2 T1 T2 H) as [->|Hc]; [left; reflexivity|right; exact Hc].
Qed.

Lemma pair_collision_refl l : pair_collision l l = None.
Proof.
  assert (R : forall p k, differ p p k = k) by (intros; unfold differ; by rewrite bool_decide_true).
  induction l as [| |x y t IH] using list_two_ind; cbn [pair_collision]; rewrite ?R; done.
Qed.

Lemma layer_collision_refl k l : layer_collision k l l = None.
Proof.
  revert l. induction k as [|k IH]; intros l; [done|]. cbn [layer_collision]. rewrite IH. apply pair_collision_refl.
Qed.

Lemma layer_inj k l1 l2 : Forall uint256_ok l1 -> Forall uint256_ok l2 ->
  twin_free k l1 = true -> twin_free k l2 = true -> layer k l1 = layer k l2 ->
  l1 = l2 \/ exists c, layer_collision k l1 l2 = Some c /\ is_collision c.
Proof.
  revert l1 l2. induction k as [|k IH]; intros l1 l2 H1 H2 T1 T2 E; [by left|].
  cbn [twin_free] in T1, T2. apply andb_true_iff in T1 as [T1 T1']. apply andb_true_iff in T2 as [T2 T2'].
  cbn [layer layer_collision] in *.
  destruct (IH _ _ (pair_up_ok l1) (pair_up_ok l2) T1' T2' E) as [Ep|(c & -> & Hc)]; [|right; by exists c].
  rewrite Ep, layer_collision_refl. apply negb_true_iff in T1, T2. by apply pair_up_inj.
Qed.

Lemma twin_free_layer j k l : twin_free (j + k) l = true -> twin_free k (layer j l) = true.
Proof.
  revert l. induction j as [|j IH]; intros l H; [done|]. cbn [layer]. apply IH.
  cbn in H. by apply andb_true_iff in H as [_ H].
Qed.

(** The collision that two lists with one root exhibit, aligned at the root. *)
Definition root_collision (l1 l2 : list uint256) : option (bytes * bytes) :=
  let d1 := passes (length l1) l1 in
  let d2 := passes (length l2) l2 in
  layer_collision d1 l1 (layer (d2 - d1) l2).

(** Lists that are not mutated and have the same root: the shorter tree's list is
    a layer of the other tree. *)
Lemma same_root l1 l2 : Forall uint256_ok l1 -> Forall uint256_ok l2 -> l1 <> [] -> l2 <> [] ->
  (ComputeMerkleRoot l1).2 = false -> (ComputeMerkleRoot l2).2 = false ->
  (ComputeMerkleRoot l1).1 = (ComputeMerkleRoot l2).1 ->
  (passes (length l1) l1 <= passes (length l2) l2)%nat ->
  l1 = layer (passes (length l2) l2 - passes (length l1) l1) l2 \/
  exists c, root_collision l1 l2 = Some c /\ is_collision c.
Proof.
  intros H1 H2 N1 N2 M1%unmutated M2%unmutated E Hd. unfold root_collision.
  pose proof (layer_root l1 N1) as R1. pose proof (layer_root l2 N2) as R2.
  set (d1 := passes (length l1) l1) in *. set (d2 := passes (length l2) l2) in *.
  replace d2 with (d2 - d1 + d1)%nat in R2, M2 by lia. rewrite layer_add in R2.
  apply twin_free_layer in M2. apply layer_inj; try done; [by apply layer_ok|congruence].
Qed.
