(* ===== verification/PartialMerkle.v ===== *)
(** * Partial Merkle trees (src/src/primitives/bitcoin/merkleblock.{h,cpp},
      src/src/merkleblock.cpp)

    [CPartialMerkleTree] encodes the hashes a reader needs to recompute the
    Merkle root of a parent block together with the positions of the matched
    transactions.  The recursive walks over the tree are recursive on its height
    and pass the counters, the matches and the flag [fBad] explicitly; positions
    stay below the number of nodes of their level, so their 32-bit arithmetic is
    that of [Z].  Reading
    a tree that was built returns the root and the matches, and matches that are
    read under the root of a block are transactions of that block, up to a
    SHA-256 collision that [forged_pair] computes. *)

From S2P Require Import Prelude Sha256 Script Transaction ParentMessage BlockMerkle.

Definition MAX_BLOCK_WEIGHT : Z := 6000000.
Definition WITNESS_SCALE_FACTOR : Z := 4.
Definition MIN_TRANSACTION_WEIGHT : Z := WITNESS_SCALE_FACTOR * 60.

(** ** Flag bits *)
Definition BitsToBytes (bits : list bool) : bytes :=
  foldl (fun ret p => <[(p / 8)%nat := Z.lor (at_ ret (p / 8))
           (Z.shiftl (Z.b2z (nth p bits false)) (Z.of_nat (p mod 8)))]> ret)
    (replicate ((length bits + 7) / 8) 0) (seq 0 (length bits)).

Definition BytesToBits (b : bytes) : list bool :=
  map (fun p => negb (Z.land (at_ b (p / 8)) (Z.shiftl 1 (Z.of_nat (p mod 8))) =? 0)%Z)
    (seq 0 (length b * 8)).

(** ** The tree *)
Record CPartialMerkleTree := mkPartial {
  nTransactions : Z; vBits : list bool; vHash : list uint256; fBad : bool }.

Definition CalcTreeWidth (nTransactions : Z) (height : nat) : Z :=
  Z.shiftr (u32 (nTransactions + Z.shiftl 1 (Z.of_nat height) - 1)) (Z.of_nat height).

(** [while (CalcTreeWidth(nHeight) > 1) nHeight++]. *)
Fixpoint tree_height (fuel : nat) (nTransactions : Z) (nHeight : nat) : nat :=
  match fuel with
  | O => nHeight
  | S f => if 1 <? CalcTreeWidth nTransactions nHeight then tree_height f nTransactions (S nHeight)
           else nHeight
  end.

Definition MAX_TREE_HEIGHT : nat := 31.

Fixpoint CalcHash (total : Z) (height : nat) (pos : Z) (vTxid : list uint256) : uint256 :=
  match height with
  | O => nth (Z.to_nat pos) vTxid 0
  | S h =>
      let l := CalcHash total h (pos * 2) vTxid in
      let r := if pos * 2 + 1 <? CalcTreeWidth total h
               then CalcHash total h (pos * 2 + 1) vTxid else l in
      hash_pair l r
  end.

(** The positions below a node, and the loop that looks for a match there. *)
Definition covered (total : Z) (height : nat) (pos : Z) : list nat :=
  let first := Z.shiftl pos (Z.of_nat height) in
  let last := Z.min (Z.shiftl (pos + 1) (Z.of_nat height)) total in
  seq (Z.to_nat first) (Z.to_nat (last - first)).

Definition parent_of_match (total : Z) (height : nat) (pos : Z) (vMatch : list bool) : bool :=
  existsb (fun p => nth p vMatch false) (covered total height pos).

(** The bits and hashes that [TraverseAndBuild] appends for a node. *)
Fixpoint TraverseAndBuild (total : Z) (height : nat) (pos : Z) (vTxid : list uint256)
    (vMatch : list bool) : list bool * list uint256 :=
  let fParentOfMatch := parent_of_match total height pos vMatch in
  match height with
  | O => ([fParentOfMatch], [CalcHash total O pos vTxid])
  | S h =>
      if negb fParentOfMatch then ([fParentOfMatch], [CalcHash total height pos vTxid])
      else
        let '(b1, h1) := TraverseAndBuild total h (pos * 2) vTxid vMatch in
        let '(b2, h2) := if pos * 2 + 1 <? CalcTreeWidth total h
                         then TraverseAndBuild total h (pos * 2 + 1) vTxid vMatch else ([], []) in
        (fParentOfMatch :: b1 ++ b2, h1 ++ h2)
  end.

Definition CPartialMerkleTree_new (vTxid : list uint256) (vMatch : list bool) : CPartialMerkleTree :=
  let total := u32 (len vTxid) in
  let '(b, h) := TraverseAndBuild total (tree_height MAX_TREE_HEIGHT total 0) 0 vTxid vMatch in
  mkPartial total b h false.

(** What [TraverseAndExtract] mutates: the counters [nBitsUsed] and [nHashUsed],
    the matches with their positions, and the flag of the tree. *)
Record extraction := mkExtraction {
  nBitsUsed : nat; nHashUsed : nat; vMatched : list uint256; vnIndex : list Z; bad : bool }.

Definition set_bad (e : extraction) : extraction :=
  mkExtraction e.(nBitsUsed) e.(nHashUsed) e.(vMatched) e.(vnIndex) true.

(** A stored hash: a leaf, or a node without matches below it. *)
Definition extract_stored (t : CPartialMerkleTree) (replacement : option (Z * uint256)) (leaf fParentOfMatch : bool)
    (pos : Z) (e : extraction) : uint256 * extraction :=
  match t.(vHash) !! e.(nHashUsed) with
  | None => (0, set_bad e)
  | Some hash =>
      if leaf && fParentOfMatch then
        (match replacement with
         | Some (i, r) => if pos =? i then r else hash
         | None => hash
         end,
         mkExtraction e.(nBitsUsed) (S e.(nHashUsed)) (e.(vMatched) ++ [hash]) (e.(vnIndex) ++ [pos]) e.(bad))
      else (hash, mkExtraction e.(nBitsUsed) (S e.(nHashUsed)) e.(vMatched) e.(vnIndex) e.(bad))
  end.

Fixpoint TraverseAndExtract (t : CPartialMerkleTree) (replacement : option (Z * uint256))
    (height : nat) (pos : Z) (e : extraction) : uint256 * extraction :=
  match t.(vBits) !! e.(nBitsUsed) with
  | None => (0, set_bad e)
  | Some fParentOfMatch =>
      let e1 := mkExtraction (S e.(nBitsUsed)) e.(nHashUsed) e.(vMatched) e.(vnIndex) e.(bad) in
      match height with
      | O => extract_stored t replacement true fParentOfMatch pos e1
      | S h =>
          if negb fParentOfMatch then extract_stored t replacement false fParentOfMatch pos e1
          else
            let '(l, e2) := TraverseAndExtract t replacement h (pos * 2) e1 in
            if pos * 2 + 1 <? CalcTreeWidth t.(nTransactions) h then
              let '(r, e3) := TraverseAndExtract t replacement h (pos * 2 + 1) e2 in
              (hash_pair l r, if r =? l then set_bad e3 else e3)
            else (hash_pair l l, e2)
      end
  end.

(** [ExtractMatchesWithReplacement] yields the root (or the null hash), the
    matches and their positions; the tree remembers that it was bad. *)
Record extracted := mkExtracted {
  x_root : uint256; x_matches : list uint256; x_indices : list Z; x_tree : CPartialMerkleTree }.

Definition ExtractMatchesWithReplacement (t : CPartialMerkleTree) (replacement_index : Z)
    (replacement_hash : uint256) : extracted :=
  if t.(nTransactions) =? 0 then mkExtracted 0 [] [] t
  else if MAX_BLOCK_WEIGHT / MIN_TRANSACTION_WEIGHT <? t.(nTransactions) then mkExtracted 0 [] [] t
  else if t.(nTransactions) <? len t.(vHash) then mkExtracted 0 [] [] t
  else if len t.(vBits) <? len t.(vHash) then mkExtracted 0 [] [] t
  else
    let nHeight := tree_height MAX_TREE_HEIGHT t.(nTransactions) 0 in
    let replace := negb (replacement_index =? UINT32_MAX) in
    let '(root, e) := TraverseAndExtract t (if replace then Some (replacement_index, replacement_hash) else None)
                        nHeight 0 (mkExtraction 0 0 [] [] t.(fBad)) in
    let valid :=
      negb e.(bad) &&
      ((e.(nBitsUsed) + 7) / 8 =? (length t.(vBits) + 7) / 8)%nat &&
      (e.(nHashUsed) =? length t.(vHash))%nat &&
      negb (replace && negb (bool_decide (replacement_index ∈ e.(vnIndex)))) in
    mkExtracted (if valid then root else 0) e.(vMatched) e.(vnIndex)
      (mkPartial t.(nTransactions) t.(vBits) t.(vHash) e.(bad)).

Definition ExtractMatches (t : CPartialMerkleTree) : extracted :=
  ExtractMatchesWithReplacement t UINT32_MAX 0.

(** ** Merkle blocks and their encoding *)
Record CMerkleBlock := mkMerkleBlock { mb_header : CBlockHeader; txn : CPartialMerkleTree }.

Definition ser_partial (t : CPartialMerkleTree) : bytes :=
  le_encode 4 t.(nTransactions) ++ ser_vector uint256_bytes t.(vHash) ++ ser_bytes (BitsToBytes t.(vBits)).

Definition read_partial : reader CPartialMerkleTree :=
  let* total := read_le 4 in
  let* hashes := read_vector read_uint256 in
  let* b := read_script in
  rret (mkPartial total (BytesToBits b) hashes false).

Definition read_header : reader CBlockHeader :=
  let* v := read_le 4 in let* p := read_uint256 in let* m := read_uint256 in
  let* t := read_le 4 in let* b := read_le 4 in let* k := read_le 4 in
  rret (mkHeader v p m t b k).

Definition ser_merkle_block (m : CMerkleBlock) : bytes := ser_header m.(mb_header) ++ ser_partial m.(txn).
Definition read_merkle_block : reader CMerkleBlock :=
  let* h := read_header in let* t := read_partial in rret (mkMerkleBlock h t).

(** ** The recursion on positions and the layers of the tree *)
Lemma passes_enough f l : (length l <= 2 ^ f)%nat -> (length (layer (passes f l) l) <= 1)%nat.
Proof.
  revert l. induction f as [|f IH]; intros l Hl; cbn [passes]; [cbn in *; lia|].
  destruct (Nat.ltb_spec 1 (length l)); [|done]. cbn [layer]. apply IH. rewrite length_pair_up.
  rewrite Nat.pow_succ_r' in Hl. apply Nat.lt_succ_r, Nat.Div0.div_lt_upper_bound. lia.
Qed.

Lemma passes_unique f g l : (length (layer (passes f l) l) <= 1)%nat ->
  (length (layer (passes g l) l) <= 1)%nat -> passes f l = passes g l.
Proof.
  revert g l. induction f as [|f IH]; intros [|g] l; cbn [passes]; try done.
  - destruct (Nat.ltb_spec 1 (length l)); cbn; [lia|done].
  - destruct (Nat.ltb_spec 1 (length l)); cbn; [lia|done].
  - destruct (Nat.ltb_spec 1 (length l)); cbn [layer]; [|done]. intros H1 H2. f_equal. by apply IH.
Qed.

Lemma passes_root f l : (length l <= 2 ^ f)%nat -> passes f l = passes (length l) l.
Proof. intros H. apply passes_unique; [by apply passes_enough|by apply passes_end]. Qed.

Section tree.
Context (vTxid : list uint256).
Abbreviation total := (len vTxid).
Context (Htotal : 0 < total <= MAX_BLOCK_WEIGHT / MIN_TRANSACTION_WEIGHT).

Lemma total_bound : 0 < total <= 25000.
Proof. exact Htotal. Qed.

Lemma pow2_bound (h : nat) : (h <= 31)%nat -> 0 < 2 ^ Z.of_nat h <= 2^31.
Proof. intros. split; [apply Z.pow_pos_nonneg; lia|apply Z.pow_le_mono_r; lia]. Qed.

Lemma width_spec h : (h <= 31)%nat ->
  CalcTreeWidth total h = (total + 2 ^ Z.of_nat h - 1) / 2 ^ Z.of_nat h.
Proof.
  intros Hh. unfold CalcTreeWidth. pose proof total_bound. pose proof (pow2_bound h Hh).
  rewrite u32_mod, Z.shiftl_1_l, Z.shiftr_div_pow2, Z.mod_small by lia. done.
Qed.

Lemma ceil_half a b : 0 < b -> ((a + b - 1) / b + 1) / 2 = (a + 2 * b - 1) / (2 * b).
Proof.
  intros Hb. rewrite (Z.mul_comm 2 b), <- Z.div_div by lia. f_equal.
  replace (a + b * 2 - 1) with (a + b - 1 + 1 * b) by lia. by rewrite Z.div_add by lia.
Qed.

(** Level [h] has [CalcTreeWidth h] nodes. *)
Lemma layer_width h : (h <= 31)%nat -> len (layer h vTxid) = CalcTreeWidth total h.
Proof.
  intros Hh. rewrite width_spec by done. induction h as [|h IH].
  - change (2 ^ Z.of_nat 0) with 1. rewrite Z.div_1_r. cbn [layer]. lia.
  - replace (S h) with (h + 1)%nat by lia. rewrite layer_add. cbn [layer].
    unfold len. rewrite length_pair_up, Nat2Z.inj_div, Nat2Z.inj_add. change (Z.of_nat 2) with 2.
    change (Z.of_nat (length (layer h vTxid))) with (len (layer h vTxid)). rewrite IH by lia.
    replace (Z.of_nat (h + 1)) with (Z.succ (Z.of_nat h)) by lia. rewrite Z.pow_succ_r by lia.
    apply ceil_half. apply Z.pow_pos_nonneg; lia.
Qed.

Lemma nth_pair_up l i : (2 * i < length l)%nat ->
  nth i (pair_up l) 0 =
  hash_pair (nth (2 * i) l 0) (if (2 * i + 1 <? length l)%nat then nth (2 * i + 1) l 0 else nth (2 * i) l 0).
Proof.
  revert i. induction l as [|x|x y t IH] using list_two_ind; intros [|i] Hi; cbn [length] in Hi; try lia; try done.
  cbn [pair_up nth]. rewrite IH by lia.
  replace (2 * S i)%nat with (S (S (2 * i))) by lia. cbn [nth Nat.add].
  replace (S (S (2 * i + 1)))%nat with (S (S (2 * i) + 1))%nat by lia. done.
Qed.

(** [CalcHash] is the node that [ComputeMerkleRoot] computes at its level. *)
Lemma CalcHash_layer h pos : (h <= 31)%nat -> 0 <= pos < CalcTreeWidth total h ->
  CalcHash total h pos vTxid = nth (Z.to_nat pos) (layer h vTxid) 0.
Proof.
  revert pos. induction h as [|h IH]; intros pos Hh Hpos; [done|]. cbn [CalcHash].
  pose proof (layer_width h ltac:(lia)) as Hw.
  assert (Hc : 0 <= pos * 2 < CalcTreeWidth total h).
  { rewrite <- (layer_width (S h)) in Hpos by lia. replace (S h) with (h + 1)%nat in Hpos by lia.
    rewrite layer_add in Hpos. cbn [layer] in Hpos. unfold len in *. rewrite length_pair_up in Hpos. dlia. }
  replace (S h) with (h + 1)%nat by lia. rewrite layer_add. cbn [layer].
  change (Z.of_nat (length (layer h vTxid)) = CalcTreeWidth total h) in Hw. rewrite nth_pair_up by lia. rewrite IH by lia.
  replace (Z.to_nat (pos * 2)) with (2 * Z.to_nat pos)%nat by lia.
  destruct (Z.ltb_spec (pos * 2 + 1) (CalcTreeWidth total h)) as [Hr|Hr].
  - rewrite (proj2 (Nat.ltb_lt _ _)), IH by lia.
    replace (Z.to_nat (pos * 2 + 1)) with (2 * Z.to_nat pos + 1)%nat by lia. reflexivity.
  - rewrite (proj2 (Nat.ltb_ge _ _)) by lia. reflexivity.
Qed.

Lemma tree_height_passes f h : (h + f <= 31)%nat ->
  tree_height f total h = (h + passes f (layer h vTxid))%nat.
Proof.
  revert h. induction f as [|f IH]; intros h Hh; cbn [tree_height passes]; [lia|].
  rewrite <- layer_width by lia. unfold len. destruct (Nat.ltb_spec 1 (length (layer h vTxid))).
  - rewrite (proj2 (Z.ltb_lt _ _)) by lia. rewrite IH by lia.
    replace (S h) with (h + 1)%nat at 2 by lia. rewrite layer_add. cbn [layer]. lia.
  - rewrite (proj2 (Z.ltb_ge _ _)) by lia. lia.
Qed.

Lemma tree_height_spec : tree_height MAX_TREE_HEIGHT total 0 = passes (length vTxid) vTxid.
Proof.
  rewrite tree_height_passes by (unfold MAX_TREE_HEIGHT; lia). cbn [layer Nat.add]. apply passes_root.
  pose proof total_bound as H. unfold len in H. apply Nat2Z.inj_le. unfold MAX_TREE_HEIGHT.
  rewrite Nat2Z.inj_pow. change (Z.of_nat 2 ^ Z.of_nat 31) with (2^31). lia.
Qed.

Lemma passes_small : (passes (length vTxid) vTxid <= 31)%nat.
Proof.
  assert (G : forall f l, (passes f l <= f)%nat).
  { induction f as [|f IH]; intros l; cbn [passes]; [done|]. destruct (_ <? _)%nat; [|lia]. specialize (IH (pair_up l)). lia. }
  rewrite <- (passes_root 31); [apply G|]. pose proof total_bound as H. unfold len in H. apply Nat2Z.inj_le.
  rewrite Nat2Z.inj_pow. change (Z.of_nat 2 ^ Z.of_nat 31) with (2^31). lia.
Qed.
(** A node of level [h] exists when its first leaf does. *)
Lemma width_lt h p : (h <= 31)%nat -> 0 <= p ->
  (p <? CalcTreeWidth total h) = (p * 2 ^ Z.of_nat h <? total).
Proof.
  intros Hh Hp. rewrite width_spec by done. pose proof (pow2_bound h Hh). pose proof total_bound.
  set (P := 2 ^ Z.of_nat h) in *. destruct (Z.ltb_spec (p * P) total).
  - apply Z.ltb_lt. apply Z.lt_le_trans with (p + 1); [lia|]. apply Z.div_le_lower_bound; lia.
  - apply Z.ltb_ge. apply Z.lt_succ_r. apply Z.div_lt_upper_bound; lia.
Qed.

Lemma covered_spec h pos : 0 <= pos ->
  covered total h pos = seq (Z.to_nat (pos * 2 ^ Z.of_nat h))
    (Z.to_nat (Z.min ((pos + 1) * 2 ^ Z.of_nat h) total - pos * 2 ^ Z.of_nat h)).
Proof. intros. unfold covered. by rewrite !Z.shiftl_mul_pow2 by lia. Qed.

(** The leaves below a node are those below its children. *)
Lemma covered_split h pos : (S h <= 31)%nat -> 0 <= pos < CalcTreeWidth total (S h) ->
  covered total (S h) pos = covered total h (pos * 2) ++
    (if pos * 2 + 1 <? CalcTreeWidth total h then covered total h (pos * 2 + 1) else []).
Proof.
  intros Hh Hpos. rewrite width_lt by lia. destruct Hpos as [H0 Hpos%Z.ltb_lt]. rewrite width_lt in Hpos by lia.
  apply Z.ltb_lt in Hpos. rewrite !covered_spec by lia. rewrite Nat2Z.inj_succ, Z.pow_succ_r in * by lia.
  pose proof (pow2_bound h ltac:(lia)). set (P := 2 ^ Z.of_nat h) in *.
  replace (pos * (2 * P)) with (pos * 2 * P) in * by ring. replace ((pos + 1) * (2 * P)) with (pos * 2 * P + P + P) by ring.
  replace ((pos * 2 + 1) * P) with (pos * 2 * P + P) by ring. replace ((pos * 2 + 1 + 1) * P) with (pos * 2 * P + P + P) by ring.
  assert (0 <= pos * 2 * P) by nia. set (F := pos * 2 * P) in *. destruct (Z.ltb_spec (F + P) total).
  - replace (Z.to_nat (Z.min (F + P + P) total - F)) with
      (Z.to_nat (Z.min (F + P) total - F) + Z.to_nat (Z.min (F + P + P) total - (F + P)))%nat by lia.
    rewrite seq_app. f_equal. f_equal. lia.
  - rewrite app_nil_r. f_equal. lia.
Qed.

Lemma covered_nonempty h pos : (h <= 31)%nat -> 0 <= pos < CalcTreeWidth total h ->
  (1 <= length (covered total h pos))%nat.
Proof.
  intros Hh [H0 Hpos%Z.ltb_lt]. rewrite width_lt in Hpos by lia. apply Z.ltb_lt in Hpos.
  rewrite covered_spec, length_seq by done. pose proof (pow2_bound h Hh). nia.
Qed.

Lemma child_width h pos : (S h <= 31)%nat -> 0 <= pos < CalcTreeWidth total (S h) ->
  0 <= pos * 2 < CalcTreeWidth total h.
Proof.
  intros Hh [H0 Hpos%Z.ltb_lt]. split; [lia|]. apply Z.ltb_lt. rewrite width_lt in * by lia.
  rewrite Nat2Z.inj_succ, Z.pow_succ_r in Hpos by lia. by replace (pos * 2 * 2 ^ Z.of_nat h) with (pos * (2 * 2 ^ Z.of_nat h)) by ring.
Qed.

(** ** Reading back a tree that was built *)
Context (vMatch : list bool).

Definition picked (h : nat) (pos : Z) : list nat :=
  filter (fun p => nth p vMatch false = true) (covered total h pos).

(** The siblings whose hashes the reader compares are different, in the tree over
    the leaves [ls]. *)
Fixpoint siblings_differ (ls : list uint256) (h : nat) (pos : Z) : bool :=
  match h with
  | O => true
  | S h' =>
      negb (parent_of_match total h pos vMatch) ||
      (siblings_differ ls h' (pos * 2) &&
       (if pos * 2 + 1 <? CalcTreeWidth total h'
        then siblings_differ ls h' (pos * 2 + 1) &&
             negb (CalcHash total h' (pos * 2 + 1) ls =? CalcHash total h' (pos * 2) ls)
        else true))
  end.

Lemma picked_none h pos : parent_of_match total h pos vMatch = false -> picked h pos = [].
Proof.
  unfold parent_of_match, picked. induction (covered total h pos) as [|p l IH]; [done|]. cbn [existsb].
  intros [Hp Hl]%orb_false_iff. rewrite filter_cons_False by (rewrite Hp; done). by apply IH.
Qed.

Lemma picked_split h pos : (S h <= 31)%nat -> 0 <= pos < CalcTreeWidth total (S h) ->
  picked (S h) pos = picked h (pos * 2) ++
    (if pos * 2 + 1 <? CalcTreeWidth total h then picked h (pos * 2 + 1) else []).
Proof.
  intros Hh Hpos. unfold picked. rewrite covered_split by done. rewrite list.filter_app.
  by destruct (_ <? _).
Qed.

Lemma built_counts h pos : (h <= 31)%nat -> 0 <= pos < CalcTreeWidth total h ->
  let '(b, hs) := TraverseAndBuild total h pos vTxid vMatch in
  (length hs <= length (covered total h pos))%nat /\ (length hs <= length b)%nat.
Proof.
  revert pos. induction h as [|h IH]; intros pos Hh Hpos; cbn [TraverseAndBuild];
    pose proof (covered_nonempty _ pos Hh Hpos) as Hc; [cbn; lia|].
  destruct (negb _); [cbn [length]; lia|]. pose proof (child_width h pos Hh Hpos) as Hw.
  pose proof (IH (pos * 2) ltac:(lia) Hw) as H1. rewrite covered_split, length_app by done.
  destruct (TraverseAndBuild total h (pos * 2) vTxid vMatch) as [b1 h1].
  destruct (Z.ltb_spec (pos * 2 + 1) (CalcTreeWidth total h)).
  - pose proof (IH (pos * 2 + 1) ltac:(lia) ltac:(lia)) as H2.
    destruct (TraverseAndBuild total h (pos * 2 + 1) vTxid vMatch) as [b2 h2].
    cbn [length]. rewrite !length_app. lia.
  - cbn [length]. rewrite !length_app. cbn [length]. lia.
Qed.
(** The state after the reader has consumed the part of a node. *)
Definition advanced (e : extraction) (b : list bool) (hs : list uint256) (ps : list nat) : extraction :=
  mkExtraction (e.(nBitsUsed) + length b) (e.(nHashUsed) + length hs)
    (e.(vMatched) ++ map (fun p => nth p vTxid 0) ps) (e.(vnIndex) ++ map Z.of_nat ps) e.(bad).

(** [t] holds the bits [b] and hashes [hs] at the counters of [e]. *)
Definition stored_at (t : CPartialMerkleTree) (e : extraction) (b : list bool) (hs : list uint256) : Prop :=
  (exists pre post, t.(vBits) = pre ++ b ++ post /\ length pre = e.(nBitsUsed)) /\
  (exists pre post, t.(vHash) = pre ++ hs ++ post /\ length pre = e.(nHashUsed)).

Lemma stored_split t e x b1 b2 h1 h2 ps : stored_at t e (x :: b1 ++ b2) (h1 ++ h2) ->
  let e1 := mkExtraction (S e.(nBitsUsed)) e.(nHashUsed) e.(vMatched) e.(vnIndex) e.(bad) in
  t.(vBits) !! e.(nBitsUsed) = Some x /\ stored_at t e1 b1 h1 /\ stored_at t (advanced e1 b1 h1 ps) b2 h2.
Proof.
  intros [(pre & post & Eb & Lb) (pre' & post' & Eh & Lh)] e1. subst e1. split; [|split; split].
  - rewrite Eb, <- Lb. by rewrite lookup_app_r, Nat.sub_diag by lia.
  - exists (pre ++ [x]), (b2 ++ post). rewrite Eb, length_app. cbn. split; [by rewrite <- !app_assoc|lia].
  - exists pre', (h2 ++ post'). rewrite Eh. cbn. split; [by rewrite <- !app_assoc|lia].
  - exists (pre ++ x :: b1), post. rewrite Eb, length_app. cbn. split; [cbn; by rewrite <- !app_assoc|lia].
  - exists (pre' ++ h1), post'. rewrite Eh, length_app. cbn. split; [by rewrite <- !app_assoc|lia].
Qed.

Lemma stored_hash t e b h : stored_at t e b [h] -> t.(vHash) !! e.(nHashUsed) = Some h.
Proof. intros [_ (pre & post & E & L)]. rewrite E, <- L. by rewrite lookup_app_r, Nat.sub_diag by lia. Qed.

Lemma picked_leaf pos : 0 <= pos < CalcTreeWidth total 0 ->
  picked 0 pos = if parent_of_match total 0 pos vMatch then [Z.to_nat pos] else [].
Proof.
  intros Hpos. pose proof Hpos as [H0 Hp%Z.ltb_lt]. rewrite width_lt in Hp by lia. apply Z.ltb_lt in Hp.
  unfold picked, parent_of_match. rewrite covered_spec by lia. change (2 ^ Z.of_nat 0) with 1 in *. rewrite !Z.mul_1_r in *.
  replace (Z.to_nat (Z.min (pos + 1) total - pos)) with 1%nat by lia. cbn [seq existsb]. rewrite orb_false_r.
  destruct (nth (Z.to_nat pos) vMatch false) eqn:E.
  - rewrite filter_cons_True by done. done.
  - rewrite filter_cons_False by (rewrite E; done). done.
Qed.

Lemma advanced_add e x b1 b2 h1 h2 p1 p2 :
  advanced (advanced (mkExtraction (S e.(nBitsUsed)) e.(nHashUsed) e.(vMatched) e.(vnIndex) e.(bad)) b1 h1 p1) b2 h2 p2 =
  advanced e (x :: b1 ++ b2) (h1 ++ h2) (p1 ++ p2).
Proof.
  unfold advanced. cbn. rewrite !map_app, !length_app, <- !app_assoc. f_equal; lia.
Qed.

(** The leaves of the tree that the reader hashes: a matched one may be replaced. *)
Context (replacement : option (Z * uint256)).

Definition leaves : list uint256 :=
  match replacement with Some (i, r) => <[Z.to_nat i := r]> vTxid | None => vTxid end.

Definition replaces_match : Prop :=
  match replacement with
  | Some (i, _) => 0 <= i < total /\ nth (Z.to_nat i) vMatch false = true
  | None => True
  end.

Lemma nth_leaves pos : replaces_match -> 0 <= pos ->
  nth (Z.to_nat pos) leaves 0 =
  match replacement with
  | Some (i, r) => if pos =? i then r else nth (Z.to_nat pos) vTxid 0
  | None => nth (Z.to_nat pos) vTxid 0
  end.
Proof.
  unfold replaces_match, leaves. destruct replacement as [[i r]|]; [|done]. intros [Hi _] Hp. rewrite !nth_lookup.
  destruct (Z.eqb_spec pos i) as [->|Hne].
  - rewrite list_lookup_insert_eq; [done|]. unfold len in Hi. lia.
  - rewrite list_lookup_insert_ne by lia. done.
Qed.

(** Below a node without matches the replaced leaf does not occur. *)
Lemma CalcHash_unmatched h pos : replaces_match -> (h <= 31)%nat -> 0 <= pos < CalcTreeWidth total h ->
  parent_of_match total h pos vMatch = false -> CalcHash total h pos leaves = CalcHash total h pos vTxid.
Proof.
  intros Hr. revert pos. induction h as [|h IH]; intros pos Hh Hpos Hm.
  - cbn [CalcHash]. rewrite nth_leaves by (done || lia). unfold replaces_match in Hr.
    destruct replacement as [[i r]|]; [|done]. destruct (Z.eqb_spec pos i) as [->|]; [|done]. exfalso.
    pose proof (picked_leaf i Hpos) as Hp. rewrite Hm in Hp. unfold picked in Hp. destruct Hr as [Hi Hv].
    rewrite covered_spec in Hp by lia. change (2 ^ Z.of_nat 0) with 1 in Hp. rewrite !Z.mul_1_r in Hp.
    replace (Z.to_nat (Z.min (i + 1) total - i)) with 1%nat in Hp by lia. cbn [seq] in Hp.
    by rewrite filter_cons_True in Hp.
  - unfold parent_of_match in Hm. rewrite covered_split, existsb_app in Hm by done.
    apply orb_false_iff in Hm as [Hm1 Hm2]. pose proof (child_width h pos Hh Hpos) as Hw.
    cbn [CalcHash]. rewrite (IH (pos * 2)) by (done || lia).
    destruct (Z.ltb_spec (pos * 2 + 1) (CalcTreeWidth total h)); [|reflexivity].
    rewrite (IH (pos * 2 + 1)) by (done || lia). reflexivity.
Qed.

Lemma extract_built t h pos e : replaces_match -> t.(nTransactions) = total ->
  (h <= 31)%nat -> 0 <= pos < CalcTreeWidth total h -> siblings_differ leaves h pos = true ->
  let '(b, hs) := TraverseAndBuild total h pos vTxid vMatch in
  stored_at t e b hs ->
  TraverseAndExtract t replacement h pos e = (CalcHash total h pos leaves, advanced e b hs (picked h pos)).
Proof.
  intros Hrep Et. revert pos e. induction h as [|h IH]; intros pos e Hh Hpos Hs.
  - cbn [TraverseAndBuild]. intros Hst. pose proof (stored_hash _ _ _ _ Hst) as Hhash.
    destruct (stored_split t e (parent_of_match total 0 pos vMatch) [] [] [CalcHash total 0 pos vTxid] [] [] Hst) as [Hb _].
    cbn [TraverseAndExtract]. rewrite Hb. unfold extract_stored. cbn [nHashUsed]. rewrite Hhash.
    rewrite picked_leaf by done. unfold advanced. destruct (parent_of_match total 0 pos vMatch) eqn:Em; cbn [andb].
    + cbn [CalcHash]. rewrite nth_leaves by (done || lia). cbn.
      rewrite Z2Nat.id, !Nat.add_1_r by lia. reflexivity.
    + rewrite (CalcHash_unmatched 0 pos) by done. cbn. rewrite !app_nil_r, !Nat.add_1_r. reflexivity.
  - cbn [siblings_differ] in Hs. cbn [TraverseAndBuild].
    destruct (parent_of_match total (S h) pos vMatch) eqn:Em; cbn [negb orb] in Hs |- *.
    + apply andb_true_iff in Hs as [Hs1 Hs2]. pose proof (child_width h pos Hh Hpos) as Hw.
      pose proof (fun e => IH (pos * 2) e ltac:(lia) Hw Hs1) as I1.
      destruct (TraverseAndBuild total h (pos * 2) vTxid vMatch) as [b1 h1].
      cbn [TraverseAndExtract CalcHash]. rewrite Et, picked_split by done.
      destruct (Z.ltb_spec (pos * 2 + 1) (CalcTreeWidth total h)) as [Hr|Hr].
      * apply andb_true_iff in Hs2 as [Hs2 Hs3].
        pose proof (fun e => IH (pos * 2 + 1) e ltac:(lia) ltac:(lia) Hs2) as I2.
        destruct (TraverseAndBuild total h (pos * 2 + 1) vTxid vMatch) as [b2 h2]. intros Hst.
        destruct (stored_split _ _ _ _ _ _ _ (picked h (pos * 2)) Hst) as (Hb & St1 & St2).
        rewrite Hb. cbn [negb]. rewrite (I1 _ St1), (I2 _ St2). apply negb_true_iff in Hs3. rewrite Hs3.
        rewrite (advanced_add e true). reflexivity.
      * intros Hst. destruct (stored_split _ _ _ _ _ _ _ (picked h (pos * 2)) Hst) as (Hb & St1 & _).
        rewrite Hb. cbn [negb]. rewrite (I1 _ St1). rewrite <- (advanced_add e true). unfold advanced. cbn.
        rewrite !app_nil_r, !Nat.add_0_r. reflexivity.
    + intros Hst. pose proof (stored_hash _ _ _ _ Hst) as Hhash.
      destruct (stored_split t e false [] [] [CalcHash total (S h) pos vTxid] [] [] Hst) as [Hb _].
      cbn [TraverseAndExtract]. rewrite Hb. unfold extract_stored. cbn [nHashUsed negb andb]. rewrite Hhash.
      rewrite (picked_none _ _ Em), (CalcHash_unmatched _ _ Hrep Hh Hpos Em). unfold advanced.
      cbn [map length nBitsUsed vMatched vnIndex bad]. rewrite !app_nil_r, !Nat.add_1_r. reflexivity.
Qed.

Lemma nonempty : vTxid <> [].
Proof. intros E. pose proof total_bound as H. unfold len in H. rewrite E in H. cbn in H. lia. Qed.

Lemma top_width : CalcTreeWidth total (passes (length vTxid) vTxid) = 1.
Proof. rewrite <- layer_width by apply passes_small. by rewrite (layer_root vTxid nonempty). Qed.

Lemma top_hash : CalcHash total (passes (length vTxid) vTxid) 0 vTxid = (ComputeMerkleRoot vTxid).1.
Proof.
  rewrite CalcHash_layer; [|apply passes_small|rewrite top_width; lia].
  rewrite (layer_root vTxid nonempty). reflexivity.
Qed.

Lemma top_covered : covered total (passes (length vTxid) vTxid) 0 = seq 0 (length vTxid).
Proof.
  rewrite covered_spec by lia. set (h := passes _ _).
  assert (H : (1 <? CalcTreeWidth total h) = false) by (subst h; rewrite top_width; done).
  rewrite width_lt in H by (try apply passes_small; lia). apply Z.ltb_ge in H.
  rewrite !Z.mul_0_l. f_equal. unfold len in *. lia.
Qed.

Lemma new_tree : exists b hs,
  TraverseAndBuild total (passes (length vTxid) vTxid) 0 vTxid vMatch = (b, hs) /\
  CPartialMerkleTree_new vTxid vMatch = mkPartial total b hs false.
Proof.
  unfold CPartialMerkleTree_new. pose proof total_bound.
  replace (u32 total) with total by (rewrite u32_mod, Z.mod_small; lia). rewrite tree_height_spec.
  destruct (TraverseAndBuild _ _ _ _ _) as [b hs]. by exists b, hs.
Qed.

Definition replacement_index : Z := match replacement with Some (i, _) => i | None => UINT32_MAX end.
Definition replacement_hash : uint256 := match replacement with Some (_, r) => r | None => 0 end.

Lemma length_leaves : length leaves = length vTxid.
Proof. unfold leaves. destruct replacement as [[i r]|]; [apply length_insert|done]. Qed.

Lemma replacement_picked i r : replacement = Some (i, r) -> replaces_match ->
  i ∈ map Z.of_nat (picked (passes (length vTxid) vTxid) 0).
Proof.
  unfold replaces_match. intros ->. intros [Hi Hv]. apply list_elem_of_In, in_map_iff. exists (Z.to_nat i). split; [lia|].
  apply list_elem_of_In. unfold picked. rewrite top_covered. apply list_elem_of_filter. split; [done|].
  apply elem_of_seq. unfold len in Hi. lia.
Qed.

End tree.

(** The root of the leaves with the replacement, under the number of the
    original ones. *)
Lemma top_hash_leaves vTxid rep : 0 < len vTxid <= MAX_BLOCK_WEIGHT / MIN_TRANSACTION_WEIGHT ->
  CalcHash (len vTxid) (passes (length vTxid) vTxid) 0 (leaves vTxid rep) = (ComputeMerkleRoot (leaves vTxid rep)).1.
Proof.
  intros Ht. assert (El : len (leaves vTxid rep) = len vTxid) by (unfold len; by rewrite length_leaves).
  assert (Hp : passes (length vTxid) vTxid = passes (length (leaves vTxid rep)) (leaves vTxid rep)).
  { rewrite <- !tree_height_spec by (rewrite ?El; done). by rewrite El. }
  rewrite Hp, <- El. apply top_hash. by rewrite El.
Qed.

Lemma built_tree_extracts vTxid vMatch rep : 0 < len vTxid <= MAX_BLOCK_WEIGHT / MIN_TRANSACTION_WEIGHT ->
  replaces_match vTxid vMatch rep ->
  siblings_differ vTxid vMatch (leaves vTxid rep) (passes (length vTxid) vTxid) 0 = true ->
  let idx := filter (fun p => nth p vMatch false = true) (seq 0 (length vTxid)) in
  ExtractMatchesWithReplacement (CPartialMerkleTree_new vTxid vMatch) (replacement_index rep) (replacement_hash rep) =
  mkExtracted (ComputeMerkleRoot (leaves vTxid rep)).1 (map (fun p => nth p vTxid 0) idx) (map Z.of_nat idx)
    (CPartialMerkleTree_new vTxid vMatch).
Proof.
  intros Ht Hrep Hs idx. destruct (new_tree vTxid Ht vMatch) as (b & hs & Eb & ->). pose proof (total_bound _ Ht).
  pose proof (passes_small _ Ht) as Hp. set (h := passes (length vTxid) vTxid) in *.
  assert (Hw : 0 <= 0 < CalcTreeWidth (len vTxid) h) by (subst h; rewrite top_width by done; lia).
  pose proof (built_counts vTxid Ht vMatch h 0 Hp Hw) as Hc.
  pose proof (extract_built vTxid Ht vMatch rep (mkPartial (len vTxid) b hs false) h 0 (mkExtraction 0 0 [] [] false)
    Hrep eq_refl Hp Hw Hs) as Hx.
  pose proof (top_covered _ Ht) as Hcov. fold h in Hcov. rewrite Eb in Hc, Hx. rewrite Hcov, length_seq in Hc.
  unfold ExtractMatchesWithReplacement. cbn [nTransactions vBits vHash fBad]. rewrite tree_height_spec by done. fold h.
  change (MAX_BLOCK_WEIGHT / MIN_TRANSACTION_WEIGHT) with 25000.
  rewrite (proj2 (Z.eqb_neq _ _)), !(proj2 (Z.ltb_ge _ _)) by (unfold len in *; lia).
  assert (Er : (if negb (replacement_index rep =? UINT32_MAX) then Some (replacement_index rep, replacement_hash rep) else None) = rep).
  { unfold replacement_index, replacement_hash, replaces_match in *. destruct rep as [[i r]|]; [|done].
    rewrite (proj2 (Z.eqb_neq i UINT32_MAX)); [done|]. unfold UINT32_MAX. lia. }
  rewrite Er, Hx by (split; exists [], []; rewrite app_nil_r; done). unfold h. rewrite top_hash_leaves by done.
  unfold advanced. cbn [bad nBitsUsed nHashUsed vMatched vnIndex negb andb]. rewrite !Nat.eqb_refl. cbn [andb app].
  assert (Ev : negb (negb (replacement_index rep =? UINT32_MAX) &&
    negb (bool_decide (replacement_index rep ∈ map Z.of_nat (picked vTxid vMatch h 0)))) = true).
  { destruct rep as [[i r]|]; [|done]. cbn [replacement_index].
    rewrite (bool_decide_true (i ∈ _)) by (apply (replacement_picked vTxid Ht vMatch (Some (i, r)) i r eq_refl Hrep)). by rewrite andb_false_r. }
  fold h. rewrite Ev. unfold picked. subst h. rewrite top_covered by done. reflexivity.
Qed.

Section tree.
Context (vTxid : list uint256).
Abbreviation total := (len vTxid).

(** ** Matches that are read under the root of a block
    [forged_pair] walks the tree as the reader does and compares every inner node
    with that of the block. *)
Fixpoint forged_pair (t : CPartialMerkleTree) (h : nat) (pos : Z) (e : extraction) : option (bytes * bytes) :=
  match h, t.(vBits) !! e.(nBitsUsed) with
  | S h', Some true =>
      let e1 := mkExtraction (S e.(nBitsUsed)) e.(nHashUsed) e.(vMatched) e.(vnIndex) e.(bad) in
      let '(l, e2) := TraverseAndExtract t None h' (pos * 2) e1 in
      let l' := CalcHash total h' (pos * 2) vTxid in
      if pos * 2 + 1 <? CalcTreeWidth total h' then
        differ (l, (TraverseAndExtract t None h' (pos * 2 + 1) e2).1)
               (l', CalcHash total h' (pos * 2 + 1) vTxid)
               (match forged_pair t h' (pos * 2) e1 with
                | Some c => Some c
                | None => forged_pair t h' (pos * 2 + 1) e2
                end)
      else differ (l, l) (l', l') (forged_pair t h' (pos * 2) e1)
  | _, _ => None
  end.

Context (Htxids : Forall uint256_ok vTxid).

Lemma nth_hash_ok l i : Forall uint256_ok l -> uint256_ok (nth i l 0).
Proof.
  intros H. rewrite nth_lookup. destruct (l !! i) as [x|] eqn:E; cbn.
  - exact (Forall_lookup_1 _ _ _ _ H E).
  - unfold uint256_ok. lia.
Qed.

Lemma CalcHash_ok h pos : uint256_ok (CalcHash total h pos vTxid).
Proof. destruct h; [by apply nth_hash_ok|apply Hash_ok]. Qed.

Lemma extract_stored_ok t leaf b pos e : Forall uint256_ok t.(vHash) ->
  uint256_ok (extract_stored t None leaf b pos e).1.
Proof.
  intros H. unfold extract_stored. destruct (t.(vHash) !! e.(nHashUsed)) as [x|] eqn:E.
  - pose proof (Forall_lookup_1 _ _ _ _ H E). by destruct (leaf && b).
  - cbn. unfold uint256_ok. lia.
Qed.

Lemma extract_ok t h pos e : Forall uint256_ok t.(vHash) -> uint256_ok (TraverseAndExtract t None h pos e).1.
Proof.
  intros H. destruct h; cbn [TraverseAndExtract]; destruct (_ !! _) as [b|]; try (cbn; unfold uint256_ok; lia).
  - by apply extract_stored_ok.
  - destruct (negb b); [by apply extract_stored_ok|].
    destruct (TraverseAndExtract t None h (pos * 2) _) as [l e2]. destruct (_ <? _); [|apply Hash_ok].
    destruct (TraverseAndExtract t None h (pos * 2 + 1) e2) as [r e3]. apply Hash_ok.
Qed.

(** A pair that is found is a collision. *)
Lemma forged_pair_collides t h pos e c : t.(nTransactions) = total -> Forall uint256_ok t.(vHash) ->
  (TraverseAndExtract t None h pos e).1 = CalcHash total h pos vTxid ->
  forged_pair t h pos e = Some c -> is_collision c.
Proof.
  intros Et Ht. revert pos e. induction h as [|h IH]; intros pos e; [done|].
  cbn [forged_pair TraverseAndExtract CalcHash]. destruct (t.(vBits) !! e.(nBitsUsed)) as [[]|]; [|done|done].
  cbn [negb]. set (e1 := mkExtraction _ _ _ _ _). rewrite Et.
  pose proof (IH (pos * 2) e1) as I1. pose proof (extract_ok t h (pos * 2) e1 Ht) as K1.
  destruct (TraverseAndExtract t None h (pos * 2) e1) as [l e2]. cbn [fst] in I1, K1.
  destruct (pos * 2 + 1 <? CalcTreeWidth total h).
  - pose proof (IH (pos * 2 + 1) e2) as I2. pose proof (extract_ok t h (pos * 2 + 1) e2 Ht) as K2.
    destruct (TraverseAndExtract t None h (pos * 2 + 1) e2) as [r e3]. cbn [fst] in *. intros E.
    destruct (differ_spec (l, r) (_, _) (match forged_pair t h (pos * 2) e1 with Some c0 => Some c0 | None => forged_pair t h (pos * 2 + 1) e2 end)
      K1 K2 (CalcHash_ok h (pos * 2)) (CalcHash_ok h (pos * 2 + 1)) E) as [[Ep ->]|(c' & -> & Hc')].
    + injection Ep as El Er. specialize (I1 El). specialize (I2 Er). destruct (forged_pair t h (pos * 2) e1); [intros [= <-]; by apply I1|exact I2].
    + intros [= <-]. exact Hc'.
  - cbn [fst]. intros E.
    destruct (differ_spec (l, l) (_, _) (forged_pair t h (pos * 2) e1) K1 K1 (CalcHash_ok h (pos * 2)) (CalcHash_ok h (pos * 2)) E)
      as [[Ep ->]|(c' & -> & Hc')].
    + injection Ep as El. exact (I1 El).
    + intros [= <-]. exact Hc'.
Qed.

(** The matches added below a node are those of the block. *)
Definition genuine (e e' : extraction) : Prop :=
  exists ms ix, e'.(vMatched) = e.(vMatched) ++ ms /\ e'.(vnIndex) = e.(vnIndex) ++ ix /\
    Forall2 (fun m i => m = nth (Z.to_nat i) vTxid 0) ms ix.

Lemma genuine_refl e e' : e'.(vMatched) = e.(vMatched) -> e'.(vnIndex) = e.(vnIndex) -> genuine e e'.
Proof. intros E1 E2. exists [], []. rewrite !app_nil_r. by repeat split. Qed.

Lemma genuine_trans e1 e2 e3 : genuine e1 e2 -> genuine e2 e3 -> genuine e1 e3.
Proof.
  intros (m1 & i1 & A1 & B1 & C1) (m2 & i2 & A2 & B2 & C2). exists (m1 ++ m2), (i1 ++ i2).
  rewrite A2, A1, B2, B1, !app_assoc. split_and!; [done..|]. by apply Forall2_app.
Qed.

Lemma extract_genuine t h pos e : t.(nTransactions) = total ->
  Forall uint256_ok t.(vHash) ->
  (TraverseAndExtract t None h pos e).1 = CalcHash total h pos vTxid ->
  forged_pair t h pos e = None -> genuine e (TraverseAndExtract t None h pos e).2.
Proof.
  intros Et Ht. revert pos e. induction h as [|h IH]; intros pos e; cbn [forged_pair TraverseAndExtract CalcHash].
  - intros E _. revert E. destruct (t.(vBits) !! e.(nBitsUsed)) as [b|]; [|intros _; by apply genuine_refl].
    unfold extract_stored. cbn [nHashUsed]. destruct (t.(vHash) !! e.(nHashUsed)) as [x|]; [|intros _; by apply genuine_refl].
    destruct b; cbn [andb fst snd]; intros E; [|by apply genuine_refl].
    exists [x], [pos]. split_and!; [done..|]. by repeat constructor.
  - destruct (t.(vBits) !! e.(nBitsUsed)) as [[]|]; cbn [negb].
    + set (e1 := mkExtraction _ _ _ _ _). rewrite Et. pose proof (IH (pos * 2) e1) as I1.
      pose proof (forged_pair_collides t h (pos * 2) e1) as F1. pose proof (extract_ok t h (pos * 2) e1 Ht) as K1.
      destruct (TraverseAndExtract t None h (pos * 2) e1) as [l e2]. cbn [fst snd] in I1, F1, K1.
      destruct (pos * 2 + 1 <? CalcTreeWidth total h).
      * pose proof (IH (pos * 2 + 1) e2) as I2. pose proof (extract_ok t h (pos * 2 + 1) e2 Ht) as K2.
        destruct (TraverseAndExtract t None h (pos * 2 + 1) e2) as [r e3]. cbn [fst snd] in *. intros E.
        destruct (differ_spec (l, r) (_, _) (match forged_pair t h (pos * 2) e1 with Some c0 => Some c0 | None => forged_pair t h (pos * 2 + 1) e2 end)
          K1 K2 (CalcHash_ok h (pos * 2)) (CalcHash_ok h (pos * 2 + 1)) E) as [[Ep ->]|(c' & -> & _)]; [|discriminate].
        injection Ep as El Er.
        destruct (forged_pair t h (pos * 2) e1); [discriminate|]. intros F2.
        apply genuine_trans with e2; [exact (I1 El eq_refl)|].
        apply genuine_trans with e3; [exact (I2 Er F2)|]. destruct (r =? l); apply genuine_refl; reflexivity.
      * cbn [fst snd]. intros E.
        destruct (differ_spec (l, l) (_, _) (forged_pair t h (pos * 2) e1) K1 K1 (CalcHash_ok h (pos * 2)) (CalcHash_ok h (pos * 2)) E)
          as [[Ep ->]|(c' & -> & _)]; [|discriminate].
        injection Ep as El.
        intros F2. exact (I1 El F2).
    + intros _ _. unfold extract_stored. destruct (_ !! _); apply genuine_refl; reflexivity.
    + intros _ _. apply genuine_refl; reflexivity.
Qed.
End tree.

(** A partial tree built over the transaction ids of a block and a
    selection of them is read back as the Merkle root that ComputeMerkleRoot
    gives the block, the selected ids in order and their positions, whenever the
    siblings that the reader compares differ; the tree is left usable. *)
Theorem built_tree_reads_back (vTxid : list uint256) (vMatch : list bool) :
  0 < len vTxid <= MAX_BLOCK_WEIGHT / MIN_TRANSACTION_WEIGHT ->
  siblings_differ vTxid vMatch vTxid (passes (length vTxid) vTxid) 0 = true ->
  let idx := filter (fun p => nth p vMatch false = true) (seq 0 (length vTxid)) in
  ExtractMatches (CPartialMerkleTree_new vTxid vMatch) =
  mkExtracted (ComputeMerkleRoot vTxid).1 (map (fun p => nth p vTxid 0) idx) (map Z.of_nat idx)
    (CPartialMerkleTree_new vTxid vMatch).
Proof. intros H1 H2. exact (built_tree_extracts vTxid vMatch None H1 I H2). Qed.

Lemma built_tree_reads_back_witness :
  x_indices (ExtractMatches (CPartialMerkleTree_new [11; 12] [true; false])) = [0].
Proof. rewrite (built_tree_reads_back [11; 12] [true; false]); [reflexivity|split; done|reflexivity]. Defined.

(** Matches that a partial tree yields under the Merkle root of a
    block with as many transactions are that block's transaction ids at those
    positions; otherwise walking the tree next to the block computes two
    different pairs of hashes with one hash. *)
Theorem matches_are_in_block (vTxid : list uint256) (t : CPartialMerkleTree) :
  0 < len vTxid <= MAX_BLOCK_WEIGHT / MIN_TRANSACTION_WEIGHT -> Forall uint256_ok vTxid ->
  t.(nTransactions) = len vTxid -> Forall uint256_ok t.(vHash) ->
  (ExtractMatches t).(x_root) = (ComputeMerkleRoot vTxid).1 -> (ExtractMatches t).(x_root) <> 0 ->
  Forall2 (fun m i => m = nth (Z.to_nat i) vTxid 0) (ExtractMatches t).(x_matches) (ExtractMatches t).(x_indices) \/
  exists c, forged_pair vTxid t (passes (length vTxid) vTxid) 0 (mkExtraction 0 0 [] [] t.(fBad)) = Some c /\
    is_collision c.
Proof.
  intros Ht Hok Et Hv. unfold ExtractMatches, ExtractMatchesWithReplacement.
  rewrite Z.eqb_refl, Et, tree_height_spec by done. cbn [negb]. rewrite <- top_hash by done.
  do 4 (destruct (_ : bool); [intros _ H0; by destruct H0|]).
  set (h := passes _ _). set (e0 := mkExtraction 0 0 [] [] (fBad t)).
  pose proof (fun c => forged_pair_collides vTxid Hok t h 0 e0 c Et Hv) as F.
  pose proof (extract_genuine vTxid Hok t h 0 e0 Et Hv) as G.
  destruct (TraverseAndExtract t None h 0 e0) as [root e]. cbn [fst snd] in F, G. cbn [x_root x_matches x_indices].
  destruct (_ && _); [|intros _ H0; by destruct H0]. intros E _.
  destruct (forged_pair vTxid t h 0 e0) as [c|]; [right; exists c; split; [reflexivity|exact (F c E eq_refl)]|left].
  destruct (G E eq_refl) as (ms & ix & -> & -> & HF). exact HF.
Qed.

Lemma matches_are_in_block_witness :
  let t := CPartialMerkleTree_new [11; 12] [true; false] in
  Forall2 (fun m i => m = nth (Z.to_nat i) [11; 12] 0) (ExtractMatches t).(x_matches) (ExtractMatches t).(x_indices) \/
  exists c, forged_pair [11; 12] t 1 0 (mkExtraction 0 0 [] [] false) = Some c /\ is_collision c.
Proof.
  apply (matches_are_in_block [11; 12] (CPartialMerkleTree_new [11; 12] [true; false])).
  - split; done.
  - repeat (apply Forall_cons_2; [split; done|]). apply Forall_nil_2.
  - reflexivity.
  - repeat (apply Forall_cons_2; [split; done|]). apply Forall_nil_2.
  - vm_compute. reflexivity.
  - vm_compute. discriminate.
Defined.
