(* ===== verification/Signet.v ===== *)
(** * Signet solutions of parent blocks (src/src/signet.cpp,
      src/src/drivechain_bmm.cpp)

    A signet block carries a solution in its witness commitment: a script and a
    witness that satisfy the challenge in a transaction that commits to the block
    without the solution.  The sources check it twice: for a whole block
    ([CheckBitcoinSignetBlockSolution], used by the parent replay) and for a
    coinbase with a partial Merkle tree ([CheckSignetSolution], used by BMM
    proofs).  The script interpreter and the curve are arguments
    ([SignatureEnv]). *)

From S2P Require Import Prelude Sha256 Script Transaction ParentMessage BlockMerkle PartialMerkle.

Definition SIGNET_HEADER : bytes := [0xec; 0xc7; 0xda; 0xa2].
Definition SCRIPT_VERIFY_P2SH : Z := Z.shiftl 1 0.
Definition SCRIPT_VERIFY_DERSIG : Z := Z.shiftl 1 2.
Definition SCRIPT_VERIFY_NULLDUMMY : Z := Z.shiftl 1 4.
Definition SCRIPT_VERIFY_WITNESS : Z := Z.shiftl 1 11.
Definition SIGNET_SCRIPT_FLAGS : Z :=
  Z.lor (Z.lor (Z.lor SCRIPT_VERIFY_P2SH SCRIPT_VERIFY_WITNESS) SCRIPT_VERIFY_DERSIG) SCRIPT_VERIFY_NULLDUMMY.

Inductive SigVersion := BASE | WITNESS_V0 | TAPROOT | TAPSCRIPT.

(** [BaseSignatureChecker::CheckECDSASignature]: signature with its type, public
    key, script code, version and flags. *)
Definition checker : Type := bytes -> bytes -> bytes -> SigVersion -> Z -> bool.

(** The script interpreter (script/interpreter.cpp) and the curve (pubkey.cpp). *)
Class SignatureEnv := {
  VerifyScript : bytes -> bytes -> list bytes -> Z -> checker -> bool;
  CheckSignatureEncoding : bytes -> Z -> bool;
  PubKeyIsValid : bytes -> bool;
  PubKeyVerify : bytes -> uint256 -> bytes -> bool }.

(** ** The commitment *)
Definition is_witness_commitment (script : bytes) : bool :=
  (38 <=? len script) && (at_ script 0 =? OP_RETURN) && (at_ script 1 =? 0x24) && (at_ script 2 =? 0xaa) &&
  (at_ script 3 =? 0x21) && (at_ script 4 =? 0xa9) && (at_ script 5 =? 0xed).

(** The last output that matches; [None] is the index -1. *)
Definition WitnessCommitmentIndex (coinbase : CTransaction) : option nat :=
  foldl (fun found i => if is_witness_commitment (nth i (map scriptPubKey coinbase.(vout)) []) then Some i else found)
    None (seq 0 (length coinbase.(vout))).

(** One element of the script: found, replacement and result so far. *)
Definition clear_push (st : bool * bytes * bytes) (opcode : Z) (pushdata : bytes) : bool * bytes * bytes :=
  let '(found, replacement, result) := st in
  if negb (bytes_eqb pushdata []) then
    if negb found && (4 <? len pushdata) && bytes_eqb (take 4 pushdata) SIGNET_HEADER
    then (true, replacement ++ push_data (take 4 pushdata), result ++ drop 4 pushdata)
    else (found, replacement ++ push_data pushdata, result)
  else (found, replacement ++ [opcode], result).

(** [while (GetOp(cursor, opcode, pushdata))]; every pass consumes a byte. *)
Fixpoint clear_loop (fuel : nat) (cursor : bytes) (st : bool * bytes * bytes) : bytes * (bool * bytes * bytes) :=
  match fuel with
  | O => (cursor, st)
  | S f => match GetScriptOp cursor with
           | (pc, Some (opcode, pushdata)) => clear_loop f pc (clear_push st opcode pushdata)
           | (pc, None) => (pc, st)
           end
  end.

(** drivechain_bmm.cpp: [None] for a malformed script, else the script and the
    solution. *)
Definition FetchAndClearSignetSolution (witness_commitment : bytes) : option (bytes * bytes) :=
  let '(cursor, (found, replacement, result)) :=
    clear_loop (S (length witness_commitment)) witness_commitment (false, [], []) in
  if negb (bytes_eqb cursor []) then None
  else Some (if found then replacement else witness_commitment, result).

(** signet.cpp with the header [SIGNET_HEADER]. *)
Definition FetchAndClearCommitmentSection (witness_commitment : bytes) : bytes * bytes :=
  let '(_, (found, replacement, result)) :=
    clear_loop (S (length witness_commitment)) witness_commitment (false, [], []) in
  (if found then replacement else witness_commitment, result).

(** ** Signature hashes *)
Definition SIGHASH_NONE : Z := 2.
Definition SIGHASH_SINGLE : Z := 3.
Definition SIGHASH_ANYONECANPAY : Z := 0x80.

Definition no_input : CTxIn := mkTxIn (mkOutPoint 0 NULL_INDEX) [] 0 [].
Definition no_output : CTxOut := mkTxOut 0 [].

Definition BitcoinWitnessV0SignatureHash (script_code : bytes) (tx : CTransaction) (input_index : nat)
    (hash_type : Z) : uint256 :=
  let base_type := Z.land hash_type 0x1f in
  let anyone := negb (Z.land hash_type SIGHASH_ANYONECANPAY =? 0) in
  let whole := negb (base_type =? SIGHASH_SINGLE) && negb (base_type =? SIGHASH_NONE) in
  let hash_prevouts := if negb anyone then Hash (concat (map (fun i => ser_outpoint i.(prevout)) tx.(vin))) else 0 in
  let hash_sequence := if negb anyone && whole
                       then Hash (concat (map (fun i => le_encode 4 i.(nSequence)) tx.(vin))) else 0 in
  let hash_outputs :=
    if whole then Hash (concat (map ser_txout tx.(vout)))
    else if (base_type =? SIGHASH_SINGLE) && (input_index <? length tx.(vout))%nat
    then Hash (ser_txout (nth input_index tx.(vout) no_output)) else 0 in
  let input := nth input_index tx.(vin) no_input in
  Hash (le_encode 4 tx.(version) ++ uint256_bytes hash_prevouts ++ uint256_bytes hash_sequence ++
        ser_outpoint input.(prevout) ++ ser_bytes script_code ++ le_encode 8 0 ++ le_encode 4 input.(nSequence) ++
        uint256_bytes hash_outputs ++ le_encode 4 tx.(nLockTime) ++ le_encode 4 hash_type).

Section checks.
Context {Env : SignatureEnv}.

(** drivechain_bmm.cpp: [BitcoinSignatureChecker]. *)
Definition BitcoinSignatureChecker (tx : CTransaction) (input_index : nat) : checker :=
  fun signature_with_type public_key script_code sigversion _ =>
    match sigversion with
    | WITNESS_V0 =>
        negb (bytes_eqb signature_with_type []) && (input_index <? length tx.(vin))%nat &&
        PubKeyIsValid public_key &&
        PubKeyVerify public_key
          (BitcoinWitnessV0SignatureHash script_code tx input_index (List.last signature_with_type 0))
          (removelast signature_with_type)
    | _ => false
    end.

(** signet.cpp: [BitcoinSignetSignatureChecker]. *)
Definition BitcoinSignetSignatureChecker (tx : CTransaction) : checker :=
  fun signature_with_hash_type public_key script_code sig_version flags =>
    match sig_version with
    | WITNESS_V0 =>
        negb (bytes_eqb signature_with_hash_type []) &&
        CheckSignatureEncoding signature_with_hash_type flags &&
        PubKeyIsValid public_key &&
        PubKeyVerify public_key
          (BitcoinWitnessV0SignatureHash script_code tx 0 (List.last signature_with_hash_type 0))
          (removelast signature_with_hash_type)
    | _ => false
    end.

(** ** The two transactions *)
Definition null_prevout : COutPoint := mkOutPoint 0 NULL_INDEX.

Definition block_data (h : CBlockHeader) (modified_merkle_root : uint256) : bytes :=
  le_encode 4 h.(nVersion) ++ uint256_bytes h.(hashPrevBlock) ++ uint256_bytes modified_merkle_root ++
  le_encode 4 h.(nTime).

Definition transaction_to_spend (challenge data : bytes) : CTransaction :=
  mkTx [mkTxIn null_prevout ([OP_FALSE] ++ push_data data) 0 []] [mkTxOut 0 challenge] 0 0.

Definition transaction_to_sign (to_spend : CTransaction) (script : bytes) (stack : list bytes) : CTransaction :=
  mkTx [mkTxIn (mkOutPoint (GetHash to_spend) 0) script 0 stack] [mkTxOut 0 [OP_RETURN]] 0 0.

(** The script and the witness stack of a solution, without trailing bytes. *)
Definition read_solution : reader (bytes * list bytes) :=
  let* script := read_script in let* stack := read_vector read_script in rret (script, stack).

Definition with_script (coinbase : CTransaction) (i : nat) (script : bytes) : CTransaction :=
  mkTx coinbase.(vin)
    (<[i := mkTxOut (nth i coinbase.(vout) no_output).(nValue) script]> coinbase.(vout))
    coinbase.(version) coinbase.(nLockTime).

(** ** Whole blocks (signet.cpp) *)
Definition ComputeBitcoinModifiedMerkleRoot (coinbase : CTransaction) (block : CBlock) : uint256 :=
  (ComputeMerkleRoot (GetHash coinbase :: map GetHash (tail block.(vtx)))).1.

Definition CheckBitcoinSignetBlockSolution (block : CBlock) (challenge : bytes) (genesis_hash : uint256) : result unit :=
  if GetBlockHash block =? genesis_hash then Ok tt
  else match block.(vtx) with
  | [] => Err "parent signet block has no coinbase transaction"
  | coinbase :: _ =>
      ensure (IsCoinBase coinbase) "parent signet block has no coinbase transaction";;
      match WitnessCommitmentIndex coinbase with
      | None => Err "parent signet block has no witness commitment"
      | Some commitment_index =>
          let '(script, signet_solution) :=
            FetchAndClearCommitmentSection (nth commitment_index coinbase.(vout) no_output).(scriptPubKey) in
          let modified_coinbase := with_script coinbase commitment_index script in
          solution ← (if negb (bytes_eqb signet_solution []) then
                        match read_solution signet_solution with
                        | Some (s, []) => Ok s
                        | Some (_, _) => Err "parent signet solution has trailing bytes"
                        | None => Err "parent signet solution is not canonically encoded"
                        end
                      else Ok ([], []));
          let modified_merkle_root := ComputeBitcoinModifiedMerkleRoot modified_coinbase block in
          let to_spend := transaction_to_spend challenge (block_data block.(header) modified_merkle_root) in
          let to_sign := transaction_to_sign to_spend solution.1 solution.2 in
          ensure (VerifyScript solution.1 challenge solution.2 SIGNET_SCRIPT_FLAGS (BitcoinSignetSignatureChecker to_sign))
            "parent signet solution failed challenge validation: %s"
      end
  end.

(** ** Coinbases with a partial tree (drivechain_bmm.cpp) *)
Definition CheckSignetSolution (original_coinbase : CTransaction) (proof : CMerkleBlock)
    (signet_challenge : bytes) : result unit :=
  match WitnessCommitmentIndex original_coinbase with
  | None => Err "BMM parent block has no Bitcoin witness commitment"
  | Some commitment_index =>
      match FetchAndClearSignetSolution (nth commitment_index original_coinbase.(vout) no_output).(scriptPubKey) with
      | None => Err "BMM parent block has a malformed signet commitment script"
      | Some (script, signet_solution) =>
          let modified_coinbase := with_script original_coinbase commitment_index script in
          solution ← (if negb (bytes_eqb signet_solution []) then
                        match read_solution signet_solution with
                        | Some (s, []) => Ok s
                        | Some (_, _) => Err "BMM parent block signet solution contains trailing data"
                        | None => Err "BMM parent block signet solution cannot be decoded"
                        end
                      else Ok ([], []));
          let x := ExtractMatchesWithReplacement proof.(txn) 0 (GetHash modified_coinbase) in
          ensure (negb (IsNull x.(x_root)) && (len x.(x_matches) =? 1) && (len x.(x_indices) =? 1) &&
                  (nth 0 x.(x_indices) 0 =? 0) && (nth 0 x.(x_matches) 0 =? GetHash original_coinbase))
            "BMM signet proof does not authenticate exactly the coinbase";;
          let to_spend := transaction_to_spend signet_challenge (block_data proof.(mb_header) x.(x_root)) in
          let to_sign := transaction_to_sign to_spend solution.1 solution.2 in
          ensure (VerifyScript solution.1 signet_challenge solution.2 SIGNET_SCRIPT_FLAGS (BitcoinSignatureChecker to_sign 0))
            "BMM parent block signet solution is invalid"
      end
  end.

End checks.

(** ** Both checks agree
    The interpreter verifies the encoding of a signature before it consults the
    checker. *)
Definition encoding_checked (Env : SignatureEnv) : Prop :=
  forall script_sig script_pub_key stack flags (c1 c2 : checker),
    (forall sig key code v f, CheckSignatureEncoding sig f = true -> c1 sig key code v f = c2 sig key code v f) ->
    VerifyScript script_sig script_pub_key stack flags c1 = VerifyScript script_sig script_pub_key stack flags c2.

(** The coinbase without its solution, when its commitment script is well formed. *)
Definition modified_coinbase (coinbase : CTransaction) : option CTransaction :=
  match WitnessCommitmentIndex coinbase with
  | Some i => match FetchAndClearSignetSolution (nth i coinbase.(vout) no_output).(scriptPubKey) with
              | Some (script, _) => Some (with_script coinbase i script)
              | None => None
              end
  | None => None
  end.

Lemma clear_versions script s r : FetchAndClearSignetSolution script = Some (s, r) ->
  FetchAndClearCommitmentSection script = (s, r).
Proof.
  unfold FetchAndClearSignetSolution, FetchAndClearCommitmentSection.
  destruct (clear_loop _ _ _) as [cursor [[found replacement] result]].
  destruct (negb (bytes_eqb cursor [])); [done|]. by intros [= <- <-].
Qed.

Lemma first_only n : filter (fun p => nth p [true] false = true) (seq 0 (S n)) = [0%nat].
Proof.
  cbn [seq]. rewrite filter_cons_True by done. f_equal.
  assert (G : forall m s, (1 <= s)%nat -> filter (fun p => nth p [true] false = true) (seq s m) = []); [|by apply G].
  induction m as [|m IH]; intros s Hs; [done|]. cbn [seq]. rewrite filter_cons_False; [apply IH; lia|].
  by destruct s as [|[|s]]; [lia|..].
Qed.

(** A partial tree that selects the coinbase of a block, read with another
    coinbase in its place. *)
Lemma coinbase_replaced cb rest r :
  let txids := map GetHash (cb :: rest) in
  len txids <= MAX_BLOCK_WEIGHT / MIN_TRANSACTION_WEIGHT ->
  siblings_differ txids [true] (r :: map GetHash rest) (passes (length txids) txids) 0 = true ->
  ExtractMatchesWithReplacement (CPartialMerkleTree_new txids [true]) 0 r =
  mkExtracted (ComputeMerkleRoot (r :: map GetHash rest)).1 [GetHash cb] [0] (CPartialMerkleTree_new txids [true]).
Proof.
  intros txids Hl Hs. assert (H0 : 0 < len txids) by (unfold txids; cbn [map]; rewrite len_cons; pose proof (len_nonneg (map GetHash rest)); lia).
  pose proof (built_tree_extracts txids [true] (Some (0, r)) (conj H0 Hl)) as H.
  assert (Hm : replaces_match txids [true] (Some (0, r))) by (split; [lia|reflexivity]).
  specialize (H Hm Hs). cbn [replacement_index replacement_hash leaves] in H. rewrite H.
  replace (length txids) with (S (length (map GetHash rest))) by reflexivity. rewrite first_only. reflexivity.
Qed.

Lemma checkers_agree `{Env : SignatureEnv} to_sign : to_sign.(vin) <> [] ->
  forall sig key code v f, CheckSignatureEncoding sig f = true ->
  BitcoinSignatureChecker to_sign 0 sig key code v f = BitcoinSignetSignatureChecker to_sign sig key code v f.
Proof.
  intros Hv sig key code v f He. unfold BitcoinSignatureChecker, BitcoinSignetSignatureChecker.
  rewrite He. destruct (vin to_sign); [done|]. by destruct v.
Qed.

(** On a block whose commitment script is well formed, the check of
    BMM proofs applied to the coinbase and the partial tree of the block that
    selects it, and the check of whole blocks, accept the same solutions. *)
Theorem signet_checks_agree `{Env : SignatureEnv} (block : CBlock) (cb cb' : CTransaction) (rest : list CTransaction)
    (challenge : bytes) (genesis : uint256) :
  encoding_checked Env ->
  block.(vtx) = cb :: rest -> IsCoinBase cb = true -> (GetBlockHash block =? genesis) = false ->
  modified_coinbase cb = Some cb' ->
  let txids := map GetHash (cb :: rest) in
  let changed := GetHash cb' :: map GetHash rest in
  len txids <= MAX_BLOCK_WEIGHT / MIN_TRANSACTION_WEIGHT ->
  siblings_differ txids [true] changed (passes (length txids) txids) 0 = true ->
  IsNull (ComputeMerkleRoot changed).1 = false ->
  is_ok (CheckSignetSolution cb (mkMerkleBlock block.(header) (CPartialMerkleTree_new txids [true])) challenge) =
  is_ok (CheckBitcoinSignetBlockSolution block challenge genesis).
Proof.
  intros Henv Ev Hcb Hg Hm txids changed Hl Hs Hn. unfold CheckSignetSolution, CheckBitcoinSignetBlockSolution.
  rewrite Hg, Ev, ensure_bind by exact Hcb. unfold modified_coinbase in Hm.
  destruct (WitnessCommitmentIndex cb) as [i|]; [|discriminate Hm].
  destruct (FetchAndClearSignetSolution _) as [[script sol]|] eqn:Ef; [|discriminate Hm].
  injection Hm as <-. rewrite (clear_versions _ _ _ Ef). cbn [txn mb_header].
  set (m := with_script cb i script) in *. unfold ComputeBitcoinModifiedMerkleRoot. rewrite Ev. cbn [tail].
  pose proof (coinbase_replaced cb rest (GetHash m) Hl Hs) as Hx. fold txids in Hx. rewrite Hx. clear Hx.
  cbn [x_root x_matches x_indices]. fold changed. rewrite Hn.
  assert (Hg' : forall s, is_ok (ensure (VerifyScript s.1 challenge s.2 SIGNET_SCRIPT_FLAGS (BitcoinSignatureChecker
      (transaction_to_sign (transaction_to_spend challenge (block_data (header block) (ComputeMerkleRoot changed).1)) s.1 s.2) 0))
      "BMM parent block signet solution is invalid") =
    is_ok (ensure (VerifyScript s.1 challenge s.2 SIGNET_SCRIPT_FLAGS (BitcoinSignetSignatureChecker
      (transaction_to_sign (transaction_to_spend challenge (block_data (header block) (ComputeMerkleRoot changed).1)) s.1 s.2)))
      "parent signet solution failed challenge validation: %s")).
  { intros s. erewrite Henv; [|intros; apply checkers_agree; [discriminate|eassumption]]. by destruct (VerifyScript _ _ _ _ _). }
  rewrite Z.eqb_refl. change (len [GetHash cb] =? 1) with true. change (len [0] =? 1) with true.
  cbn [negb andb nth]. rewrite Z.eqb_refl. cbn [andb].
  unfold mbind, result_bind, ensure at 1. rewrite !(Z.eqb_refl (GetHash cb)).
  destruct (negb (bytes_eqb sol [])); [|exact (Hg' ([], []))].
  destruct (read_solution sol) as [[s []]|]; [exact (Hg' s)|reflexivity|reflexivity].
Qed.

(** A signature environment that obeys the law: one signature and one key. *)
Definition sample_env : SignatureEnv := {|
  VerifyScript := fun _ spk stack flags c =>
    match stack with
    | [sig; key] => negb (bytes_eqb sig []) && c sig key spk WITNESS_V0 flags
    | _ => false
    end;
  CheckSignatureEncoding := fun sig _ => negb (bytes_eqb sig []);
  PubKeyIsValid := fun key => negb (bytes_eqb key []);
  PubKeyVerify := fun key h sig => bytes_eqb key [8] |}.

Lemma sample_env_law : encoding_checked sample_env.
Proof.
  intros ss spk stack flags c1 c2 H. cbn. destruct stack as [|sig [|key []]]; try done.
  destruct (negb (bytes_eqb sig [])) eqn:E; [|done]. apply (H sig key spk WITNESS_V0 flags E).
Qed.

Definition sample_commitment : bytes :=
  [OP_RETURN; 0x24; 0xaa; 0x21; 0xa9; 0xed] ++ replicate 32 0 ++ push_data (SIGNET_HEADER ++ [0; 2; 2; 7; 1; 1; 8]).
Definition sample_coinbase : CTransaction :=
  mkTx [mkTxIn null_prevout [1; 1] 0 []] [mkTxOut 0 sample_commitment] 2 0.
Definition sample_rest : list CTransaction := [mkTx [] [] 2 0].
Definition sample_block : CBlock := mkBlock (mkHeader 2 5 6 7 8 9) (sample_coinbase :: sample_rest).

Lemma signet_checks_agree_witness :
  is_ok (@CheckSignetSolution sample_env sample_coinbase
    (mkMerkleBlock sample_block.(header)
       (CPartialMerkleTree_new (map GetHash (sample_coinbase :: sample_rest)) [true])) []) =
  is_ok (@CheckBitcoinSignetBlockSolution sample_env sample_block [] 1).
Proof.
  assert (H1 : (GetBlockHash sample_block =? 1) = false) by (vm_compute; reflexivity).
  destruct (modified_coinbase sample_coinbase) as [cb'|] eqn:H2; [|vm_compute in H2; discriminate H2].
  apply (@signet_checks_agree sample_env sample_block sample_coinbase cb' sample_rest [] 1
    sample_env_law eq_refl eq_refl H1 H2); vm_compute in H2; injection H2 as <-; vm_compute; done.
Defined.

(** Reading an operation consumes a byte, so one unit of fuel more than the script has bytes is enough: more
    changes nothing. *)
Lemma GetScriptOp_shorter pc pc' x : GetScriptOp pc = (pc', Some x) -> (length pc' < length pc)%nat.
Proof.
  destruct pc as [|op pc]; [done|]. unfold GetScriptOp, take_operand. intros H.
  repeat case_match; simplify_eq; rewrite ?length_drop; cbn [length]; lia.
Qed.

Lemma clear_loop_fuel f cursor st : (length cursor < f)%nat -> clear_loop f cursor st = clear_loop (S (length cursor)) cursor st.
Proof.
  revert cursor st. induction f as [f IH] using lt_wf_ind. intros cursor st Hf. destruct f as [|f]; [lia|]. cbn [clear_loop].
  destruct (GetScriptOp cursor) as [pc [[op d]|]] eqn:E; [|done]. apply GetScriptOp_shorter in E.
  destruct (decide (f = length cursor)) as [->|Hn]; [done|].
  rewrite (IH f), (IH (length cursor)) by lia. done.
Qed.

(** A commitment script that ends in a truncated push is not refused when nothing follows the opcode: the cursor
    is already at the end.  With a byte behind it, it is. *)
Example truncated_push_accepted :
  FetchAndClearSignetSolution (sample_commitment ++ [OP_PUSHDATA1]) <> None /\
  FetchAndClearSignetSolution (sample_commitment ++ [2; 7]) = None.
Proof. vm_compute. split; [discriminate|reflexivity]. Qed.
