(* ===== verification/ParentBlock.v ===== *)
(** * Raw parent blocks (src/src/mainchainrpc.cpp)

    [ReadAuthenticatedRawMainchainBlock] accepts the bytes that the parent node
    returns for a block hash only if they decode completely, have that hash and
    its proof of work, one coinbase, and the Merkle root of the header without
    repeated hashes.  The theorem shows that the hash then determines the block:
    whatever the parent node answers, two accepted answers have the same header
    and transactions, or exhibit a collision of SHA-256d. *)

From S2P Require Import Prelude ArithUint256 Sha256 Script Transaction ParentMessage BlockMerkle PartialMerkle Signet.

(** ** Proof of work *)
Definition CheckParentProofOfWork (parentChainPowLimit hash : uint256) (n_bits : Z) : result unit :=
  let '(target, negative, overflow) := SetCompact n_bits in
  ensure (negb (negative || EqualTo target 0 || overflow ||
                (0 <? CompareTo target (UintToArith256 parentChainPowLimit))))
    "parent header has an invalid proof-of-work target";;
  ensure (negb (0 <? CompareTo (UintToArith256 hash) target))
    "parent header does not satisfy its proof-of-work target".

(** ** Blocks *)
Definition read_block : reader CBlock :=
  let* h := read_header in let* txs := read_vector (UnserializeTransaction true) in rret (mkBlock h txs).

Record parent_params := mkParentParams {
  parentChainPowLimit : uint256; parent_signet_challenge : bytes; ParentGenesisBlockHash : uint256 }.

Section authenticate.
Context {Env : SignatureEnv} (p : parent_params).

(** The checks on the answer [raw] of the parent node for [hash]. *)
Definition ReadAuthenticatedRawMainchainBlock (raw : bytes) (hash : uint256) : result CBlock :=
  match read_block raw with
  | None => Err "cannot decode raw parent block: %s"
  | Some (block, rest) =>
      ensure (bytes_eqb rest []) "raw parent block has trailing bytes";;
      ensure (GetBlockHash block =? hash) "raw parent block header does not match its requested hash";;
      CheckParentProofOfWork p.(parentChainPowLimit) hash block.(header).(nBits);;
      ensure (match block.(vtx) with cb :: _ => IsCoinBase cb | [] => false end)
        "raw parent block has no coinbase transaction";;
      ensure (forallb (fun tx => negb (IsCoinBase tx)) (tail block.(vtx)))
        "raw parent block has a null transaction or multiple coinbases";;
      let '(root, mutated) := ComputeMerkleRoot (map GetHash block.(vtx)) in
      ensure ((root =? block.(header).(hashMerkleRoot)) && negb mutated)
        "raw parent block has an invalid or mutated transaction Merkle tree";;
      (if negb (bytes_eqb p.(parent_signet_challenge) [])
       then CheckBitcoinSignetBlockSolution block p.(parent_signet_challenge) p.(ParentGenesisBlockHash)
       else Ok tt);;
      Ok block
  end.
End authenticate.

(** ** What readers yield *)
Definition yields {A} (r : reader A) (P : A -> Prop) : Prop :=
  forall s x t, bytes_ok s -> r s = Some (x, t) -> P x /\ bytes_ok t.

Lemma yields_ret {A} (x : A) (P : A -> Prop) : P x -> yields (rret x) P.
Proof. intros H s y t Hs [= <- <-]. done. Qed.

Lemma yields_bind {A B} (r : reader A) (f : A -> reader B) P Q :
  yields r P -> (forall x, P x -> yields (f x) Q) -> yields (rbind r f) Q.
Proof.
  intros H1 H2 s y t Hs (x & s1 & E1 & E2)%rbind_Some. destruct (H1 _ _ _ Hs E1) as [Hx Hs1]. by apply (H2 x Hx s1).
Qed.

Lemma yields_if {A} (b : bool) (r1 r2 : reader A) P : yields r1 P -> yields r2 P -> yields (if b then r1 else r2) P.
Proof. by destruct b. Qed.

Lemma yields_fail {A} (P : A -> Prop) : yields rfail P.
Proof. by intros s x t Hs [=]. Qed.

Lemma yields_impl {A} (r : reader A) (P Q : A -> Prop) : yields r P -> (forall x, P x -> Q x) -> yields r Q.
Proof. intros H1 H2 s x t Hs E. destruct (H1 _ _ _ Hs E). auto. Qed.

Lemma yields_bytes k : yields (read_bytes k) (fun b => bytes_ok b /\ length b = k).
Proof.
  intros s x t Hs E. pose proof (read_bytes_length _ _ _ _ E). unfold read_bytes in E.
  destruct (_ <? _)%nat; [done|]. injection E as <- <-. auto with bytes_db.
Qed.

Lemma yields_le k : yields (read_le k) (fun z => 0 <= z < 256 ^ Z.of_nat k).
Proof.
  intros s x t Hs E. split; [exact (read_le_bound _ _ _ _ Hs E)|].
  exact (proj2 (canon_step _ _ _ _ _ (canon_le k) Hs E)).
Qed.

Lemma yields_compact : yields ReadCompactSize (fun z => 0 <= z <= MAX_SIZE).
Proof.
  intros s x t Hs E. pose proof (ReadCompactSize_inv _ _ _ Hs E) as [_ H0].
  split; [|exact (proj2 (canon_step _ _ _ _ _ canon_CompactSize Hs E))].
  unfold ReadCompactSize in E. apply rbind_Some in E as (ch & s1 & _ & E). apply rbind_Some in E as (v & s2 & _ & E).
  destruct (Z.ltb_spec MAX_SIZE v); [done|]. injection E as -> _. lia.
Qed.

Lemma yields_n {A} (r : reader A) P k : yields r P -> yields (read_n r k) (fun l => Forall P l /\ length l = k).
Proof.
  intros Hr. induction k as [|k IH]; cbn [read_n]; [by apply yields_ret|].
  eapply yields_bind; [exact Hr|]. intros x Hx. eapply yields_bind; [exact IH|]. intros l [Hl El].
  apply yields_ret. split; [by constructor|cbn; lia].
Qed.

Lemma yields_vector {A} (r : reader A) P : yields r P ->
  yields (read_vector r) (fun l => Forall P l /\ len l <= MAX_SIZE).
Proof.
  intros Hr. eapply yields_bind; [exact yields_compact|]. intros k [Hk0 Hk1].
  eapply yields_impl; [by apply yields_n|]. intros l [Hl El]. split; [done|]. unfold len. lia.
Qed.

Lemma yields_script : yields read_script script_ok.
Proof.
  eapply yields_bind; [exact yields_compact|]. intros k [Hk0 Hk1].
  eapply yields_impl; [apply yields_bytes|]. intros b [Hb El]. split; [done|]. unfold len. lia.
Qed.

Lemma yields_uint256 : yields read_uint256 uint256_ok.
Proof.
  eapply yields_bind; [apply yields_bytes|]. intros b [Hb El]. apply yields_ret. by apply uint256_of_ok.
Qed.

Lemma yields_outpoint : yields read_outpoint outpoint_ok.
Proof.
  eapply yields_bind; [exact yields_uint256|]. intros h Hh. eapply yields_bind; [apply yields_le|].
  intros i Hi. apply yields_ret. split; [done|]. exact Hi.
Qed.

Lemma yields_txin : yields read_txin txin_ok.
Proof.
  eapply yields_bind; [exact yields_outpoint|]. intros o Ho. eapply yields_bind; [exact yields_script|]. intros sc Hs.
  eapply yields_bind; [apply yields_le|]. intros q Hq. apply yields_ret. split; [done|]. split; [done|].
  split; [exact Hq|]. split; [constructor|]. done.
Qed.

Lemma to_int64_bound v : 0 <= v < 2^64 -> - 2^63 <= to_int64 v < 2^63.
Proof. intros H. unfold to_int64. destruct (Z.ltb_spec v (2^63)); lia. Qed.

Lemma yields_txout : yields read_txout txout_ok.
Proof.
  eapply yields_bind; [apply yields_le|]. intros v Hv. eapply yields_bind; [exact yields_script|]. intros sc Hs.
  apply yields_ret. split; [|done]. apply to_int64_bound. exact Hv.
Qed.

Lemma yields_witnesses ins : Forall txin_ok ins ->
  yields (read_witnesses ins) (fun l => Forall txin_ok l /\ length l = length ins).
Proof.
  induction 1 as [|i l Hi Hl IH]; cbn [read_witnesses]; [by apply yields_ret|].
  eapply yields_bind; [apply (yields_vector _ _ yields_script)|]. intros w [Hw Ew].
  eapply yields_bind; [exact IH|]. intros l' [Hl' El']. apply yields_ret. split; [|cbn [length]; congruence].
  constructor; [|done]. destruct Hi as (H1 & H2 & H3 & _). exact (conj H1 (conj H2 (conj H3 (conj Hw Ew)))).
Qed.

(** Every transaction that is read is well formed. *)
Lemma yields_transaction aw : yields (UnserializeTransaction aw) tx_ok.
Proof.
  unfold UnserializeTransaction. eapply yields_bind; [apply yields_le|]. intros ver Hver.
  eapply yields_bind; [apply (yields_vector _ _ yields_txin)|]. intros vin0 [Hin0 Lin0].
  apply yields_bind with (P := fun b => Forall txin_ok b.1.2 /\ len b.1.2 <= MAX_SIZE /\
    Forall txout_ok b.2 /\ len b.2 <= MAX_SIZE).
  { apply yields_if.
    - eapply yields_bind; [apply yields_le|]. intros fl _. apply yields_if.
      + eapply yields_bind; [apply (yields_vector _ _ yields_txin)|]. intros ins [Hi Li].
        eapply yields_bind; [apply (yields_vector _ _ yields_txout)|]. intros outs [Ho Lo]. by apply yields_ret.
      + apply yields_ret. cbn. by repeat split; try constructor.
    - eapply yields_bind; [apply (yields_vector _ _ yields_txout)|]. intros outs [Ho Lo]. by apply yields_ret. }
  intros [[flags ins] outs] (Hi & Li & Ho & Lo). cbn [fst snd] in *.
  apply yields_bind with (P := fun b => Forall txin_ok b.2 /\ len b.2 <= MAX_SIZE).
  { apply yields_if; [|by apply yields_ret].
    eapply yields_bind; [by apply yields_witnesses|]. intros ins' [Hi' Li'].
    apply yields_if; [|apply yields_fail]. apply yields_ret. cbn. split; [done|]. unfold len in *. lia. }
  intros [flags' ins'] [Hi' Li']. cbn [snd] in *. apply yields_if; [apply yields_fail|].
  eapply yields_bind; [apply yields_le|]. intros lock Hlock. apply yields_ret. by repeat split; try apply Hver; try apply Hlock.
Qed.

Lemma yields_header : yields read_header (fun h =>
  0 <= h.(nVersion) < 2^32 /\ uint256_ok h.(hashPrevBlock) /\ uint256_ok h.(hashMerkleRoot) /\
  0 <= h.(nTime) < 2^32 /\ 0 <= h.(nBits) < 2^32 /\ 0 <= h.(nNonce) < 2^32).
Proof.
  eapply yields_bind; [apply yields_le|]. intros v Hv. eapply yields_bind; [exact yields_uint256|]. intros pr Hp.
  eapply yields_bind; [exact yields_uint256|]. intros m Hm. eapply yields_bind; [apply yields_le|]. intros ti Ht.
  eapply yields_bind; [apply yields_le|]. intros b Hb. eapply yields_bind; [apply yields_le|]. intros k Hk.
  apply yields_ret. cbn. split_and!; try done; try apply Hv; try apply Ht; try apply Hb; try apply Hk.
Qed.

(** ** The hash determines the block *)
Lemma stripped_inj t1 t2 : tx_ok t1 -> tx_ok t2 ->
  SerializeTransaction false t1 = SerializeTransaction false t2 -> strip_witness t1 = strip_witness t2.
Proof.
  intros H1 H2 E. pose proof (reads_transaction_legacy t1 H1 []) as R1. pose proof (reads_transaction_legacy t2 H2 []) as R2.
  rewrite E, R2 in R1. congruence.
Qed.

Fixpoint tx_collision (v1 v2 : list CTransaction) : option (bytes * bytes) :=
  match v1, v2 with
  | t1 :: r1, t2 :: r2 =>
      if bool_decide (SerializeTransaction false t1 = SerializeTransaction false t2) then tx_collision r1 r2
      else Some (SerializeTransaction false t1, SerializeTransaction false t2)
  | _, _ => None
  end.

Lemma same_txids v1 v2 : Forall tx_ok v1 -> Forall tx_ok v2 -> map GetHash v1 = map GetHash v2 ->
  map strip_witness v1 = map strip_witness v2 \/ exists c, tx_collision v1 v2 = Some c /\ is_collision c.
Proof.
  intros H1. revert v2. induction H1 as [|t1 r1 Ht1 Hr1 IH]; intros [|t2 r2] H2 E;
    [left; reflexivity|discriminate E|discriminate E|].
  apply Forall_cons_1 in H2 as [Ht2 Hr2]. cbn [map] in E. apply cons_inj in E as [E Er]. cbn [tx_collision map].
  destruct (decide (SerializeTransaction false t1 = SerializeTransaction false t2)) as [Es|Es].
  - rewrite bool_decide_true by exact Es. destruct (IH r2 Hr2 Er) as [->|Hc]; [left|right; exact Hc].
    f_equal. exact (stripped_inj t1 t2 Ht1 Ht2 Es).
  - rewrite bool_decide_false by exact Es. right. eexists. split; [reflexivity|].
    unfold is_collision, GetHash in *. cbn [fst snd]. split; [exact Es|exact E].
Qed.

(** The collision of two lists of transactions with one root, the first of them
    in the tree with fewer levels. *)
Definition levels_collision (v1 v2 : list CTransaction) : option (bytes * bytes) :=
  let l1 := map GetHash v1 in
  let l2 := map GetHash v2 in
  match root_collision l1 l2 with
  | Some c => Some c
  | None =>
      match (passes (length l2) l2 - passes (length l1) l1)%nat with
      | O => tx_collision v1 v2
      | S k => match v1, layer k l2 with
               | cb :: _, x :: t => Some (SerializeTransaction false cb, pair_bytes (x, hd x t))
               | _, _ => None
               end
      end
  end.

Lemma hd_pair_up x t : exists r, pair_up (x :: t) = hash_pair x (hd x t) :: r.
Proof. destruct t as [|y t]; eexists; reflexivity. Qed.

Lemma txids_ok v : Forall uint256_ok (map GetHash v).
Proof. induction v as [|t v IH]; [apply Forall_nil_2|]. cbn [map]. apply Forall_cons_2; [apply GetHash_ok|exact IH]. Qed.

Lemma levels_collide v1 v2 : Forall tx_ok v1 -> Forall tx_ok v2 -> v1 <> [] -> v2 <> [] ->
  let l1 := map GetHash v1 in let l2 := map GetHash v2 in
  (ComputeMerkleRoot l1).2 = false -> (ComputeMerkleRoot l2).2 = false ->
  (ComputeMerkleRoot l1).1 = (ComputeMerkleRoot l2).1 ->
  (passes (length l1) l1 <= passes (length l2) l2)%nat ->
  (forall cb, head v1 = Some cb -> length (SerializeTransaction false cb) <> 64%nat) ->
  map strip_witness v1 = map strip_witness v2 \/ exists c, levels_collision v1 v2 = Some c /\ is_collision c.
Proof.
  intros H1 H2 N1 N2 l1 l2 M1 M2 E Hd H64.
  assert (N1' : l1 <> []) by (unfold l1; destruct v1; [done|discriminate]).
  assert (N2' : l2 <> []) by (unfold l2; destruct v2; [done|discriminate]).
  destruct (same_root l1 l2 (txids_ok v1) (txids_ok v2) N1' N2' M1 M2 E Hd) as [El|(c & Ec & Hc)].
  2: { right. exists c. unfold levels_collision. fold l1 l2. rewrite Ec. split; [reflexivity|exact Hc]. }
  unfold levels_collision. fold l1 l2. unfold root_collision. set (k := (passes (length l2) l2 - _)%nat) in *.
  rewrite <- El, layer_collision_refl. destruct k as [|k].
  - exact (same_txids v1 v2 H1 H2 El).
  - right. destruct v1 as [|cb v1]; [done|]. specialize (H64 cb eq_refl).
    replace (S k) with (k + 1)%nat in El by lia. rewrite layer_add in El. cbn [layer] in El.
    destruct (layer k l2) as [|x t]; [discriminate El|]. destruct (hd_pair_up x t) as [r Er]. rewrite Er in El.
    unfold l1 in El. cbn [map] in El. apply cons_inj in El as [El _]. eexists. split; [reflexivity|].
    unfold is_collision, GetHash, hash_pair, pair_bytes in *. cbn [fst snd]. split; [|exact El]. intros Eb. apply H64. rewrite Eb.
    by rewrite length_app, !uint256_bytes_length.
Qed.

Definition header_ok (h : CBlockHeader) : Prop :=
  0 <= h.(nVersion) < 2^32 /\ uint256_ok h.(hashPrevBlock) /\ uint256_ok h.(hashMerkleRoot) /\
  0 <= h.(nTime) < 2^32 /\ 0 <= h.(nBits) < 2^32 /\ 0 <= h.(nNonce) < 2^32.

Lemma reads_header h : header_ok h -> reads read_header h (ser_header h).
Proof.
  intros (H1 & H2 & H3 & H4 & H5 & H6). destruct h as [v pr m ti b k].
  cbn [nVersion hashPrevBlock hashMerkleRoot nTime nBits nNonce] in *.
  unfold read_header, ser_header. cbn [nVersion hashPrevBlock hashMerkleRoot nTime nBits nNonce].
  eapply reads_bind; [apply reads_le; exact H1|]. eapply reads_bind; [by apply reads_uint256|].
  eapply reads_bind; [by apply reads_uint256|]. eapply reads_bind; [apply reads_le; exact H4|].
  eapply reads_bind; [apply reads_le; exact H5|]. rewrite <- (app_nil_r (le_encode 4 k)).
  eapply reads_bind; [apply reads_le; exact H6|]. apply reads_ret.
Qed.

Lemma header_inj h1 h2 : header_ok h1 -> header_ok h2 -> ser_header h1 = ser_header h2 -> h1 = h2.
Proof.
  intros H1 H2 E. pose proof (reads_header h1 H1 []) as R1. pose proof (reads_header h2 H2 []) as R2.
  rewrite E, R2 in R1. congruence.
Qed.

Lemma yields_block : yields read_block (fun b => header_ok b.(header) /\ Forall tx_ok b.(vtx)).
Proof.
  eapply yields_bind; [exact yields_header|]. intros h Hh.
  eapply yields_bind; [apply (yields_vector _ _ (yields_transaction true))|]. intros txs [Ht _]. by apply yields_ret.
Qed.

(** Two different preimages that the answers contain, if they differ. *)
Definition block_collision (b1 b2 : CBlock) : option (bytes * bytes) :=
  if bool_decide (ser_header b1.(header) = ser_header b2.(header)) then
    let l1 := map GetHash b1.(vtx) in
    let l2 := map GetHash b2.(vtx) in
    if (passes (length l1) l1 <=? passes (length l2) l2)%nat
    then levels_collision b1.(vtx) b2.(vtx) else levels_collision b2.(vtx) b1.(vtx)
  else Some (ser_header b1.(header), ser_header b2.(header)).

Section unique.
Context {Env : SignatureEnv} (p : parent_params).

(** What acceptance gives. *)
Record authentic (b : CBlock) (hash : uint256) : Prop := {
  auth_hash : GetBlockHash b = hash;
  auth_header : header_ok b.(header);
  auth_txs : Forall tx_ok b.(vtx);
  auth_some : b.(vtx) <> [];
  auth_root : (ComputeMerkleRoot (map GetHash b.(vtx))).1 = b.(header).(hashMerkleRoot);
  auth_unmutated : (ComputeMerkleRoot (map GetHash b.(vtx))).2 = false }.

Lemma accepted_authentic raw hash b : bytes_ok raw ->
  ReadAuthenticatedRawMainchainBlock p raw hash = Ok b -> authentic b hash.
Proof.
  intros Hraw H. unfold ReadAuthenticatedRawMainchainBlock in H.
  destruct (read_block raw) as [[b' rest]|] eqn:Er; [|discriminate H].
  destruct (yields_block _ _ _ Hraw Er) as [[Hh Ht] _].
  destruct (ComputeMerkleRoot (map GetHash (vtx b'))) as [root mutated] eqn:Em. inv_ok.
  apply andb_true_iff in Hok4 as [Hroot%Z.eqb_eq Hmut%negb_true_iff]. apply Z.eqb_eq in Hok0.
  split; [exact Hok0|exact Hh|exact Ht| |rewrite Em; exact Hroot|rewrite Em; exact Hmut].
  intros E. rewrite E in Hok2. discriminate Hok2.
Qed.

(** C29. Whatever the parent node answers for a block hash, two answers that
    are accepted have the same header and the same transactions up to their
    witnesses, or [block_collision] computes a collision of the block hash
    function from them; coinbases of 64 bytes, which could pass for an inner node
    of the tree, are excluded. *)
Theorem parent_hash_determines_block (raw1 raw2 : bytes) (hash : uint256) (b1 b2 : CBlock) :
  bytes_ok raw1 -> bytes_ok raw2 ->
  ReadAuthenticatedRawMainchainBlock p raw1 hash = Ok b1 ->
  ReadAuthenticatedRawMainchainBlock p raw2 hash = Ok b2 ->
  Forall (fun tx => length (SerializeTransaction false tx) <> 64%nat) (take 1 b1.(vtx) ++ take 1 b2.(vtx)) ->
  (b1.(header) = b2.(header) /\ map strip_witness b1.(vtx) = map strip_witness b2.(vtx)) \/
  exists c, block_collision b1 b2 = Some c /\ is_collision c.
Proof.
  intros R1 R2 A1%accepted_authentic A2%accepted_authentic [F1 F2]%Forall_app; [|exact R2|exact R1].
  destruct A1 as [E1 H1 T1 N1 M1 U1], A2 as [E2 H2 T2 N2 M2 U2]. unfold block_collision.
  destruct (decide (ser_header (header b1) = ser_header (header b2))) as [Eh|Eh].
  2: { right. rewrite bool_decide_false by exact Eh. eexists. split; [reflexivity|].
       unfold is_collision, GetBlockHash in *. cbn [fst snd]. split; [exact Eh|congruence]. }
  rewrite bool_decide_true by exact Eh. pose proof (header_inj _ _ H1 H2 Eh) as Eq. rewrite Eq in M1.
  assert (G : forall v, Forall (fun tx => length (SerializeTransaction false tx) <> 64%nat) (take 1 v) ->
    forall cb, head v = Some cb -> length (SerializeTransaction false cb) <> 64%nat).
  { intros [|x v] Hv cb [=]; subst. by apply Forall_cons_1 in Hv as [Hv _]. }
  destruct (Nat.leb_spec (passes (length (map GetHash (vtx b1))) (map GetHash (vtx b1)))
    (passes (length (map GetHash (vtx b2))) (map GetHash (vtx b2)))).
  - destruct (levels_collide (vtx b1) (vtx b2) T1 T2 N1 N2 U1 U2 ltac:(congruence) ltac:(lia) (G _ F1)) as [Hs|Hc];
      [left; split; [exact Eq|exact Hs]|right; exact Hc].
  - destruct (levels_collide (vtx b2) (vtx b1) T2 T1 N2 N1 U2 U1 ltac:(congruence) ltac:(lia) (G _ F2)) as [Hs|Hc];
      [left; split; [exact Eq|symmetry; exact Hs]|right; exact Hc].
Qed.
End unique.

(** ** An instance: one block, answered with and without its witness *)
Definition small_params : parent_params := mkParentParams (uint256_of (replicate 31 0xff ++ [0x7f])) [] 1.
Definition small_coinbase (stack : list bytes) : CTransaction :=
  mkTx [mkTxIn null_prevout [1; 1] 0 stack] [mkTxOut 0 [OP_RETURN; 3; 1; 2; 3]] 2 0.
Definition small_root : uint256 := Eval vm_compute in GetHash (small_coinbase []).
Definition small_header : CBlockHeader := mkHeader 2 0 small_root 1000 0x207fffff 2.
Definition small_hash : uint256 := Eval vm_compute in Hash (ser_header small_header).
Definition small_raw (stack : list bytes) : bytes :=
  ser_header small_header ++ ser_vector (SerializeTransaction true) [small_coinbase stack].

Lemma parent_hash_determines_block_witness :
  let b1 := mkBlock small_header [small_coinbase []] in
  let b2 := mkBlock small_header [small_coinbase [[9]]] in
  (b1.(header) = b2.(header) /\ map strip_witness b1.(vtx) = map strip_witness b2.(vtx)) \/
  exists c, block_collision b1 b2 = Some c /\ is_collision c.
Proof.
  apply (@parent_hash_determines_block sample_env small_params (small_raw []) (small_raw [[9]]) small_hash).
  - refine (bool_decide_unpack _ _). vm_compute. exact I.
  - refine (bool_decide_unpack _ _). vm_compute. exact I.
  - vm_compute. reflexivity.
  - vm_compute. reflexivity.
  - repeat (apply Forall_cons_2; [vm_compute; discriminate|]). apply Forall_nil_2.
Defined.
