(* ===== verification/Coins.v ===== *)
(** * The cache of unspent outputs (src/src/coins.{h,cpp})

    [CCoinsViewCache] keeps coins and the spentness of peg-ins over another view.
    Entries carry the flags DIRTY, FRESH and PEGIN; [BatchWrite] merges the dirty
    entries of a child cache into its parent.  The theorems relate a cache to the
    map it stands for: operations change that map as specified, and writing a
    cache to its parent gives the parent the contents of the cache.  Memory
    accounting and the linked list of flagged entries are left out; [BatchWrite]
    visits the entries in the order of the map, which does not matter because
    they have different keys.  Scripts are those of Elements mode. *)

From S2P Require Import Prelude Sha256 Script Transaction Confidential.

(** ** Coins *)
Record Coin := mkCoin { out : Elements.CTxOut; fCoinBase : bool; nHeight : Z }.

Definition CTxOut_IsNull (o : Elements.CTxOut) : bool :=
  Conf.IsNull o.(Elements.nAsset) && Conf.IsNull o.(Elements.nValue) && Conf.IsNull o.(Elements.nNonce) &&
  bytes_eqb o.(Elements.scriptPubKey) [].

Definition IsSpent (c : Coin) : bool := CTxOut_IsNull c.(out).

(** [coinEmpty], and a coin after [Clear]. *)
Definition coinEmpty : Coin := mkCoin (Elements.mkTxOut [] [] [] []) false 0.

Definition MAX_SCRIPT_SIZE : Z := 10000.

Definition IsUnspendable (script : bytes) : bool :=
  ((0 <? len script) && (at_ script 0 =? OP_RETURN)) || (MAX_SCRIPT_SIZE <? len script) || (len script =? 0).

(** ** Entries and views *)
Abbreviation coins_key := (uint256 * COutPoint)%type.

Definition native_key (o : COutPoint) : coins_key := (0, o).

Record CCoinsCacheEntry := mkEntry {
  coin : Coin; peginSpent : bool; DIRTY : bool; FRESH : bool; PEGIN : bool }.

Abbreviation CCoinsMap := (gmap coins_key CCoinsCacheEntry).

(** [GetCoin] and [IsPeginSpent] of a view. *)
Record CCoinsView := mkView { view_coin : COutPoint -> option Coin; view_pegin : coins_key -> bool }.

Section cache.
Context (base : CCoinsView).

Definition FetchCoin (c : CCoinsMap) (o : COutPoint) : CCoinsMap * option CCoinsCacheEntry :=
  match c !! native_key o with
  | Some e => (c, Some e)
  | None =>
      match base.(view_coin) o with
      | Some coin =>
          let e := mkEntry coin false false (IsSpent coin) false in (<[native_key o := e]> c, Some e)
      | None => (c, None)
      end
  end.

Definition GetCoin (c : CCoinsMap) (o : COutPoint) : CCoinsMap * option Coin :=
  let '(c', it) := FetchCoin c o in
  (c', match it with Some e => if IsSpent e.(coin) then None else Some e.(coin) | None => None end).

Definition AccessCoin (c : CCoinsMap) (o : COutPoint) : CCoinsMap * Coin :=
  let '(c', it) := FetchCoin c o in (c', match it with Some e => e.(coin) | None => coinEmpty end).

Definition HaveCoin (c : CCoinsMap) (o : COutPoint) : CCoinsMap * bool :=
  let '(c', it) := FetchCoin c o in (c', match it with Some e => negb (IsSpent e.(coin)) | None => false end).

(** A new entry of the map is empty and has no flags. *)
Definition new_entry : CCoinsCacheEntry := mkEntry coinEmpty false false false false.

Definition AddCoin (c : CCoinsMap) (o : COutPoint) (coin_ : Coin) (possible_overwrite : bool) : result CCoinsMap :=
  ensure (negb (IsSpent coin_)) "assertion: !coin.IsSpent()";;
  if IsUnspendable coin_.(out).(Elements.scriptPubKey) then Ok c
  else
    let it := default new_entry (c !! native_key o) in
    ensure (possible_overwrite || IsSpent it.(coin))
      "Attempted to overwrite an unspent coin (when possible_overwrite is false)";;
    let fresh := negb possible_overwrite && negb it.(DIRTY) in
    Ok (<[native_key o := mkEntry coin_ it.(peginSpent) true (it.(FRESH) || fresh) it.(PEGIN)]> c).

Definition SpendCoin (c : CCoinsMap) (o : COutPoint) : bool * CCoinsMap * Coin :=
  match FetchCoin c o with
  | (c', None) => (false, c', coinEmpty)
  | (c', Some e) =>
      (true,
       if e.(FRESH) then delete (native_key o) c'
       else <[native_key o := mkEntry coinEmpty e.(peginSpent) true e.(FRESH) e.(PEGIN)]> c',
       e.(coin))
  end.

(** ** Peg-ins *)
Definition IsPeginSpent (c : CCoinsMap) (k : coins_key) : CCoinsMap * bool :=
  match c !! k with
  | Some e => (c, e.(peginSpent))
  | None =>
      let spent := base.(view_pegin) k in
      (<[k := mkEntry coinEmpty spent false (negb spent) true]> c, spent)
  end.

Definition SetPeginSpent (c : CCoinsMap) (k : coins_key) (fSpent : bool) : CCoinsMap :=
  let it := c !! k in
  let hadSpent := match it with Some e => e.(peginSpent) | None => base.(view_pegin) k end in
  if Bool.eqb hadSpent fSpent then c
  else
    let e := match it with Some e => e | None => mkEntry coinEmpty false false (negb hadSpent) false end in
    <[k := mkEntry e.(coin) fSpent true e.(FRESH) true]> c.

Definition Uncache (c : CCoinsMap) (o : COutPoint) : CCoinsMap :=
  match c !! native_key o with
  | Some e => if negb e.(DIRTY) && negb e.(FRESH) then delete (native_key o) c else c
  | None => c
  end.

End cache.

(** ** Writing a child's entries to its parent *)
Definition gone (e : CCoinsCacheEntry) : bool :=
  (e.(PEGIN) && negb e.(peginSpent)) || (negb e.(PEGIN) && IsSpent e.(coin)).

Definition batch_entry (us : CCoinsMap) (ke : coins_key * CCoinsCacheEntry) : result CCoinsMap :=
  let '(k, e) := ke in
  if negb e.(DIRTY) then Ok us
  else match us !! k with
  | None =>
      if e.(FRESH) && gone e then Ok us
      else Ok (<[k := mkEntry e.(coin) (if e.(PEGIN) then e.(peginSpent) else false) true e.(FRESH) e.(PEGIN)]> us)
  | Some p =>
      ensure (negb (e.(FRESH) && negb (IsSpent p.(coin))))
        "FRESH flag misapplied to coin that exists in parent cache";;
      if p.(FRESH) && gone e then Ok (delete k us)
      else Ok (<[k := mkEntry e.(coin) (if e.(PEGIN) then e.(peginSpent) else p.(peginSpent))
                        true p.(FRESH) p.(PEGIN)]> us)
  end.

Definition BatchWrite (us child : CCoinsMap) : result CCoinsMap := foldM batch_entry us (map_to_list child).

(** [NextAndMaybeErase] without [will_erase]: what [Sync] leaves of a flagged entry. *)
Definition sync_entry (e : CCoinsCacheEntry) : option CCoinsCacheEntry :=
  if e.(DIRTY) || e.(FRESH) || e.(PEGIN) then
    if IsSpent e.(coin) then None else Some (mkEntry e.(coin) e.(peginSpent) false false false)
  else Some e.

(** The parent after [Flush] and [Sync] of a child, and the child. *)
Definition Flush (us child : CCoinsMap) : result (CCoinsMap * CCoinsMap) :=
  us' ← BatchWrite us child; Ok (us', ∅).

Definition Sync (us child : CCoinsMap) : result (CCoinsMap * CCoinsMap) :=
  us' ← BatchWrite us child; Ok (us', omap sync_entry child).

(** ** What a cache stands for
    The value of a key: a coin under a native key, spentness under the key of a
    peg-in. *)
Definition slot_value : Type := option Coin + bool.

Definition live (c : Coin) : option Coin := if IsSpent c then None else Some c.

Definition slot (v : CCoinsView) (k : coins_key) : slot_value :=
  if decide (k.1 = 0) then inl (v.(view_coin) k.2) else inr (v.(view_pegin) k).

Definition entry_value (k : coins_key) (e : CCoinsCacheEntry) : slot_value :=
  if decide (k.1 = 0) then inl (live e.(coin)) else inr e.(peginSpent).

Definition empty_slot (k : coins_key) : slot_value := if decide (k.1 = 0) then inl None else inr false.

Definition contents (base : CCoinsView) (c : CCoinsMap) : CCoinsView :=
  mkView (fun o => match c !! native_key o with Some e => live e.(coin) | None => base.(view_coin) o end)
         (fun k => match c !! k with Some e => e.(peginSpent) | None => base.(view_pegin) k end).

#[global] Instance view_equiv : Equiv CCoinsView := fun v1 v2 => forall k, slot v1 k = slot v2 k.

#[global] Instance view_equivalence : Equivalence (≡@{CCoinsView}).
Proof.
  split; [by intros v k|by intros v1 v2 H k|]. intros v1 v2 v3 H1 H2 k. by rewrite (H1 k).
Qed.

#[global] Instance view_coin_proper : Proper ((≡) ==> (=) ==> (=)) view_coin.
Proof. intros v1 v2 H o ? <-. specialize (H (native_key o)). unfold slot in H. by simplify_eq/=. Qed.

Lemma slot_contents base c k :
  slot (contents base c) k = match c !! k with Some e => entry_value k e | None => slot base k end.
Proof.
  unfold slot, contents, entry_value. cbn. destruct k as [g o]. cbn. case_decide as Hg.
  - subst g. unfold native_key. by destruct (c !! (0, o)).
  - by destruct (c !! (g, o)).
Qed.

#[global] Instance contents_proper : Proper ((≡) ==> (=) ==> (≡)) contents.
Proof. intros v1 v2 H c ? <- k. rewrite !slot_contents. by destruct (c !! k). Qed.

(** ** The invariant of the flags
    Entries of peg-ins are empty coins with the flag PEGIN; a clean entry agrees
    with the view below, and below a fresh entry there is nothing. *)
Record entry_ok (below : slot_value) (k : coins_key) (e : CCoinsCacheEntry) : Prop := {
  entry_native : k.1 = 0 -> e.(PEGIN) = false;
  entry_pegin : k.1 <> 0 -> e.(PEGIN) = true /\ IsSpent e.(coin) = true;
  entry_clean : e.(DIRTY) = false -> entry_value k e = below;
  entry_fresh : e.(FRESH) = true -> below = empty_slot k }.

Definition cache_ok (base : CCoinsView) (c : CCoinsMap) : Prop :=
  map_Forall (fun k e => entry_ok (slot base k) k e) c.

(** Views never give spent coins. *)
Definition view_ok (v : CCoinsView) : Prop := forall o c, v.(view_coin) o = Some c -> IsSpent c = false.

Lemma cache_ok_empty base : cache_ok base ∅.
Proof. apply map_Forall_empty. Qed.

Lemma contents_empty base : contents base ∅ ≡ base.
Proof. intros k. rewrite slot_contents, lookup_empty. done. Qed.

Lemma contents_ok base c : view_ok base -> view_ok (contents base c).
Proof.
  intros H o x. cbn. destruct (c !! native_key o) as [e|]; [|apply H]. unfold live.
  destruct (IsSpent (coin e)) eqn:E; [done|]. by intros [= <-].
Qed.

Lemma live_none c : live c = None <-> IsSpent c = true.
Proof. unfold live. by destruct (IsSpent c). Qed.

Lemma gone_spec below k e : entry_ok below k e -> gone e = true <-> entry_value k e = empty_slot k.
Proof.
  intros [Hn Hp _ _]. unfold gone, entry_value, empty_slot. case_decide as Hk.
  - rewrite (Hn Hk). cbn. split; [intros H; f_equal; by apply live_none|]. intros [= H]. by apply live_none.
  - destruct (Hp Hk) as [-> _]. cbn. rewrite orb_false_r. split; [by destruct (peginSpent e)|]. by intros [= ->].
Qed.

Lemma cache_insert base c k e : cache_ok base c -> entry_ok (slot base k) k e -> cache_ok base (<[k := e]> c).
Proof. intros H1 H2. by apply map_Forall_insert_2. Qed.

Lemma cache_delete base c k : cache_ok base c -> cache_ok base (delete k c).
Proof. intros H. by apply map_Forall_delete. Qed.

(** ** Merging one entry *)
Lemma batch_entry_spec base us k e : cache_ok base us -> entry_ok (slot (contents base us) k) k e ->
  exists us', batch_entry us (k, e) = Ok us' /\ cache_ok base us' /\
    (forall k', k' <> k -> us' !! k' = us !! k') /\ slot (contents base us') k = entry_value k e.
Proof.
  intros Hus He. pose proof (gone_spec _ _ _ He) as Hg. rewrite slot_contents in He.
  destruct He as [Hn Hp Hc Hf]. unfold batch_entry. destruct (DIRTY e) eqn:Ed; cbn [negb].
  2: { exists us. split_and!; try done. rewrite slot_contents. symmetry. by apply Hc. }
  destruct (us !! k) as [q|] eqn:Ek.
  - pose proof (Hus k q Ek) as [Qn Qp Qc Qf].
    assert (Hthrow : FRESH e && negb (IsSpent (coin q)) = false).
    { destruct (FRESH e); [|done]. specialize (Hf eq_refl). unfold entry_value, empty_slot in Hf. case_decide as Hk.
      - injection Hf as Hf%live_none. by rewrite Hf.
      - destruct (Qp Hk) as [_ ->]. done. }
    rewrite Hthrow, ensure_bind by done.
    assert (Eflag : PEGIN q = PEGIN e).
    { destruct (decide (k.1 = 0)) as [Hk|Hk]; [by rewrite Qn, Hn|]. by rewrite (proj1 (Qp Hk)), (proj1 (Hp Hk)). }
    destruct (FRESH q && gone e) eqn:Eg.
    + apply andb_true_iff in Eg as [Fq Ge]. exists (delete k us). split; [done|]. split; [by apply cache_delete|].
      split; [intros k' Hk'; by rewrite lookup_delete_ne|]. rewrite slot_contents, lookup_delete_eq, (Qf Fq).
      symmetry. by apply Hg.
    + eexists. split; [done|]. split; [|split].
      * apply cache_insert; [done|]. split; cbn; rewrite ?Eflag; try done.
      * intros k' Hk'. by rewrite lookup_insert_ne.
      * rewrite slot_contents, lookup_insert_eq. unfold entry_value. cbn. case_decide as Hk; [done|].
        by rewrite (proj1 (Hp Hk)).
  - destruct (FRESH e && gone e) eqn:Eg.
    + apply andb_true_iff in Eg as [Fe Ge]. exists us. split_and!; try done. rewrite slot_contents, Ek, (Hf Fe).
      symmetry. by apply Hg.
    + eexists. split; [done|]. split; [|split].
      * apply cache_insert; [done|]. split; cbn; done.
      * intros k' Hk'. by rewrite lookup_insert_ne.
      * rewrite slot_contents, lookup_insert_eq. unfold entry_value. cbn. case_decide as Hk; [done|].
        by rewrite (proj1 (Hp Hk)).
Qed.

Lemma batch_list base l us : NoDup l.*1 -> cache_ok base us ->
  Forall (fun ke => entry_ok (slot (contents base us) ke.1) ke.1 ke.2) l ->
  exists us', foldM batch_entry us l = Ok us' /\ cache_ok base us' /\
    forall k, slot (contents base us') k =
      match (list_to_map l : CCoinsMap) !! k with Some e => entry_value k e | None => slot (contents base us) k end.
Proof.
  revert us. induction l as [|[k e] l IH]; intros us Hnd Hus Hl.
  - exists us. split_and!; try done. 
  - cbn [fmap list_fmap fst] in Hnd. apply list.NoDup_cons in Hnd as [Hk Hnd]. apply Forall_cons_1 in Hl as [He Hl].
    destruct (batch_entry_spec base us k e Hus He) as (us1 & E1 & Hok1 & Hother & Hval). cbn [foldM]. rewrite E1.
    destruct (IH us1 Hnd Hok1) as (us2 & E2 & Hok2 & Hs).
    { apply list.Forall_forall. intros [k' e'] Hin. rewrite list.Forall_forall in Hl. specialize (Hl _ Hin). cbn in *.
      assert (k' <> k). { intros ->. apply Hk. apply list_elem_of_fmap. exists (k, e'). split; [done|exact Hin]. }
      rewrite slot_contents, Hother by done. by rewrite slot_contents in Hl. }
    exists us2. split_and!; try done. intros k'. rewrite Hs. cbn [list_to_map foldr].
    destruct (decide (k = k')) as [->|Hne].
    + rewrite lookup_insert_eq, not_elem_of_list_to_map_1 by done. done.
    + rewrite lookup_insert_ne by done. destruct (list_to_map l !! k'); [done|].
      by rewrite !slot_contents, Hother by done.
Qed.

(** The parent has the contents of the child afterwards, and its flags are right. *)
Lemma BatchWrite_spec base us child : cache_ok base us -> cache_ok (contents base us) child ->
  exists us', BatchWrite us child = Ok us' /\ cache_ok base us' /\
    contents base us' ≡ contents (contents base us) child.
Proof.
  intros Hus Hch. destruct (batch_list base (map_to_list child) us) as (us' & E & Hok & Hs).
  - apply NoDup_fst_map_to_list.
  - done.
  - apply list.Forall_forall. intros [k e] Hin%elem_of_map_to_list. by apply Hch.
  - exists us'. split_and!; try done. intros k. rewrite Hs, list_to_map_to_list, (slot_contents (contents base us)). done.
Qed.

(** ** Operations and their meaning *)
Inductive coin_op :=
| OpGet (o : COutPoint)
| OpHave (o : COutPoint)
| OpAdd (o : COutPoint) (c : Coin) (possible_overwrite : bool)
| OpSpend (o : COutPoint)
| OpIsPegin (k : coins_key)
| OpSetPegin (k : coins_key) (fSpent : bool)
| OpUncache (o : COutPoint).

(** An operation of the cache, with its answer. *)
Definition run_op (base : CCoinsView) (c : CCoinsMap) (op : coin_op) : result (CCoinsMap * option slot_value) :=
  match op with
  | OpGet o => let '(c', r) := GetCoin base c o in Ok (c', Some (inl r))
  | OpHave o => let '(c', r) := HaveCoin base c o in Ok (c', Some (inr r))
  | OpAdd o x w => c' ← AddCoin c o x w; Ok (c', None)
  | OpSpend o => let '(_, c', moved) := SpendCoin base c o in Ok (c', Some (inl (live moved)))
  | OpIsPegin k => let '(c', r) := IsPeginSpent base c k in Ok (c', Some (inr r))
  | OpSetPegin k b => Ok (SetPeginSpent base c k b, None)
  | OpUncache o => Ok (Uncache c o, None)
  end.

Definition put_coin (v : CCoinsView) (o : COutPoint) (x : option Coin) : CCoinsView :=
  mkView (fun o' => if decide (o' = o) then x else v.(view_coin) o') v.(view_pegin).
Definition put_pegin (v : CCoinsView) (k : coins_key) (b : bool) : CCoinsView :=
  mkView v.(view_coin) (fun k' => if decide (k' = k) then b else v.(view_pegin) k').

(** What it means for the map of coins. *)
Definition spec_op (v : CCoinsView) (op : coin_op) : CCoinsView * option slot_value :=
  match op with
  | OpGet o => (v, Some (inl (v.(view_coin) o)))
  | OpHave o => (v, Some (inr (bool_decide (is_Some (v.(view_coin) o)))))
  | OpAdd o x _ => (if IsUnspendable x.(out).(Elements.scriptPubKey) then v else put_coin v o (Some x), None)
  | OpSpend o => (put_coin v o None, Some (inl (v.(view_coin) o)))
  | OpIsPegin k => (v, Some (inr (v.(view_pegin) k)))
  | OpSetPegin k b => (put_pegin v k b, None)
  | OpUncache _ => (v, None)
  end.

(** What the callers of the cache promise. *)
Definition admissible (v : CCoinsView) (op : coin_op) : Prop :=
  match op with
  | OpAdd o x w => IsSpent x = false /\ (w = true \/ v.(view_coin) o = None)
  | OpIsPegin k | OpSetPegin k _ => k.1 <> 0
  | _ => True
  end.

Lemma slot_put_coin v o x k : slot (put_coin v o x) k = if decide (k = native_key o) then inl x else slot v k.
Proof.
  unfold slot, put_coin, native_key. destruct k as [g o']. cbn. repeat case_decide; by simplify_eq.
Qed.

Lemma slot_put_pegin v q b k : q.1 <> 0 ->
  slot (put_pegin v q b) k = if decide (k = q) then inr b else slot v k.
Proof. intros Hq. unfold slot, put_pegin. cbn. repeat case_decide; by simplify_eq. Qed.

Lemma slot_native v o : slot v (native_key o) = inl (v.(view_coin) o).
Proof. done. Qed.

Section operations.
Context (base : CCoinsView) (Hbase : view_ok base).

Lemma fetch_spec c o : cache_ok base c ->
  let '(c', it) := FetchCoin base c o in
  cache_ok base c' /\ contents base c' ≡ contents base c /\ c' !! native_key o = it /\
  match it with Some e => live e.(coin) | None => None end = view_coin (contents base c) o.
Proof.
  intros Hc. unfold FetchCoin. cbn [view_coin contents]. destruct (c !! native_key o) as [e|] eqn:E; [by split_and!|].
  destruct (view_coin base o) as [x|] eqn:Ex; [|by split_and!]. pose proof (Hbase _ _ Ex) as Hx. split_and!.
  - apply cache_insert; [done|]. split; cbn; try done; [|by rewrite Hx].
    intros _. rewrite slot_native, Ex. unfold entry_value, live. cbn. by rewrite Hx.
  - intros k. rewrite !slot_contents. destruct (decide (native_key o = k)) as [<-|Hne].
    + rewrite lookup_insert_eq, E, slot_native, Ex. unfold entry_value, live. cbn. by rewrite Hx.
    + by rewrite lookup_insert_ne.
  - by rewrite lookup_insert_eq.
  - unfold live. cbn. by rewrite Hx.
Qed.

Lemma add_spec c o x w : cache_ok base c -> admissible (contents base c) (OpAdd o x w) ->
  exists c', AddCoin c o x w = Ok c' /\ cache_ok base c' /\
    contents base c' ≡ (spec_op (contents base c) (OpAdd o x w)).1.
Proof.
  intros Hc [Hx Hw]. unfold AddCoin. rewrite Hx, ensure_bind by done. cbn [spec_op fst].
  destruct (IsUnspendable _); [by exists c|]. cbn [view_coin contents] in Hw.
  assert (Hfree : w || IsSpent (coin (default new_entry (c !! native_key o))) = true).
  { destruct Hw as [->|Hw]; [done|]. destruct (c !! native_key o) as [e|]; [|by rewrite orb_true_r].
    apply live_none in Hw. cbn. by rewrite Hw, orb_true_r. }
  rewrite ensure_bind by done. eexists. split; [done|]. split.
  - apply cache_insert; [done|]. destruct (c !! native_key o) as [e|] eqn:E; cbn.
    + pose proof (Hc _ _ E) as [Hn Hp Hcl Hf]. split; cbn; try done. intros [Fe|[Fw Fd]%andb_true_iff]%orb_true_iff.
      * by apply Hf.
      * apply negb_true_iff in Fw, Fd. subst w. destruct Hw as [|Hw]; [done|]. rewrite <- (Hcl Fd).
        unfold entry_value, empty_slot. cbn. by rewrite Hw.
    + split; cbn; try done. intros [Fw _]%andb_true_iff. apply negb_true_iff in Fw. subst w.
      destruct Hw as [|Hw]; [done|]. by rewrite slot_native, Hw.
  - intros k. rewrite slot_put_coin, !slot_contents. case_decide as Hk.
    + subst k. rewrite lookup_insert_eq. unfold entry_value, live. cbn. by rewrite Hx.
    + by rewrite lookup_insert_ne.
Qed.

Lemma spend_spec c o : cache_ok base c ->
  let '(_, c', moved) := SpendCoin base c o in
  cache_ok base c' /\ contents base c' ≡ put_coin (contents base c) o None /\
  live moved = view_coin (contents base c) o.
Proof.
  intros Hc. unfold SpendCoin. pose proof (fetch_spec c o Hc) as Hf. destruct (FetchCoin base c o) as [c' [e|]].
  - destruct Hf as (Hok & Hs & Hl & Hv). pose proof (Hok _ _ Hl) as [Hn Hp Hcl Hfr].
    split_and!; [| |by rewrite <- Hv].
    + destruct (FRESH e) eqn:F; [by apply cache_delete|]. apply cache_insert; [done|]. by split.
    + intros k. rewrite slot_put_coin, <- (Hs k). case_decide as Hk.
      * subst k. rewrite slot_contents. destruct (FRESH e) eqn:F.
        -- by rewrite lookup_delete_eq, (Hfr eq_refl).
        -- rewrite lookup_insert_eq. done.
      * rewrite !slot_contents. destruct (FRESH e); [by rewrite lookup_delete_ne|by rewrite lookup_insert_ne].
  - destruct Hf as (Hok & Hs & Hl & Hv). split_and!; [done| |by rewrite <- Hv].
    intros k. rewrite slot_put_coin, <- (Hs k). case_decide as Hk; [|done]. subst k. rewrite (Hs (native_key o)), slot_native. by rewrite <- Hv.
Qed.

Lemma is_pegin_spec c k : cache_ok base c -> k.1 <> 0 ->
  let '(c', r) := IsPeginSpent base c k in
  cache_ok base c' /\ contents base c' ≡ contents base c /\ r = view_pegin (contents base c) k.
Proof.
  intros Hc Hk. unfold IsPeginSpent. cbn [view_pegin contents]. destruct (c !! k) as [e|] eqn:E; [by split_and!|].
  assert (Es : slot base k = inr (view_pegin base k)) by (unfold slot; by case_decide).
  split_and!; [| |done].
  - apply cache_insert; [done|]. split; cbn; try done.
    + intros _. rewrite Es. unfold entry_value. by case_decide.
    + intros H%negb_true_iff. rewrite Es, H. unfold empty_slot. by case_decide.
  - intros k'. rewrite !slot_contents. destruct (decide (k = k')) as [<-|Hne].
    + rewrite lookup_insert_eq, E, Es. unfold entry_value. by case_decide.
    + by rewrite lookup_insert_ne.
Qed.

Lemma set_pegin_spec c k b : cache_ok base c -> k.1 <> 0 ->
  cache_ok base (SetPeginSpent base c k b) /\ contents base (SetPeginSpent base c k b) ≡ put_pegin (contents base c) k b.
Proof.
  intros Hc Hk. unfold SetPeginSpent.
  assert (Es : slot base k = inr (view_pegin base k)) by (unfold slot; by case_decide).
  set (had := match c !! k with Some e => peginSpent e | None => view_pegin base k end).
  assert (Eh : slot (contents base c) k = inr had).
  { unfold slot, contents, had. cbn. by case_decide. }
  destruct (Bool.eqb had b) eqn:Eb.
  - apply Bool.eqb_prop in Eb. split; [done|]. intros k'. rewrite slot_put_pegin by done. case_decide as Hd; [|done].
    by rewrite Hd, Eh, Eb.
  - split.
    + apply cache_insert; [done|]. destruct (c !! k) as [e|] eqn:E; split; cbn; try done.
      * intros _. split; [done|]. by apply (Hc _ _ E).
      * by apply (Hc _ _ E).
      * intros H%negb_true_iff. rewrite Es. unfold had in H. rewrite H. unfold empty_slot. by case_decide.
    + intros k'. rewrite slot_put_pegin, !slot_contents by done. case_decide as Hd.
      * subst k'. rewrite lookup_insert_eq. unfold entry_value. by case_decide.
      * by rewrite lookup_insert_ne.
Qed.

Lemma uncache_spec c o : cache_ok base c ->
  cache_ok base (Uncache c o) /\ contents base (Uncache c o) ≡ contents base c.
Proof.
  intros Hc. unfold Uncache. destruct (c !! native_key o) as [e|] eqn:E; [|done].
  destruct (negb (DIRTY e) && negb (FRESH e)) eqn:F; [|done]. apply andb_true_iff in F as [Fd%negb_true_iff _].
  split; [by apply cache_delete|]. intros k. rewrite !slot_contents. destruct (decide (native_key o = k)) as [<-|].
  - rewrite lookup_delete_eq, E. symmetry. by apply (Hc _ _ E).
  - by rewrite lookup_delete_ne.
Qed.
End operations.

(** ** Runs *)
Fixpoint run_ops (base : CCoinsView) (c : CCoinsMap) (ops : list coin_op) : result (CCoinsMap * list (option slot_value)) :=
  match ops with
  | [] => Ok (c, [])
  | op :: ops' =>
      r ← run_op base c op;
      r' ← run_ops base r.1 ops';
      Ok (r'.1, r.2 :: r'.2)
  end.

Fixpoint spec_ops (v : CCoinsView) (ops : list coin_op) : CCoinsView * list (option slot_value) :=
  match ops with
  | [] => (v, [])
  | op :: ops' => let r := spec_op v op in let r' := spec_ops r.1 ops' in (r'.1, r.2 :: r'.2)
  end.

Fixpoint all_admissible (v : CCoinsView) (ops : list coin_op) : Prop :=
  match ops with
  | [] => True
  | op :: ops' => admissible v op /\ all_admissible (spec_op v op).1 ops'
  end.

Lemma put_coin_proper v1 v2 o x : v1 ≡ v2 -> put_coin v1 o x ≡ put_coin v2 o x.
Proof. intros H k. rewrite !slot_put_coin. by case_decide. Qed.

Lemma view_pegin_equiv v1 v2 k : v1 ≡ v2 -> k.1 <> 0 -> view_pegin v1 k = view_pegin v2 k.
Proof. intros H Hk. specialize (H k). unfold slot in H. case_decide; [done|]. by injection H. Qed.

Lemma put_pegin_proper v1 v2 q b : q.1 <> 0 -> v1 ≡ v2 -> put_pegin v1 q b ≡ put_pegin v2 q b.
Proof. intros Hq H k. rewrite !slot_put_pegin by done. by case_decide. Qed.

(** The meaning depends on the contents only. *)
Lemma spec_op_equiv v1 v2 op : v1 ≡ v2 -> admissible v1 op ->
  admissible v2 op /\ (spec_op v1 op).1 ≡ (spec_op v2 op).1 /\ (spec_op v1 op).2 = (spec_op v2 op).2.
Proof.
  intros H Ha. assert (Hv : forall o, view_coin v1 o = view_coin v2 o) by (intros o; by rewrite H).
  destruct op as [o|o|o x w|o|k|k b|o]; cbn [spec_op admissible fst snd] in *; rewrite <- ?Hv.
  - by split_and!.
  - by split_and!.
  - split_and!; try apply Ha; [|done]. destruct (IsUnspendable _); [done|by apply put_coin_proper].
  - split_and!; [done|by apply put_coin_proper|done].
  - split_and!; try done. by rewrite (view_pegin_equiv v1 v2).
  - split_and!; try done. by apply put_pegin_proper.
  - by split_and!.
Qed.

Lemma spec_ops_equiv ops : forall v1 v2, v1 ≡ v2 -> all_admissible v1 ops ->
  all_admissible v2 ops /\ (spec_ops v1 ops).1 ≡ (spec_ops v2 ops).1 /\ (spec_ops v1 ops).2 = (spec_ops v2 ops).2.
Proof.
  induction ops as [|op ops IH]; intros v1 v2 H Ha; [by split_and!|]. cbn in *. destruct Ha as [Ha Has].
  destruct (spec_op_equiv v1 v2 op H Ha) as (A & E1 & E2). destruct (IH _ _ E1 Has) as (B & E3 & E4).
  split_and!; try done. by rewrite E2, E4.
Qed.

(** One operation simulates its meaning. *)
Lemma run_op_spec base c op : view_ok base -> cache_ok base c -> admissible (contents base c) op ->
  exists c', run_op base c op = Ok (c', (spec_op (contents base c) op).2) /\ cache_ok base c' /\
    contents base c' ≡ (spec_op (contents base c) op).1.
Proof.
  intros Hb Hc Ha. destruct op as [o|o|o x w|o|k|k b|o]; cbn [run_op spec_op fst snd].
  - pose proof (fetch_spec base Hb c o Hc) as Hf. unfold GetCoin. destruct (FetchCoin base c o) as [c' it].
    destruct Hf as (Hok & Hs & _ & <-). by exists c'.
  - pose proof (fetch_spec base Hb c o Hc) as Hf. unfold HaveCoin. destruct (FetchCoin base c o) as [c' it].
    destruct Hf as (Hok & Hs & _ & <-). exists c'. split_and!; try done. do 4 f_equal. destruct it as [e|]; [|done].
    unfold live. by destruct (IsSpent (coin e)).
  - destruct (add_spec base c o x w Hc Ha) as (c' & -> & Hok & Hs). by exists c'.
  - pose proof (spend_spec base Hb c o Hc) as Hf. destruct (SpendCoin base c o) as [[r c'] m].
    destruct Hf as (Hok & Hs & <-). by exists c'.
  - pose proof (is_pegin_spec base c k Hc Ha) as Hf. destruct (IsPeginSpent base c k) as [c' r].
    destruct Hf as (Hok & Hs & <-). by exists c'.
  - destruct (set_pegin_spec base c k b Hc Ha) as [Hok Hs]. by eexists.
  - destruct (uncache_spec base c o Hc) as [Hok Hs]. by eexists.
Qed.

Lemma run_ops_spec base ops : view_ok base -> forall c, cache_ok base c -> all_admissible (contents base c) ops ->
  exists c', run_ops base c ops = Ok (c', (spec_ops (contents base c) ops).2) /\ cache_ok base c' /\
    contents base c' ≡ (spec_ops (contents base c) ops).1.
Proof.
  intros Hb. induction ops as [|op ops IH]; intros c Hc Ha; [by exists c|]. cbn in Ha. destruct Ha as [Ha Has].
  destruct (run_op_spec base c op Hb Hc Ha) as (c1 & E1 & Hc1 & S1). cbn [run_ops spec_ops fst snd]. rewrite E1.
  destruct (spec_ops_equiv ops _ _ (symmetry S1) Has) as (Has1 & S2 & A2).
  destruct (IH c1 Hc1 Has1) as (c2 & E2 & Hc2 & S3). exists c2. split_and!; [|done|by rewrite S3, <- S2].
  unfold mbind, result_bind. cbn [fst]. rewrite E2. cbn [fst snd]. by rewrite A2.
Qed.

(** [Sync] keeps a usable child: it stands for what it stood for. *)
Lemma Sync_spec base us child : cache_ok base us -> cache_ok (contents base us) child ->
  exists us', Sync us child = Ok (us', omap sync_entry child) /\ cache_ok base us' /\
    contents base us' ≡ contents (contents base us) child /\
    cache_ok (contents base us') (omap sync_entry child) /\
    contents (contents base us') (omap sync_entry child) ≡ contents base us'.
Proof.
  intros Hus Hch. destruct (BatchWrite_spec base us child Hus Hch) as (us' & E & Hok & Hs). exists us'.
  assert (Hsame : forall k e, omap sync_entry child !! k = Some e ->
    entry_value k e = slot (contents base us') k /\ FRESH e = false /\ PEGIN e = false /\ k.1 = 0).
  { intros k e He. rewrite lookup_omap in He. apply bind_Some in He as (e0 & E0 & He).
    pose proof (Hch _ _ E0) as [Hn Hp _ _]. rewrite (Hs k), slot_contents, E0. unfold sync_entry in He.
    destruct (decide (k.1 = 0)) as [Hk|Hk].
    - destruct (DIRTY e0 || FRESH e0 || PEGIN e0) eqn:F; [destruct (IsSpent (coin e0)); [done|]|]; simplify_eq/=.
      + by split_and!.
      + apply orb_false_iff in F as [[_ F]%orb_false_iff ?]. by split_and!.
    - destruct (Hp Hk) as [P S]. by rewrite P, orb_true_r, S in He. }
  split_and!; try done.
  - unfold Sync. by rewrite E.
  - intros k e He. destruct (Hsame k e He) as (V & F & P & K). split; [done|by intros []|done|by rewrite F].
  - intros k. rewrite slot_contents. destruct (omap sync_entry child !! k) as [e|] eqn:He; [|done]. by apply Hsame.
Qed.


(** A parent that holds a fresh coin and a child that spends it, adds another one and claims a peg-in. *)
Definition sample_coin (h : Z) : Coin := mkCoin (Elements.CTxOut_new 7 1000 [81]) false h.
Definition sample_point (n : Z) : COutPoint := mkOutPoint 5 n.
Definition sample_base : CCoinsView :=
  mkView (fun o => if decide (o = sample_point 0) then Some (sample_coin 1) else None) (fun _ => false).
Definition sample_parent : CCoinsMap :=
  {[ native_key (sample_point 1) := mkEntry (sample_coin 2) false true true false ]}.
Definition sample_ops : list coin_op :=
  [OpGet (sample_point 0); OpSpend (sample_point 1); OpAdd (sample_point 2) (sample_coin 3) false;
   OpSetPegin (9, sample_point 0) true; OpUncache (sample_point 0); OpHave (sample_point 1);
   OpIsPegin (9, sample_point 0)].

Lemma sample_parent_ok : cache_ok sample_base sample_parent.
Proof. apply map_Forall_singleton. by split. Qed.


(** ** What a user of a cache relies on *)
Class CoinsCache (V : Type) := {
  cache_get : V -> COutPoint -> V * option Coin;
  cache_access : V -> COutPoint -> V * Coin;
  cache_spend : V -> COutPoint -> V * bool;
  cache_add : V -> COutPoint -> Coin -> bool -> result V }.

Class CoinsCacheLaws (V : Type) `{!CoinsCache V} := {
  cache_inv : V -> Prop;
  cache_coin : V -> COutPoint -> option Coin;
  cache_get_law : forall v o, cache_inv v ->
    let '(v', r) := cache_get v o in
    cache_inv v' /\ (forall o', cache_coin v' o' = cache_coin v o') /\ r = cache_coin v o;
  cache_access_law : forall v o, cache_inv v ->
    let '(v', x) := cache_access v o in
    cache_inv v' /\ (forall o', cache_coin v' o' = cache_coin v o') /\ live x = cache_coin v o;
  cache_spend_law : forall v o, cache_inv v ->
    let '(v', found) := cache_spend v o in
    cache_inv v' /\ (forall o', cache_coin v' o' = if decide (o' = o) then None else cache_coin v o') /\
    (is_Some (cache_coin v o) -> found = true);
  cache_add_law : forall v o x w, cache_inv v -> IsSpent x = false ->
    IsUnspendable x.(out).(Elements.scriptPubKey) = false -> (w = true \/ cache_coin v o = None) ->
    exists v', cache_add v o x w = Ok v' /\ cache_inv v' /\
      forall o', cache_coin v' o' = if decide (o' = o) then Some x else cache_coin v o' }.

(** A cache with the view below it. *)
Record CCoinsViewCache := mkViewCache { below : CCoinsView; cacheCoins : CCoinsMap }.

#[global] Instance view_cache : CoinsCache CCoinsViewCache := {
  cache_get v o := let '(c, r) := GetCoin v.(below) v.(cacheCoins) o in (mkViewCache v.(below) c, r);
  cache_access v o := let '(c, x) := AccessCoin v.(below) v.(cacheCoins) o in (mkViewCache v.(below) c, x);
  cache_spend v o := let '(found, c, _) := SpendCoin v.(below) v.(cacheCoins) o in (mkViewCache v.(below) c, found);
  cache_add v o x w := c ← AddCoin v.(cacheCoins) o x w; Ok (mkViewCache v.(below) c) }.

Definition view_cache_inv (v : CCoinsViewCache) : Prop := view_ok v.(below) /\ cache_ok v.(below) v.(cacheCoins).
Definition view_cache_coin (v : CCoinsViewCache) (o : COutPoint) : option Coin :=
  view_coin (contents v.(below) v.(cacheCoins)) o.

#[global] Instance view_cache_laws : CoinsCacheLaws CCoinsViewCache.
Proof.
  refine {| cache_inv := view_cache_inv; cache_coin := view_cache_coin |}.
  - intros [b c] o [Hb Hc]. cbn [below cacheCoins cache_get cache_access cache_spend cache_add view_cache] in *. unfold GetCoin. pose proof (fetch_spec b Hb c o Hc) as Hf.
    destruct (FetchCoin b c o) as [c' it]. destruct Hf as (Hok & Hs & _ & Hv). split_and!; [done| |etrans; [|exact Hv]; by destruct it].
    intros o'. unfold view_cache_coin. cbn [below cacheCoins]. by rewrite Hs.
  - intros [b c] o [Hb Hc]. cbn [below cacheCoins cache_get cache_access cache_spend cache_add view_cache] in *. unfold AccessCoin. pose proof (fetch_spec b Hb c o Hc) as Hf.
    destruct (FetchCoin b c o) as [c' it]. destruct Hf as (Hok & Hs & _ & Hv). split_and!; [done| |etrans; [|exact Hv]; by destruct it].
    intros o'. unfold view_cache_coin. cbn [below cacheCoins]. by rewrite Hs.
  - intros [b c] o [Hb Hc]. cbn [below cacheCoins cache_get cache_access cache_spend cache_add view_cache] in *. pose proof (spend_spec b Hb c o Hc) as Hf. pose proof (fetch_spec b Hb c o Hc) as Hg.
    unfold SpendCoin in *. destruct (FetchCoin b c o) as [c' [e|]]; destruct Hf as (Hok & Hs & _); destruct Hg as (_ & _ & _ & Hv).
    + split_and!; try done. intros o'. unfold view_cache_coin. cbn [below cacheCoins]. by rewrite Hs.
    + split_and!; try done; [|intros [x Hx]; by change (view_coin (contents b c) o = Some x) in Hx; rewrite <- Hv in Hx].
      intros o'. unfold view_cache_coin. cbn [below cacheCoins]. by rewrite Hs.
  - intros [b c] o x w [Hb Hc] H1 H2 H3. cbn [below cacheCoins cache_get cache_access cache_spend cache_add view_cache] in *. destruct (add_spec b c o x w Hc) as (c' & E & Hok & Hs); [by split|].
    rewrite E. eexists. split; [reflexivity|]. split; [done|]. intros o'. unfold view_cache_coin. cbn [below cacheCoins].
    rewrite Hs. cbn [spec_op fst]. by rewrite H2.
Defined.

(** ** Peg-ins and undo data of the cache

    A peg-in is recorded under the hash of its parent block or transaction and its
    outpoint; coins and peg-ins do not interfere.  [cache_take] is [SpendCoin] with
    the spent coin moved out. *)
Class PeginCache (V : Type) := {
  cache_take : V -> COutPoint -> V * bool * Coin;
  cache_is_pegin_spent : V -> uint256 * COutPoint -> V * bool;
  cache_set_pegin_spent : V -> uint256 * COutPoint -> bool -> V }.

Class PeginCacheLaws (V : Type) `{!CoinsCache V, !CoinsCacheLaws V, !PeginCache V} := {
  cache_pegin : V -> uint256 * COutPoint -> bool;
  cache_is_pegin_law : forall v k, cache_inv v -> k.1 <> 0 ->
    let '(v', r) := cache_is_pegin_spent v k in
    cache_inv v' /\ (forall o, cache_coin v' o = cache_coin v o) /\
    (forall k', k'.1 <> 0 -> cache_pegin v' k' = cache_pegin v k') /\ r = cache_pegin v k;
  cache_set_pegin_law : forall v k b, cache_inv v -> k.1 <> 0 ->
    let v' := cache_set_pegin_spent v k b in
    cache_inv v' /\ (forall o, cache_coin v' o = cache_coin v o) /\
    (forall k', k'.1 <> 0 -> cache_pegin v' k' = if decide (k' = k) then b else cache_pegin v k');
  cache_take_law : forall v o, cache_inv v ->
    let '(v', found, x) := cache_take v o in
    cache_inv v' /\ (forall o', cache_coin v' o' = if decide (o' = o) then None else cache_coin v o') /\
    (forall k, k.1 <> 0 -> cache_pegin v' k = cache_pegin v k) /\
    (is_Some (cache_coin v o) -> found = true) /\ (found = true -> live x = cache_coin v o);
  cache_get_pegin : forall v o k, cache_inv v -> k.1 <> 0 -> cache_pegin (cache_get v o).1 k = cache_pegin v k;
  cache_access_pegin : forall v o k, cache_inv v -> k.1 <> 0 -> cache_pegin (cache_access v o).1 k = cache_pegin v k;
  cache_spend_pegin : forall v o k, cache_inv v -> k.1 <> 0 -> cache_pegin (cache_spend v o).1 k = cache_pegin v k;
  cache_add_pegin : forall v o x w v' k, cache_inv v -> IsSpent x = false -> (w = true \/ cache_coin v o = None) ->
    cache_add v o x w = Ok v' -> k.1 <> 0 -> cache_pegin v' k = cache_pegin v k;
  cache_add_unspendable : forall v o x w, IsSpent x = false -> IsUnspendable x.(out).(Elements.scriptPubKey) = true ->
    cache_add v o x w = Ok v }.

#[global] Instance view_pegin_cache : PeginCache CCoinsViewCache := {
  cache_take v o := let '(found, c, moved) := SpendCoin v.(below) v.(cacheCoins) o in (mkViewCache v.(below) c, found, moved);
  cache_is_pegin_spent v k := let '(c, r) := IsPeginSpent v.(below) v.(cacheCoins) k in (mkViewCache v.(below) c, r);
  cache_set_pegin_spent v k b := mkViewCache v.(below) (SetPeginSpent v.(below) v.(cacheCoins) k b) }.

#[global] Instance view_pegin_laws : PeginCacheLaws CCoinsViewCache.
Proof.
  refine {| cache_pegin v k := view_pegin (contents v.(below) v.(cacheCoins)) k |}.
  - intros [b c] k [Hb Hc] Hk. cbn [below cacheCoins cache_is_pegin_spent view_pegin_cache] in *.
    pose proof (is_pegin_spec b c k Hc Hk) as H. destruct (IsPeginSpent b c k) as [c' r]. destruct H as (Hok & Hs & Hr).
    split_and!; [done| | |done].
    + intros o. change (view_coin (contents b c') o = view_coin (contents b c) o). by rewrite Hs.
    + intros k' Hk'. by apply view_pegin_equiv.
  - intros [b c] k s [Hb Hc] Hk. cbn [below cacheCoins cache_set_pegin_spent view_pegin_cache] in *.
    pose proof (set_pegin_spec b c k s Hc Hk) as [Hok Hs]. split_and!; [done| |].
    + intros o. change (view_coin (contents b (SetPeginSpent b c k s)) o = view_coin (contents b c) o). by rewrite Hs.
    + intros k' Hk'. rewrite (view_pegin_equiv _ _ k' Hs Hk'). reflexivity.
  - intros [b c] o Hi. pose proof Hi as [Hb Hc]. cbn [below cacheCoins] in Hb, Hc.
    pose proof (cache_spend_law (mkViewCache b c) o Hi) as L.
    cbn [below cacheCoins cache_spend cache_take view_cache view_pegin_cache] in *.
    pose proof (spend_spec b Hb c o Hc) as Hf. destruct (SpendCoin b c o) as [[f c'] m]. destruct L as (L1 & L2 & L3), Hf as (_ & Hs & Hm).
    split_and!; [done..| |done|intros _; exact Hm].
    intros k Hk. cbn [below cacheCoins]. rewrite (view_pegin_equiv _ _ k Hs Hk). reflexivity.
  - intros [b c] o k [Hb Hc] Hk. cbn [below cacheCoins cache_get view_cache] in *. unfold GetCoin.
    pose proof (fetch_spec b Hb c o Hc) as Hf. destruct (FetchCoin b c o) as [c' it]. destruct Hf as (_ & Hs & _).
    cbn [fst below cacheCoins]. by apply view_pegin_equiv.
  - intros [b c] o k [Hb Hc] Hk. cbn [below cacheCoins cache_access view_cache] in *. unfold AccessCoin.
    pose proof (fetch_spec b Hb c o Hc) as Hf. destruct (FetchCoin b c o) as [c' it]. destruct Hf as (_ & Hs & _).
    cbn [fst below cacheCoins]. by apply view_pegin_equiv.
  - intros [b c] o k [Hb Hc] Hk. cbn [below cacheCoins cache_spend view_cache] in *.
    pose proof (spend_spec b Hb c o Hc) as Hf. destruct (SpendCoin b c o) as [[f c'] m]. destruct Hf as (_ & Hs & _).
    cbn [fst below cacheCoins]. rewrite (view_pegin_equiv _ _ k Hs Hk). reflexivity.
  - intros [b c] o x w v' k [Hb Hc] Hx Hw E Hk. cbn [below cacheCoins cache_add view_cache] in *.
    destruct (add_spec b c o x w Hc) as (c' & E' & _ & Hs); [by split|]. rewrite E' in E. injection E as <-.
    cbn [below cacheCoins]. rewrite (view_pegin_equiv _ _ k Hs Hk). cbn [spec_op fst]. by destruct (IsUnspendable _).
  - intros [b c] o x w Hx Hu. cbn [below cacheCoins cache_add view_cache]. unfold AddCoin. by rewrite Hx, Hu.
Defined.
