(* ===== verification/SideBlock.v ===== *)
(** * Sidechain block headers (src/src/primitives/block.{h,cpp})

    Headers of an Elements chain carry optional fields: dynamic-federation
    parameters, a withdrawal bundle, a BMM proof commitment and the roots and
    cursors of the exchange extension.  High bits of the version say which fields
    are present.  The theorems show that the encoding can be read back, and that
    the block hash and the BMM critical hash determine the fields they cover.

    The global switches of the code are arguments.  A version is kept as its 32-bit
    pattern.  [m_serialize_type] is one of the three values that the constructors and
    [Unserialize] give it.  [Unserialize] is modelled on a header that was just
    constructed. *)

From S2P Require Import Prelude Sha256 Script Transaction Confidential ParentMessage BlockMerkle PartialMerkle ParentBlock.

(** [g_con_elementsmode], [g_con_blockheightinheader] and [g_signed_blocks]. *)
Record modes := mkModes { elementsmode : bool; blockheightinheader : bool; signed_blocks : bool }.

(** Bytes that are present when a flag is set. *)
Definition when (b : bool) (l : bytes) : bytes := if b then l else [].

Module Side.
Record CProof := mkProof { challenge : bytes; solution : bytes }.

Inductive serialize_type := NullEntry | Pruned | Full.

#[global] Instance serialize_type_eq_dec : EqDecision serialize_type.
Proof. solve_decision. Defined.

Record DynaFedParamEntry := mkParamEntry {
  m_serialize_type : serialize_type; m_signblockscript : bytes; m_signblock_witness_limit : Z;
  m_fedpeg_program : bytes; m_fedpegscript : bytes; m_extension_space : list bytes; m_elided_root : uint256 }.

Definition null_entry : DynaFedParamEntry := mkParamEntry NullEntry [] 0 [] [] [] 0.
Definition pruned_entry (script : bytes) (limit : Z) (root : uint256) : DynaFedParamEntry :=
  mkParamEntry Pruned script limit [] [] [] root.
Definition full_entry (script : bytes) (limit : Z) (program fedpeg : bytes) (extension : list bytes) : DynaFedParamEntry :=
  mkParamEntry Full script limit program fedpeg extension 0.

Definition entry_IsNull (e : DynaFedParamEntry) : bool :=
  bool_decide (e.(m_serialize_type) = NullEntry) && bytes_eqb e.(m_signblockscript) [] &&
  (e.(m_signblock_witness_limit) =? 0) && bytes_eqb e.(m_fedpeg_program) [] &&
  bytes_eqb e.(m_fedpegscript) [] && bool_decide (e.(m_extension_space) = []).

Definition ser_entry (e : DynaFedParamEntry) : bytes :=
  match e.(m_serialize_type) with
  | NullEntry => [0]
  | Pruned =>
      [1] ++ ser_bytes e.(m_signblockscript) ++ le_encode 4 e.(m_signblock_witness_limit) ++
      uint256_bytes e.(m_elided_root)
  | Full =>
      [2] ++ ser_bytes e.(m_signblockscript) ++ le_encode 4 e.(m_signblock_witness_limit) ++
      ser_bytes e.(m_fedpeg_program) ++ ser_bytes e.(m_fedpegscript) ++ ser_vector ser_bytes e.(m_extension_space)
  end.

Definition read_entry : reader DynaFedParamEntry :=
  let* t := read_le 1 in
  if t =? 0 then rret null_entry
  else if t =? 1 then
    let* s := read_script in let* l := read_le 4 in let* r := read_uint256 in rret (pruned_entry s l r)
  else if t =? 2 then
    let* s := read_script in let* l := read_le 4 in let* p := read_script in let* f := read_script in
    let* x := read_vector read_script in rret (full_entry s l p f x)
  else rfail.

Record DynaFedParams := mkDynaFed { m_current : DynaFedParamEntry; m_proposed : DynaFedParamEntry }.

Definition dynafed_IsNull (d : DynaFedParams) : bool := entry_IsNull d.(m_current) && entry_IsNull d.(m_proposed).
Definition ser_dynafed (d : DynaFedParams) : bytes := ser_entry d.(m_current) ++ ser_entry d.(m_proposed).
Definition read_dynafed : reader DynaFedParams :=
  let* c := read_entry in let* p := read_entry in rret (mkDynaFed c p).

(** ** Headers *)
Record CBlockHeader := mkHeader {
  nVersion : Z;
  hashPrevBlock : uint256;
  hashMerkleRoot : uint256;
  hashWithdrawalBundle : uint256;
  hashBmmProof : uint256;
  hashExchangeStateRoot : uint256;
  hashForcedInboxRoot : uint256;
  hashDepositInboxRoot : uint256;
  ecxParentHeight : Z;
  forcedProcessedCursor : Z;
  depositProcessedCursor : Z;
  sourceBacklogOldestParentHeight : Z;
  nTime : Z;
  block_height : Z;
  nBits : Z;
  nNonce : Z;
  proof : CProof;
  m_dynafed_params : DynaFedParams;
  m_signblock_witness : list bytes }.

Definition DYNAFED_HF_MASK : Z := Z.shiftl 1 31.
Definition WITHDRAWAL_BUNDLE_HF_MASK : Z := Z.shiftl 1 30.
Definition BMM_PROOF_HF_MASK : Z := Z.shiftl 1 20.
Definition EXCHANGE_STATE_HF_MASK : Z := Z.shiftl 1 19.
Definition FORCED_INBOX_HF_MASK : Z := Z.shiftl 1 18.
Definition DEPOSIT_INBOX_HF_MASK : Z := Z.shiftl 1 17.
Definition INBOX_CURSOR_HF_MASK : Z := Z.shiftl 1 16.

Definition has_bit (version mask : Z) : bool := negb (Z.land version mask =? 0).

Definition HasBmmProof (h : CBlockHeader) : bool := has_bit h.(nVersion) BMM_PROOF_HF_MASK.

Section mode.
Context (m : modes).

(** The version on the wire. *)
Definition wire_version (h : CBlockHeader) : Z :=
  let v := if m.(elementsmode)
           then Z.land h.(nVersion) (Z.lxor UINT32_MAX (Z.lor DYNAFED_HF_MASK WITHDRAWAL_BUNDLE_HF_MASK))
           else h.(nVersion) in
  let v := if m.(elementsmode) && negb (dynafed_IsNull h.(m_dynafed_params)) then Z.lor v DYNAFED_HF_MASK else v in
  if m.(elementsmode) && negb (IsNull h.(hashWithdrawalBundle)) then Z.lor v WITHDRAWAL_BUNDLE_HF_MASK else v.

(** The fields in front of the time. *)
Definition ser_links (h : CBlockHeader) : bytes :=
  uint256_bytes h.(hashPrevBlock) ++ uint256_bytes h.(hashMerkleRoot) ++
  when (m.(elementsmode) && negb (IsNull h.(hashWithdrawalBundle))) (uint256_bytes h.(hashWithdrawalBundle)) ++
  when (m.(elementsmode) && has_bit h.(nVersion) BMM_PROOF_HF_MASK) (uint256_bytes h.(hashBmmProof)).

(** The fields of the exchange extension. *)
Definition ser_exchange (h : CBlockHeader) : bytes :=
  let has_forced_inbox := m.(elementsmode) && has_bit h.(nVersion) FORCED_INBOX_HF_MASK in
  let has_deposit_inbox := m.(elementsmode) && has_bit h.(nVersion) DEPOSIT_INBOX_HF_MASK in
  when (m.(elementsmode) && has_bit h.(nVersion) EXCHANGE_STATE_HF_MASK) (uint256_bytes h.(hashExchangeStateRoot)) ++
  when has_forced_inbox (uint256_bytes h.(hashForcedInboxRoot)) ++
  when has_deposit_inbox (uint256_bytes h.(hashDepositInboxRoot)) ++
  when (has_forced_inbox && has_deposit_inbox) (le_encode 4 h.(ecxParentHeight)) ++
  when (m.(elementsmode) && has_bit h.(nVersion) INBOX_CURSOR_HF_MASK)
    (le_encode 8 h.(forcedProcessedCursor) ++ le_encode 8 h.(depositProcessedCursor) ++
     le_encode 8 h.(sourceBacklogOldestParentHeight)).

Definition Serialize (allow_witness : bool) (h : CBlockHeader) : bytes :=
  le_encode 4 (wire_version h) ++
  if m.(elementsmode) && negb (dynafed_IsNull h.(m_dynafed_params)) then
    ser_links h ++ le_encode 4 h.(nTime) ++ le_encode 4 h.(block_height) ++ ser_dynafed h.(m_dynafed_params) ++
    ser_exchange h ++ when allow_witness (ser_vector ser_bytes h.(m_signblock_witness))
  else
    ser_links h ++ le_encode 4 h.(nTime) ++ when m.(blockheightinheader) (le_encode 4 h.(block_height)) ++
    (if m.(signed_blocks) then ser_bytes h.(proof).(challenge) ++ ser_bytes h.(proof).(solution)
     else le_encode 4 h.(nBits) ++ le_encode 4 h.(nNonce)) ++
    ser_exchange h.

Definition hash_preimage (h : CBlockHeader) : bytes :=
  le_encode 4 (wire_version h) ++ ser_links h ++ le_encode 4 h.(nTime) ++
  (if m.(elementsmode) && negb (dynafed_IsNull h.(m_dynafed_params))
   then le_encode 4 h.(block_height) ++ ser_dynafed h.(m_dynafed_params)
   else when m.(blockheightinheader) (le_encode 4 h.(block_height)) ++
        (if m.(signed_blocks) then ser_bytes h.(proof).(challenge)
         else le_encode 4 h.(nBits) ++ le_encode 4 h.(nNonce))) ++
  ser_exchange h.

Definition GetHash (h : CBlockHeader) : uint256 := Hash (hash_preimage h).

Definition with_hashBmmProof (h : CBlockHeader) (c : uint256) : CBlockHeader :=
  mkHeader h.(nVersion) h.(hashPrevBlock) h.(hashMerkleRoot) h.(hashWithdrawalBundle) c
    h.(hashExchangeStateRoot) h.(hashForcedInboxRoot) h.(hashDepositInboxRoot) h.(ecxParentHeight)
    h.(forcedProcessedCursor) h.(depositProcessedCursor) h.(sourceBacklogOldestParentHeight) h.(nTime)
    h.(block_height) h.(nBits) h.(nNonce) h.(proof) h.(m_dynafed_params) h.(m_signblock_witness).

Definition GetBmmCriticalHash (h : CBlockHeader) : uint256 := GetHash (with_hashBmmProof h 0).

(** A field that is read when a flag is set, and null otherwise. *)
Definition read_when {A} (b : bool) (r : reader A) (null : A) : reader A := if b then r else rret null.

(** Reading into a new header.  The hash preimage has the fields of a header in the same order, without the
    solution of a block signature. *)
Definition read_fields (with_solution allow_witness : bool) : reader CBlockHeader :=
  let* v := read_le 4 in
  let is_dyna := m.(elementsmode) && (2^31 <=? v) in
  let has mask := m.(elementsmode) && has_bit v mask in
  let version := if m.(elementsmode)
                 then Z.land (Z.lxor UINT32_MAX (Z.lor DYNAFED_HF_MASK WITHDRAWAL_BUNDLE_HF_MASK)) v else v in
  let* prev := read_uint256 in
  let* merkle := read_uint256 in
  let* bundle := read_when (has WITHDRAWAL_BUNDLE_HF_MASK) read_uint256 0 in
  let* bmm := read_when (has BMM_PROOF_HF_MASK) read_uint256 0 in
  let* time := read_le 4 in
  let* height := read_when (is_dyna || m.(blockheightinheader)) (read_le 4) 0 in
  let* dyna := read_when is_dyna read_dynafed (mkDynaFed null_entry null_entry) in
  let* chal := read_when (negb is_dyna && m.(signed_blocks)) read_script [] in
  let* sol := read_when (negb is_dyna && m.(signed_blocks) && with_solution) read_script [] in
  let* bits := read_when (negb is_dyna && negb m.(signed_blocks)) (read_le 4) 0 in
  let* nonce := read_when (negb is_dyna && negb m.(signed_blocks)) (read_le 4) 0 in
  let* exchange := read_when (has EXCHANGE_STATE_HF_MASK) read_uint256 0 in
  let* forced := read_when (has FORCED_INBOX_HF_MASK) read_uint256 0 in
  let* deposit := read_when (has DEPOSIT_INBOX_HF_MASK) read_uint256 0 in
  let* ecx := read_when (has FORCED_INBOX_HF_MASK && has DEPOSIT_INBOX_HF_MASK) (read_le 4) 0 in
  let* cf := read_when (has INBOX_CURSOR_HF_MASK) (read_le 8) 0 in
  let* cd := read_when (has INBOX_CURSOR_HF_MASK) (read_le 8) 0 in
  let* cs := read_when (has INBOX_CURSOR_HF_MASK) (read_le 8) 0 in
  let* witness := read_when (is_dyna && allow_witness) (read_vector read_script) [] in
  rret (mkHeader version prev merkle bundle bmm exchange forced deposit ecx cf cd cs time height bits nonce
          (mkProof chal sol) dyna witness).

Definition Unserialize (allow_witness : bool) : reader CBlockHeader := read_fields true allow_witness.
End mode.

#[global] Arguments GetHash : simpl never.
#[global] Strategy 500 [GetHash].

(** ** Well-formed headers *)
Definition entry_ok (e : DynaFedParamEntry) : Prop :=
  match e.(m_serialize_type) with
  | NullEntry => e = null_entry
  | Pruned =>
      e = pruned_entry e.(m_signblockscript) e.(m_signblock_witness_limit) e.(m_elided_root) /\
      script_ok e.(m_signblockscript) /\ 0 <= e.(m_signblock_witness_limit) < 2^32 /\ uint256_ok e.(m_elided_root)
  | Full =>
      e = full_entry e.(m_signblockscript) e.(m_signblock_witness_limit) e.(m_fedpeg_program) e.(m_fedpegscript)
            e.(m_extension_space) /\
      script_ok e.(m_signblockscript) /\ 0 <= e.(m_signblock_witness_limit) < 2^32 /\
      script_ok e.(m_fedpeg_program) /\ script_ok e.(m_fedpegscript) /\
      Forall script_ok e.(m_extension_space) /\ len e.(m_extension_space) <= MAX_SIZE
  end.

Record header_ok (h : CBlockHeader) : Prop := {
  ok_version : 0 <= h.(nVersion) < 2^32;
  ok_prev : uint256_ok h.(hashPrevBlock);
  ok_merkle : uint256_ok h.(hashMerkleRoot);
  ok_bundle : uint256_ok h.(hashWithdrawalBundle);
  ok_bmm : uint256_ok h.(hashBmmProof);
  ok_exchange : uint256_ok h.(hashExchangeStateRoot);
  ok_forced : uint256_ok h.(hashForcedInboxRoot);
  ok_deposit : uint256_ok h.(hashDepositInboxRoot);
  ok_ecx : 0 <= h.(ecxParentHeight) < 2^32;
  ok_cf : 0 <= h.(forcedProcessedCursor) < 2^64;
  ok_cd : 0 <= h.(depositProcessedCursor) < 2^64;
  ok_cs : 0 <= h.(sourceBacklogOldestParentHeight) < 2^64;
  ok_time : 0 <= h.(nTime) < 2^32;
  ok_height : 0 <= h.(block_height) < 2^32;
  ok_bits : 0 <= h.(nBits) < 2^32;
  ok_nonce : 0 <= h.(nNonce) < 2^32;
  ok_challenge : script_ok h.(proof).(challenge);
  ok_solution : script_ok h.(proof).(solution);
  ok_current : entry_ok h.(m_dynafed_params).(m_current);
  ok_proposed : entry_ok h.(m_dynafed_params).(m_proposed);
  ok_witness : Forall script_ok h.(m_signblock_witness) /\ len h.(m_signblock_witness) <= MAX_SIZE }.

(** ** The fields that an encoding carries *)
Definition pick {A} (b : bool) (x null : A) : A := if b then x else null.

Section carried.
Context (m : modes).
Definition dyna_flag (h : CBlockHeader) : bool := m.(elementsmode) && negb (dynafed_IsNull h.(m_dynafed_params)).
Definition bundle_flag (h : CBlockHeader) : bool := m.(elementsmode) && negb (IsNull h.(hashWithdrawalBundle)).
Definition flag (h : CBlockHeader) (mask : Z) : bool := m.(elementsmode) && has_bit h.(nVersion) mask.

Definition carried (with_solution allow_witness : bool) (h : CBlockHeader) : CBlockHeader :=
  mkHeader
    (if m.(elementsmode)
     then Z.land h.(nVersion) (Z.lxor UINT32_MAX (Z.lor DYNAFED_HF_MASK WITHDRAWAL_BUNDLE_HF_MASK)) else h.(nVersion))
    h.(hashPrevBlock) h.(hashMerkleRoot)
    (pick (bundle_flag h) h.(hashWithdrawalBundle) 0)
    (pick (flag h BMM_PROOF_HF_MASK) h.(hashBmmProof) 0)
    (pick (flag h EXCHANGE_STATE_HF_MASK) h.(hashExchangeStateRoot) 0)
    (pick (flag h FORCED_INBOX_HF_MASK) h.(hashForcedInboxRoot) 0)
    (pick (flag h DEPOSIT_INBOX_HF_MASK) h.(hashDepositInboxRoot) 0)
    (pick (flag h FORCED_INBOX_HF_MASK && flag h DEPOSIT_INBOX_HF_MASK) h.(ecxParentHeight) 0)
    (pick (flag h INBOX_CURSOR_HF_MASK) h.(forcedProcessedCursor) 0)
    (pick (flag h INBOX_CURSOR_HF_MASK) h.(depositProcessedCursor) 0)
    (pick (flag h INBOX_CURSOR_HF_MASK) h.(sourceBacklogOldestParentHeight) 0)
    h.(nTime)
    (pick (dyna_flag h || m.(blockheightinheader)) h.(block_height) 0)
    (pick (negb (dyna_flag h) && negb m.(signed_blocks)) h.(nBits) 0)
    (pick (negb (dyna_flag h) && negb m.(signed_blocks)) h.(nNonce) 0)
    (mkProof (pick (negb (dyna_flag h) && m.(signed_blocks)) h.(proof).(challenge) [])
             (pick (negb (dyna_flag h) && m.(signed_blocks) && with_solution) h.(proof).(solution) []))
    (pick (dyna_flag h) h.(m_dynafed_params) (mkDynaFed null_entry null_entry))
    (pick (dyna_flag h && allow_witness) h.(m_signblock_witness) []).

(** The encoding as one sequence of fields. *)
Definition fields (with_solution allow_witness : bool) (h : CBlockHeader) : bytes :=
  le_encode 4 (wire_version m h) ++ uint256_bytes h.(hashPrevBlock) ++ uint256_bytes h.(hashMerkleRoot) ++
  when (bundle_flag h) (uint256_bytes h.(hashWithdrawalBundle)) ++
  when (flag h BMM_PROOF_HF_MASK) (uint256_bytes h.(hashBmmProof)) ++
  le_encode 4 h.(nTime) ++
  when (dyna_flag h || m.(blockheightinheader)) (le_encode 4 h.(block_height)) ++
  when (dyna_flag h) (ser_dynafed h.(m_dynafed_params)) ++
  when (negb (dyna_flag h) && m.(signed_blocks)) (ser_bytes h.(proof).(challenge)) ++
  when (negb (dyna_flag h) && m.(signed_blocks) && with_solution) (ser_bytes h.(proof).(solution)) ++
  when (negb (dyna_flag h) && negb m.(signed_blocks)) (le_encode 4 h.(nBits)) ++
  when (negb (dyna_flag h) && negb m.(signed_blocks)) (le_encode 4 h.(nNonce)) ++
  when (flag h EXCHANGE_STATE_HF_MASK) (uint256_bytes h.(hashExchangeStateRoot)) ++
  when (flag h FORCED_INBOX_HF_MASK) (uint256_bytes h.(hashForcedInboxRoot)) ++
  when (flag h DEPOSIT_INBOX_HF_MASK) (uint256_bytes h.(hashDepositInboxRoot)) ++
  when (flag h FORCED_INBOX_HF_MASK && flag h DEPOSIT_INBOX_HF_MASK) (le_encode 4 h.(ecxParentHeight)) ++
  when (flag h INBOX_CURSOR_HF_MASK) (le_encode 8 h.(forcedProcessedCursor)) ++
  when (flag h INBOX_CURSOR_HF_MASK) (le_encode 8 h.(depositProcessedCursor)) ++
  when (flag h INBOX_CURSOR_HF_MASK) (le_encode 8 h.(sourceBacklogOldestParentHeight)) ++
  when (dyna_flag h && allow_witness) (ser_vector ser_bytes h.(m_signblock_witness)).

Lemma when_app b l1 l2 : when b (l1 ++ l2) = when b l1 ++ when b l2.
Proof. by destruct b. Qed.

Lemma Serialize_fields aw h : Serialize m aw h = fields true aw h.
Proof.
  unfold Serialize, fields, ser_links, ser_exchange. fold (dyna_flag h). fold (bundle_flag h).
  repeat change (elementsmode m && has_bit (nVersion h) ?k) with (flag h k).
  rewrite !when_app, <- !app_assoc.
  destruct (dyna_flag h); cbn [negb andb orb when app]; [by destruct aw|].
  destruct (signed_blocks m); cbn [negb andb when app]; by rewrite <- ?app_assoc, ?app_nil_r.
Qed.

Lemma preimage_fields h : hash_preimage m h = fields false false h.
Proof.
  unfold hash_preimage, fields, ser_links, ser_exchange. fold (dyna_flag h). fold (bundle_flag h).
  repeat change (elementsmode m && has_bit (nVersion h) ?k) with (flag h k).
  rewrite !when_app, <- !app_assoc.
  destruct (dyna_flag h); cbn [negb andb orb when app]; [by rewrite <- ?app_assoc, ?app_nil_r|].
  destruct (signed_blocks m); cbn [negb andb when app]; by rewrite <- ?app_assoc, ?app_nil_r.
Qed.

(** ** The version tells which fields follow *)
Lemma has_bit_testbit v k : 0 <= k -> has_bit v (Z.shiftl 1 k) = Z.testbit v k.
Proof.
  intros Hk. unfold has_bit. rewrite Z.shiftl_1_l. destruct (Z.testbit v k) eqn:E.
  - apply negb_true_iff, Z.eqb_neq. intros H. assert (Z.testbit (Z.land v (2 ^ k)) k = true) as T.
    { by rewrite Z.land_spec, E, Z.pow2_bits_true. }
    by rewrite H, Z.bits_0 in T.
  - apply negb_false_iff, Z.eqb_eq. apply Z.bits_inj'. intros i Hi. rewrite Z.land_spec, Z.bits_0, Z.pow2_bits_eqb by lia.
    destruct (Z.eqb_spec k i); [subst; by rewrite E|apply andb_false_r].
Qed.

Definition kept_bits : Z := Z.lxor UINT32_MAX (Z.lor DYNAFED_HF_MASK WITHDRAWAL_BUNDLE_HF_MASK).

Lemma kept_bits_eq : kept_bits = Z.ones 30.
Proof. reflexivity. Qed.

Lemma wire_testbit h k : 0 <= k -> elementsmode m = true ->
  Z.testbit (wire_version m h) k =
    Z.testbit h.(nVersion) k && (k <? 30) || dyna_flag h && (k =? 31) || bundle_flag h && (k =? 30).
Proof.
  intros Hk Em. unfold wire_version. fold (dyna_flag h). fold (bundle_flag h). fold kept_bits. rewrite Em, kept_bits_eq.
  assert (Ek : Z.testbit (Z.land (nVersion h) (Z.ones 30)) k = Z.testbit (nVersion h) k && (k <? 30)).
  { rewrite Z.land_spec, Z.testbit_ones_nonneg by lia. done. }
  destruct (dyna_flag h), (bundle_flag h);
    rewrite ?Z.lor_spec, Ek; unfold DYNAFED_HF_MASK, WITHDRAWAL_BUNDLE_HF_MASK;
    rewrite ?Z.shiftl_1_l, ?Z.pow2_bits_eqb by lia; rewrite ?(Z.eqb_sym 31), ?(Z.eqb_sym 30), ?orb_false_r, ?andb_false_l; done.
Qed.

Lemma wire_flag h k : 0 <= k < 30 ->
  elementsmode m && has_bit (wire_version m h) (Z.shiftl 1 k) = flag h (Z.shiftl 1 k).
Proof.
  intros Hk. unfold flag. destruct (elementsmode m) eqn:Em; [|done]. cbn [andb]. rewrite !has_bit_testbit, wire_testbit by (lia || done).
  rewrite (proj2 (Z.ltb_lt k 30)), (proj2 (Z.eqb_neq k 31)), (proj2 (Z.eqb_neq k 30)) by lia.
  by rewrite !andb_false_r, !orb_false_r, andb_true_r.
Qed.

Lemma wire_bundle h : elementsmode m && has_bit (wire_version m h) WITHDRAWAL_BUNDLE_HF_MASK = bundle_flag h.
Proof.
  unfold WITHDRAWAL_BUNDLE_HF_MASK. destruct (elementsmode m) eqn:Em; [|unfold bundle_flag; by rewrite Em].
  rewrite has_bit_testbit, wire_testbit by (lia || done). cbn [Z.ltb Z.eqb Z.compare Pos.compare Pos.compare_cont Pos.eqb].
  by rewrite !andb_false_r, andb_true_r.
Qed.

Lemma wire_range h : 0 <= h.(nVersion) < 2^32 -> 0 <= wire_version m h < 2^32.
Proof.
  intros Hv. destruct (elementsmode m) eqn:Em.
  2: { unfold wire_version. rewrite Em. cbn [andb]. done. }
  assert (H0 : 0 <= wire_version m h).
  { unfold wire_version. rewrite Em. fold kept_bits. rewrite kept_bits_eq.
    assert (0 <= Z.land (nVersion h) (Z.ones 30)) by (apply Z.land_nonneg; lia).
    repeat case_match; rewrite ?Z.lor_nonneg; repeat split; (done || by vm_compute). }
  split; [done|]. assert (E : wire_version m h = wire_version m h mod 2^32).
  { apply Z.bits_inj'. intros k Hk. destruct (Z.ltb_spec k 32).
    - by rewrite Z.mod_pow2_bits_low.
    - rewrite Z.mod_pow2_bits_high, wire_testbit by (lia || done).
      rewrite (proj2 (Z.ltb_ge k 30)), (proj2 (Z.eqb_neq k 31)), (proj2 (Z.eqb_neq k 30)) by lia.
      by rewrite !andb_false_r. }
  rewrite E. apply Z.mod_pos_bound. lia.
Qed.

Lemma wire_dyna h : 0 <= h.(nVersion) < 2^32 -> elementsmode m && (2^31 <=? wire_version m h) = dyna_flag h.
Proof.
  intros Hv. destruct (elementsmode m) eqn:Em; [|unfold dyna_flag; by rewrite Em]. cbn [andb].
  pose proof (wire_range h Hv) as Hw. pose proof (wire_testbit h 31 ltac:(lia) Em) as T.
  rewrite !andb_false_r, andb_true_r, orb_false_r in T. cbn [orb] in T. rewrite <- T. rewrite Z.testbit_odd, Z.shiftr_div_pow2 by lia.
  destruct (Z.leb_spec (2^31) (wire_version m h)).
  - replace (wire_version m h / 2^31) with 1; [done|]. apply (Z.div_unique _ _ _ (wire_version m h - 2^31)); lia.
  - by rewrite Z.div_small by lia.
Qed.

Lemma wire_clean h : (if elementsmode m then Z.land kept_bits (wire_version m h) else wire_version m h) =
  if elementsmode m then Z.land h.(nVersion) kept_bits else h.(nVersion).
Proof.
  destruct (elementsmode m) eqn:Em; [|unfold wire_version; by rewrite Em]. rewrite kept_bits_eq.
  apply Z.bits_inj'. intros k Hk. rewrite !Z.land_spec, wire_testbit, Z.testbit_ones_nonneg by (lia || done).
  destruct (Z.ltb_spec k 30); [|by rewrite andb_false_r].
  rewrite (proj2 (Z.eqb_neq k 31)), (proj2 (Z.eqb_neq k 30)) by lia. by rewrite !andb_false_r, !orb_false_r, !andb_true_r.
Qed.

(** ** Reading back *)
Lemma reads_when {A} b (r : reader A) x null l : (b = true -> reads r x l) -> reads (read_when b r null) (pick b x null) (when b l).
Proof. destruct b; cbn; [auto|]. intros _. apply reads_ret. Qed.

Lemma reads_scripts l : Forall script_ok l -> len l <= MAX_SIZE -> reads (read_vector read_script) l (ser_vector ser_bytes l).
Proof. intros Hl Hn. apply reads_vector; [|done]. eapply list.Forall_impl; [exact Hl|]. apply reads_script. Qed.

Lemma reads_entry e : entry_ok e -> reads read_entry e (ser_entry e).
Proof.
  unfold entry_ok, ser_entry. destruct (m_serialize_type e) eqn:T.
  - intros ->. eapply reads_bind_nil; [apply (reads_le 1 0); lia|]. apply reads_ret.
  - intros (E & H1 & H2 & H3). rewrite E at 1. eapply reads_bind; [apply (reads_le 1 1); lia|]. cbn [Z.eqb Pos.eqb].
    eapply reads_bind; [by apply reads_script|]. eapply reads_bind; [by apply reads_le|].
    eapply reads_bind_nil; [by apply reads_uint256|]. apply reads_ret.
  - intros (E & H1 & H2 & H3 & H4 & H5 & H6). rewrite E at 1. eapply reads_bind; [apply (reads_le 1 2); lia|]. cbn [Z.eqb Pos.eqb].
    eapply reads_bind; [by apply reads_script|]. eapply reads_bind; [by apply reads_le|].
    eapply reads_bind; [by apply reads_script|]. eapply reads_bind; [by apply reads_script|].
    eapply reads_bind_nil; [by apply reads_scripts|]. apply reads_ret.
Qed.

Lemma reads_dynafed d : entry_ok d.(m_current) -> entry_ok d.(m_proposed) -> reads read_dynafed d (ser_dynafed d).
Proof.
  intros H1 H2. eapply reads_bind; [by apply reads_entry|]. eapply reads_bind_nil; [by apply reads_entry|].
  destruct d. apply reads_ret.
Qed.

Lemma reads_fields sol aw h : header_ok h -> reads (read_fields m sol aw) (carried sol aw h) (fields sol aw h).
Proof.
  intros []. unfold read_fields, fields. eapply reads_bind; [apply reads_le; by apply wire_range|]. cbv beta zeta.
  fold kept_bits. rewrite wire_dyna, wire_bundle, wire_clean by done.
  unfold BMM_PROOF_HF_MASK, EXCHANGE_STATE_HF_MASK, FORCED_INBOX_HF_MASK, DEPOSIT_INBOX_HF_MASK, INBOX_CURSOR_HF_MASK.
  rewrite !wire_flag by lia.
  eapply reads_bind; [by apply reads_uint256|]. eapply reads_bind; [by apply reads_uint256|].
  do 2 (eapply reads_bind; [apply reads_when; intros _; by apply reads_uint256|]).
  eapply reads_bind; [by apply reads_le|].
  eapply reads_bind; [apply reads_when; intros _; by apply reads_le|].
  eapply reads_bind; [apply reads_when; intros _; by apply reads_dynafed|].
  do 2 (eapply reads_bind; [apply reads_when; intros _; by apply reads_script|]).
  do 2 (eapply reads_bind; [apply reads_when; intros _; by apply reads_le|]).
  do 3 (eapply reads_bind; [apply reads_when; intros _; by apply reads_uint256|]).
  do 4 (eapply reads_bind; [apply reads_when; intros _; by apply reads_le|]).
  eapply reads_bind_nil; [apply reads_when; intros _; by apply reads_scripts; destruct ok_witness0|].
  apply reads_ret.
Qed.

(** What an encoding carries does not change when it is carried again. *)
Lemma carried_dyna sol aw h : header_ok h -> dyna_flag (carried sol aw h) = dyna_flag h.
Proof.
  intros Hh. unfold dyna_flag at 1. cbn [carried m_dynafed_params]. unfold pick. destruct (dyna_flag h) eqn:E; [done|].
  apply andb_false_r.
Qed.

Lemma carried_bundle sol aw h : bundle_flag (carried sol aw h) = bundle_flag h.
Proof.
  unfold bundle_flag at 1. cbn [carried hashWithdrawalBundle]. unfold pick. destruct (bundle_flag h) eqn:E; [done|].
  apply andb_false_r.
Qed.

Lemma carried_flag sol aw h k : 0 <= k < 30 -> flag (carried sol aw h) (Z.shiftl 1 k) = flag h (Z.shiftl 1 k).
Proof.
  intros Hk. unfold flag. cbn [carried nVersion]. fold kept_bits. destruct (elementsmode m); [|done]. cbn [andb].
  rewrite !has_bit_testbit, kept_bits_eq, Z.land_spec, Z.testbit_ones_nonneg, (proj2 (Z.ltb_lt k 30)) by lia.
  apply andb_true_r.
Qed.

Lemma carried_wire sol aw h : header_ok h -> wire_version m (carried sol aw h) = wire_version m h.
Proof.
  intros Hh. unfold wire_version. fold (dyna_flag h). fold (bundle_flag h). fold (dyna_flag (carried sol aw h)).
  fold (bundle_flag (carried sol aw h)). rewrite carried_dyna, carried_bundle by done. cbn [carried nVersion]. fold kept_bits.
  destruct (elementsmode m); [|done]. by rewrite kept_bits_eq, <- Z.land_assoc, Z.land_diag.
Qed.

Lemma when_pick b {A} (f : A -> bytes) (x null : A) : when b (f (pick b x null)) = when b (f x).
Proof. by destruct b. Qed.

Lemma carried_fields sol aw sol' aw' h : header_ok h -> implb sol' sol = true -> implb aw' aw = true ->
  fields sol' aw' (carried sol aw h) = fields sol' aw' h.
Proof.
  intros Hh Hs Hw. unfold fields. rewrite carried_wire, carried_dyna, carried_bundle by done.
  unfold BMM_PROOF_HF_MASK, EXCHANGE_STATE_HF_MASK, FORCED_INBOX_HF_MASK, DEPOSIT_INBOX_HF_MASK, INBOX_CURSOR_HF_MASK.
  rewrite !carried_flag by lia. unfold carried.
  cbn [hashPrevBlock hashMerkleRoot hashWithdrawalBundle hashBmmProof nTime block_height m_dynafed_params proof
       challenge solution nBits nNonce hashExchangeStateRoot hashForcedInboxRoot hashDepositInboxRoot ecxParentHeight
       forcedProcessedCursor depositProcessedCursor sourceBacklogOldestParentHeight m_signblock_witness].
  unfold BMM_PROOF_HF_MASK, EXCHANGE_STATE_HF_MASK, FORCED_INBOX_HF_MASK, DEPOSIT_INBOX_HF_MASK, INBOX_CURSOR_HF_MASK.
  rewrite !when_pick.
  destruct (dyna_flag h), (signed_blocks m), sol', sol, aw', aw; try discriminate; reflexivity.
Qed.
End carried.

(** Any sidechain header survives its encoding: reading what [Serialize] wrote, with any bytes behind
    it, gives the fields that the chain's switches and the header's own version select, consumes exactly the
    written bytes, and a header read back has the block hash of the original and encodes to the same bytes. *)
Theorem side_header_roundtrip m aw h rest : header_ok h ->
  Unserialize m aw (Serialize m aw h ++ rest) = Some (carried m true aw h, rest) /\
  GetHash m (carried m true aw h) = GetHash m h /\
  Serialize m aw (carried m true aw h) = Serialize m aw h.
Proof.
  intros Hh. split; [rewrite Serialize_fields; by apply reads_fields|]. split.
  - unfold GetHash. f_equal. rewrite !preimage_fields. by apply carried_fields.
  - rewrite !Serialize_fields. apply carried_fields; [done|done|by destruct aw].
Qed.

(** The preimages of two headers. *)
Definition header_collision (m : modes) (h1 h2 : CBlockHeader) : bytes * bytes := (hash_preimage m h1, hash_preimage m h2).

Lemma preimage_determines m h1 h2 : header_ok h1 -> header_ok h2 -> hash_preimage m h1 = hash_preimage m h2 ->
  carried m false false h1 = carried m false false h2.
Proof.
  rewrite !preimage_fields. intros H1 H2 E. pose proof (reads_fields m false false h1 H1 []) as R1.
  rewrite E, (reads_fields m false false h2 H2 []) in R1. congruence.
Qed.

Lemma hash_determines m h1 h2 : header_ok h1 -> header_ok h2 -> GetHash m h1 = GetHash m h2 ->
  carried m false false h1 = carried m false false h2 \/ is_collision (header_collision m h1 h2).
Proof.
  intros H1 H2 E. destruct (decide (hash_preimage m h1 = hash_preimage m h2)) as [D|D].
  - left. by apply preimage_determines.
  - right. by split.
Qed.

Lemma with_hashBmmProof_ok h c : header_ok h -> uint256_ok c -> header_ok (with_hashBmmProof h c).
Proof. intros [] Hc. by split. Qed.

(** C33. The BMM critical hash that parent miners commit to determines the sidechain block: two headers with
    the same critical hash agree in every field that the block hash covers except the commitment to the BMM
    proof, or their preimages are a collision of SHA-256d; and attaching a proof commitment keeps the critical hash. *)
Theorem critical_hash_determines m h1 h2 c : header_ok h1 -> header_ok h2 ->
  GetBmmCriticalHash m h1 = GetBmmCriticalHash m h2 ->
  (carried m false false (with_hashBmmProof h1 0) = carried m false false (with_hashBmmProof h2 0) \/
   is_collision (header_collision m (with_hashBmmProof h1 0) (with_hashBmmProof h2 0))) /\
  GetBmmCriticalHash m (with_hashBmmProof h1 c) = GetBmmCriticalHash m h1.
Proof.
  intros H1 H2. pose proof (with_hashBmmProof_ok h1 0 H1 ltac:(unfold uint256_ok; lia)) as K1.
  pose proof (with_hashBmmProof_ok h2 0 H2 ltac:(unfold uint256_ok; lia)) as K2. intros E.
  split; [exact (hash_determines m _ _ K1 K2 E)|reflexivity].
Qed.

(** A header with every optional field. *)
Definition sample_entry : DynaFedParamEntry := full_entry [0; 32] 1325 [0; 20] [81] [[2; 3]; []].
Definition sample_header : CBlockHeader :=
  mkHeader (Z.lor (Z.shiftl 31 16) 0x20000000) 1 2 3 4 5 6 7 8 9 10 11 12 13 14 15 (mkProof [81] [])
    (mkDynaFed sample_entry null_entry) [[48; 69]].
Definition sample_modes : modes := mkModes true true true.

Lemma sample_header_ok : header_ok sample_header.
Proof. split; cbn; unfold uint256_ok, script_ok, entry_ok; cbn; repeat split; first [lia|reflexivity|discriminate|refine (bool_decide_unpack _ _); vm_compute; exact I]. Qed.

Lemma side_header_roundtrip_witness :
  Unserialize sample_modes true (Serialize sample_modes true sample_header ++ [1]) = Some (carried sample_modes true true sample_header, [1]) /\
  GetHash sample_modes (carried sample_modes true true sample_header) = GetHash sample_modes sample_header /\
  Serialize sample_modes true (carried sample_modes true true sample_header) = Serialize sample_modes true sample_header.
Proof. apply side_header_roundtrip. apply sample_header_ok. Defined.

Lemma critical_hash_determines_witness :
  let h' := with_hashBmmProof sample_header 9 in
  (carried sample_modes false false (with_hashBmmProof sample_header 0) =
     carried sample_modes false false (with_hashBmmProof h' 0) \/
   is_collision (header_collision sample_modes (with_hashBmmProof sample_header 0) (with_hashBmmProof h' 0))) /\
  GetBmmCriticalHash sample_modes (with_hashBmmProof sample_header 7) = GetBmmCriticalHash sample_modes sample_header.
Proof.
  cbv zeta. apply critical_hash_determines.
  - apply sample_header_ok.
  - apply with_hashBmmProof_ok; [apply sample_header_ok|unfold uint256_ok; lia].
  - reflexivity.
Defined.
End Side.
