(* ===== verification/Bmm.v ===== *)
(** * BMM proofs (src/src/drivechain_bmm.{h,cpp})

    A sidechain block of the public branch carries a proof that its critical hash
    was committed in the coinbase of a parent block.  The node keeps a summary of
    the parent chain - tip, difficulty period and the last eleven times - in a coin
    of the chainstate under a reserved outpoint, and advances it by the headers of
    each proof.  The code under ECX_SIMPLICITY_PRIVATE_E2E_CATALOGUE, a private test
    build, is left out.  Signed 64-bit arithmetic is on values far below its bound. *)

From stdpp Require Import sorting.
From S2P Require Import Prelude ArithUint256 Sha256 Script Transaction Confidential ParentMessage BlockMerkle PartialMerkle Signet ParentBlock Coins SideBlock.

Module Bmm.
(** ** Data *)
Record BmmL1State := mkBmmState {
  block_hash : uint256; height : Z; block_time : Z; n_bits : Z;
  period_start_height : Z; period_start_time : Z; recent_times : list Z }.

#[global] Instance BmmL1State_eq_dec : EqDecision BmmL1State.
Proof. solve_decision. Defined.

Record BmmParentContext := mkContext { c_block_hash : uint256; c_height : Z; c_median_time_past : Z }.

Record BmmProofEntry := mkProofEntry { coinbase_tx : bytes; coinbase_proof : bytes }.

Record BmmProof := mkBmmProof { version : Z; previous_state : BmmL1State; entries : list BmmProofEntry }.

Definition BMM_PROOF_SCHEMA_VERSION : Z := 1.
Definition BMM_SIDECHAIN_SLOT : Z := 24.
Definition MAX_BMM_PROOF_ENTRIES : Z := 128.
Definition MAX_BMM_PROOF_BYTES : Z := 1000000.

Record BmmConsensus := mkConsensus {
  pow_limit : uint256; target_timespan : Z; target_spacing : Z; signet_challenge : bytes;
  sidechain_slot : Z; max_entries : Z; max_proof_bytes : Z; require_signet_solution : bool }.

Definition DifficultyAdjustmentInterval (c : BmmConsensus) : Z := Z.quot c.(target_timespan) c.(target_spacing).

(** ** Constants *)
Definition hex_uint256 (z : Z) : uint256 := uint256_of_display (be_encode 32 z).

Definition PUBLIC_SIDECHAIN_BLOCK_1 : uint256 :=
  Eval vm_compute in hex_uint256 0x942f31cb89241342064af42a0367405eef490061d2ffe259a6f34d4939dee543.
Definition PUBLIC_SIDECHAIN_BLOCK_2 : uint256 :=
  Eval vm_compute in hex_uint256 0xce77dfe3b037f2e62624da0ee5e33ae3c23b8b18ddf3b87a687bb372a8406998.
Definition BMM_STATE_OUTPOINT : COutPoint :=
  Eval vm_compute in mkOutPoint (hex_uint256 0xf0bcf7ca88c8a7c66d74d5540d5458ead1a15df5a8b6b98c08032a1300579ff9) 0.
Definition BMM_STATE_MARKER : bytes :=
  [100; 114; 105; 118; 101; 99; 104; 97; 105; 110; 45; 98; 109; 109; 45; 118; 49].
Definition M8_MAGIC : bytes := [0xd1; 0x61; 0x73; 0x68].

Definition LAYER_TWO_LABS_CONSENSUS : BmmConsensus :=
  mkConsensus (hex_uint256 0x00000377ae000000000000000000000000000000000000000000000000000000)
    (14 * 24 * 60 * 60) (10 * 60)
    [0x00; 0x14; 0x88; 0x35; 0x83; 0x2e; 0x28; 0xc8; 0x16; 0xb7; 0xac; 0xd8; 0xfd; 0xb1; 0x97; 0x72; 0xab; 0x21;
     0x99; 0x60; 0x3a; 0x56]
    BMM_SIDECHAIN_SLOT MAX_BMM_PROOF_ENTRIES MAX_BMM_PROOF_BYTES true.

Definition LAYER_TWO_LABS_INITIAL_STATE : BmmL1State :=
  mkBmmState (hex_uint256 0x0000031bb69e844ed1ebd48cc0ab6cee90de29fb98ff7fb439d49b0b19747665)
    6400 1784826005 0x1e0376cc 6048 1784614805
    [1784820005; 1784820605; 1784821205; 1784821805; 1784822405; 1784823005; 1784823605; 1784824205; 1784824805;
     1784825405; 1784826005].

(** ** The identity of the rules *)
Definition FingerprintU32 (value_ : Z) : bytes := be_encode 4 value_.
Definition FingerprintU64 (value_ : Z) : bytes := be_encode 8 value_.
Definition FingerprintBytes (b : bytes) : bytes := FingerprintU64 (len b) ++ b.

Definition FingerprintState (s : BmmL1State) : bytes :=
  uint256_bytes s.(block_hash) ++ FingerprintU32 s.(height) ++ FingerprintU32 s.(block_time) ++
  FingerprintU32 s.(n_bits) ++ FingerprintU32 s.(period_start_height) ++ FingerprintU32 s.(period_start_time) ++
  FingerprintU64 (len s.(recent_times)) ++ concat (map FingerprintU32 s.(recent_times)).

Definition FingerprintTagged (tag payload : bytes) : uint256 :=
  let tag_hash := CSHA256_Finalize (CSHA256_Write CSHA256_new tag) in
  let hasher := CSHA256_Write (CSHA256_Write CSHA256_new tag_hash) tag_hash in
  uint256_of (CSHA256_Finalize (if bytes_eqb payload [] then hasher else CSHA256_Write hasher payload)).

(** ECX/BMM-runtime-consensus/v4 *)
Definition FINGERPRINT_TAG : bytes :=
  [69; 67; 88; 47; 66; 77; 77; 45; 114; 117; 110; 116; 105; 109; 101; 45; 99; 111; 110; 115; 101; 110; 115; 117; 115; 47;
   118; 52].

(** The payload for given rules and bootstrap state. *)
Definition fingerprint_payload (c : BmmConsensus) (s : BmmL1State) : bytes :=
  FingerprintU32 4 ++ [BMM_PROOF_SCHEMA_VERSION] ++ FingerprintU32 Side.BMM_PROOF_HF_MASK ++ [0] ++
  uint256_bytes c.(pow_limit) ++ FingerprintU64 (u64 c.(target_timespan)) ++ FingerprintU64 (u64 c.(target_spacing)) ++
  FingerprintBytes c.(signet_challenge) ++ [if c.(require_signet_solution) then 1 else 0] ++
  FingerprintU32 (u32 c.(sidechain_slot)) ++ FingerprintU64 c.(max_entries) ++ FingerprintU64 c.(max_proof_bytes) ++
  FingerprintState s ++
  uint256_bytes PUBLIC_SIDECHAIN_BLOCK_1 ++ uint256_bytes PUBLIC_SIDECHAIN_BLOCK_2 ++
  uint256_bytes BMM_STATE_OUTPOINT.(hash) ++ FingerprintU32 BMM_STATE_OUTPOINT.(n) ++
  FingerprintBytes BMM_STATE_MARKER ++ SIGNET_HEADER ++ M8_MAGIC ++ FingerprintU32 SIGNET_SCRIPT_FLAGS.

Definition fingerprint (c : BmmConsensus) (s : BmmL1State) : uint256 :=
  FingerprintTagged FINGERPRINT_TAG (fingerprint_payload c s).

Definition RuntimeBmmConsensusFingerprint : uint256 :=
  fingerprint LAYER_TWO_LABS_CONSENSUS LAYER_TWO_LABS_INITIAL_STATE.

(** ** The state of the parent chain *)
Definition ValidState (s : BmmL1State) (c : BmmConsensus) : result unit :=
  let interval := DifficultyAdjustmentInterval c in
  ensure (negb (IsNull s.(block_hash) || (s.(height) =? 0) || (s.(block_time) =? 0) || (s.(n_bits) =? 0) ||
                (interval <=? 0) || (s.(height) <? s.(period_start_height)) ||
                negb (Z.rem s.(period_start_height) interval =? 0) ||
                (u32 interval <=? u32 (s.(height) - s.(period_start_height))) ||
                (s.(period_start_time) =? 0) || negb (len s.(recent_times) =? 11) ||
                negb (default 0 (list.last s.(recent_times)) =? s.(block_time))))
    "BMM parent-chain state is malformed".

Definition MedianTimePast (times : list Z) : Z :=
  let sorted := merge_sort Z.le times in nth (length sorted / 2) sorted 0.

Definition ExpectedNextBits (previous : BmmL1State) (c : BmmConsensus) : result Z :=
  let interval := DifficultyAdjustmentInterval c in
  if negb (Z.rem (previous.(height) + 1) interval =? 0) then Ok previous.(n_bits)
  else
    let actual_timespan := previous.(block_time) - previous.(period_start_time) in
    let actual_timespan := Z.max (Z.quot c.(target_timespan) 4) actual_timespan in
    let actual_timespan := Z.min (c.(target_timespan) * 4) actual_timespan in
    let '(next, _, _) := SetCompact previous.(n_bits) in
    let next := operator_mul32 next (u32 actual_timespan) in
    next ← operator_div next (of_uint64 (u64 c.(target_timespan)));
    let limit := UintToArith256 c.(pow_limit) in
    let next := if 0 <? CompareTo next limit then limit else next in
    Ok (GetCompact next).

Definition CheckParentProofOfWork (header : CBlockHeader) (c : BmmConsensus) : result unit :=
  let '(target, negative, overflow) := SetCompact header.(nBits) in
  ensure (negb (negative || EqualTo target 0 || overflow ||
                (0 <? CompareTo target (UintToArith256 c.(pow_limit))) ||
                (0 <? CompareTo (UintToArith256 (Hash (ser_header header))) target)))
    "BMM proof contains an invalid parent-chain proof-of-work header".

(** ** Commitments in coinbases *)
Fixpoint single {A} (found : option A) (multiple : string) (l : list (option A)) : result (option A) :=
  match l with
  | [] => Ok found
  | None :: l' => single found multiple l'
  | Some x :: l' => match found with Some _ => Err multiple | None => single (Some x) multiple l' end
  end.

Definition m8_commitment (slot : Z) (script : bytes) : option uint256 :=
  match ExtractSingleOpReturnPush script with
  | Some data =>
      if (len data =? 37) && bytes_eqb (take 4 data) M8_MAGIC && (at_ data 4 =? slot)
      then Some (uint256_of_display (drop 5 data)) else None
  | None => None
  end.

Definition ExtractM8Commitment (coinbase : CTransaction) (sidechain_slot_ : Z) : result uint256 :=
  found ← single None "BMM successor coinbase contains multiple M8 commitments for slot 24"
            (map (fun o => m8_commitment sidechain_slot_ o.(scriptPubKey)) coinbase.(vout));
  match found with
  | Some commitment => Ok commitment
  | None => Err "BMM successor coinbase has no M8 commitment for slot 24"
  end.

(** A sidechain block, with the outputs of its transactions. *)
Record SideBlock := mkSideBlock { side_header : Side.CBlockHeader; side_vtx : list (list Elements.CTxOut); m_bmm_proof : bytes }.

Definition parent_commitment (script : bytes) : option uint256 :=
  match ExtractSingleOpReturnPush script with
  | Some data => if len data =? 32 then Some (uint256_of data) else None
  | None => None
  end.

Definition ExtractSidechainParentHash (block : SideBlock) : result uint256 :=
  match block.(side_vtx) with
  | [] => Err "sidechain block has no coinbase transaction"
  | outputs :: _ =>
      found ← single None "sidechain block has multiple L1 parent commitments"
                (map (fun o => parent_commitment o.(Elements.scriptPubKey)) outputs);
      match found with
      | Some parent_hash => Ok parent_hash
      | None => Err "sidechain block has no L1 parent commitment"
      end
  end.

(** ** Encodings *)
Definition ser_state (s : BmmL1State) : bytes :=
  uint256_bytes s.(block_hash) ++ le_encode 4 s.(height) ++ le_encode 4 s.(block_time) ++ le_encode 4 s.(n_bits) ++
  le_encode 4 s.(period_start_height) ++ le_encode 4 s.(period_start_time) ++ ser_vector (le_encode 4) s.(recent_times).

Definition read_state : reader BmmL1State :=
  let* h := read_uint256 in let* a := read_le 4 in let* b := read_le 4 in let* c := read_le 4 in
  let* d := read_le 4 in let* e := read_le 4 in let* l := read_vector (read_le 4) in
  rret (mkBmmState h a b c d e l).

Definition ser_proof_entry (e : BmmProofEntry) : bytes := ser_bytes e.(coinbase_tx) ++ ser_bytes e.(coinbase_proof).
Definition read_proof_entry : reader BmmProofEntry :=
  let* a := read_script in let* b := read_script in rret (mkProofEntry a b).

Definition ser_proof (p : BmmProof) : bytes :=
  le_encode 1 p.(version) ++ ser_state p.(previous_state) ++ ser_vector ser_proof_entry p.(entries).
Definition read_proof : reader BmmProof :=
  let* v := read_le 1 in let* s := read_state in let* l := read_vector read_proof_entry in rret (mkBmmProof v s l).

Definition DeserializeExactly {A} (r : reader A) (b : bytes) : option A :=
  match r b with Some (x, []) => Some x | _ => None end.

Definition SerializeBmmProof (p : BmmProof) : result bytes :=
  let b := ser_proof p in
  ensure (negb (bytes_eqb b [] || (MAX_BMM_PROOF_BYTES <? len b))) "serialized BMM proof exceeds its consensus size bound";;
  Ok b.

Definition DeserializeBmmProof (b : bytes) : result BmmProof :=
  ensure (negb (bytes_eqb b [] || (MAX_BMM_PROOF_BYTES <? len b))) "BMM proof is empty or exceeds its consensus size bound";;
  match DeserializeExactly read_proof b with
  | Some p =>
      ensure (negb (negb (p.(version) =? BMM_PROOF_SCHEMA_VERSION) || (len p.(entries) =? 0) ||
                    (MAX_BMM_PROOF_ENTRIES <? len p.(entries)) || negb (bytes_eqb (ser_proof p) b)))
        "BMM proof is malformed or non-canonical";;
      Ok p
  | None => Err "BMM proof is malformed or non-canonical"
  end.

Definition BmmProofCommitment (b : bytes) : uint256 := Hash b.

Definition AttachBmmProof (block : SideBlock) (p : BmmProof) : result SideBlock :=
  ensure (Side.HasBmmProof block.(side_header)) "cannot attach BMM proof without the header version bit";;
  b ← SerializeBmmProof p;
  Ok (mkSideBlock (Side.with_hashBmmProof block.(side_header) (BmmProofCommitment b)) block.(side_vtx) b).

(** ** Verification *)
Section verify.
Context {Env : SignatureEnv} (c : BmmConsensus).

(** The coinbase and the Merkle proof of an entry. *)
Definition decode_entry (e : BmmProofEntry) : result (CTransaction * CMerkleBlock) :=
  let bound := MAX_BLOCK_WEIGHT / WITNESS_SCALE_FACTOR in
  ensure (negb (bytes_eqb e.(coinbase_tx) [] || (bound <? len e.(coinbase_tx)) ||
                bytes_eqb e.(coinbase_proof) [] || (bound <? len e.(coinbase_proof))))
    "BMM proof entry exceeds its transaction or Merkle proof bound";;
  match DeserializeExactly (UnserializeTransaction true) e.(coinbase_tx),
        DeserializeExactly read_merkle_block e.(coinbase_proof) with
  | Some coinbase, Some merkle_proof =>
      ensure (bytes_eqb (SerializeTransaction true coinbase) e.(coinbase_tx) &&
              bytes_eqb (ser_merkle_block merkle_proof) e.(coinbase_proof) &&
              match coinbase.(vin) with [i] => COutPoint_IsNull i.(prevout) | _ => false end)
        "BMM proof entry has a malformed or non-canonical coinbase proof";;
      Ok (coinbase, merkle_proof)
  | _, _ => Err "BMM proof entry has a malformed or non-canonical coinbase proof"
  end.

(** The state after a parent block. *)
Definition advance (s : BmmL1State) (header : CBlockHeader) : BmmL1State :=
  let h := u32 (s.(height) + 1) in
  let boundary := Z.rem h (DifficultyAdjustmentInterval c) =? 0 in
  mkBmmState (Hash (ser_header header)) h header.(nTime) header.(nBits)
    (if boundary then h else s.(period_start_height))
    (if boundary then header.(nTime) else s.(period_start_time))
    (tail s.(recent_times) ++ [header.(nTime)]).

Definition verify_entry (s : BmmL1State) (e : BmmProofEntry) : result (BmmL1State * CTransaction * CBlockHeader) :=
  decoded ← decode_entry e;
  let '(coinbase, merkle_proof) := decoded in
  let x := ExtractMatches merkle_proof.(txn) in
  let header := merkle_proof.(mb_header) in
  ensure ((x.(x_root) =? header.(hashMerkleRoot)) && (len x.(x_matches) =? 1) && (len x.(x_indices) =? 1) &&
          (nth 0 x.(x_indices) 0 =? 0) && (nth 0 x.(x_matches) 0 =? GetHash coinbase))
    "BMM Merkle proof does not authenticate exactly the parent coinbase";;
  ensure (header.(hashPrevBlock) =? s.(block_hash)) "BMM parent header does not extend the authenticated state";;
  bits ← ExpectedNextBits s c;
  ensure ((header.(nBits) =? bits) && (MedianTimePast s.(recent_times) <? header.(nTime)))
    "BMM parent header does not extend the authenticated state";;
  CheckParentProofOfWork header c;;
  (if c.(require_signet_solution)
   then CheckSignetSolution coinbase (mkMerkleBlock header x.(x_tree)) c.(signet_challenge) else Ok tt);;
  Ok (advance s header, coinbase, header).

(** The loop over the entries: the state, and the coinbase and header of the last one. *)
Fixpoint verify_entries (s : BmmL1State) (l : list BmmProofEntry) (final : CTransaction * CBlockHeader)
    : result (BmmL1State * CTransaction * CBlockHeader) :=
  match l with
  | [] => Ok (s, final.1, final.2)
  | e :: l' => r ← verify_entry s e; verify_entries r.1.1 l' (r.1.2, r.2)
  end.

Definition no_coinbase : CTransaction := mkTx [] [] CURRENT_VERSION 0.
Definition no_header : CBlockHeader := mkHeader 0 0 0 0 0 0.

Definition VerifyBmmProofEntries (p : BmmProof) (expected_critical_hash expected_parent_hash : uint256) : result BmmL1State :=
  ensure (negb (negb (p.(version) =? BMM_PROOF_SCHEMA_VERSION) || (len p.(entries) =? 0) ||
                (c.(max_entries) <? len p.(entries)))) "BMM proof envelope is invalid";;
  ValidState p.(previous_state) c;;
  r ← verify_entries p.(previous_state) p.(entries) (no_coinbase, no_header);
  let '(state, final_coinbase, final_header) := r in
  ensure (final_header.(hashPrevBlock) =? expected_parent_hash)
    "BMM proof final header is not the successor of the committed L1 parent";;
  mined_commitment ← ExtractM8Commitment final_coinbase c.(sidechain_slot);
  ensure (mined_commitment =? expected_critical_hash)
    "BMM successor commitment does not match the sidechain critical hash";;
  Ok state.

Context (m : modes).

Definition VerifyBmmProof (block : SideBlock) (expected_previous : BmmL1State) : result BmmL1State :=
  let h := block.(side_header) in
  ensure (negb (negb (Side.HasBmmProof h) || IsNull h.(Side.hashBmmProof) || bytes_eqb block.(m_bmm_proof) [] ||
                (c.(max_proof_bytes) <? len block.(m_bmm_proof)) ||
                negb (BmmProofCommitment block.(m_bmm_proof) =? h.(Side.hashBmmProof))))
    "sidechain block does not commit its exact BMM proof bytes";;
  p ← DeserializeBmmProof block.(m_bmm_proof);
  ensure (bool_decide (p.(previous_state) = expected_previous))
    "BMM proof does not extend the locally authenticated parent-chain state";;
  parent_hash ← ExtractSidechainParentHash block;
  VerifyBmmProofEntries p (Side.GetBmmCriticalHash m h) parent_hash.
End verify.

(** ** The state in the chainstate *)
Record chain_params := mkChainParams { drivechain_slot : option Z; pegged_asset : uint256; chain_modes : modes }.

(** A block of the index. *)
Record CBlockIndex := mkIndex { index_hash : uint256; index_version : Z; index_bmm_proof : uint256 }.

Definition EncodeBmmState (s : BmmL1State) : bytes :=
  push_data (ser_bytes BMM_STATE_MARKER ++ ser_state s) ++ [OP_DROP; OP_FALSE].

Definition read_marked_state : reader (bytes * BmmL1State) :=
  let* marker := read_script in let* s := read_state in rret (marker, s).

(** [GetOp] without the operand. *)
Definition next_op (script : bytes) : option (Z * bytes * bytes) :=
  match GetScriptOp script with (pc, Some (op, data)) => Some (op, data, pc) | (_, None) => None end.

Definition state_payload (script : bytes) : option bytes :=
  match next_op script with
  | Some (op1, data, pc1) =>
      if OP_PUSHDATA4 <? op1 then None else
      match next_op pc1 with
      | Some (op2, _, pc2) =>
          if negb (op2 =? OP_DROP) then None else
          match next_op pc2 with
          | Some (op3, _, pc3) => if negb (op3 =? OP_FALSE) || negb (bytes_eqb pc3 []) then None else Some data
          | None => None
          end
      | None => None
      end
  | None => None
  end.

Section chainstate.
Context {Env : SignatureEnv} {V : Type} `{!CoinsCache V} (params : chain_params).
Abbreviation consensus := LAYER_TWO_LABS_CONSENSUS.

Definition DecodeBmmState (coin_ : Coin) : result BmmL1State :=
  let o := coin_.(out) in
  ensure (negb (IsSpent coin_ || negb (Conf.IsExplicit ConfAsset o.(Elements.nAsset)) ||
                negb (GetAsset o.(Elements.nAsset) =? params.(pegged_asset)) ||
                negb (Conf.IsExplicit ConfValue o.(Elements.nValue)) || negb (GetAmount o.(Elements.nValue) =? 0)))
    "persisted BMM state has invalid asset or value encoding";;
  match state_payload o.(Elements.scriptPubKey) with
  | None => Err "persisted BMM state script is malformed"
  | Some data =>
      match read_marked_state data with
      | None => Err "persisted BMM state payload cannot be decoded"
      | Some (marker, s, rest) =>
          ensure (bytes_eqb rest [] && bytes_eqb marker BMM_STATE_MARKER) "persisted BMM state payload is invalid";;
          ValidState s consensus;;
          Ok s
      end
  end.

Definition SetBmmState (v : V) (s : BmmL1State) (height_ : Z) : result V :=
  let '(v1, _) := cache_spend v BMM_STATE_OUTPOINT in
  let output := Elements.CTxOut_new params.(pegged_asset) 0 (EncodeBmmState s) in
  cache_add v1 BMM_STATE_OUTPOINT (mkCoin output false (Z.max height_ 0)) true.

Definition HasPersistedBmmConsensusState (v : V) : V * bool :=
  let '(v', r) := cache_get v BMM_STATE_OUTPOINT in
  (v', match r with Some x => negb (IsSpent x) | None => false end).

Definition IsBmmStateInternalOutpoint (o : COutPoint) : bool := bool_decide (o = BMM_STATE_OUTPOINT).

Definition native : bool := match params.(drivechain_slot) with Some _ => true | None => false end.

Definition BmmProofRequiredAfter (previous : option CBlockIndex) : bool :=
  if native then false
  else match previous with
  | None => false
  | Some i => (i.(index_hash) =? PUBLIC_SIDECHAIN_BLOCK_2) || Side.has_bit i.(index_version) Side.BMM_PROOF_HF_MASK
  end.

Definition CheckBmmHeaderCommitments (version_ : Z) (proof_commitment block_hash_ : uint256)
    (previous : option CBlockIndex) (allow_incomplete_candidate : bool) : result unit :=
  let has_bmm_proof := Side.has_bit version_ Side.BMM_PROOF_HF_MASK in
  if native then
    ensure (negb (has_bmm_proof || negb (IsNull proof_commitment)))
      "historical signet BMM proof is not valid on native Elements"
  else match previous with
  | None => Ok tt
  | Some i =>
      ensure (negb ((i.(index_hash) =? PUBLIC_SIDECHAIN_BLOCK_1) && negb (block_hash_ =? PUBLIC_SIDECHAIN_BLOCK_2)))
        "public-signet height 2 does not match its immutable checkpoint";;
      let required := BmmProofRequiredAfter previous in
      ensure (negb (required && negb has_bmm_proof)) "public-signet descendant does not signal deterministic BMM proof";;
      ensure (negb (required && IsNull proof_commitment && negb allow_incomplete_candidate))
        "deterministic BMM header has no proof commitment";;
      ensure (negb (negb required && has_bmm_proof))
        "deterministic BMM proof cannot activate outside the public-signet checkpoint"
  end.

Definition CheckBmmHeader (h : Side.CBlockHeader) (previous : option CBlockIndex)
    (allow_incomplete_candidate : bool) : result unit :=
  CheckBmmHeaderCommitments h.(Side.nVersion) h.(Side.hashBmmProof) (Side.GetHash params.(chain_modes) h)
    previous allow_incomplete_candidate.

Definition CheckBmmIndexHeader (i : CBlockIndex) (pprev : option CBlockIndex) : result unit :=
  CheckBmmHeaderCommitments i.(index_version) i.(index_bmm_proof) i.(index_hash) pprev false.

(** [Ok None] when there is no state, which the code tells from a malformed one by the empty error. *)
Definition GetBmmState (v : V) : V * result (option BmmL1State) :=
  let '(v', coin_) := cache_access v BMM_STATE_OUTPOINT in
  (v', if IsSpent coin_ then Ok None else s ← DecodeBmmState coin_; Ok (Some s)).

Definition GetBmmParentContext (s : BmmL1State) : result BmmParentContext :=
  ValidState s consensus;;
  let median_time_past := MedianTimePast s.(recent_times) in
  ensure (negb (median_time_past =? 0)) "authenticated BMM parent median time past is zero";;
  Ok (mkContext s.(block_hash) s.(height) median_time_past).

Definition is_block (previous : option CBlockIndex) (hash : uint256) : bool :=
  match previous with Some i => i.(index_hash) =? hash | None => false end.

Definition GetEffectiveBmmState (v : V) (previous : option CBlockIndex) : result (V * BmmL1State) :=
  ensure (negb native) "native Elements requires its authenticated parent replay, not signet BMM state";;
  let '(v', r) := GetBmmState v in
  found ← r;
  match found with
  | Some s => Ok (v', s)
  | None =>
      ensure (is_block previous PUBLIC_SIDECHAIN_BLOCK_2) "authenticated BMM parent-chain state is missing";;
      Ok (v', LAYER_TWO_LABS_INITIAL_STATE)
  end.

Definition is_checkpoint (block : SideBlock) (previous : option CBlockIndex) : bool :=
  (Side.GetHash params.(chain_modes) block.(side_header) =? PUBLIC_SIDECHAIN_BLOCK_2) &&
  is_block previous PUBLIC_SIDECHAIN_BLOCK_1.

Definition ConnectBmmState (block : SideBlock) (previous : option CBlockIndex) (v : V) (height_ : Z)
    (allow_incomplete_candidate : bool) : result V :=
  let h := block.(side_header) in
  if native then
    CheckBmmHeader h previous false;;
    ensure (bytes_eqb block.(m_bmm_proof) []) "historical signet BMM state is not valid on native Elements";;
    let '(v', persisted) := HasPersistedBmmConsensusState v in
    ensure (negb persisted) "historical signet BMM state is not valid on native Elements";;
    Ok v'
  else if is_checkpoint block previous then
    let '(v', r) := GetBmmState v in
    existing ← r;
    match existing with
    | Some _ => Err "public BMM checkpoint cannot overwrite existing parent-chain state"
    | None => SetBmmState v' LAYER_TWO_LABS_INITIAL_STATE height_
    end
  else if negb (BmmProofRequiredAfter previous) && negb (Side.HasBmmProof h) then Ok v
  else if allow_incomplete_candidate && Side.HasBmmProof h && IsNull h.(Side.hashBmmProof) &&
          bytes_eqb block.(m_bmm_proof) [] then Ok v
  else
    effective ← GetEffectiveBmmState v previous;
    let '(v', previous_state_) := effective in
    next_state ← VerifyBmmProof consensus params.(chain_modes) block previous_state_;
    SetBmmState v' next_state height_.

Definition DisconnectBmmState (block : SideBlock) (previous : option CBlockIndex) (v : V) (height_ : Z) : result V :=
  let h := block.(side_header) in
  if is_checkpoint block previous then
    let '(v', r) := GetBmmState v in
    current ← r;
    ensure (bool_decide (current = Some LAYER_TWO_LABS_INITIAL_STATE))
      "public BMM checkpoint state is inconsistent during disconnect";;
    let '(v'', found) := cache_spend v' BMM_STATE_OUTPOINT in
    ensure found "public BMM checkpoint state could not be removed";;
    Ok v''
  else if negb (Side.HasBmmProof h) then Ok v
  else
    p ← DeserializeBmmProof block.(m_bmm_proof);
    let '(v', r) := GetBmmState v in
    found ← r;
    match found with
    | None => Err "cannot disconnect BMM proof without authenticated state"
    | Some current =>
        parent_hash ← ExtractSidechainParentHash block;
        expected_next ← VerifyBmmProofEntries consensus p (Side.GetBmmCriticalHash params.(chain_modes) h) parent_hash;
        ensure (bool_decide (current = expected_next)) "BMM state is inconsistent during disconnect";;
        SetBmmState v' p.(previous_state) (height_ - 1)
    end.
End chainstate.
End Bmm.
