(* ===== verification/BmmFacts.v ===== *)
(** * Facts on BMM proofs

    Encodings of states and proofs read back, the persisted state reads back from
    the chainstate, the median of times, and the exact value of a retarget. *)

From stdpp Require Import sorting.
From S2P Require Import Prelude ArithUint256 Sha256 Script Transaction Confidential ParentMessage BlockMerkle PartialMerkle Signet ParentBlock Coins SideBlock Bmm.
Import Bmm.

(** ** Ranges of the machine integers *)
Definition u32_ok (z : Z) : Prop := 0 <= z < 2^32.

Record state_ok (s : BmmL1State) : Prop := {
  state_hash : uint256_ok s.(block_hash);
  state_height : u32_ok s.(height);
  state_time : u32_ok s.(block_time);
  state_bits : u32_ok s.(n_bits);
  state_period : u32_ok s.(period_start_height);
  state_start : u32_ok s.(period_start_time);
  state_times : Forall u32_ok s.(recent_times);
  state_window : len s.(recent_times) <= MAX_SIZE }.

Definition proof_entry_ok (e : BmmProofEntry) : Prop := script_ok e.(coinbase_tx) /\ script_ok e.(coinbase_proof).

Record proof_ok (p : BmmProof) : Prop := {
  proof_version : 0 <= p.(version) < 256;
  proof_state : state_ok p.(previous_state);
  proof_entries : Forall proof_entry_ok p.(entries);
  proof_count : len p.(entries) <= MAX_SIZE }.

(** ** Encodings *)
Lemma reads_state s : state_ok s -> reads read_state s (ser_state s).
Proof.
  intros []. unfold ser_state. eapply reads_bind; [by apply reads_uint256|].
  do 5 (eapply reads_bind; [by apply reads_le|]). eapply reads_bind_nil.
  - apply reads_vector; [|done]. eapply list.Forall_impl; [exact state_times0|]. intros z Hz. by apply reads_le.
  - destruct s. apply reads_ret.
Qed.

Lemma reads_proof_entry e : proof_entry_ok e -> reads read_proof_entry e (ser_proof_entry e).
Proof.
  intros [H1 H2]. eapply reads_bind; [by apply reads_script|]. eapply reads_bind_nil; [by apply reads_script|].
  destruct e. apply reads_ret.
Qed.

Lemma reads_proof p : proof_ok p -> reads read_proof p (ser_proof p).
Proof.
  intros []. eapply reads_bind; [by apply reads_le|]. eapply reads_bind; [by apply reads_state|]. eapply reads_bind_nil.
  - apply reads_vector; [|done]. eapply list.Forall_impl; [exact proof_entries0|]. apply reads_proof_entry.
  - destruct p. apply reads_ret.
Qed.

Lemma exactly {A} (r : reader A) x l : reads r x l -> DeserializeExactly r l = Some x.
Proof. intros H. unfold DeserializeExactly. rewrite <- (app_nil_r l) at 1. by rewrite (H []). Qed.

Lemma exactly_inv {A} (r : reader A) l x : DeserializeExactly r l = Some x -> r l = Some (x, []).
Proof. unfold DeserializeExactly. by repeat case_match; intros [= <-]. Qed.

Lemma DeserializeBmmProof_back p b : proof_ok p -> p.(version) = BMM_PROOF_SCHEMA_VERSION ->
  0 < len p.(entries) <= MAX_BMM_PROOF_ENTRIES -> SerializeBmmProof p = Ok b -> DeserializeBmmProof b = Ok p.
Proof.
  intros Hp Hv Hn H. unfold SerializeBmmProof in H. apply bind_Ok in H as ([] & Hb & H). apply ensure_Ok in Hb.
  injection H as <-. unfold DeserializeBmmProof. rewrite ensure_bind by done. rewrite (exactly _ p) by by apply reads_proof.
  rewrite ensure_bind; [done|]. rewrite Hv, Z.eqb_refl, bytes_eqb_refl, (proj2 (Z.eqb_neq _ _)), (proj2 (Z.ltb_ge _ _)) by lia. done.
Qed.

(** What a proof decodes to is in range. *)
Lemma yields_state : yields read_state state_ok.
Proof.
  eapply yields_bind; [apply yields_uint256|]. intros h Hh.
  eapply yields_bind; [apply yields_le|]. intros a Ha. eapply yields_bind; [apply yields_le|]. intros b Hb.
  eapply yields_bind; [apply yields_le|]. intros c Hc. eapply yields_bind; [apply yields_le|]. intros d Hd.
  eapply yields_bind; [apply yields_le|]. intros e He.
  eapply yields_bind; [apply (yields_vector _ _ (yields_le 4))|]. intros l [Hl Hn]. apply yields_ret. by split.
Qed.

Lemma yields_proof : yields read_proof proof_ok.
Proof.
  eapply yields_bind; [apply yields_le|]. intros v Hv. eapply yields_bind; [apply yields_state|]. intros s Hs.
  eapply yields_bind; [apply (yields_vector _ proof_entry_ok)|].
  - eapply yields_bind; [apply yields_script|]. intros a Ha. eapply yields_bind; [apply yields_script|]. intros b Hb.
    by apply yields_ret.
  - intros l [Hl Hn]. apply yields_ret. by split.
Qed.

Lemma DeserializeBmmProof_ok b p : bytes_ok b -> DeserializeBmmProof b = Ok p ->
  proof_ok p /\ p.(version) = BMM_PROOF_SCHEMA_VERSION /\ 0 < len p.(entries) <= MAX_BMM_PROOF_ENTRIES /\ ser_proof p = b.
Proof.
  intros Hb H. unfold DeserializeBmmProof in H. apply bind_Ok in H as ([] & _ & H).
  destruct (DeserializeExactly read_proof b) as [q|] eqn:E; [|done]. apply bind_Ok in H as ([] & Hq & H). injection H as ->.
  apply ensure_Ok in Hq. rewrite negb_true_iff, !orb_false_iff, !negb_false_iff in Hq. destruct Hq as [[[Hv Hn] Hm] Hs].
  apply exactly_inv in E. pose proof (yields_proof _ _ _ Hb E) as [Hp _]. pose proof (len_nonneg p.(entries)).
  apply Z.eqb_eq in Hv. apply Z.eqb_neq in Hn. apply Z.ltb_ge in Hm. apply bytes_eqb_eq in Hs. split_and!; (done || lia).
Qed.

(** ** The persisted state *)
Lemma state_payload_push d : len d < 2^31 -> state_payload (push_data d ++ [OP_DROP; OP_FALSE]) = Some d.
Proof.
  intros Hd. destruct (GetScriptOp_push d [OP_DROP; OP_FALSE]) as (op & Hop & E); [unfold len at 2; cbn; lia|].
  unfold state_payload, next_op. rewrite E. rewrite (proj2 (Z.ltb_ge _ _)) by lia. reflexivity.
Qed.

Lemma ser_state_len s : len s.(recent_times) = 11 -> len (ser_state s) = 97.
Proof.
  intros H. unfold ser_state, ser_vector. rewrite H. rewrite !len_app.
  assert (E : len (concat (map (le_encode 4) (recent_times s))) = 4 * len (recent_times s)).
  { generalize (recent_times s). intros l. induction l as [|z l IH]; [done|]. cbn [map concat].
    rewrite len_app, len_cons, IH. unfold len at 1. rewrite le_encode_length. lia. }
  rewrite E, H. unfold len. rewrite !le_encode_length, uint256_bytes_length. reflexivity.
Qed.

Lemma valid_window s c : ValidState s c = Ok tt -> len s.(recent_times) = 11.
Proof.
  unfold ValidState. intros H%ensure_Ok. rewrite negb_true_iff, !orb_false_iff, !negb_false_iff in H.
  destruct H as [[_ H] _]. by apply Z.eqb_eq.
Qed.

Lemma encoded_len s : len s.(recent_times) = 11 -> len (ser_bytes BMM_STATE_MARKER ++ ser_state s) = 115.
Proof. intros H. by rewrite len_app, ser_state_len. Qed.

Lemma encoded_head s : len s.(recent_times) = 11 -> exists t, EncodeBmmState s = OP_PUSHDATA1 :: t /\ len t = 118.
Proof.
  intros H. unfold EncodeBmmState, push_data. rewrite encoded_len by done. change (AppendDataSize (u32 115)) with [OP_PUSHDATA1; 115].
  exists (115 :: (ser_bytes BMM_STATE_MARKER ++ ser_state s) ++ [OP_DROP; OP_FALSE]). split; [reflexivity|].
  rewrite len_cons, len_app, encoded_len by done. reflexivity.
Qed.

Section persisted.
Context {Env : SignatureEnv} {V : Type} `{!CoinsCache V, !CoinsCacheLaws V} (params : chain_params).
Context (Hasset : uint256_ok params.(pegged_asset)).

Definition state_coin (s : BmmL1State) (h : Z) : Coin :=
  mkCoin (Elements.CTxOut_new params.(pegged_asset) 0 (EncodeBmmState s)) false (Z.max h 0).

Lemma state_coin_unspent s h : IsSpent (state_coin s h) = false.
Proof. reflexivity. Qed.

Lemma state_coin_spendable s h : len s.(recent_times) = 11 ->
  IsUnspendable (Elements.scriptPubKey (out (state_coin s h))) = false.
Proof.
  intros H. destruct (encoded_head s H) as (t & E & Ht). cbn. rewrite E. unfold IsUnspendable. rewrite len_cons, Ht. reflexivity.
Qed.

Lemma DecodeBmmState_back s h : state_ok s -> ValidState s LAYER_TWO_LABS_CONSENSUS = Ok tt ->
  DecodeBmmState params (state_coin s h) = Ok s.
Proof.
  intros Hs Hv. pose proof (valid_window _ _ Hv) as Hw. unfold DecodeBmmState. rewrite state_coin_unspent.
  unfold state_coin. cbn [out Elements.CTxOut_new Elements.nAsset Elements.nValue Elements.scriptPubKey].
  rewrite SetToAsset_explicit, SetToAmount_explicit, GetAsset_SetToAsset, GetAmount_SetToAmount, Z.eqb_refl by (lia || done).
  rewrite ensure_bind by done. unfold EncodeBmmState. rewrite state_payload_push by (rewrite encoded_len; [lia|done]).
  assert (R : reads read_marked_state (BMM_STATE_MARKER, s) (ser_bytes BMM_STATE_MARKER ++ ser_state s)).
  { eapply reads_bind.
    - apply reads_script. split; [|done]. refine (bool_decide_unpack _ _). vm_compute. exact I.
    - eapply reads_bind_nil; [by apply reads_state|]. apply reads_ret. }
  specialize (R []). rewrite app_nil_r in R. rewrite R. rewrite ensure_bind by (by rewrite !bytes_eqb_refl). by rewrite Hv.
Qed.

(** The state that a chainstate holds. *)
Definition holds (v : V) (r : result (option BmmL1State)) : Prop := cache_inv v /\
  match cache_coin v BMM_STATE_OUTPOINT with
  | None => r = Ok None
  | Some x => r = (s ← DecodeBmmState params x; Ok (Some s))
  end.

Lemma GetBmmState_holds v r : holds v r -> exists v', GetBmmState params v = (v', r) /\ cache_inv v' /\
  forall o, cache_coin v' o = cache_coin v o.
Proof.
  intros [Hv Hr]. unfold GetBmmState. pose proof (cache_access_law v BMM_STATE_OUTPOINT Hv) as L.
  destruct (cache_access v BMM_STATE_OUTPOINT) as [v' x]. destruct L as (Hv' & Hc & Hl). exists v'. split; [|done].
  f_equal. unfold live in Hl. destruct (IsSpent x); rewrite <- Hl in Hr; by rewrite Hr.
Qed.

Lemma SetBmmState_holds v s h : cache_inv v -> state_ok s -> ValidState s LAYER_TWO_LABS_CONSENSUS = Ok tt ->
  exists v', SetBmmState params v s h = Ok v' /\ holds v' (Ok (Some s)) /\
    forall o, o <> BMM_STATE_OUTPOINT -> cache_coin v' o = cache_coin v o.
Proof.
  intros Hv Hs Hvalid. pose proof (valid_window _ _ Hvalid) as Hw. unfold SetBmmState.
  pose proof (cache_spend_law v BMM_STATE_OUTPOINT Hv) as L. destruct (cache_spend v BMM_STATE_OUTPOINT) as [v1 b].
  destruct L as (Hv1 & Hc1 & _). fold (state_coin s h).
  destruct (cache_add_law v1 BMM_STATE_OUTPOINT (state_coin s h) true Hv1) as (v2 & E & Hv2 & Hc2);
    [done|by apply state_coin_spendable|by left|].
  exists v2. split; [done|]. split; [split; [done|]|].
  - rewrite Hc2, decide_True by done. by rewrite DecodeBmmState_back.
  - intros o Ho. rewrite Hc2, decide_False, Hc1, decide_False by done. done.
Qed.
End persisted.

(** ** Medians *)
Definition below (x : Z) (l : list Z) : nat := length (filter (fun t => t <= x) l).

Lemma below_app x l1 l2 : below x (l1 ++ l2) = (below x l1 + below x l2)%nat.
Proof. unfold below. by rewrite list.filter_app, length_app. Qed.

#[global] Instance below_proper x : Proper (Permutation ==> (=)) (below x).
Proof. intros l1 l2 P. unfold below. apply Permutation_length. by rewrite P. Qed.

Lemma sorted_rank s x k : StronglySorted Z.le s -> (k < length s)%nat -> nth k s 0 <= x <-> (k < below x s)%nat.
Proof.
  intros Hs. revert k. induction Hs as [|a s Hs IH Ha]; intros k Hk; [cbn in Hk; lia|]. cbn [length] in Hk. unfold below in *.
  destruct (decide (a <= x)) as [H|H].
  - rewrite list.filter_cons_True by done. destruct k as [|k]; cbn [nth length]; [split; lia|]. rewrite IH by lia. lia.
  - assert (E : filter (fun t => t <= x) (a :: s) = []).
    { apply Permutation_nil_r. rewrite list.filter_cons_False by done. apply Permutation_nil_r.
      destruct (filter _ s) as [|y l] eqn:E; [done|]. assert (y ∈ filter (fun t => t <= x) s) as [H1 H2]%list_elem_of_filter by (rewrite E; left).
      rewrite list.Forall_forall in Ha. specialize (Ha y H2). lia. }
    rewrite E. cbn [length]. split; [|lia]. destruct k as [|k]; cbn [nth]; [lia|].
    rewrite list.Forall_forall in Ha. assert (nth k s 0 ∈ s) as Hin by (apply list_elem_of_In, nth_In; lia).
    specialize (Ha _ Hin). lia.
Qed.

Lemma median_rank l x : l <> [] -> MedianTimePast l <= x <-> (length l / 2 < below x l)%nat.
Proof.
  intros Hl. unfold MedianTimePast. pose proof (merge_sort_Permutation Z.le l) as P.
  rewrite sorted_rank.
  - by rewrite (Permutation_length P), P.
  - apply (StronglySorted_merge_sort Z.le).
  - rewrite (Permutation_length P). apply Nat.div_lt; [|lia]. destruct l; [done|cbn; lia].
Qed.

(** Replacing the oldest time by one above the median cannot lower the median. *)
Lemma median_advance l t : l <> [] -> MedianTimePast l < t -> MedianTimePast l <= MedianTimePast (tail l ++ [t]).
Proof.
  intros Hl Ht. destruct (Z.leb_spec (MedianTimePast l) (MedianTimePast (tail l ++ [t]))) as [H|H]; [done|].
  assert (Hn : tail l ++ [t] <> []) by (by destruct (tail l)).
  pose proof (proj1 (median_rank (tail l ++ [t]) _ Hn) (Z.le_refl _)) as R.
  assert (E : length (tail l ++ [t]) = length l) by (destruct l; [done|]; rewrite length_app; cbn; lia).
  rewrite E, below_app in R. set (m := MedianTimePast (tail l ++ [t])) in *.
  assert (B0 : below m [t] = 0%nat). { unfold below. rewrite list.filter_cons_False by lia. done. }
  assert (B1 : (below m (tail l) <= below m l)%nat).
  { destruct l as [|a l]; [done|]. cbn [tail]. change (a :: l) with ([a] ++ l). rewrite below_app. lia. }
  apply (proj2 (median_rank l m Hl)). lia.
Qed.

(** ** Retargets *)
Definition limit (c : BmmConsensus) : Z := le_decode (uint256_bytes c.(pow_limit)).

(** Parameters for which the arithmetic of a retarget stays within its types. *)
Record consensus_ok (c : BmmConsensus) : Prop := {
  c_interval : 0 < DifficultyAdjustmentInterval c < 2^32;
  c_timespan : 4 <= c.(target_timespan) /\ c.(target_timespan) * 4 < 2^32;
  c_product : limit c * (c.(target_timespan) * 4) < 2^256 }.

Lemma public_consensus_ok : consensus_ok LAYER_TWO_LABS_CONSENSUS.
Proof. split; [by vm_compute|split; by vm_compute|by vm_compute]. Qed.

Definition clamp (c : BmmConsensus) (timespan : Z) : Z :=
  Z.min (c.(target_timespan) * 4) (Z.max (c.(target_timespan) / 4) timespan).

(** Compact bits of a target that a block may have. *)
Definition target_ok (c : BmmConsensus) (b : Z) : Prop :=
  u32_ok b /\ (SetCompact b).1.2 = false /\ (SetCompact b).2 = false /\ 0 < compact_value b <= limit c.

(** The bits of the block behind the end of a period. *)
Definition retarget (c : BmmConsensus) (b timespan : Z) : Z :=
  compact_of (Z.min (limit c) (compact_value b * clamp c timespan / c.(target_timespan))).

Lemma limit_spec c : arith_ok (UintToArith256 c.(pow_limit)) /\ value (UintToArith256 c.(pow_limit)) = limit c.
Proof. apply UintToArith256_spec. Qed.

Lemma target_spec c b : target_ok c b -> exists a, SetCompact b = (a, false, false) /\ arith_ok a /\ value a = compact_value b.
Proof.
  intros (Hb & Hn & Ho & Hv). destruct (SetCompact b) as [[a neg] ovf] eqn:E. cbn in Hn, Ho. subst. exists a.
  destruct (SetCompact_spec _ _ _ _ Hb E) as [H1 H2]. destruct (H2 eq_refl). done.
Qed.

Lemma ExpectedNextBits_spec c s : consensus_ok c -> target_ok c s.(n_bits) ->
  exists next, arith_ok next /\ ExpectedNextBits s c =
    Ok (if Z.rem (s.(height) + 1) (DifficultyAdjustmentInterval c) =? 0 then GetCompact next else s.(n_bits)) /\
    value next = Z.min (limit c) (compact_value s.(n_bits) * clamp c (s.(block_time) - s.(period_start_time)) / c.(target_timespan)).
Proof.
  intros [Hi [Ht0 Ht1] Hp] Hb. destruct (target_spec c _ Hb) as (a & E & Ha & Va). destruct Hb as (_ & _ & _ & Hv).
  set (ts := clamp c (block_time s - period_start_time s)).
  assert (Hts : 0 <= ts <= c.(target_timespan) * 4).
  { subst ts. unfold clamp. pose proof (Z.div_pos c.(target_timespan) 4). lia. }
  destruct (operator_mul32_spec a ts Ha ltac:(lia)) as [M1 M2].
  rewrite Va, Z.mod_small in M2 by nia.
  destruct (of_uint64_spec c.(target_timespan) ltac:(lia)) as [T1 T2].
  destruct (operator_div_spec _ _ M1 T1 ltac:(lia)) as (q & D1 & D2 & D3). destruct (limit_spec c) as [L1 L2].
  exists (if limit c <? value q then UintToArith256 c.(pow_limit) else q).
  rewrite T2, M2 in D3. split; [by destruct (_ <? _)|]. split.
  - unfold ExpectedNextBits. destruct (Z.rem _ _ =? 0); [|done]. cbn [negb]. rewrite E.
    rewrite Z.quot_div_nonneg by lia. fold (clamp c (block_time s - period_start_time s)). fold ts.
    unfold u64. rewrite u32_mod, (Z.mod_small ts), (Z.mod_small (target_timespan c)) by lia. rewrite D1. cbn [mbind result_bind].
    rewrite CompareTo_gt, L2 by done. done.
  - destruct (Z.ltb_spec (limit c) (value q)); lia.
Qed.

(** A target of at least four gives another one that a block may have. *)
Lemma retarget_ok c next v : consensus_ok c -> arith_ok next -> value next = Z.min (limit c) v -> 0 < v -> 0 < limit c ->
  target_ok c (GetCompact next).
Proof.
  intros Hc Hn Hv H0 Hl. destruct (GetCompact_decodes next Hn) as (a & E & Ha & H1 & H2).
  assert (Hb : u32_ok (GetCompact next)).
  { unfold u32_ok, GetCompact. pose proof (unsigned_parts_bound next Hn) as H.
    destruct (unsigned_parts _) as [k m]. destruct H. rewrite u32_mod, Z.shiftl_mul_pow2, Z.mod_small, lor_add; lia. }
  destruct (SetCompact_spec _ _ _ _ Hb E) as [_ K]. destruct (K eq_refl) as [K1 _].
  pose proof (arith_bound _ Ha). unfold target_ok. rewrite E. cbn [fst snd]. split_and!; (done || lia).
Qed.

(** C35. A retarget is computed exactly: the 256-bit multiplication by the clamped duration of the period never
    overflows and the division is that of the integers, so the bits that a block needs are the compact form of the
    old target times the duration over the intended one, capped at the limit; and unless the old target is next
    to nothing they are bits a block may have - positive, without sign or overflow, and below the limit. *)
Theorem retarget_is_exact c s : consensus_ok c -> target_ok c s.(n_bits) -> exists b, ExpectedNextBits s c = Ok b /\
  b = (if Z.rem (s.(height) + 1) (DifficultyAdjustmentInterval c) =? 0
       then retarget c s.(n_bits) (s.(block_time) - s.(period_start_time)) else s.(n_bits)) /\
  (8 <= compact_value s.(n_bits) -> target_ok c b).
Proof.
  intros Hc Hb. destruct (ExpectedNextBits_spec c s Hc Hb) as (next & Hn & E & V). eexists. split; [exact E|].
  destruct (Z.rem _ _ =? 0); [|by split]. split; [by rewrite GetCompact_spec, V|]. intros H8.
  eapply retarget_ok; [exact Hc|exact Hn|exact V| |destruct Hb as (_ & _ & _ & ?); lia].
  destruct Hc as [_ [Ht0 Ht1] _]. apply Z.div_str_pos.
  assert (c.(target_timespan) / 4 <= clamp c (s.(block_time) - s.(period_start_time))) by (unfold clamp; dlia).
  assert (c.(target_timespan) <= 8 * (c.(target_timespan) / 4)) by dlia. nia.
Qed.

(** ** The fingerprint of the rules *)
Record rules_ok (c : BmmConsensus) : Prop := {
  rules_limit : uint256_ok c.(pow_limit);
  rules_timespan : 0 <= c.(target_timespan) < 2^63;
  rules_spacing : 0 <= c.(target_spacing) < 2^63;
  rules_challenge : script_ok c.(signet_challenge);
  rules_slot : 0 <= c.(sidechain_slot) < 2^31;
  rules_entries : 0 <= c.(max_entries) < 2^64;
  rules_bytes : 0 <= c.(max_proof_bytes) < 2^64 }.

Definition fingerprint_message (c : BmmConsensus) (s : BmmL1State) : bytes :=
  sha256 FINGERPRINT_TAG ++ sha256 FINGERPRINT_TAG ++ fingerprint_payload c s.

Lemma fingerprint_spec c s : fingerprint c s = uint256_of (sha256 (fingerprint_message c s)).
Proof.
  unfold fingerprint, FingerprintTagged. f_equal. fold (SHA256_once FINGERPRINT_TAG). rewrite SHA256_once_spec.
  change (bytes_eqb (fingerprint_payload c s) []) with false. cbv iota. apply Finalize_absorbed.
  unfold fingerprint_message. rewrite app_assoc.
  apply Write_absorbed, Write_absorbed, (Write_absorbed _ []). by apply absorbed_new.
Qed.

Lemma be_inj k x y : 0 <= x < 256 ^ Z.of_nat k -> 0 <= y < 256 ^ Z.of_nat k -> be_encode k x = be_encode k y -> x = y.
Proof. intros Hx Hy E. rewrite <- (be_decode_encode k x Hx), E. by apply be_decode_encode. Qed.

Lemma be_peel k x y t1 t2 : 0 <= x < 256 ^ Z.of_nat k -> 0 <= y < 256 ^ Z.of_nat k ->
  be_encode k x ++ t1 = be_encode k y ++ t2 -> x = y /\ t1 = t2.
Proof.
  intros Hx Hy E. apply app_inj_1 in E as [E1 E2]; [|by rewrite !be_encode_length]. split; [by apply be_inj in E1|done].
Qed.

Lemma bytes_peel b1 b2 t1 t2 : script_ok b1 -> script_ok b2 -> FingerprintBytes b1 ++ t1 = FingerprintBytes b2 ++ t2 ->
  b1 = b2 /\ t1 = t2.
Proof.
  intros [_ H1] [_ H2] E. unfold FingerprintBytes, FingerprintU64 in E. rewrite <- !app_assoc in E.
  pose proof (len_nonneg b1). pose proof (len_nonneg b2). unfold MAX_SIZE in *.
  apply be_peel in E as [El E]; [|lia..]. apply app_inj_1 in E; [done|]. unfold len in El. lia.
Qed.

Lemma times_peel l1 : forall l2 t1 t2, length l1 = length l2 -> Forall u32_ok l1 -> Forall u32_ok l2 ->
  concat (map FingerprintU32 l1) ++ t1 = concat (map FingerprintU32 l2) ++ t2 -> l1 = l2 /\ t1 = t2.
Proof.
  induction l1 as [|x l1 IH]; intros [|y l2] t1 t2 Hl H1 H2 E; try done. cbn [map concat] in E. rewrite <- !app_assoc in E.
  apply Forall_cons_1 in H1 as [Hx H1]. apply Forall_cons_1 in H2 as [Hy H2]. apply be_peel in E as [-> E]; [|done..].
  apply IH in E as [-> ->]; try done. by injection Hl.
Qed.

Lemma state_peel s1 s2 t1 t2 : state_ok s1 -> state_ok s2 -> FingerprintState s1 ++ t1 = FingerprintState s2 ++ t2 ->
  s1 = s2 /\ t1 = t2.
Proof.
  intros [A1 A2 A3 A4 A5 A6 A7 A8] [B1 B2 B3 B4 B5 B6 B7 B8] E. unfold FingerprintState, FingerprintU64 in E.
  rewrite <- !app_assoc in E. unfold MAX_SIZE in *. pose proof (len_nonneg (recent_times s1)). pose proof (len_nonneg (recent_times s2)).
  apply be_peel in E as [E1 E]; [|done..]. do 5 (apply be_peel in E as [? E]; [|done..]).
  apply be_peel in E as [El E]; [|lia..]. apply times_peel in E as [Et E]; [|unfold len in El; lia|done..].
  split; [|done]. destruct s1, s2. cbn in *. congruence.
Qed.

Lemma payload_inj c1 c2 s1 s2 : rules_ok c1 -> rules_ok c2 -> state_ok s1 -> state_ok s2 ->
  fingerprint_payload c1 s1 = fingerprint_payload c2 s2 -> c1 = c2 /\ s1 = s2.
Proof.
  intros [A1 A2 A3 A4 A5 A6 A7] [B1 B2 B3 B4 B5 B6 B7] Hs1 Hs2 E. unfold fingerprint_payload in E.
  do 4 (apply app_inj_1 in E as [_ E]; [|reflexivity]).
  apply be_peel in E as [E1 E]; [|done..]. unfold u64, FingerprintU64 in E. rewrite !(Z.mod_small _ (2^64)) in E by lia.
  apply be_peel in E as [E2 E]; [|lia..]. apply be_peel in E as [E3 E]; [|lia..]. apply bytes_peel in E as [E4 E]; [|done..].
  apply app_inj_1 in E as [E5 E]; [|done]. unfold FingerprintU32 in E at 1 6. rewrite !u32_mod, !(Z.mod_small _ (2^32)) in E by lia.
  apply be_peel in E as [E6 E]; [|lia..]. apply be_peel in E as [E7 E]; [|lia..]. apply be_peel in E as [E8 E]; [|lia..].
  apply state_peel in E as [-> _]; [|done..]. split; [|done].
  assert (Er : require_signet_solution c1 = require_signet_solution c2)
    by (by destruct (require_signet_solution c1), (require_signet_solution c2)).
  destruct c1, c2. cbn in *. congruence.
Qed.

Lemma digest_inj a b : uint256_of (sha256 a) = uint256_of (sha256 b) -> sha256 a = sha256 b.
Proof. apply be_decode_inj; [by rewrite !sha256_length|apply sha256_ok..]. Qed.

(** The fingerprint of the BMM rules identifies every one of them: two sets of rules and bootstrap states
    with the same fingerprint are equal, or their payloads are two messages with the same SHA-256. *)
Theorem fingerprint_binds c1 c2 s1 s2 : rules_ok c1 -> rules_ok c2 -> state_ok s1 -> state_ok s2 ->
  fingerprint c1 s1 = fingerprint c2 s2 ->
  c1 = c2 /\ s1 = s2 \/
  fingerprint_message c1 s1 <> fingerprint_message c2 s2 /\ sha256 (fingerprint_message c1 s1) = sha256 (fingerprint_message c2 s2).
Proof.
  intros H1 H2 H3 H4. rewrite !fingerprint_spec. intros E.
  apply digest_inj in E. destruct (decide (fingerprint_message c1 s1 = fingerprint_message c2 s2)) as [D|D]; [left|right; exact (conj D E)].
  unfold fingerprint_message in D. do 2 apply app_inv_head in D. exact (payload_inj _ _ _ _ H1 H2 H3 H4 D).
Qed.
