(* ===== verification/BmmTheorems.v ===== *)
(** * Theorems on BMM proofs

    The tracker of drivechain_bmm.cpp keeps a constant-size summary of the parent
    chain.  The first group of theorems relates it to the full list of parent
    headers: a proof is accepted exactly when its headers extend that list by the
    rules of a full node.  The others are on the persisted state: a block that was
    connected can be disconnected, the parent clock does not run backwards, and a
    proof that was attached verifies. *)

From S2P Require Import Prelude ArithUint256 Sha256 Script Transaction Confidential ParentMessage BlockMerkle PartialMerkle Signet ParentBlock Coins SideBlock Bmm BmmFacts.
Import Bmm.

(** ** Chains of parent headers, by height *)
Definition tip (chain : list CBlockHeader) : CBlockHeader := default no_header (list.last chain).

Definition time_at (chain : list CBlockHeader) (h : Z) : Z := nTime (nth (Z.to_nat h) chain no_header).

Definition last_times (chain : list CBlockHeader) : list Z := map nTime (drop (length chain - 11) chain).

(** The bits of the block behind a chain: the target of a period follows from the times of the first and the
    last block of the one before. *)
Definition next_bits (c : BmmConsensus) (chain : list CBlockHeader) : Z :=
  if len chain mod DifficultyAdjustmentInterval c =? 0
  then retarget c (nBits (tip chain)) (nTime (tip chain) - time_at chain (len chain - DifficultyAdjustmentInterval c))
  else nBits (tip chain).

(** The rules of a full node for the next header. *)
Record valid_header (c : BmmConsensus) (chain : list CBlockHeader) (h : CBlockHeader) : Prop := {
  links : hashPrevBlock h = Hash (ser_header (tip chain));
  bits_follow : nBits h = next_bits c chain;
  later : MedianTimePast (last_times chain) < nTime h;
  target_legal : target_ok c (nBits h);
  work : le_decode (uint256_bytes (Hash (ser_header h))) <= compact_value (nBits h) }.

Fixpoint valid_extension (c : BmmConsensus) (chain hs : list CBlockHeader) : Prop :=
  match hs with
  | [] => True
  | h :: hs' => valid_header c chain h /\ valid_extension c (chain ++ [h]) hs'
  end.

(** A state is the summary of a chain. *)
Record summarises (c : BmmConsensus) (chain : list CBlockHeader) (s : BmmL1State) : Prop := {
  sum_long : 11 <= len chain;
  sum_hash : s.(block_hash) = Hash (ser_header (tip chain));
  sum_height : s.(height) = len chain - 1;
  sum_time : s.(block_time) = nTime (tip chain);
  sum_bits : s.(n_bits) = nBits (tip chain);
  sum_period : s.(period_start_height) =
    (len chain - 1) / DifficultyAdjustmentInterval c * DifficultyAdjustmentInterval c;
  sum_start : s.(period_start_time) = time_at chain s.(period_start_height);
  sum_times : s.(recent_times) = last_times chain;
  sum_target : target_ok c (nBits (tip chain)) }.

Lemma summarises_unique c chain s1 s2 : summarises c chain s1 -> summarises c chain s2 -> s1 = s2.
Proof.
  intros [] []. destruct s1 as [h1 a1 b1 c1 d1 e1 l1], s2 as [h2 a2 b2 c2 d2 e2 l2]. cbn [block_hash height block_time n_bits
    period_start_height period_start_time recent_times] in *. subst d1 d2. subst. reflexivity.
Qed.

Lemma tip_snoc chain h : tip (chain ++ [h]) = h.
Proof. unfold tip. by rewrite last_snoc. Qed.

Lemma time_at_old chain h k : 0 <= k < len chain -> time_at (chain ++ [h]) k = time_at chain k.
Proof. intros Hk. unfold time_at. rewrite app_nth1; [done|]. unfold len in Hk. lia. Qed.

Lemma time_at_new chain h : time_at (chain ++ [h]) (len chain) = nTime h.
Proof. unfold time_at, len. rewrite Nat2Z.id, nth_middle. done. Qed.

Lemma last_times_snoc chain h : 11 <= len chain -> last_times (chain ++ [h]) = tail (last_times chain) ++ [nTime h].
Proof.
  intros Hl. unfold last_times, len in *. rewrite length_app. cbn [length]. rewrite drop_app_le by lia.
  rewrite map_app. f_equal. replace (length chain + 1 - 11)%nat with (S (length chain - 11)) by lia.
  remember (length chain - 11)%nat as k eqn:Hk. destruct (drop k chain) as [|a t] eqn:E.
  - apply (f_equal length) in E. rewrite length_drop in E. cbn in E. lia.
  - cbn [map tail]. f_equal. by rewrite <- (skipn_skipn 1 k), E.
Qed.

Lemma last_times_length chain : 11 <= len chain -> length (last_times chain) = 11%nat.
Proof. intros H. unfold last_times, len in *. rewrite length_map, length_drop. lia. Qed.

Lemma period_step n i : 0 < i -> 0 < n -> n / i * i = if n mod i =? 0 then n else (n - 1) / i * i.
Proof.
  intros Hi Hn. destruct (Z.eqb_spec (n mod i) 0) as [E|E]; [pose proof (Z.div_mod n i); lia|]. f_equal.
  pose proof (Z.div_mod n i). pose proof (Z.mod_pos_bound n i Hi). apply (Z.div_unique _ _ _ (n mod i - 1)); lia.
Qed.

Lemma period_back n i : 0 < i -> n mod i = 0 -> (n - 1) / i * i = n - i.
Proof.
  intros Hi E. pose proof (Z.div_mod n i). assert (D : (n - 1) / i = n / i - 1); [|nia].
  symmetry. apply (Z.div_unique _ _ _ (i - 1)); nia.
Qed.

Section tracker.
Context {Env : SignatureEnv} (c : BmmConsensus) (Hc : consensus_ok c).
Abbreviation interval := (DifficultyAdjustmentInterval c).

Lemma advance_summarises chain s h : summarises c chain s -> len chain < 2^32 -> target_ok c (nBits h) ->
  summarises c (chain ++ [h]) (advance c s h).
Proof.
  intros [] Hn Ht. destruct Hc as [Hi _ _]. assert (El : len (chain ++ [h]) = len chain + 1) by (rewrite len_app; done).
  assert (Eh : u32 (height s + 1) = len chain).
  { rewrite sum_height0, u32_mod. replace (len chain - 1 + 1) with (len chain) by lia. apply Z.mod_small. lia. }
  assert (Ep : (if Z.rem (len chain) interval =? 0 then len chain else period_start_height s) =
               (len (chain ++ [h]) - 1) / interval * interval).
  { rewrite El. replace (len chain + 1 - 1) with (len chain) by lia. rewrite (period_step (len chain)) by lia.
    rewrite Z.rem_mod_nonneg by lia. by destruct (_ =? 0). }
  split; unfold advance; cbn [block_hash height block_time n_bits period_start_height period_start_time recent_times];
    rewrite ?tip_snoc, ?Eh, ?Ep.
  - lia.
  - reflexivity.
  - lia.
  - reflexivity.
  - reflexivity.
  - reflexivity.
  - rewrite <- Ep. destruct (Z.rem (len chain) interval =? 0); [by rewrite time_at_new|].
    rewrite sum_start0, time_at_old; [done|]. rewrite sum_period0.
    pose proof (Z.div_mod (len chain - 1) interval). pose proof (Z.mod_pos_bound (len chain - 1) interval).
    pose proof (Z.div_pos (len chain - 1) interval). nia.
  - by rewrite sum_times0, last_times_snoc.
  - exact Ht.
Qed.

Lemma expected_bits chain s : summarises c chain s -> ExpectedNextBits s c = Ok (next_bits c chain).
Proof.
  intros []. destruct (ExpectedNextBits_spec c s Hc) as (next & Hn & E & V); [by rewrite sum_bits0|]. rewrite E. unfold next_bits.
  destruct Hc as [Hi _ _]. rewrite sum_height0. replace (len chain - 1 + 1) with (len chain) by lia.
  rewrite Z.rem_mod_nonneg by lia. destruct (Z.eqb_spec (len chain mod interval) 0) as [B|B]; [|by rewrite sum_bits0].
  rewrite GetCompact_spec, V by done. unfold retarget. rewrite sum_bits0, sum_time0, sum_start0, sum_period0.
  by rewrite period_back by lia.
Qed.

Lemma pow_spec h : u32_ok (nBits h) -> CheckParentProofOfWork h c = Ok tt <->
  target_ok c (nBits h) /\ le_decode (uint256_bytes (Hash (ser_header h))) <= compact_value (nBits h).
Proof.
  intros Hb. unfold CheckParentProofOfWork, target_ok. destruct (SetCompact (nBits h)) as [[a neg] ovf] eqn:E. cbn [fst snd].
  destruct (SetCompact_spec _ _ _ _ Hb E) as [Ha Hv]. destruct (limit_spec c) as [L1 L2].
  destruct (UintToArith256_spec (Hash (ser_header h))) as [U1 U2].
  rewrite value_zero, !CompareTo_gt, L2, U2 by done. rewrite ensure_Ok, negb_true_iff, !orb_false_iff, !Z.ltb_ge, Z.eqb_neq.
  pose proof (arith_bound _ Ha). clear U1 U2 E. generalize (le_decode (uint256_bytes (Hash (ser_header h)))). intros w. split.
  - intros [[[[H1 H2] H3] H4] H5]. destruct (Hv H3) as [V _]. rewrite V in *. split_and!; (done || lia).
  - intros [(_ & H1 & H3 & H4) H5]. destruct (Hv H3) as [V _]. rewrite V in *. split_and!; (done || lia).
Qed.

(** An entry carries a parent block: its coinbase and header, with the proofs that belong to them. *)
Definition carries (e : BmmProofEntry) (b : CTransaction * CBlockHeader) : Prop :=
  exists tree, decode_entry e = Ok (b.1, mkMerkleBlock b.2 tree) /\
    let x := ExtractMatches tree in
    x_root x = hashMerkleRoot b.2 /\ x_indices x = [0] /\ x_matches x = [GetHash b.1] /\
    (require_signet_solution c = true ->
     CheckSignetSolution b.1 (mkMerkleBlock b.2 (x_tree x)) (signet_challenge c) = Ok tt).

Lemma one_elem (l : list Z) y : (len l =? 1) && (nth 0 l 0 =? y) = true <-> l = [y].
Proof.
  rewrite andb_true_iff, !Z.eqb_eq. destruct l as [|x [|x' l]]; cbn [nth].
  - rewrite len_nil. split; [lia|discriminate].
  - change (len [x]) with 1. split; [intros [_ ->]|intros [= ->]]; easy.
  - rewrite !len_cons. pose proof (len_nonneg l). split; [lia|discriminate].
Qed.

Lemma matched_iff (r r' : Z) ms ix y : (r =? r') && (len ms =? 1) && (len ix =? 1) && (nth 0 ix 0 =? 0) && (nth 0 ms 0 =? y) = true <->
  r = r' /\ ix = [0] /\ ms = [y].
Proof. rewrite <- !one_elem, !andb_true_iff, !Z.eqb_eq. tauto. Qed.

Lemma decode_entry_header e cb mp : bytes_ok (coinbase_proof e) -> decode_entry e = Ok (cb, mp) -> header_ok (mb_header mp).
Proof.
  intros Hb H. unfold decode_entry in H. apply bind_Ok in H as ([] & _ & H).
  destruct (DeserializeExactly (UnserializeTransaction true) (coinbase_tx e)) as [tx|]; [|discriminate].
  destruct (DeserializeExactly read_merkle_block (coinbase_proof e)) as [mb|] eqn:E; [|discriminate].
  apply bind_Ok in H as ([] & _ & H). injection H as -> ->. apply exactly_inv in E. unfold read_merkle_block in E.
  apply rbind_Some in E as (h & s1 & E1 & E2). apply rbind_Some in E2 as (t & s2 & _ & E3). injection E3 as <- _.
  pose proof (yields_header _ _ _ Hb E1) as [Hh _]. exact Hh.
Qed.

Lemma verify_entry_iff chain s e s' cb h : bytes_ok (coinbase_proof e) -> summarises c chain s ->
  verify_entry c s e = Ok (s', cb, h) <-> carries e (cb, h) /\ valid_header c chain h /\ s' = advance c s h.
Proof.
  intros Hb Hs. unfold verify_entry, carries. cbn [fst snd]. split.
  - intros H. apply bind_Ok in H as ([cb0 [h0 tree]] & D & H). cbn [txn mb_header] in H.
    pose proof (decode_entry_header _ _ _ Hb D) as (_ & _ & _ & _ & Hbits & _). cbn [mb_header] in Hbits.
    apply bind_Ok in H as ([] & A & H). apply bind_Ok in H as ([] & L & H). apply bind_Ok in H as (b & B & H).
    apply bind_Ok in H as ([] & T & H). apply bind_Ok in H as ([] & P & H). apply bind_Ok in H as ([] & S & H).
    assert (E : advance c s h0 = s' /\ cb0 = cb /\ h0 = h) by (split_and!; congruence). destruct E as (<- & -> & ->). clear H.
    apply ensure_Ok, matched_iff in A as (A1 & A2 & A3). apply ensure_Ok, Z.eqb_eq in L.
    rewrite (expected_bits chain s Hs) in B. assert (Eb : next_bits c chain = b) by congruence. clear B.
    apply ensure_Ok, andb_true_iff in T as [T1 T2]. apply Z.eqb_eq in T1. apply Z.ltb_lt in T2. apply pow_spec in P as [P1 P2]; [|exact Hbits].
    split; [exists tree; split; [exact D|]; split; [exact A1|]; split; [exact A2|]; split; [exact A3|]|].
    { intros R. rewrite R in S. exact S. }
    split; [|reflexivity]. split.
    + rewrite L. apply Hs.
    + congruence.
    + rewrite <- (sum_times _ _ _ Hs). exact T2.
    + exact P1.
    + exact P2.
  - intros ((tree & D & A1 & A2 & A3 & S) & [L B T P1 P2] & ->). rewrite D. cbn [mbind result_bind]. cbn [txn mb_header].
    rewrite ensure_bind; [|exact (proj2 (matched_iff _ _ _ _ _) (conj A1 (conj A2 A3)))].
    rewrite ensure_bind; [|apply Z.eqb_eq; rewrite L; symmetry; exact (sum_hash _ _ _ Hs)].
    rewrite (expected_bits chain s Hs). cbn [mbind result_bind].
    rewrite ensure_bind.
    2: { apply andb_true_iff. split; [apply Z.eqb_eq; exact B|apply Z.ltb_lt]. rewrite (sum_times _ _ _ Hs). exact T. }
    rewrite (proj2 (pow_spec h (proj1 P1)) (conj P1 P2)). cbn [mbind result_bind].
    destruct (require_signet_solution c); [rewrite (S eq_refl)|]; reflexivity.
Qed.

Lemma last_default {A} (fin b : A) l : default fin (list.last (b :: l)) = default b (list.last l).
Proof. rewrite last_cons. by destruct (list.last l). Qed.

Lemma verify_entries_iff l : forall chain s fin s' cb h, Forall proof_entry_ok l -> summarises c chain s ->
  len chain + len l < 2^32 ->
  verify_entries c s l fin = Ok (s', cb, h) <->
  exists blocks, Forall2 carries l blocks /\ valid_extension c chain (map snd blocks) /\
    summarises c (chain ++ map snd blocks) s' /\ (cb, h) = default fin (list.last blocks).
Proof.
  induction l as [|e l IH]; intros chain s [fcb fh] s' cb h Hl Hs Hn; cbn [verify_entries].
  - split.
    + intros [= <- <- <-]. exists []. cbn [map]. rewrite app_nil_r. split_and!; [constructor|exact I|exact Hs|reflexivity].
    + intros (blocks & F & _ & S & E). apply Forall2_nil_inv_l in F as ->. cbn [map] in S. rewrite app_nil_r in S.
      rewrite (summarises_unique _ _ _ _ S Hs). cbn in E. injection E as <- <-. reflexivity.
  - apply Forall_cons_1 in Hl as [He Hl]. rewrite len_cons in Hn. pose proof (len_nonneg l) as Hln. split.
    + intros H. apply bind_Ok in H as ([[s1 cb1] h1] & V & H). cbn [fst snd] in H.
      apply (verify_entry_iff chain) in V as (C1 & V1 & ->); [|apply He|exact Hs].
      apply (IH (chain ++ [h1])) in H as (blocks & F & X & S & E); [|exact Hl|apply advance_summarises; [exact Hs|lia|apply V1]|].
      2: { rewrite len_app. change (len [h1]) with 1. lia. }
      exists ((cb1, h1) :: blocks). rewrite last_default. cbn [map snd valid_extension]. rewrite <- app_assoc in S.
      split_and!; [by constructor|exact V1|exact X|exact S|exact E].
    + intros (blocks & F & X & S & E). apply Forall2_cons_inv_l in F as ([cb1 h1] & blocks' & C1 & F & ->).
      cbn [map snd valid_extension] in X, S. destruct X as [V1 X]. rewrite last_default in E.
      rewrite (proj2 (verify_entry_iff chain s e (advance c s h1) cb1 h1 (proj1 (proj2 He)) Hs) (conj C1 (conj V1 eq_refl))).
      cbn [mbind result_bind fst snd]. apply (IH (chain ++ [h1])); [exact Hl|apply advance_summarises; [exact Hs|lia|apply V1]| |].
      { rewrite len_app. change (len [h1]) with 1. lia. }
      exists blocks'. rewrite <- app_assoc. split_and!; [exact F|exact X|exact S|exact E].
Qed.
End tracker.

(** C4. The constant-size state that the node keeps of the parent chain is as good as all its headers: for a
    state that summarises a list of headers, a proof is accepted with a next state exactly when its entries carry
    parent blocks that extend that list by the rules of a full node - link, median time of eleven blocks, target
    recomputed from the whole period, proof of work, coinbase and signet proofs -, the last one follows the
    parent block that the sidechain block names and its coinbase commits to the critical hash, and the next
    state summarises the longer list. *)
Theorem proof_extends_parent_chain {Env : SignatureEnv} c chain p critical parent s' : consensus_ok c -> proof_ok p ->
  summarises c chain p.(previous_state) -> len chain + len p.(entries) < 2^32 ->
  VerifyBmmProofEntries c p critical parent = Ok s' <->
  p.(version) = BMM_PROOF_SCHEMA_VERSION /\ 0 < len p.(entries) <= c.(max_entries) /\
  ValidState p.(previous_state) c = Ok tt /\
  exists blocks coinbase h, Forall2 (carries c) p.(entries) blocks /\
    valid_extension c chain (map snd blocks) /\ summarises c (chain ++ map snd blocks) s' /\
    list.last blocks = Some (coinbase, h) /\ hashPrevBlock h = parent /\
    ExtractM8Commitment coinbase c.(sidechain_slot) = Ok critical.
Proof.
  intros Hc Hp Hs Hn. pose proof (len_nonneg p.(entries)) as H0. unfold VerifyBmmProofEntries. split.
  - intros H. apply bind_Ok in H as ([] & E & H). apply bind_Ok in H as ([] & V & H).
    apply bind_Ok in H as ([[s cb] h] & R & H). apply bind_Ok in H as ([] & L & H). apply bind_Ok in H as (m & M & H).
    apply bind_Ok in H as ([] & Q & H). assert (s = s') as -> by congruence. clear H.
    apply ensure_Ok in E. rewrite negb_true_iff, !orb_false_iff, negb_false_iff, Z.eqb_eq, Z.eqb_neq, Z.ltb_ge in E.
    apply ensure_Ok, Z.eqb_eq in L. apply ensure_Ok, Z.eqb_eq in Q. subst m.
    apply (verify_entries_iff c Hc _ chain) in R as (blocks & F & X & S & D); [|apply Hp|exact Hs|exact Hn].
    destruct E as [[E1 E2] E3]. split; [exact E1|]. split; [lia|]. split; [exact V|]. exists blocks, cb, h.
    split_and!; [exact F|exact X|exact S| |exact L|exact M].
    destruct (list.last blocks) as [b|] eqn:El; [cbn in D; by rewrite D|].
    apply last_None in El as ->. apply Forall2_nil_inv_r in F. rewrite F in E2. by rewrite len_nil in E2.
  - intros (E1 & E2 & V & blocks & cb & h & F & X & S & D & L & M). rewrite ensure_bind.
    2: { rewrite E1, Z.eqb_refl, (proj2 (Z.eqb_neq _ _)), (proj2 (Z.ltb_ge _ _)) by lia. reflexivity. }
    rewrite V. cbn [mbind result_bind].
    rewrite (proj2 (verify_entries_iff c Hc _ chain _ (no_coinbase, no_header) s' cb h (proof_entries _ Hp) Hs Hn)).
    2: { exists blocks. split_and!; [exact F|exact X|exact S|]. rewrite D. reflexivity. }
    cbn [mbind result_bind]. rewrite ensure_bind by (apply Z.eqb_eq; exact L). rewrite M. cbn [mbind result_bind].
    rewrite ensure_bind by apply Z.eqb_refl. reflexivity.
Qed.

(** ** The state stays valid *)
Record well_tracked (c : BmmConsensus) (s : BmmL1State) : Prop := {
  wt_height : 0 < s.(height);
  wt_time : 0 < s.(block_time);
  wt_bits : 0 < s.(n_bits);
  wt_period : s.(period_start_height) <= s.(height) < s.(period_start_height) + DifficultyAdjustmentInterval c;
  wt_aligned : s.(period_start_height) mod DifficultyAdjustmentInterval c = 0;
  wt_start : 0 < s.(period_start_time);
  wt_window : len s.(recent_times) = 11;
  wt_last : default 0 (list.last s.(recent_times)) = s.(block_time) }.

Lemma ValidState_iff c s : consensus_ok c -> state_ok s ->
  ValidState s c = Ok tt <-> s.(block_hash) <> 0 /\ well_tracked c s.
Proof.
  intros [Hi _ _] [_ H2 H3 H4 H5 H6 _ _]. unfold ValidState, IsNull, u32_ok in *.
  rewrite ensure_Ok, negb_true_iff, !orb_false_iff, !negb_false_iff, !Z.eqb_neq, !Z.eqb_eq, Z.ltb_ge, !Z.leb_gt.
  rewrite (u32_mod (DifficultyAdjustmentInterval c)), (Z.mod_small (DifficultyAdjustmentInterval c)) by lia.
  rewrite Z.rem_mod_nonneg by lia. split.
  - intros [[[[[[[[[[B Eh] Et] Eb] _] Ep] Ea] Ei] Es] Ew] El]. rewrite u32_mod, Z.mod_small in Ei by lia.
    split; [exact B|]. split; (exact Ea || exact Ew || exact El || lia).
  - intros [B [Eh Et Eb Ep Ea Es Ew El]]. rewrite u32_mod, (Z.mod_small (height s - period_start_height s)) by lia. split_and!; (assumption || lia).
Qed.

Lemma median_elem l : l <> [] -> MedianTimePast l ∈ l.
Proof.
  intros Hl. unfold MedianTimePast. pose proof (sorting.merge_sort_Permutation Z.le l) as P.
  apply list_elem_of_In, (Permutation_in _ P), nth_In. rewrite (Permutation_length P). apply Nat.div_lt; [|lia]. destruct l; [done|cbn; lia].
Qed.

Lemma window_nonempty {A} (l : list A) : len l = 11 -> l <> [].
Proof. by intros H ->. Qed.

Section advance.
Context {Env : SignatureEnv} (c : BmmConsensus) (Hc : consensus_ok c).

Lemma verify_entry_inv s e s' cb h : bytes_ok (coinbase_proof e) -> verify_entry c s e = Ok (s', cb, h) ->
  s' = advance c s h /\ MedianTimePast s.(recent_times) < nTime h /\ u32_ok (nTime h) /\ 0 < nBits h < 2^32.
Proof.
  intros Hb H. unfold verify_entry in H. apply bind_Ok in H as ([cb0 mp] & D & H).
  apply bind_Ok in H as ([] & _ & H). apply bind_Ok in H as ([] & _ & H). apply bind_Ok in H as (b & _ & H).
  apply bind_Ok in H as ([] & T & H). apply bind_Ok in H as ([] & P & H). apply bind_Ok in H as ([] & _ & H).
  assert (E : advance c s (mb_header mp) = s' /\ mb_header mp = h) by (split; congruence). destruct E as [<- <-]. clear H.
  pose proof (decode_entry_header _ _ _ Hb D) as (_ & _ & _ & Ht & Hn & _).
  apply ensure_Ok, andb_true_iff in T as [_ T%Z.ltb_lt].
  apply (pow_spec c) in P as [(_ & _ & _ & P & _) _]; [|exact Hn].
  assert (nBits (mb_header mp) <> 0) by (intros Z0; rewrite Z0 in P; discriminate P).
  split; [reflexivity|]. split; [exact T|]. split; [exact Ht|lia].
Qed.

Lemma advance_tracked s h : state_ok s -> well_tracked c s -> s.(height) + 1 < 2^32 ->
  MedianTimePast s.(recent_times) < nTime h -> u32_ok (nTime h) -> 0 < nBits h < 2^32 ->
  state_ok (advance c s h) /\ well_tracked c (advance c s h) /\ (advance c s h).(height) = s.(height) + 1 /\
  MedianTimePast s.(recent_times) <= MedianTimePast (advance c s h).(recent_times).
Proof.
  intros [O1 O2 O3 O4 O5 O6 O7 O8] [W1 W2 W3 W4 W5 W6 W7 W8] Hh Ht Hu Hn. destruct Hc as [Hi _ _]. unfold u32_ok in *.
  pose proof (window_nonempty _ W7) as Hne.
  assert (Eh : u32 (height s + 1) = height s + 1) by (rewrite u32_mod; apply Z.mod_small; lia).
  assert (E11 : len (tail (recent_times s) ++ [nTime h]) = 11).
  { rewrite len_app. destruct (recent_times s) as [|t l]; [by destruct Hne|]. rewrite len_cons in W7. cbn [tail].
    change (len [nTime h]) with 1. lia. }
  assert (T0 : 0 < nTime h).
  { pose proof (median_elem _ Hne) as Hm. rewrite list.Forall_forall in O7. specialize (O7 _ Hm). cbn in O7. lia. }
  split_and!.
  - split; unfold advance; cbn [block_hash height block_time n_bits period_start_height period_start_time recent_times];
      rewrite ?Eh, ?E11; unfold u32_ok.
    + apply Hash_ok.
    + lia.
    + exact Hu.
    + lia.
    + destruct (_ =? 0); lia.
    + destruct (_ =? 0); [exact Hu|exact O6].
    + apply Forall_app. split; [|by constructor]. destruct (recent_times s); [done|]. by apply Forall_cons_1 in O7 as [_ O7].
    + lia.
  - split; unfold advance; cbn [block_hash height block_time n_bits period_start_height period_start_time recent_times];
      rewrite ?Eh, ?E11, ?Z.rem_mod_nonneg by lia.
    + lia.
    + exact T0.
    + lia.
    + destruct (Z.eqb_spec ((height s + 1) mod DifficultyAdjustmentInterval c) 0) as [B|B]; [lia|].
      split; [lia|]. destruct (decide (height s + 1 = period_start_height s + DifficultyAdjustmentInterval c)) as [E|E]; [|lia].
      rewrite E in B. exfalso. apply B. rewrite <- Zplus_mod_idemp_l, W5. apply Z.mod_same. lia.
    + destruct (Z.eqb_spec ((height s + 1) mod DifficultyAdjustmentInterval c) 0) as [B|B]; [exact B|exact W5].
    + destruct (_ =? 0); [exact T0|exact W6].
    + reflexivity.
    + by rewrite last_snoc.
  - unfold advance. cbn [height]. exact Eh.
  - unfold advance. cbn [recent_times]. by apply median_advance.
Qed.

Lemma verify_entries_tracked l : forall s fin s' cb h, Forall proof_entry_ok l -> state_ok s -> well_tracked c s ->
  s.(height) + len l < 2^32 -> verify_entries c s l fin = Ok (s', cb, h) ->
  state_ok s' /\ well_tracked c s' /\ s'.(height) = s.(height) + len l /\
  MedianTimePast s.(recent_times) <= MedianTimePast s'.(recent_times).
Proof.
  induction l as [|e l IH]; intros s fin s' cb h Hl Hs Hw Hh H; cbn [verify_entries] in H.
  - assert (s = s') as <- by congruence. rewrite len_nil, Z.add_0_r. split_and!; [exact Hs|exact Hw|reflexivity|reflexivity].
  - apply Forall_cons_1 in Hl as [He Hl]. rewrite len_cons in *. pose proof (len_nonneg l).
    apply bind_Ok in H as ([[s1 cb1] h1] & V & H). cbn [fst snd] in H.
    apply verify_entry_inv in V as (-> & T & U & N); [|apply He].
    destruct (advance_tracked s h1 Hs Hw ltac:(lia) T U N) as (Hs1 & Hw1 & E1 & M1).
    apply IH in H as (Hs' & Hw' & E' & M'); [|exact Hl|exact Hs1|exact Hw1|lia]. split_and!; [exact Hs'|exact Hw'|lia|lia].
Qed.
End advance.

Lemma verified_tracked {Env : SignatureEnv} c p critical parent s' : consensus_ok c -> proof_ok p ->
  p.(previous_state).(height) + len p.(entries) < 2^32 -> VerifyBmmProofEntries c p critical parent = Ok s' ->
  ValidState p.(previous_state) c = Ok tt /\ state_ok s' /\ well_tracked c s' /\
  s'.(height) = p.(previous_state).(height) + len p.(entries) /\
  MedianTimePast p.(previous_state).(recent_times) <= MedianTimePast s'.(recent_times).
Proof.
  intros Hc Hp Hh H. unfold VerifyBmmProofEntries in H. apply bind_Ok in H as ([] & _ & H). apply bind_Ok in H as ([] & V & H).
  apply bind_Ok in H as ([[s cb] h] & R & H). apply bind_Ok in H as ([] & _ & H). apply bind_Ok in H as (m & _ & H).
  apply bind_Ok in H as ([] & _ & H). assert (s = s') as -> by congruence. clear H. split; [exact V|].
  apply ValidState_iff in V as [_ W]; [|exact Hc|apply Hp].
  exact (verify_entries_tracked c Hc _ _ _ _ _ _ (proof_entries _ Hp) (proof_state _ Hp) W Hh R).
Qed.

(** The parent clock that the sidechain derives from its proofs never runs backwards: behind an accepted
    proof the state is valid again, so that the next block has a clock, its height is larger by exactly the number
    of parent blocks in the proof, and its median time is at least what it was.  The next state must not have the
    null hash, and its height must fit 32 bits. *)
Theorem parent_clock_advances {Env : SignatureEnv} p critical parent s' ctx : proof_ok p ->
  p.(previous_state).(height) + len p.(entries) < 2^32 -> s'.(block_hash) <> 0 ->
  VerifyBmmProofEntries LAYER_TWO_LABS_CONSENSUS p critical parent = Ok s' ->
  GetBmmParentContext p.(previous_state) = Ok ctx ->
  exists ctx', GetBmmParentContext s' = Ok ctx' /\ ctx'.(c_block_hash) = s'.(block_hash) /\
    ctx'.(c_height) = ctx.(c_height) + len p.(entries) /\ ctx.(c_median_time_past) <= ctx'.(c_median_time_past).
Proof.
  intros Hp Hh Hb H Hx. destruct (verified_tracked _ _ _ _ _ public_consensus_ok Hp Hh H) as (V & S & W & E & M). clear H.
  assert (V' : ValidState s' LAYER_TWO_LABS_CONSENSUS = Ok tt) by (apply ValidState_iff; [apply public_consensus_ok|exact S|by split]).
  unfold GetBmmParentContext in *. rewrite V in Hx. rewrite V'. cbn [mbind result_bind] in *.
  apply bind_Ok in Hx as ([] & N & Hx). apply ensure_Ok, negb_true_iff, Z.eqb_neq in N. injection Hx as <-.
  assert (P : 0 <= MedianTimePast (recent_times (previous_state p))).
  { apply valid_window, window_nonempty, median_elem in V. pose proof (state_times _ (proof_state _ Hp)) as O.
    rewrite list.Forall_forall in O. specialize (O _ V). unfold u32_ok in O. lia. }
  rewrite ensure_bind by (apply negb_true_iff, Z.eqb_neq; lia).
  eexists. split; [reflexivity|]. cbn [c_block_hash c_height c_median_time_past]. split_and!; [reflexivity|exact E|exact M].
Qed.

(** ** Attaching a proof *)
Lemma attached_critical m h b : Side.GetBmmCriticalHash m (Side.with_hashBmmProof h b) = Side.GetBmmCriticalHash m h.
Proof. reflexivity. Qed.

(** C30. A proof that was made for a block still fits once it is attached: attaching stores its bytes and their
    hash in the block without changing the critical hash that the parent miner committed to, and the block then
    verifies against the state the proof starts from, with the next state that the proof gives. *)
Theorem attached_proof_verifies {Env : SignatureEnv} c m block p b parent s' : consensus_ok c -> proof_ok p ->
  c.(max_entries) <= MAX_BMM_PROOF_ENTRIES -> MAX_BMM_PROOF_BYTES <= c.(max_proof_bytes) ->
  Side.HasBmmProof block.(side_header) = true -> SerializeBmmProof p = Ok b -> BmmProofCommitment b <> 0 ->
  ExtractSidechainParentHash block = Ok parent ->
  VerifyBmmProofEntries c p (Side.GetBmmCriticalHash m block.(side_header)) parent = Ok s' ->
  exists block', AttachBmmProof block p = Ok block' /\ VerifyBmmProof c m block' p.(previous_state) = Ok s' /\
    Side.GetBmmCriticalHash m block'.(side_header) = Side.GetBmmCriticalHash m block.(side_header).
Proof.
  intros Hc Hp Hm Hz Hbit Hser Hnull Hpar H. unfold AttachBmmProof. rewrite ensure_bind, Hser by exact Hbit. cbn [mbind result_bind].
  eexists. split; [reflexivity|]. cbn [side_header]. split; [|apply attached_critical]. unfold VerifyBmmProof. cbn [side_header m_bmm_proof].
  assert (Henv : p.(version) = BMM_PROOF_SCHEMA_VERSION /\ 0 < len p.(entries) <= c.(max_entries)).
  { unfold VerifyBmmProofEntries in H. apply bind_Ok in H as ([] & E & _). apply ensure_Ok in E. pose proof (len_nonneg p.(entries)).
    rewrite negb_true_iff, !orb_false_iff, negb_false_iff, Z.eqb_eq, Z.eqb_neq, Z.ltb_ge in E. split; [apply E|lia]. }
  rewrite (DeserializeBmmProof_back p b Hp (proj1 Henv) ltac:(lia) Hser).
  unfold SerializeBmmProof in Hser. apply bind_Ok in Hser as ([] & Hsz & Hser). apply ensure_Ok in Hsz.
  rewrite negb_true_iff, !orb_false_iff in Hsz. destruct Hsz as [Hb0 Hb1]. assert (Eb : ser_proof p = b) by congruence.
  rewrite Eb in Hb0, Hb1. clear Hser.
  apply Z.ltb_ge in Hb1. rewrite ensure_bind.
  2: { change (Side.HasBmmProof (Side.with_hashBmmProof (side_header block) (BmmProofCommitment b)))
         with (Side.HasBmmProof (side_header block)).
       rewrite Hbit, Hb0. cbn [Side.with_hashBmmProof Side.hashBmmProof]. unfold IsNull.
       rewrite Z.eqb_refl, (proj2 (Z.eqb_neq _ _) Hnull), (proj2 (Z.ltb_ge _ _)) by lia. reflexivity. }
  cbn [mbind result_bind]. rewrite ensure_bind by (by apply bool_decide_eq_true_2).
  change (ExtractSidechainParentHash (mkSideBlock (Side.with_hashBmmProof (side_header block) (BmmProofCommitment b)) (side_vtx block) b))
    with (ExtractSidechainParentHash block).
  rewrite Hpar. cbn [mbind result_bind]. rewrite attached_critical. exact H.
Qed.

(** ** Connecting and disconnecting *)
Lemma initial_state_ok : state_ok LAYER_TWO_LABS_INITIAL_STATE /\
  ValidState LAYER_TWO_LABS_INITIAL_STATE LAYER_TWO_LABS_CONSENSUS = Ok tt.
Proof.
  split; [|by vm_compute]. unfold LAYER_TWO_LABS_INITIAL_STATE.
  split; cbn [block_hash height block_time n_bits period_start_height period_start_time recent_times]; unfold u32_ok; try lia.
  - vm_compute. split; [discriminate|reflexivity].
  - refine (bool_decide_unpack _ _). vm_compute. exact I.
  - discriminate.
Qed.

Section reorganise.
Context {Env : SignatureEnv} {V : Type} `{!CoinsCache V, !CoinsCacheLaws V} (params : chain_params).
Context (Hasset : uint256_ok params.(pegged_asset)) (Hslot : params.(drivechain_slot) = None).

(** The state that the next block builds on. *)
Definition effective_state (v : V) (previous : option CBlockIndex) : result BmmL1State :=
  r ← GetEffectiveBmmState params v previous; Ok r.2.

Definition effective_of (r : result (option BmmL1State)) (previous : option CBlockIndex) : result BmmL1State :=
  found ← r;
  match found with
  | Some s => Ok s
  | None =>
      ensure (is_block previous PUBLIC_SIDECHAIN_BLOCK_2) "authenticated BMM parent-chain state is missing";;
      Ok LAYER_TWO_LABS_INITIAL_STATE
  end.

Lemma not_native : native params = false.
Proof. unfold native. by rewrite Hslot. Qed.

Lemma holds_some v : cache_inv v -> exists r, holds params v r.
Proof. intros Hv. unfold holds. destruct (cache_coin v BMM_STATE_OUTPOINT); eexists; split; [done..|]; done. Qed.

Lemma effective_holds v r previous : holds params v r -> exists v', cache_inv v' /\
  (forall o, cache_coin v' o = cache_coin v o) /\
  GetEffectiveBmmState params v previous = (s ← effective_of r previous; Ok (v', s)).
Proof.
  intros H. destruct (GetBmmState_holds params v r H) as (v' & E & Hv' & Hc). exists v'. split; [exact Hv'|]. split; [exact Hc|].
  unfold GetEffectiveBmmState. rewrite ensure_bind by (by rewrite not_native). rewrite E. unfold effective_of.
  destruct r as [[s|]|err]; [reflexivity| |reflexivity]. cbn [mbind result_bind]. by destruct (is_block previous PUBLIC_SIDECHAIN_BLOCK_2).
Qed.

Lemma effective_state_holds v r previous : holds params v r -> effective_state v previous = effective_of r previous.
Proof.
  intros H. destruct (effective_holds v r previous H) as (v' & _ & _ & E). unfold effective_state. rewrite E.
  by destruct (effective_of r previous).
Qed.

Lemma holds_present v s : holds params v (Ok (Some s)) -> is_Some (cache_coin v BMM_STATE_OUTPOINT).
Proof. intros [_ H]. destruct (cache_coin v BMM_STATE_OUTPOINT); [done|discriminate]. Qed.

Lemma disconnect_checkpoint block previous v1 h : is_checkpoint params block previous = true ->
  holds params v1 (Ok (Some LAYER_TWO_LABS_INITIAL_STATE)) ->
  exists v2, DisconnectBmmState params block previous v1 h = Ok v2 /\ holds params v2 (Ok None) /\
    forall o, o <> BMM_STATE_OUTPOINT -> cache_coin v2 o = cache_coin v1 o.
Proof.
  intros Hcp H1. unfold DisconnectBmmState. rewrite Hcp. destruct (GetBmmState_holds params v1 _ H1) as (v' & E & Hv' & Hc).
  rewrite E. cbn [mbind result_bind]. rewrite ensure_bind by (by apply bool_decide_eq_true_2).
  pose proof (cache_spend_law v' BMM_STATE_OUTPOINT Hv') as L. destruct (cache_spend v' BMM_STATE_OUTPOINT) as [v2 found].
  destruct L as (Hv2 & Hc2 & Hf). rewrite ensure_bind by (apply Hf; rewrite Hc; by apply (holds_present v1 _ H1)).
  exists v2. split; [reflexivity|]. split; [split; [exact Hv2|by rewrite Hc2, decide_True]|].
  intros o Ho. by rewrite Hc2, decide_False, Hc.
Qed.

Lemma disconnect_proof block previous v1 h p s' parent : is_checkpoint params block previous = false ->
  Side.HasBmmProof (side_header block) = true -> DeserializeBmmProof (m_bmm_proof block) = Ok p ->
  state_ok p.(previous_state) -> ValidState p.(previous_state) LAYER_TWO_LABS_CONSENSUS = Ok tt ->
  ExtractSidechainParentHash block = Ok parent ->
  VerifyBmmProofEntries LAYER_TWO_LABS_CONSENSUS p (Side.GetBmmCriticalHash (chain_modes params) (side_header block)) parent = Ok s' ->
  holds params v1 (Ok (Some s')) ->
  exists v2, DisconnectBmmState params block previous v1 h = Ok v2 /\ holds params v2 (Ok (Some p.(previous_state))) /\
    forall o, o <> BMM_STATE_OUTPOINT -> cache_coin v2 o = cache_coin v1 o.
Proof.
  intros Hcp Hbit Hd Hs Hv Hpar Hver H1. unfold DisconnectBmmState. rewrite Hcp, Hbit, Hd. cbn [mbind result_bind negb].
  destruct (GetBmmState_holds params v1 _ H1) as (v' & E & Hv' & Hc). rewrite E. cbn [mbind result_bind].
  rewrite Hpar. cbn [mbind result_bind]. rewrite Hver. cbn [mbind result_bind].
  rewrite ensure_bind by (by apply bool_decide_eq_true_2).
  destruct (SetBmmState_holds params Hasset v' (previous_state p) (h - 1) Hv' Hs Hv) as (v2 & E2 & H2 & Hc2).
  exists v2. split; [exact E2|]. split; [exact H2|]. intros o Ho. by rewrite Hc2, Hc.
Qed.
End reorganise.

(** What a verified proof says of its parts. *)
Lemma VerifyBmmProof_inv {Env : SignatureEnv} c m block s s' : bytes_ok (m_bmm_proof block) ->
  VerifyBmmProof c m block s = Ok s' ->
  exists p parent, Side.HasBmmProof (side_header block) = true /\ DeserializeBmmProof (m_bmm_proof block) = Ok p /\
    proof_ok p /\ 0 < len p.(entries) <= MAX_BMM_PROOF_ENTRIES /\ p.(previous_state) = s /\
    ExtractSidechainParentHash block = Ok parent /\
    VerifyBmmProofEntries c p (Side.GetBmmCriticalHash m (side_header block)) parent = Ok s'.
Proof.
  intros Hb H. unfold VerifyBmmProof in H. apply bind_Ok in H as ([] & E & H). apply bind_Ok in H as (p & D & H).
  apply bind_Ok in H as ([] & P & H). apply bind_Ok in H as (parent & X & H). apply ensure_Ok, bool_decide_eq_true in P.
  destruct (DeserializeBmmProof_ok _ _ Hb D) as (Hp & _ & Hn & _). apply ensure_Ok in E.
  rewrite negb_true_iff, !orb_false_iff, !negb_false_iff in E. destruct E as [[[[E _] _] _] _].
  exists p, parent. split_and!; [exact E|exact D|exact Hp|lia|lia|exact P|exact X|exact H].
Qed.

(** C15. A reorganisation undoes the BMM state exactly: a block that was connected can be disconnected again,
    with every kind of block - the checkpoint that installs the bootstrap state, blocks without a proof, and blocks
    whose proof advanced the parent chain.  Afterwards the next block builds on the parent-chain state that
    it would have built on before, and no other coin of the chainstate is changed.  The chainstate is any cache
    that keeps its laws. *)
Theorem connect_then_disconnect {Env : SignatureEnv} {V : Type} `{!CoinsCache V, !CoinsCacheLaws V} params block previous
    (v v1 : V) h : uint256_ok params.(pegged_asset) -> params.(drivechain_slot) = None -> cache_inv v ->
  bytes_ok (m_bmm_proof block) ->
  (forall s s', effective_state params v previous = Ok s ->
     VerifyBmmProof LAYER_TWO_LABS_CONSENSUS params.(chain_modes) block s = Ok s' ->
     s.(height) + MAX_BMM_PROOF_ENTRIES < 2^32 /\ s'.(block_hash) <> 0) ->
  ConnectBmmState params block previous v h false = Ok v1 ->
  exists v2, DisconnectBmmState params block previous v1 h = Ok v2 /\
    effective_state params v2 previous = effective_state params v previous /\
    forall o, o <> BMM_STATE_OUTPOINT -> cache_coin v2 o = cache_coin v o.
Proof.
  intros Hasset Hslot Hv Hb Hfit H. destruct (holds_some params v Hv) as [r Hr].
  pose proof (effective_state_holds params Hslot v r previous Hr) as Ev.
  unfold ConnectBmmState in H. rewrite (not_native params Hslot) in H.
  destruct (is_checkpoint params block previous) eqn:Hcp.
  - destruct (GetBmmState_holds params v r Hr) as (v' & E & Hv' & Hc). rewrite E in H. apply bind_Ok in H as (x & -> & H).
    destruct x; [discriminate|]. destruct initial_state_ok as [Hi1 Hi2].
    destruct (SetBmmState_holds params Hasset v' _ h Hv' Hi1 Hi2) as (v1' & E1 & H1 & Hc1). assert (v1' = v1) as -> by congruence.
    destruct (disconnect_checkpoint params block previous v1 h Hcp H1) as (v2 & E2 & H2 & Hc2). exists v2.
    split; [exact E2|]. rewrite Ev. split; [apply (effective_state_holds params Hslot v2 _ previous H2)|].
    intros o Ho. by rewrite Hc2, Hc1, Hc.
  - destruct (negb (BmmProofRequiredAfter params previous) && negb (Side.HasBmmProof (side_header block))) eqn:Hq.
    + assert (v = v1) as <- by congruence. apply andb_true_iff in Hq as [_ Hq]. exists v.
      unfold DisconnectBmmState. rewrite Hcp, Hq. split_and!; reflexivity.
    + cbn [andb] in H. destruct (effective_holds params Hslot v r previous Hr) as (v' & Hv' & Hc & E). rewrite E in H.
      apply bind_Ok in H as ([v'' s] & Es & H). apply bind_Ok in Es as (s0 & Es & E0).
      assert (v'' = v' /\ s0 = s) as [-> ->] by (split; congruence). clear E0.
      apply bind_Ok in H as (s' & Hver & H). rewrite Es in Ev. destruct (Hfit s s' Ev Hver) as [Hh Hnz].
      destruct (VerifyBmmProof_inv _ _ _ _ _ Hb Hver) as (p & parent & Hbit & Hd & Hp & Hn & Hprev & Hpar & Hent). subst s.
      destruct (verified_tracked _ _ _ _ _ public_consensus_ok Hp ltac:(lia) Hent) as (V0 & S & W & _ & _).
      assert (V1 : ValidState s' LAYER_TWO_LABS_CONSENSUS = Ok tt).
      { apply ValidState_iff; [apply public_consensus_ok|exact S|split; [exact Hnz|exact W]]. }
      destruct (SetBmmState_holds params Hasset v' s' h Hv' S V1) as (v1' & E1 & H1 & Hc1). assert (v1' = v1) as -> by congruence.
      destruct (disconnect_proof params Hasset block previous v1 h p s' parent Hcp Hbit Hd (proof_state _ Hp) V0 Hpar Hent H1)
        as (v2 & E2 & H2 & Hc2).
      exists v2. split; [exact E2|]. rewrite Ev. split; [apply (effective_state_holds params Hslot v2 _ previous H2)|].
      intros o Ho. by rewrite Hc2, Hc1, Hc.
Qed.

(** ** Activation *)
Fixpoint checked_chain (params : chain_params) (previous : CBlockIndex) (l : list CBlockIndex) : Prop :=
  match l with
  | [] => True
  | i :: l' => CheckBmmIndexHeader params i (Some previous) = Ok tt /\ checked_chain params i l'
  end.

Definition signals (i : CBlockIndex) : bool := Side.has_bit i.(index_version) Side.BMM_PROOF_HF_MASK.
Definition is_checkpoint_2 (i : CBlockIndex) : bool := i.(index_hash) =? PUBLIC_SIDECHAIN_BLOCK_2.

Lemma checked_step params p i : params.(drivechain_slot) = None -> CheckBmmIndexHeader params i (Some p) = Ok tt ->
  signals i = is_checkpoint_2 p || signals p /\ (signals i = true -> i.(index_bmm_proof) <> 0) /\
  (p.(index_hash) = PUBLIC_SIDECHAIN_BLOCK_1 -> i.(index_hash) = PUBLIC_SIDECHAIN_BLOCK_2).
Proof.
  intros Hslot. unfold CheckBmmIndexHeader, CheckBmmHeaderCommitments, BmmProofRequiredAfter. rewrite (not_native params Hslot).
  fold (signals i). fold (signals p). fold (is_checkpoint_2 p). intros H. apply bind_Ok in H as ([] & H1 & H).
  apply bind_Ok in H as ([] & H2 & H). apply bind_Ok in H as ([] & H3 & H4). apply ensure_Ok in H1, H2, H3, H4.
  destruct (is_checkpoint_2 p || signals p), (signals i); try discriminate; (split; [reflexivity|]); split.
  - intros _ E. unfold IsNull in H3. rewrite E in H3. discriminate H3.
  - intros E. rewrite E, Z.eqb_refl in H1. apply negb_true_iff in H1. cbn [andb] in H1. by apply negb_false_iff, Z.eqb_eq in H1.
  - discriminate.
  - intros E. rewrite E, Z.eqb_refl in H1. apply negb_true_iff in H1. cbn [andb] in H1. by apply negb_false_iff, Z.eqb_eq in H1.
Qed.

Lemma checked_signals params l : params.(drivechain_slot) = None -> forall p past k i,
  signals p = existsb is_checkpoint_2 past -> checked_chain params p l -> l !! k = Some i ->
  signals i = existsb is_checkpoint_2 (past ++ take (S k) (p :: l)) /\ (signals i = true -> i.(index_bmm_proof) <> 0).
Proof.
  intros Hslot. induction l as [|j l IH]; intros p past k i Hp Hl Hi; [done|]. destruct Hl as [Hj Hl].
  destruct (checked_step params p j Hslot Hj) as (E & N & _).
  assert (Ej : signals j = existsb is_checkpoint_2 (past ++ [p])).
  { rewrite E, Hp, existsb_app. cbn [existsb]. by rewrite orb_false_r, orb_comm. }
  destruct k as [|k]; cbn [lookup list_lookup] in Hi.
  - injection Hi as <-. split; [exact Ej|exact N].
  - destruct (IH j (past ++ [p]) k i Ej Hl Hi) as [E' N']. split; [|exact N']. rewrite E', <- app_assoc. reflexivity.
Qed.

(** The index cannot leave the BMM branch or enter it elsewhere: in any chain of index entries that pass
    their check, an entry signals a BMM proof exactly when the public checkpoint block is among its ancestors, it
    then has a proof commitment, and the child of the first public block is the checkpoint block. *)
Theorem proofs_follow_checkpoint params genesis l k i : params.(drivechain_slot) = None -> signals genesis = false ->
  checked_chain params genesis l -> l !! k = Some i ->
  (signals i = true <-> exists j a, (j <= k)%nat /\ (genesis :: l) !! j = Some a /\ a.(index_hash) = PUBLIC_SIDECHAIN_BLOCK_2) /\
  (signals i = true -> i.(index_bmm_proof) <> 0) /\
  (forall p, (genesis :: l) !! k = Some p -> p.(index_hash) = PUBLIC_SIDECHAIN_BLOCK_1 -> i.(index_hash) = PUBLIC_SIDECHAIN_BLOCK_2).
Proof.
  intros Hslot Hg Hl Hi. destruct (checked_signals params l Hslot genesis [] k i Hg Hl Hi) as [E N]. split; [|split; [exact N|]].
  - rewrite E. cbn [app]. rewrite existsb_exists. split.
    + intros (a & [j Hj]%list_elem_of_In%list_elem_of_lookup & Ha%Z.eqb_eq). apply lookup_take_Some in Hj as [Hj Hlt].
      exists j, a. split; [lia|]. by split.
    + intros (j & a & Hlt & Hj & Ha). exists a. split; [|by apply Z.eqb_eq]. apply list_elem_of_In, list_elem_of_lookup.
      exists j. apply lookup_take_Some. split; [done|lia].
  - clear E N Hg. revert genesis k Hl Hi. induction l as [|x l IH]; intros g k Hl Hi p Hp; [done|]. destruct Hl as [Hx Hl].
    destruct k as [|k]; cbn [lookup list_lookup] in Hi, Hp.
    + injection Hi as <-. injection Hp as <-. by apply (checked_step params g x Hslot Hx).
    + by apply (IH x k).
Qed.

Lemma proofs_follow_checkpoint_witness :
  let params := mkChainParams None 7 Side.sample_modes in
  let g := mkIndex PUBLIC_SIDECHAIN_BLOCK_1 0 0 in
  let c2 := mkIndex PUBLIC_SIDECHAIN_BLOCK_2 0 0 in
  let i := mkIndex 3 Side.BMM_PROOF_HF_MASK 4 in
  (signals i = true <-> exists j a, (j <= 1)%nat /\ [g; c2; i] !! j = Some a /\ a.(index_hash) = PUBLIC_SIDECHAIN_BLOCK_2) /\
  (signals i = true -> i.(index_bmm_proof) <> 0) /\
  (forall p, [g; c2; i] !! 1%nat = Some p -> p.(index_hash) = PUBLIC_SIDECHAIN_BLOCK_1 -> i.(index_hash) = PUBLIC_SIDECHAIN_BLOCK_2).
Proof.
  cbv zeta. apply (proofs_follow_checkpoint (mkChainParams None 7 Side.sample_modes)).
  - reflexivity.
  - reflexivity.
  - split; [reflexivity|]. split; [reflexivity|exact I].
  - reflexivity.
Defined.
