(* ===== verification/BmmSamples.v ===== *)
(** * Concrete BMM proofs

    Two mined parent headers with their coinbases.  The first extends the bootstrap
    state and commits to the critical hash of a sidechain block, the second extends a
    short chain of headers; the theorems on proofs apply to them. *)

From S2P Require Import Prelude ArithUint256 Sha256 Script Transaction Confidential ParentMessage BlockMerkle PartialMerkle Signet ParentBlock Coins SideBlock Bmm BmmFacts BmmTheorems.
Import Bmm.
#[local] Existing Instance sample_env.

Definition sample_side (commitment : uint256) : Side.CBlockHeader :=
  Side.mkHeader (Z.lor 0x20000000 Side.BMM_PROOF_HF_MASK) PUBLIC_SIDECHAIN_BLOCK_2 2 0 commitment 0 0 0 0 0 0 0
    1784826600 3 0 0 (Side.mkProof [81] []) (Side.mkDynaFed Side.null_entry Side.null_entry) [].

Definition sample_critical : uint256 := Eval vm_compute in Side.GetBmmCriticalHash Side.sample_modes (sample_side 0).

Definition parent_coinbase : CTransaction :=
  mkTx [mkTxIn null_prevout [2; 1; 25] UINT32_MAX []]
    [mkTxOut 0 (BuildSinglePushScript (M8_MAGIC ++ [24] ++ uint256_display sample_critical)); mkTxOut 0 sample_commitment] 2 0.

Definition parent_root : uint256 := Eval vm_compute in GetHash parent_coinbase.

Definition parent_header : CBlockHeader :=
  mkHeader 0x20000000 (block_hash LAYER_TWO_LABS_INITIAL_STATE) parent_root 1784826605 0x1e0376cc 999528.

Definition entry_for (h : CBlockHeader) : BmmProofEntry :=
  mkProofEntry (SerializeTransaction true parent_coinbase)
    (ser_merkle_block (mkMerkleBlock h (CPartialMerkleTree_new [parent_root] [true]))).

Definition sample_proof : BmmProof := mkBmmProof 1 LAYER_TWO_LABS_INITIAL_STATE [entry_for parent_header].

Definition sample_next : BmmL1State := Eval vm_compute in advance LAYER_TWO_LABS_CONSENSUS LAYER_TWO_LABS_INITIAL_STATE parent_header.

Lemma sample_verifies : VerifyBmmProofEntries LAYER_TWO_LABS_CONSENSUS sample_proof sample_critical
  (block_hash LAYER_TWO_LABS_INITIAL_STATE) = Ok sample_next.
Proof. vm_compute. reflexivity. Qed.


Lemma sample_entry_ok : proof_entry_ok (entry_for parent_header).
Proof.
  split; (split; [refine (bool_decide_unpack _ _); vm_compute; exact I|vm_compute; discriminate]).
Qed.

Lemma sample_proof_ok : proof_ok sample_proof.
Proof.
  split; cbn [sample_proof version previous_state entries].
  - lia.
  - apply initial_state_ok.
  - constructor; [apply sample_entry_ok|constructor].
  - discriminate.
Qed.

Lemma parent_clock_advances_witness :
  exists ctx', GetBmmParentContext sample_next = Ok ctx' /\ ctx'.(c_block_hash) = sample_next.(block_hash) /\
    ctx'.(c_height) = 6400 + 1 /\ 1784823005 <= ctx'.(c_median_time_past).
Proof.
  apply (parent_clock_advances sample_proof sample_critical (block_hash LAYER_TWO_LABS_INITIAL_STATE) sample_next
    (mkContext (block_hash LAYER_TWO_LABS_INITIAL_STATE) 6400 1784823005)).
  - apply sample_proof_ok.
  - reflexivity.
  - discriminate.
  - apply sample_verifies.
  - vm_compute. reflexivity.
Defined.

(** The sidechain block before and after its proof is attached. *)
Definition bare_block : SideBlock :=
  mkSideBlock (sample_side 0)
    [[Elements.CTxOut_new 7 0 (BuildSinglePushScript (uint256_bytes (block_hash LAYER_TWO_LABS_INITIAL_STATE)))]] [].

Definition sample_bytes : bytes := Eval vm_compute in ser_proof sample_proof.
Definition sample_bmm_hash : uint256 := Eval vm_compute in BmmProofCommitment sample_bytes.
Definition attached_block : SideBlock := mkSideBlock (sample_side sample_bmm_hash) (side_vtx bare_block) sample_bytes.

Lemma sample_commitment_eq : BmmProofCommitment sample_bytes = sample_bmm_hash.
Proof. vm_compute. reflexivity. Qed.

Lemma sample_critical_eq : Side.GetBmmCriticalHash Side.sample_modes (sample_side 0) = sample_critical.
Proof. vm_compute. reflexivity. Qed.

Lemma sample_bytes_eq : SerializeBmmProof sample_proof = Ok sample_bytes.
Proof. vm_compute. reflexivity. Qed.

Lemma bare_parent : ExtractSidechainParentHash bare_block = Ok (block_hash LAYER_TWO_LABS_INITIAL_STATE).
Proof. vm_compute. reflexivity. Qed.

Lemma attached_proof_verifies_witness : exists block', AttachBmmProof bare_block sample_proof = Ok block' /\
  VerifyBmmProof LAYER_TWO_LABS_CONSENSUS Side.sample_modes block' LAYER_TWO_LABS_INITIAL_STATE = Ok sample_next /\
  Side.GetBmmCriticalHash Side.sample_modes block'.(side_header) = Side.GetBmmCriticalHash Side.sample_modes (sample_side 0).
Proof.
  apply (attached_proof_verifies LAYER_TWO_LABS_CONSENSUS Side.sample_modes bare_block sample_proof sample_bytes
    (block_hash LAYER_TWO_LABS_INITIAL_STATE) sample_next).
  - apply public_consensus_ok.
  - apply sample_proof_ok.
  - discriminate.
  - discriminate.
  - reflexivity.
  - apply sample_bytes_eq.
  - rewrite sample_commitment_eq. discriminate.
  - apply bare_parent.
  - cbn [side_header bare_block]. rewrite sample_critical_eq. apply sample_verifies.
Defined.

(** The block behind the checkpoint connects to an empty chainstate. *)
Definition sample_params : chain_params := mkChainParams None 7 Side.sample_modes.
Definition empty_view : CCoinsViewCache := mkViewCache (mkView (fun _ => None) (fun _ => false)) ∅.
Definition sample_previous : option CBlockIndex := Some (mkIndex PUBLIC_SIDECHAIN_BLOCK_2 0x20000000 0).

Lemma attached_verifies :
  VerifyBmmProof LAYER_TWO_LABS_CONSENSUS Side.sample_modes attached_block LAYER_TWO_LABS_INITIAL_STATE = Ok sample_next.
Proof. vm_compute. reflexivity. Qed.

Lemma empty_view_ok : cache_inv empty_view.
Proof. split; [discriminate|apply cache_ok_empty]. Qed.

Lemma empty_effective : GetEffectiveBmmState sample_params empty_view sample_previous = Ok (empty_view, LAYER_TWO_LABS_INITIAL_STATE).
Proof. reflexivity. Qed.

Lemma sample_next_ok : state_ok sample_next /\ ValidState sample_next LAYER_TWO_LABS_CONSENSUS = Ok tt.
Proof.
  destruct (verified_tracked _ _ _ _ _ public_consensus_ok sample_proof_ok ltac:(reflexivity) sample_verifies) as (_ & S & W & _).
  split; [exact S|]. apply ValidState_iff; [apply public_consensus_ok|exact S|]. split; [discriminate|exact W].
Qed.

Lemma connects {V : Type} `{!CoinsCache V} params block previous (v v' v1 : V) h s s' :
  native params = false -> is_block previous PUBLIC_SIDECHAIN_BLOCK_1 = false -> BmmProofRequiredAfter params previous = true ->
  GetEffectiveBmmState params v previous = Ok (v', s) ->
  VerifyBmmProof LAYER_TWO_LABS_CONSENSUS params.(chain_modes) block s = Ok s' -> SetBmmState params v' s' h = Ok v1 ->
  ConnectBmmState params block previous v h false = Ok v1.
Proof.
  intros H1 H2 H3 H4 H5 H6. unfold ConnectBmmState, is_checkpoint. rewrite H1, H2, H3, H4, andb_false_r.
  cbn [negb andb mbind result_bind]. rewrite H5. exact H6.
Qed.

Lemma sample_connects : exists v1, ConnectBmmState sample_params attached_block sample_previous empty_view 3 false = Ok v1.
Proof.
  assert (Hasset : uint256_ok (pegged_asset sample_params)) by (unfold uint256_ok; cbn; lia).
  destruct (SetBmmState_holds sample_params Hasset empty_view sample_next 3 empty_view_ok (proj1 sample_next_ok)
    (proj2 sample_next_ok)) as (v1 & E & _ & _). exists v1.
  exact (connects sample_params attached_block sample_previous empty_view empty_view v1 3 _ _ eq_refl eq_refl eq_refl
    empty_effective attached_verifies E).
Qed.

Lemma connect_then_disconnect_witness :
  exists v1, ConnectBmmState sample_params attached_block sample_previous empty_view 3 false = Ok v1 /\
  exists v2, DisconnectBmmState sample_params attached_block sample_previous v1 3 = Ok v2 /\
    effective_state sample_params v2 sample_previous = effective_state sample_params empty_view sample_previous /\
    forall o, o <> BMM_STATE_OUTPOINT -> cache_coin v2 o = cache_coin empty_view o.
Proof.
  destruct sample_connects as [v1 E]. exists v1. split; [exact E|].
  apply (connect_then_disconnect sample_params attached_block sample_previous empty_view v1 3).
  - split; [discriminate|reflexivity].
  - reflexivity.
  - apply empty_view_ok.
  - refine (bool_decide_unpack _ _). vm_compute. exact I.
  - intros s s' Hs Hv. unfold effective_state in Hs. rewrite empty_effective in Hs. injection Hs as <-.
    change (chain_modes sample_params) with Side.sample_modes in Hv. rewrite attached_verifies in Hv. injection Hv as <-. split; [reflexivity|discriminate].
  - exact E.
Defined.

(** A chain of headers that ends in the first one, and a proof with the second. *)
Definition sample_chain : list CBlockHeader := replicate 11 (mkHeader 1 1 1 1784820000 0x1e0376cc 0) ++ [parent_header].
Definition parent_hash : uint256 := Eval vm_compute in Hash (ser_header parent_header).
Definition next_header : CBlockHeader := mkHeader 0x20000000 parent_hash parent_root 1784826606 0x1e0376cc 9506135.
Definition chain_state : BmmL1State :=
  mkBmmState parent_hash 11 1784826605 0x1e0376cc 0 1784820000 (replicate 10 1784820000 ++ [1784826605]).
Definition chain_proof : BmmProof := mkBmmProof 1 chain_state [entry_for next_header].
Definition chain_next : BmmL1State := Eval vm_compute in advance LAYER_TWO_LABS_CONSENSUS chain_state next_header.

Lemma chain_proof_ok : proof_ok chain_proof.
Proof.
  split; cbn [chain_proof version previous_state entries].
  - lia.
  - split; cbn; unfold u32_ok; try lia; [vm_compute; split; [discriminate|reflexivity]| |discriminate].
    refine (bool_decide_unpack _ _). vm_compute. exact I.
  - constructor; [|constructor].
    split; (split; [refine (bool_decide_unpack _ _); vm_compute; exact I|vm_compute; discriminate]).
  - discriminate.
Qed.

Lemma chain_verifies : VerifyBmmProofEntries LAYER_TWO_LABS_CONSENSUS chain_proof sample_critical parent_hash = Ok chain_next.
Proof. vm_compute. reflexivity. Qed.

Lemma sample_target : target_ok LAYER_TWO_LABS_CONSENSUS 0x1e0376cc.
Proof. split; [by split|]. split; [reflexivity|]. split; [reflexivity|]. split; [reflexivity|vm_compute; discriminate]. Qed.

Lemma chain_state_sums : summarises LAYER_TWO_LABS_CONSENSUS sample_chain chain_state.
Proof.
  split; [discriminate|vm_compute; reflexivity|reflexivity..|apply sample_target].
Qed.

Lemma proof_extends_parent_chain_witness :
  exists blocks coinbase h, Forall2 (carries LAYER_TWO_LABS_CONSENSUS) [entry_for next_header] blocks /\
    valid_extension LAYER_TWO_LABS_CONSENSUS sample_chain (map snd blocks) /\
    summarises LAYER_TWO_LABS_CONSENSUS (sample_chain ++ map snd blocks) chain_next /\
    list.last blocks = Some (coinbase, h) /\ hashPrevBlock h = parent_hash /\
    ExtractM8Commitment coinbase 24 = Ok sample_critical.
Proof.
  apply (proof_extends_parent_chain LAYER_TWO_LABS_CONSENSUS sample_chain chain_proof sample_critical parent_hash chain_next).
  - apply public_consensus_ok.
  - apply chain_proof_ok.
  - apply chain_state_sums.
  - reflexivity.
  - apply chain_verifies.
Defined.

(** The end of a period that took half the intended time. *)
Definition period_end : BmmL1State :=
  mkBmmState 5 8063 1785219605 0x1e0376cc 6048 1784614805 (replicate 11 1785219605).

Lemma retarget_is_exact_witness : exists b, ExpectedNextBits period_end LAYER_TWO_LABS_CONSENSUS = Ok b /\
  b = retarget LAYER_TWO_LABS_CONSENSUS 0x1e0376cc 604800 /\
  (8 <= compact_value 0x1e0376cc -> target_ok LAYER_TWO_LABS_CONSENSUS b).
Proof.
  apply (retarget_is_exact LAYER_TWO_LABS_CONSENSUS period_end).
  - apply public_consensus_ok.
  - apply sample_target.
Defined.

Lemma public_rules_ok : rules_ok LAYER_TWO_LABS_CONSENSUS.
Proof.
  split; try (vm_compute; split; [discriminate|reflexivity]).
  split; [refine (bool_decide_unpack _ _); vm_compute; exact I|discriminate].
Qed.

Lemma fingerprint_binds_witness :
  LAYER_TWO_LABS_CONSENSUS = LAYER_TWO_LABS_CONSENSUS /\ LAYER_TWO_LABS_INITIAL_STATE = LAYER_TWO_LABS_INITIAL_STATE \/
  fingerprint_message LAYER_TWO_LABS_CONSENSUS LAYER_TWO_LABS_INITIAL_STATE <>
    fingerprint_message LAYER_TWO_LABS_CONSENSUS LAYER_TWO_LABS_INITIAL_STATE /\
  sha256 (fingerprint_message LAYER_TWO_LABS_CONSENSUS LAYER_TWO_LABS_INITIAL_STATE) =
    sha256 (fingerprint_message LAYER_TWO_LABS_CONSENSUS LAYER_TWO_LABS_INITIAL_STATE).
Proof.
  exact (fingerprint_binds _ _ _ _ public_rules_ok public_rules_ok (proj1 initial_state_ok) (proj1 initial_state_ok)
    (eq_refl (fingerprint LAYER_TWO_LABS_CONSENSUS LAYER_TWO_LABS_INITIAL_STATE))).
Defined.
