(* ===== verification/ParentState.v ===== *)
(** * The parent-chain replay state machine (src/src/mainchainrpc.{h,cpp},
      src/src/drivechain_parent_rules.h)

    [ApplyDrivechainParentBlockState] and its helpers: the BIP300 state of every
    parent slot, advanced by one authenticated parent block.

    The top-level [active_proposal_hash], [pending_proposals],
    [pending_withdrawals], [ctip] and [ctip_value] fields of
    [DrivechainParentReplayState] are the record [own]; they have the types of
    the fields of [DrivechainOtherSlotReplayState].  A caller passes a copy of
    its state and drops it on failure, so [Err] carries no state.  The clock
    check [CheckDrivechainParentDeadline] has no counterpart. *)

From stdpp Require Import sorting.
From S2P Require Import Prelude Sha256 Script Transaction ParentMessage.

(** ** Ordered iteration
    A [std::map] is a [gmap]; its iteration order is ascending by key. *)
Definition key_le {A} (x y : Z * A) : Prop := x.1 <= y.1.
#[global] Instance key_le_dec {A} : RelDecision (@key_le A).
Proof. intros x y. apply Z_le_dec. Defined.

Definition map_ascending {A} (m : gmap Z A) : list (Z * A) := merge_sort key_le (map_to_list m).

(** ** Rules *)
Inductive DrivechainM6ReplayRule := SINGLE_CONFIGURED_SLOT_M6 | SEQUENTIAL_M6.
Inductive DrivechainWithdrawalHistoryRule := UNIQUE_M6ID | ALLOW_REPROPOSAL.

#[global] Instance m6_rule_eq_dec : EqDecision DrivechainM6ReplayRule.
Proof. solve_decision. Defined.
#[global] Instance history_rule_eq_dec : EqDecision DrivechainWithdrawalHistoryRule.
Proof. solve_decision. Defined.

Record ParentRules := mkParentRules {
  rules_treasury_opcode : TreasuryOpcode;
  rules_m6 : DrivechainM6ReplayRule;
  rules_history : DrivechainWithdrawalHistoryRule }.

Definition ParentRulesForVersion (version : Z) : option ParentRules :=
  match version with
  | 4 => Some (mkParentRules NOP5 SINGLE_CONFIGURED_SLOT_M6 UNIQUE_M6ID)
  | 5 => Some (mkParentRules NOP8 SEQUENTIAL_M6 ALLOW_REPROPOSAL)
  | _ => None
  end.

(** ** State *)
Record DrivechainPendingProposal := mkProposal { p_height : Z; p_votes : Z }.

Record DrivechainPendingWithdrawal := mkPending { m6id : uint256; w_height : Z; w_votes : Z }.

(** [DrivechainM4ActionType] is a [uint8_t] that is also read from disk, so it
    may hold a value that is neither constant. *)
Definition UPVOTE : Z := 1.
Definition ALARM : Z := 2.
Record DrivechainM4Action := mkAction { a_type : Z; a_m6id : uint256 }.

Record DrivechainOtherSlotReplayState := mkSlot {
  active_proposal_hash : uint256;
  pending_proposals : gmap Z DrivechainPendingProposal;
  pending_withdrawals : list DrivechainPendingWithdrawal;
  ctip : option COutPoint;
  ctip_value : Z }.

Definition empty_slot : DrivechainOtherSlotReplayState := mkSlot 0 ∅ [] None 0.

Record DrivechainParentReplayState := mkState {
  own : DrivechainOtherSlotReplayState;
  required_proposal_activated : bool;
  required_activation_height : Z;
  required_activation_block_hash : uint256;
  other_slots : gmap Z DrivechainOtherSlotReplayState;
  previous_m4_actions : gmap Z DrivechainM4Action }.

Record DrivechainMintableDeposit := mkDeposit {
  outpoint : COutPoint; d_block_hash : uint256; d_block_height : Z; d_value : Z; address : bytes }.

Record DrivechainSuccessfulWithdrawal := mkSuccess {
  s_slot : Z; s_m6id : uint256; s_height : Z; s_block_hash : uint256 }.

Record DrivechainWithdrawalProposalIdentity := mkIdentity { i_slot : Z; i_m6id : uint256 }.

#[global] Instance proposal_eq_dec : EqDecision DrivechainPendingProposal.
Proof. solve_decision. Defined.
#[global] Instance pending_eq_dec : EqDecision DrivechainPendingWithdrawal.
Proof. solve_decision. Defined.
#[global] Instance action_eq_dec : EqDecision DrivechainM4Action.
Proof. solve_decision. Defined.
#[global] Instance slot_eq_dec : EqDecision DrivechainOtherSlotReplayState.
Proof. solve_decision. Defined.
#[global] Instance state_eq_dec : EqDecision DrivechainParentReplayState.
Proof. solve_decision. Defined.

(** The arguments of [ApplyDrivechainParentBlockState] that do not vary from
    block to block. *)
Record ReplayParams := mkParams {
  sidechain_slot : Z;
  required_active_proposal : uint256;
  unused_slot_proposal_max_age : Z;
  unused_slot_activation_threshold : Z;
  used_slot_proposal_max_age : Z;
  used_slot_activation_threshold : Z;
  withdrawal_bundle_max_age : Z;
  withdrawal_bundle_inclusion_threshold : Z;
  treasury_opcode : TreasuryOpcode;
  m6_rule : DrivechainM6ReplayRule }.

(** ** Slot access
    Reading a slot other than the configured one goes through
    [std::map::operator[]], which inserts an empty entry. *)
Definition configured_slot (p : ReplayParams) : Z := u8 p.(sidechain_slot).

Definition slot_state (p : ReplayParams) (st : DrivechainParentReplayState) (s : Z)
    : DrivechainOtherSlotReplayState :=
  if s =? configured_slot p then st.(own) else default empty_slot (st.(other_slots) !! s).

Definition set_slot (p : ReplayParams) (st : DrivechainParentReplayState) (s : Z)
    (x : DrivechainOtherSlotReplayState) : DrivechainParentReplayState :=
  if s =? configured_slot p
  then mkState x st.(required_proposal_activated) st.(required_activation_height)
         st.(required_activation_block_hash) st.(other_slots) st.(previous_m4_actions)
  else mkState st.(own) st.(required_proposal_activated) st.(required_activation_height)
         st.(required_activation_block_hash) (<[s := x]> st.(other_slots)) st.(previous_m4_actions).

Definition touch (p : ReplayParams) (st : DrivechainParentReplayState) (s : Z)
    : DrivechainParentReplayState := set_slot p st s (slot_state p st s).

Definition with_active (x : DrivechainOtherSlotReplayState) (h : uint256) :=
  mkSlot h x.(pending_proposals) x.(pending_withdrawals) x.(ctip) x.(ctip_value).
Definition with_proposals (x : DrivechainOtherSlotReplayState) m :=
  mkSlot x.(active_proposal_hash) m x.(pending_withdrawals) x.(ctip) x.(ctip_value).
Definition with_withdrawals (x : DrivechainOtherSlotReplayState) l :=
  mkSlot x.(active_proposal_hash) x.(pending_proposals) l x.(ctip) x.(ctip_value).
Definition with_ctip (x : DrivechainOtherSlotReplayState) (o : COutPoint) (v : Z) :=
  mkSlot x.(active_proposal_hash) x.(pending_proposals) x.(pending_withdrawals) (Some o) v.
Definition with_actions (st : DrivechainParentReplayState) m :=
  mkState st.(own) st.(required_proposal_activated) st.(required_activation_height)
    st.(required_activation_block_hash) st.(other_slots) m.
Definition with_others (st : DrivechainParentReplayState) m :=
  mkState st.(own) st.(required_proposal_activated) st.(required_activation_height)
    st.(required_activation_block_hash) m st.(previous_m4_actions).
Definition with_required (st : DrivechainParentReplayState) (h : Z) (b : uint256) :=
  mkState st.(own) true h b st.(other_slots) st.(previous_m4_actions).

Definition is_active (x : DrivechainOtherSlotReplayState) : bool := negb (IsNull x.(active_proposal_hash)).

Definition ActiveDrivechainSlots (p : ReplayParams) (st : DrivechainParentReplayState) : list Z :=
  let others := map fst (filter (fun '(_, x) => is_active x = true) (map_ascending st.(other_slots))) in
  merge_sort Z.le ((if is_active st.(own) then [configured_slot p] else []) ++ others).

(** ** M4 votes *)
Definition down (e : DrivechainPendingWithdrawal) : DrivechainPendingWithdrawal :=
  if 0 <? e.(w_votes) then mkPending e.(m6id) e.(w_height) (e.(w_votes) - 1) else e.

(** [++target->votes], every other entry decremented. *)
Fixpoint upvote_at (i : nat) (l : list DrivechainPendingWithdrawal) : list DrivechainPendingWithdrawal :=
  match l, i with
  | [], _ => []
  | e :: t, O => mkPending e.(m6id) e.(w_height) (u16 (e.(w_votes) + 1)) :: map down t
  | e :: t, S j => down e :: upvote_at j t
  end.

Definition find_m6 (id : uint256) (l : list DrivechainPendingWithdrawal)
    : option (nat * DrivechainPendingWithdrawal) :=
  list_find (fun e => e.(m6id) = id) l.

(** The new list and the effective action, absent when the target is saturated. *)
Definition ApplyM4Upvote (pending : list DrivechainPendingWithdrawal) (id : uint256)
    : result (list DrivechainPendingWithdrawal * option DrivechainM4Action) :=
  match find_m6 id pending with
  | None => Err "M4 upvote references missing withdrawal bundle %s"
  | Some (i, target) =>
      if target.(w_votes) =? UINT16_MAX then Ok (pending, None)
      else Ok (upvote_at i pending, Some (mkAction UPVOTE id))
  end.

Definition ApplyM4Alarm (pending : list DrivechainPendingWithdrawal)
    : list DrivechainPendingWithdrawal * option DrivechainM4Action :=
  (map down pending, if existsb (fun e => 0 <? e.(w_votes)) pending then Some (mkAction ALARM 0) else None).

(** The leader and runner-up scan of LEADING_BY_50. *)
Definition leader_step (l : list DrivechainPendingWithdrawal) '(leader, second)
    '(i, e) : nat * Z :=
  let lead_votes := from_option w_votes 0 (l !! leader) in
  if lead_votes <? e.(w_votes) then (i, Z.max second lead_votes)
  else (leader, Z.max second e.(w_votes)).

Definition leader_scan (l : list DrivechainPendingWithdrawal) : nat * Z :=
  fold_left (leader_step l) (drop 1 (imap pair l)) (O, 0).

(** ** Guards on the arguments *)
Definition params_ok (p : ReplayParams) : bool :=
  negb ((p.(sidechain_slot) <? 0) || (255 <? p.(sidechain_slot)) ||
        IsNull p.(required_active_proposal) ||
        (p.(unused_slot_proposal_max_age) =? 0) || (p.(unused_slot_activation_threshold) =? 0) ||
        (p.(unused_slot_proposal_max_age) <=? p.(unused_slot_activation_threshold)) ||
        (p.(used_slot_proposal_max_age) =? 0) || (p.(used_slot_activation_threshold) =? 0) ||
        (p.(used_slot_proposal_max_age) <=? p.(used_slot_activation_threshold)) ||
        (p.(withdrawal_bundle_max_age) =? 0) || (p.(withdrawal_bundle_inclusion_threshold) =? 0) ||
        (p.(withdrawal_bundle_max_age) <=? p.(withdrawal_bundle_inclusion_threshold))).

Definition has_ctip (x : DrivechainOtherSlotReplayState) : bool := bool_decide (is_Some x.(ctip)).

Definition malformed_ctip (x : DrivechainOtherSlotReplayState) : bool :=
  (has_ctip x && ((x.(ctip_value) <? 0) || negb (MoneyRange x.(ctip_value)))) ||
  (negb (has_ctip x) && negb (x.(ctip_value) =? 0)).

Definition action_ok (a : DrivechainM4Action) : bool :=
  negb ((negb (a.(a_type) =? UPVOTE) && negb (a.(a_type) =? ALARM)) ||
        ((a.(a_type) =? ALARM) && negb (IsNull a.(a_m6id)))).

Definition check_start (p : ReplayParams) (block : CBlock) (st : DrivechainParentReplayState)
    : result unit :=
  ensure (params_ok p) "invalid slot or proposal identity for parent-state replay";;
  ensure (negb ((st.(required_proposal_activated) &&
                 negb (st.(own).(active_proposal_hash) =? p.(required_active_proposal))) ||
                (IsNull st.(own).(active_proposal_hash) && has_ctip st.(own))))
    "parent-state replay began with an inconsistent active proposal";;
  ensure (has_coinbase block) "parent-state replay block has no coinbase transaction";;
  ensure (negb (malformed_ctip st.(own))) "parent-state replay began with malformed CTIP state";;
  ensure (forallb (fun '(s, x) =>
            negb ((s =? configured_slot p) ||
                  (IsNull x.(active_proposal_hash) && has_ctip x) || malformed_ctip x))
          (map_ascending st.(other_slots)))
    "parent-state replay began with malformed global slot state";;
  ensure (forallb (fun '(_, a) => action_ok a) (map_ascending st.(previous_m4_actions)))
    "parent-state replay has malformed prior M4 action for slot %u".

(** ** The coinbase message stream *)
Record MessageScan := mkScan {
  messages : list DrivechainParentMessage;
  m1_messages : gset (Z * Z);
  m2_slots : gset Z;
  m7_slots : gset Z;
  accepted_bmm_requests : gmap Z uint256;
  saw_m4 : bool }.

Definition scan_empty : MessageScan := mkScan [] ∅ ∅ ∅ ∅ false.

Definition scan_push (sc : MessageScan) (m : DrivechainParentMessage) : MessageScan :=
  mkScan (sc.(messages) ++ [m]) sc.(m1_messages) sc.(m2_slots) sc.(m7_slots)
    sc.(accepted_bmm_requests) sc.(saw_m4).

Definition scan_output (sc : MessageScan) (o : CTxOut) : result MessageScan :=
  let m := ParseDrivechainParentMessage o.(scriptPubKey) in
  match m.(type) with
  | NONE => Ok sc
  | PROPOSAL =>
      ensure (bool_decide ((m.(slot), m.(proposal_hash)) ∉ sc.(m1_messages)))
        "parent block contains a duplicate M1 proposal message";;
      Ok (mkScan (sc.(messages) ++ [m]) ({[ (m.(slot), m.(proposal_hash)) ]} ∪ sc.(m1_messages))
            sc.(m2_slots) sc.(m7_slots) sc.(accepted_bmm_requests) sc.(saw_m4))
  | ACK =>
      ensure (bool_decide (m.(slot) ∉ sc.(m2_slots)))
        "parent block contains multiple M2 ACK messages for one slot";;
      Ok (mkScan (sc.(messages) ++ [m]) sc.(m1_messages) ({[ m.(slot) ]} ∪ sc.(m2_slots))
            sc.(m7_slots) sc.(accepted_bmm_requests) sc.(saw_m4))
  | WITHDRAWAL_PROPOSAL => Ok (scan_push sc m)
  | WITHDRAWAL_ACK =>
      ensure (negb sc.(saw_m4)) "parent block contains multiple M4 withdrawal ACK messages";;
      Ok (mkScan (sc.(messages) ++ [m]) sc.(m1_messages) sc.(m2_slots) sc.(m7_slots)
            sc.(accepted_bmm_requests) true)
  | BMM_ACCEPT =>
      ensure (bool_decide (m.(slot) ∉ sc.(m7_slots)))
        "parent block contains multiple M7 commitments for one slot";;
      Ok (mkScan (sc.(messages) ++ [m]) sc.(m1_messages) sc.(m2_slots)
            ({[ m.(slot) ]} ∪ sc.(m7_slots))
            (if bool_decide (is_Some (sc.(accepted_bmm_requests) !! m.(slot)))
             then sc.(accepted_bmm_requests)
             else <[m.(slot) := m.(proposal_hash)]> sc.(accepted_bmm_requests))
            sc.(saw_m4))
  end.

Definition check_m8 (accepted : gmap Z uint256) (prev : uint256) (tx : CTransaction) : result unit :=
  match ExtractDrivechainM8BmmRequest tx with
  | None => Ok tt
  | Some r =>
      ensure (match accepted !! r.(m8_slot) with
              | Some h => h =? r.(sidechain_block_hash)
              | None => false
              end) "BIP301 M8 for slot %u was not accepted by this block's M7";;
      ensure (r.(previous_mainchain_block_hash) =? prev)
        "BIP301 M8 for slot %u references an expired parent block"
  end.

(** ** Applying one message *)
Section apply.
Context (p : ReplayParams) (height : Z) (block_hash : uint256).

Definition Actions := gmap Z DrivechainM4Action.

Definition emplace {A} (s : Z) (a : A) (m : gmap Z A) : gmap Z A :=
  if bool_decide (is_Some (m !! s)) then m else <[s := a]> m.

Definition record_action (s : Z) (a : option DrivechainM4Action) (eff : Actions) : Actions :=
  match a with Some a => emplace s a eff | None => eff end.

Definition set_pending (st : DrivechainParentReplayState) (s : Z) l : DrivechainParentReplayState :=
  set_slot p st s (with_withdrawals (slot_state p st s) l).

Definition apply_explicit_vote '(st, eff) '(s, vote)
    : result (DrivechainParentReplayState * Actions) :=
  if vote =? 0xffff then Ok (st, eff)
  else
    let pending := (slot_state p st s).(pending_withdrawals) in
    if vote =? 0xfffe then
      let '(l, a) := ApplyM4Alarm pending in Ok (set_pending st s l, record_action s a eff)
    else
      match pending !! Z.to_nat vote with
      | None => Err "M4 vote index %u is absent for sidechain slot %u"
      | Some e =>
          '(l, a) ← ApplyM4Upvote pending e.(m6id);
          Ok (set_pending st s l, record_action s a eff)
      end.

Definition apply_leading '(st, eff) (s : Z) : result (DrivechainParentReplayState * Actions) :=
  let pending := (slot_state p st s).(pending_withdrawals) in
  match pending with
  | [] => Ok (touch p st s, eff)
  | _ =>
      let '(leader, second) := leader_scan pending in
      match pending !! leader with
      | None => Ok (touch p st s, eff)
      | Some e =>
          let lead := e.(w_votes) in
          if (second <=? lead) && (50 <=? u16 (lead - second)) && (lead <? UINT16_MAX) then
            '(l, a) ← ApplyM4Upvote pending e.(m6id);
            Ok (set_pending st s l, emplace s (default (mkAction ALARM 0) a) eff)
          else Ok (touch p st s, eff)
      end
  end.

Definition apply_repeat '(st, eff) '(s, previous) : result (DrivechainParentReplayState * Actions) :=
  ensure (is_active (slot_state p st s)) "RepeatPrevious references inactive sidechain slot %u";;
  let pending := (slot_state p st s).(pending_withdrawals) in
  if previous.(a_type) =? UPVOTE then
    '(l, a) ← ApplyM4Upvote pending previous.(a_m6id);
    Ok (set_pending st s l, record_action s a eff)
  else
    let '(l, a) := ApplyM4Alarm pending in Ok (set_pending st s l, record_action s a eff).

Definition apply_m4 (m : DrivechainParentMessage) (st : DrivechainParentReplayState) (eff : Actions)
    : result (DrivechainParentReplayState * Actions) :=
  let active_slots := ActiveDrivechainSlots p st in
  match m.(m4_encoding) with
  | M4_NONE => Err "two-byte M4 contains no value requiring two-byte encoding"
  | EXPLICIT =>
      ensure (len m.(m4_votes) =? len active_slots)
        "M4 vote vector has %u entries for %u active sidechains";;
      foldM apply_explicit_vote (st, eff) (zip active_slots m.(m4_votes))
  | LEADING_BY_50 => foldM apply_leading (st, eff) active_slots
  | REPEAT_PREVIOUS => foldM apply_repeat (st, eff) (map_ascending st.(previous_m4_actions))
  end.

(** M1: a new proposal enters with no votes. *)
Definition apply_m1 (m : DrivechainParentMessage) (st : DrivechainParentReplayState)
    : DrivechainParentReplayState :=
  let x := slot_state p st m.(slot) in
  set_slot p st m.(slot)
    (with_proposals x (emplace m.(proposal_hash) (mkProposal height 0) x.(pending_proposals))).

(** M2: one more vote; past the threshold and young enough, the proposal
    becomes the slot's active one. *)
Definition apply_m2 (m : DrivechainParentMessage) (st : DrivechainParentReplayState)
    : result DrivechainParentReplayState :=
  let x := slot_state p st m.(slot) in
  match x.(pending_proposals) !! m.(proposal_hash) with
  | None => Ok (touch p st m.(slot))
  | Some pr =>
      if pr.(p_height) =? height then Ok (touch p st m.(slot))
      else
        ensure (pr.(p_height) <=? height) "M2 proposal height is ahead of replay height";;
        let votes := u32 (pr.(p_votes) + 1) in
        let used := is_active x in
        let max_age := if used then p.(used_slot_proposal_max_age) else p.(unused_slot_proposal_max_age) in
        let threshold := if used then p.(used_slot_activation_threshold)
                         else p.(unused_slot_activation_threshold) in
        let age := height - pr.(p_height) in
        if (threshold <? votes) && (age <=? max_age) then
          let st' := set_slot p st m.(slot)
            (with_proposals (with_active x m.(proposal_hash))
               (delete m.(proposal_hash) x.(pending_proposals))) in
          if m.(slot) =? configured_slot p then
            ensure (negb (st.(required_proposal_activated) &&
                          negb (m.(proposal_hash) =? p.(required_active_proposal))))
              "parent slot %d was replaced by proposal %s";;
            Ok (if negb st.(required_proposal_activated) &&
                   (m.(proposal_hash) =? p.(required_active_proposal))
                then with_required st' height block_hash else st')
          else Ok st'
        else
          Ok (set_slot p st m.(slot)
                (with_proposals x (<[m.(proposal_hash) := mkProposal pr.(p_height) votes]>
                                     x.(pending_proposals))))
  end.

(** M3: a new bundle enters with one vote. *)
Definition apply_m3 (m : DrivechainParentMessage) (st : DrivechainParentReplayState)
    : result DrivechainParentReplayState :=
  let x := slot_state p st m.(slot) in
  ensure (is_active x) "M3 proposes a withdrawal for inactive sidechain slot %u";;
  ensure (negb (existsb (fun e => e.(m6id) =? m.(proposal_hash)) x.(pending_withdrawals)))
    "M3 withdrawal bundle %s is already pending for slot %u";;
  Ok (set_pending st m.(slot) (x.(pending_withdrawals) ++ [mkPending m.(proposal_hash) height 1])).

(** The state, the effective M4 actions and the derived proposals. *)
Record Progress := mkProgress {
  g_state : DrivechainParentReplayState;
  g_effective : Actions;
  g_proposals : list DrivechainWithdrawalProposalIdentity }.

Definition apply_message (g : Progress) (m : DrivechainParentMessage) : result Progress :=
  let '(mkProgress st eff props) := g in
  match m.(type) with
  | BMM_ACCEPT => Ok g
  | PROPOSAL => Ok (mkProgress (apply_m1 m st) eff props)
  | ACK => st' ← apply_m2 m st; Ok (mkProgress st' eff props)
  | WITHDRAWAL_PROPOSAL =>
      st' ← apply_m3 m st;
      Ok (mkProgress st' eff (props ++ [mkIdentity m.(slot) m.(proposal_hash)]))
  | WITHDRAWAL_ACK => '(st', eff') ← apply_m4 m st eff; Ok (mkProgress st' eff' props)
  | NONE => Err "unhandled BIP300 parent coinbase message"
  end.

(** ** Expiry *)
Definition expire_step (used : bool) (pending : gmap Z DrivechainPendingProposal)
    (e : Z * DrivechainPendingProposal) : result (gmap Z DrivechainPendingProposal) :=
  let '(h, pr) := e in
  let max_age := if used then p.(used_slot_proposal_max_age) else p.(unused_slot_proposal_max_age) in
  let threshold := if used then p.(used_slot_activation_threshold)
                   else p.(unused_slot_activation_threshold) in
  ensure (pr.(p_height) <=? height) "parent proposal height is ahead of replay height for slot %u";;
  let age := height - pr.(p_height) in
  ensure (pr.(p_votes) <=? age) "parent proposal has more votes than elapsed blocks for slot %u";;
  let misses := age - pr.(p_votes) in
  let max_fails := max_age - threshold in
  Ok (if (max_age <? age) || ((max_fails <? age) && (max_fails <=? misses))
      then delete h pending else pending).

Definition expire_proposals (x : DrivechainOtherSlotReplayState)
    : result DrivechainOtherSlotReplayState :=
  with_proposals x <$>
    foldM (expire_step (is_active x)) x.(pending_proposals) (map_ascending x.(pending_proposals)).

Definition expire_other (st : DrivechainParentReplayState) '(s, x) : result DrivechainParentReplayState :=
  x' ← expire_proposals x; Ok (with_others st (<[s := x']> st.(other_slots))).

Definition expire_all_proposals (st : DrivechainParentReplayState) : result DrivechainParentReplayState :=
  own' ← expire_proposals st.(own);
  let st1 := set_slot p st (configured_slot p) own' in
  foldM expire_other st1 (map_ascending st1.(other_slots)).

Fixpoint expire_pending (l : list DrivechainPendingWithdrawal)
    : result (list DrivechainPendingWithdrawal) :=
  match l with
  | [] => Ok []
  | e :: t =>
      ensure (e.(w_height) <=? height) "M3 proposal height is ahead of replay height";;
      t' ← expire_pending t;
      Ok (if p.(withdrawal_bundle_max_age) <? height - e.(w_height) then t' else e :: t')
  end.

Definition expire_withdrawals (st : DrivechainParentReplayState) (s : Z)
    : result DrivechainParentReplayState :=
  l ← expire_pending (slot_state p st s).(pending_withdrawals); Ok (set_pending st s l).

(** ** Transactions *)
Definition ctip_owner_step (st : DrivechainParentReplayState) (owners : gmap COutPoint Z) (s : Z)
    : result (gmap COutPoint Z) :=
  let x := slot_state p st s in
  ensure (negb (malformed_ctip x)) "malformed CTIP state for slot %u";;
  match x.(ctip) with
  | None => Ok owners
  | Some c =>
      ensure (bool_decide (owners !! c = None)) "two drivechain slots share one canonical CTIP";;
      Ok (<[c := s]> owners)
  end.

(** [ctip_spends], a count per slot that may not exceed one. *)
Definition spend_step (owners : gmap COutPoint Z) (spends : gset Z) (i : CTxIn) : result (gset Z) :=
  match owners !! i.(prevout) with
  | None => Ok spends
  | Some s =>
      ensure (bool_decide (s ∉ spends)) "parent transaction spends slot %u CTIP more than once";;
      Ok ({[ s ]} ∪ spends)
  end.

Definition new_ctip_step (active : list Z) (new_ctips : gmap Z Z) (io : nat * CTxOut) : result (gmap Z Z) :=
  let '(i, o) := io in
  match ExtractTreasurySlot o.(scriptPubKey) p.(treasury_opcode) with
  | None => Ok new_ctips
  | Some s =>
      if negb (bool_decide (s ∈ active)) then Ok new_ctips
      else
        ensure (negb ((o.(nValue) <? 0) || negb (MoneyRange o.(nValue))))
          "invalid treasury value for slot %u";;
        ensure (bool_decide (new_ctips !! s = None))
          "parent transaction creates multiple treasury outputs for slot %u";;
        Ok (<[s := Z.of_nat i]> new_ctips)
  end.

Record CtipChange := mkChange { c_slot : Z; c_index : Z; old_value : Z; new_value : Z }.

Definition output_at (tx : CTransaction) (i : Z) : CTxOut := nth (Z.to_nat i) tx.(vout) (mkTxOut 0 []).

Definition change_step (st : DrivechainParentReplayState) (tx : CTransaction) (spends : gset Z)
    (changes : list CtipChange) (si : Z * Z) : result (list CtipChange) :=
  let '(s, i) := si in
  let x := slot_state p st s in
  ensure (negb (has_ctip x && bool_decide (s ∉ spends)))
    "parent transaction creates a parallel treasury output for slot %u";;
  let old := if has_ctip x then x.(ctip_value) else 0 in
  let new := (output_at tx i).(nValue) in
  ensure (negb (new =? old)) "slot %u CTIP replacement has zero value delta";;
  Ok (changes ++ [mkChange s i old new]).

(** The CTIP changes one transaction makes. *)
Definition ctip_changes (st : DrivechainParentReplayState) (tx : CTransaction)
    : result (list CtipChange) :=
  let active := ActiveDrivechainSlots p st in
  owners ← foldM (ctip_owner_step st) ∅ active;
  spends ← foldM (spend_step owners) ∅ tx.(vin);
  new_ctips ← foldM (new_ctip_step active) ∅ (imap (fun i o => (i, o)) tx.(vout));
  ensure (forallb (fun '(_, s) => negb (bool_decide (s ∈ spends) && bool_decide (new_ctips !! s = None)))
            (map_to_list owners))
    "parent transaction spends slot %u CTIP without replacement";;
  foldM (change_step st tx spends) [] (map_ascending new_ctips).
End apply.

(** ** The blinded M6 id of a transaction *)
Fixpoint payout_total (acc : Z) (l : list CTxOut) : result Z :=
  match l with
  | [] => Ok acc
  | o :: t =>
      ensure (negb ((o.(nValue) <? 0) || negb (MoneyRange o.(nValue)) || (MAX_MONEY - acc <? o.(nValue))))
        "BIP300 M6 payout total is outside the money range";;
      payout_total (acc + o.(nValue)) t
  end.

Definition ComputeDrivechainM6Id (tx : CTransaction) (previous_treasury_value : Z)
    (opcode : TreasuryOpcode) : result (uint256 * Z) :=
  match tx.(vout) with
  | [] => Err "BIP300 M6 has no replacement treasury output"
  | o :: payouts =>
      match ExtractTreasurySlot o.(scriptPubKey) opcode with
      | None => Err "BIP300 M6 replacement treasury output is not vout 0"
      | Some parsed_slot =>
          ensure (len tx.(vin) =? 1) "BIP300 M6 must contain exactly one treasury input";;
          ensure (negb ((previous_treasury_value <? 0) || negb (MoneyRange previous_treasury_value) ||
                        (o.(nValue) <? 0) || negb (MoneyRange o.(nValue))))
            "BIP300 M6 treasury amount is outside the money range";;
          payout ← payout_total 0 payouts;
          ensure (negb ((previous_treasury_value <? o.(nValue)) ||
                        (previous_treasury_value - o.(nValue) <? payout)))
            "BIP300 M6 spends more than the previous treasury value";;
          let fee := previous_treasury_value - o.(nValue) - payout in
          let blinded := mkTx []
            (mkTxOut 0 (BuildSinglePushScript (be_encode 8 (u64 fee))) :: payouts)
            tx.(version) tx.(nLockTime) in
          Ok (GetHash blinded, parsed_slot)
      end
  end.

Section transactions.
Context (p : ReplayParams) (height : Z) (block_hash : uint256) (required_active : bool).

(** The state and the records derived so far. *)
Record TxProgress := mkTxProgress {
  t_state : DrivechainParentReplayState;
  t_m6_applied : bool;
  t_withdrawals : list DrivechainSuccessfulWithdrawal;
  t_deposits : list DrivechainMintableDeposit }.

Definition apply_m6 (g : TxProgress) (tx : CTransaction) (c : CtipChange) : result TxProgress :=
  let '(mkTxProgress st applied ws ds) := g in
  ensure ((len tx.(vin) =? 1) && (c.(c_index) =? 0))
    "BIP300 M6 must have one input and treasury vout 0";;
  '(id, m6_slot) ← ComputeDrivechainM6Id tx c.(old_value) p.(treasury_opcode);
  ensure (m6_slot =? c.(c_slot)) "BIP300 M6 slot changed while deriving its blinded id";;
  let x := slot_state p st c.(c_slot) in
  match find_m6 id x.(pending_withdrawals) with
  | None => Err "BIP300 M6 %s was never proposed for slot %u"
  | Some (i, approved) =>
      ensure (p.(withdrawal_bundle_inclusion_threshold) <? approved.(w_votes))
        "BIP300 M6 %s has %u votes, requiring more than %u";;
      ensure (negb (bool_decide (p.(m6_rule) = SINGLE_CONFIGURED_SLOT_M6) &&
                    (c.(c_slot) =? configured_slot p) && applied))
        "parent block contains multiple successful M6 withdrawals for configured slot %u";;
      let x' := with_ctip (with_withdrawals x (delete i x.(pending_withdrawals)))
                  (mkOutPoint (GetHash tx) c.(c_index)) c.(new_value) in
      Ok (mkTxProgress (set_slot p st c.(c_slot) x')
            (applied || (c.(c_slot) =? configured_slot p))
            (ws ++ [mkSuccess c.(c_slot) id height block_hash]) ds)
  end.

Definition apply_m5 (tx : CTransaction) (g : TxProgress) (c : CtipChange) : result TxProgress :=
  let '(mkTxProgress st applied ws ds) := g in
  match (if u32 (c.(c_index) + 1) <? len tx.(vout)
         then ExtractSingleOpReturnPush (output_at tx (u32 (c.(c_index) + 1))).(scriptPubKey)
         else None) with
  | None => Err "positive CTIP replacement for slot %u has no following address"
  | Some addr =>
      let delta := c.(new_value) - c.(old_value) in
      ensure (negb ((delta <=? 0) || negb (MoneyRange delta)))
        "parent CTIP increase is outside the money range";;
      let o := mkOutPoint (GetHash tx) c.(c_index) in
      let st' := set_slot p st c.(c_slot) (with_ctip (slot_state p st c.(c_slot)) o c.(new_value)) in
      Ok (mkTxProgress st' applied ws
            (if (c.(c_slot) =? configured_slot p) && required_active &&
                negb (bytes_eqb addr []) && (len addr <=? 128)
             then ds ++ [mkDeposit o block_hash height delta addr] else ds))
  end.

Definition apply_transaction (g : TxProgress) (tx : CTransaction) : result TxProgress :=
  changes ← ctip_changes p g.(t_state) tx;
  let decreases := len (filter (fun c => c.(new_value) < c.(old_value)) changes) in
  match changes with
  | [] => Ok g
  | c :: rest =>
      if negb (decreases =? 0) then
        ensure ((decreases =? 1) && bool_decide (rest = []))
          "parent transaction ambiguously mixes M5 and M6 transitions";;
        apply_m6 g tx c
      else foldM (apply_m5 tx) g changes
  end.
End transactions.

(** Slots that hold nothing are dropped. *)
Definition slot_empty (actions : gmap Z DrivechainM4Action) (s : Z)
    (x : DrivechainOtherSlotReplayState) : bool :=
  IsNull x.(active_proposal_hash) && bool_decide (x.(pending_proposals) = ∅) &&
  bool_decide (x.(pending_withdrawals) = []) && negb (has_ctip x) && (x.(ctip_value) =? 0) &&
  bool_decide (actions !! s = None).

Definition prune (st : DrivechainParentReplayState) : DrivechainParentReplayState :=
  with_others st
    (filter (fun '(s, x) => slot_empty st.(previous_m4_actions) s x = false) st.(other_slots)).

Record BlockResult := mkBlockResult {
  r_state : DrivechainParentReplayState;
  r_deposits : list DrivechainMintableDeposit;
  r_withdrawals : list DrivechainSuccessfulWithdrawal;
  r_proposals : list DrivechainWithdrawalProposalIdentity }.

Definition required_proposal_active (p : ReplayParams) (st : DrivechainParentReplayState) : bool :=
  st.(required_proposal_activated) && (st.(own).(active_proposal_hash) =? p.(required_active_proposal)).

(** The messages of the coinbase, then the expiries. *)
Definition apply_coinbase (p : ReplayParams) (block : CBlock) (height : Z)
    (st : DrivechainParentReplayState)
    : result (DrivechainParentReplayState * list DrivechainWithdrawalProposalIdentity) :=
  sc ← foldM scan_output scan_empty (coinbase_outputs block);
  foldM (fun _ tx => check_m8 sc.(accepted_bmm_requests) block.(header).(hashPrevBlock) tx) tt
    (drop 1 block.(vtx));;
  g ← foldM (apply_message p height (GetBlockHash block)) (mkProgress st ∅ []) sc.(messages);
  let st1 := with_actions g.(g_state) g.(g_effective) in
  st2 ← expire_all_proposals p height st1;
  st3 ← foldM (expire_withdrawals p height) st2 (ActiveDrivechainSlots p st2);
  Ok (st3, g.(g_proposals)).

Definition ApplyDrivechainParentBlockState (p : ReplayParams) (block : CBlock) (height : Z)
    (st : DrivechainParentReplayState) : result BlockResult :=
  check_start p block st;;
  '(st3, proposals) ← apply_coinbase p block height st;
  g ← foldM (apply_transaction p height (GetBlockHash block) (required_proposal_active p st3))
        (mkTxProgress st3 false [] []) (drop 1 block.(vtx));
  let st4 := prune g.(t_state) in
  ensure (negb (st4.(required_proposal_activated) &&
                negb (st4.(own).(active_proposal_hash) =? p.(required_active_proposal))))
    "parent slot no longer has the required active proposal";;
  Ok (mkBlockResult st4 g.(t_deposits) g.(t_withdrawals) proposals).

Definition HasRequiredDrivechainDepositDepth (deposit_height confirmed_through required_depth : Z) : bool :=
  (0 <? required_depth) && (deposit_height <=? confirmed_through) &&
  (required_depth - 1 <=? confirmed_through - deposit_height).
