(* ===== verification/ParentFacts.v ===== *)
(** * Invariants of the parent-chain replay

    What one parent block does to every slot: the slot invariant, the vote
    bounds, the ownership of CTIPs, and the records derived from the block. *)

From stdpp Require Import sorting.
From S2P Require Import Prelude Sha256 Script Transaction ParentMessage ParentState.

(** ** Ordered iteration *)
#[global] Instance key_le_total {A} : Total (@key_le A).
Proof. intros x y. unfold key_le. lia. Qed.
#[global] Instance key_le_trans {A} : Transitive (@key_le A).
Proof. intros x y z. unfold key_le. lia. Qed.
#[global] Instance Zle_total : Total Z.le.
Proof. intros x y. lia. Qed.

Lemma sublist_map {A B} (f : A -> B) l1 l2 : l1 `sublist_of` l2 -> map f l1 `sublist_of` map f l2.
Proof. induction 1; cbn; by constructor. Qed.

Lemma elem_of_map_ascending {A} (m : gmap Z A) k x : (k, x) ∈ map_ascending m <-> m !! k = Some x.
Proof. unfold map_ascending. by rewrite merge_sort_Permutation, elem_of_map_to_list. Qed.

Lemma NoDup_fst_map_ascending {A} (m : gmap Z A) : NoDup (map_ascending m).*1.
Proof.
  unfold map_ascending. rewrite merge_sort_Permutation. apply NoDup_fst_map_to_list.
Qed.

Lemma Sorted_map_ascending {A} (m : gmap Z A) : StronglySorted key_le (map_ascending m).
Proof. apply (StronglySorted_merge_sort key_le). Qed.

Lemma forallb_map_ascending {A} (f : Z * A -> bool) (m : gmap Z A) :
  forallb f (map_ascending m) = true <-> map_Forall (fun k x => f (k, x) = true) m.
Proof.
  rewrite forallb_forall. split.
  - intros H k x Hk. apply H. apply list_elem_of_In. by apply elem_of_map_ascending.
  - intros H [k x] Hk. apply list_elem_of_In, elem_of_map_ascending in Hk. by apply H.
Qed.

(** ** Slot access *)
Section slots.
Context (p : ReplayParams).
Implicit Types (st : DrivechainParentReplayState) (x : DrivechainOtherSlotReplayState).

Lemma slot_state_set st s x s' :
  slot_state p (set_slot p st s x) s' = if decide (s = s') then x else slot_state p st s'.
Proof.
  unfold slot_state, set_slot.
  destruct (Z.eqb_spec s (configured_slot p)) as [->|Hs]; cbn [own other_slots].
  - destruct (Z.eqb_spec s' (configured_slot p)) as [->|Hs']; by case_decide.
  - destruct (Z.eqb_spec s' (configured_slot p)) as [->|Hs']; [by case_decide|].
    case_decide as Hd; [subst; by rewrite lookup_insert_eq|by rewrite lookup_insert_ne].
Qed.

Lemma slot_state_set_eq st s x : slot_state p (set_slot p st s x) s = x.
Proof. rewrite slot_state_set. by case_decide. Qed.

Lemma slot_state_set_ne st s x s' : s <> s' ->
  slot_state p (set_slot p st s x) s' = slot_state p st s'.
Proof. intros. rewrite slot_state_set. by case_decide. Qed.

Lemma slot_state_touch st s s' : slot_state p (touch p st s) s' = slot_state p st s'.
Proof. unfold touch. rewrite slot_state_set. by case_decide; subst. Qed.

(** The configured slot never has an entry among the others. *)
Definition own_apart st : Prop := st.(other_slots) !! configured_slot p = None.

Lemma own_apart_set st s x : own_apart st -> own_apart (set_slot p st s x).
Proof.
  unfold own_apart, set_slot. intros H. destruct (Z.eqb_spec s (configured_slot p)); cbn; [done|].
  by rewrite lookup_insert_ne.
Qed.

Lemma slot_state_own st : slot_state p st (configured_slot p) = own st.
Proof. unfold slot_state. by rewrite Z.eqb_refl. Qed.

Lemma slot_state_other st s x : own_apart st -> st.(other_slots) !! s = Some x ->
  slot_state p st s = x.
Proof.
  intros Ha Hx. unfold slot_state. destruct (Z.eqb_spec s (configured_slot p)) as [->|].
  - unfold own_apart in Ha. congruence.
  - by rewrite Hx.
Qed.

(** A slot that is not empty is the configured one or has an entry. *)
Lemma slot_state_inv st s : slot_state p st s <> empty_slot ->
  s = configured_slot p \/ st.(other_slots) !! s = Some (slot_state p st s).
Proof.
  unfold slot_state. destruct (Z.eqb_spec s (configured_slot p)) as [->|]; [by left|].
  destruct (other_slots st !! s) as [x|]; cbn; [by right|done].
Qed.

Lemma is_active_nonempty x : is_active x = true -> x <> empty_slot.
Proof. by intros H ->. Qed.

Lemma elem_of_ActiveDrivechainSlots st s : own_apart st ->
  s ∈ ActiveDrivechainSlots p st <-> is_active (slot_state p st s) = true.
Proof.
  intros Ha. unfold ActiveDrivechainSlots.
  rewrite merge_sort_Permutation, elem_of_app, list_elem_of_fmap. split.
  - intros [H|([k x] & -> & H)].
    + destruct (is_active (own st)) eqn:E; [|by apply elem_of_nil in H].
      apply list_elem_of_singleton in H as ->. by rewrite slot_state_own.
    + apply list_elem_of_filter in H as [H1 H2%elem_of_map_ascending].
      cbn. by rewrite (slot_state_other st k x).
  - intros H. destruct (slot_state_inv st s (is_active_nonempty _ H)) as [->|Hx].
    + left. rewrite slot_state_own in H. rewrite H. by left.
    + right. exists (s, slot_state p st s). split; [done|].
      apply list_elem_of_filter. split; [done|]. by apply elem_of_map_ascending.
Qed.

Lemma NoDup_ActiveDrivechainSlots st : own_apart st -> NoDup (ActiveDrivechainSlots p st).
Proof.
  intros Ha. unfold ActiveDrivechainSlots. rewrite merge_sort_Permutation.
  apply list.NoDup_app. split_and!.
  - destruct (is_active (own st)); [apply NoDup_singleton|constructor].
  - intros s H1 ([k x] & -> & H2)%list_elem_of_fmap.
    apply list_elem_of_filter in H2 as [_ H2%elem_of_map_ascending].
    destruct (is_active (own st)); [|by apply elem_of_nil in H1].
    apply list_elem_of_singleton in H1. cbn in H1. subst. unfold own_apart in Ha. congruence.
  - eapply sublist_NoDup; [apply (NoDup_fst_map_ascending (other_slots st))|].
    apply sublist_map, sublist_filter.
Qed.

Lemma Sorted_ActiveDrivechainSlots st : StronglySorted Z.le (ActiveDrivechainSlots p st).
Proof. apply (StronglySorted_merge_sort Z.le). Qed.
End slots.

(** ** Votes *)
Definition vote_typed (e : DrivechainPendingWithdrawal) : Prop := 0 <= e.(w_votes) <= UINT16_MAX.

(** One bundle before and after one M4: same identity, at most one vote more. *)
Definition revote (e e' : DrivechainPendingWithdrawal) : Prop :=
  e'.(m6id) = e.(m6id) /\ e'.(w_height) = e.(w_height) /\ vote_typed e' /\
  e'.(w_votes) <= e.(w_votes) + 1.

Abbreviation revoted := (Forall2 revote).

Lemma revote_refl e : vote_typed e -> revote e e.
Proof. intros. unfold revote. split_and!; [done..|lia]. Qed.

Lemma revote_down e : vote_typed e -> revote e (down e).
Proof.
  intros He. unfold down. destruct (Z.ltb_spec 0 (w_votes e)); [|by apply revote_refl].
  unfold revote, vote_typed in *. cbn. split_and!; [done|done|lia..].
Qed.

Lemma revoted_refl l : Forall vote_typed l -> revoted l l.
Proof. induction 1; constructor; auto using revote_refl. Qed.

Lemma revoted_down l : Forall vote_typed l -> revoted l (map down l).
Proof. induction 1; constructor; auto using revote_down. Qed.

Lemma revoted_upvote_at l i e : Forall vote_typed l -> l !! i = Some e -> e.(w_votes) <> UINT16_MAX ->
  revoted l (upvote_at i l).
Proof.
  intros Hl. revert i. induction Hl as [|e' l He' Hl IH]; intros i Hi Hv; [done|].
  destruct i as [|i]; cbn in *.
  - injection Hi as ->. constructor; [|by apply revoted_down].
    unfold revote, vote_typed, u16, UINT16_MAX in *. cbn. rewrite Z.mod_small by lia.
    split_and!; [done|done|lia..].
  - constructor; [by apply revote_down|by apply IH].
Qed.

Lemma find_m6_Some id l i e : find_m6 id l = Some (i, e) <->
  l !! i = Some e /\ e.(m6id) = id /\ forall j e', (j < i)%nat -> l !! j = Some e' -> e'.(m6id) <> id.
Proof.
  unfold find_m6. rewrite list_find_Some. split; intros (H1 & H2 & H3); eauto.
Qed.

Lemma ApplyM4Upvote_spec l id l' a : Forall vote_typed l -> ApplyM4Upvote l id = Ok (l', a) ->
  revoted l l' /\ (a = Some (mkAction UPVOTE id) \/ a = None /\ l' = l).
Proof.
  intros Hl. unfold ApplyM4Upvote. destruct (find_m6 id l) as [[i e]|] eqn:E; [|done].
  apply find_m6_Some in E as (Hi & Hid & _).
  destruct (Z.eqb_spec (w_votes e) UINT16_MAX); intros [= <- <-].
  - split; [by apply revoted_refl|by right].
  - split; [by eapply revoted_upvote_at|by left].
Qed.

Lemma ApplyM4Alarm_spec l : Forall vote_typed l ->
  revoted l (ApplyM4Alarm l).1 /\
  ((ApplyM4Alarm l).2 = Some (mkAction ALARM 0) \/ (ApplyM4Alarm l).2 = None).
Proof.
  intros Hl. split; [by apply revoted_down|]. unfold ApplyM4Alarm. cbn. case_match; auto.
Qed.

(** What identifies a bundle: its id and the height of its M3. *)
Definition bundle_key (e : DrivechainPendingWithdrawal) : uint256 * Z := (e.(m6id), e.(w_height)).

Lemma revoted_keys l l' : revoted l l' -> map bundle_key l' = map bundle_key l.
Proof.
  induction 1 as [|e e' l l' He _ IH]; cbn; [done|]. unfold bundle_key at 1 3.
  destruct He as (-> & -> & _). by f_equal.
Qed.

Lemma keys_ids l l' : map bundle_key l' = map bundle_key l -> map m6id l' = map m6id l.
Proof.
  intros Hk. apply (f_equal (map fst)) in Hk. by rewrite !map_map in Hk.
Qed.

Lemma revoted_ids l l' : revoted l l' -> map m6id l' = map m6id l.
Proof. intros Hr. by apply keys_ids, revoted_keys. Qed.

(** ** The slot invariant
    [k] is the slack of the vote bound: 1 before the block's M4, 2 after it. *)
Definition bundle_ok (H k : Z) (e : DrivechainPendingWithdrawal) : Prop :=
  e.(w_height) <= H /\ vote_typed e /\ e.(w_votes) <= H - e.(w_height) + k.

Lemma revoted_bundle_ok H k l l' : revoted l l' -> Forall (bundle_ok H k) l ->
  Forall (bundle_ok H (k + 1)) l'.
Proof.
  induction 1 as [|e e' l l' (_ & Hh & Ht & Hv) _ IH]; intros Hl; [constructor|].
  apply Forall_cons_1 in Hl as [(H1 & _ & H3) Hl]. constructor; [|by apply IH].
  unfold bundle_ok. rewrite Hh. split_and!; [lia|done|lia].
Qed.

Lemma bundle_ok_typed H k l : Forall (bundle_ok H k) l -> Forall vote_typed l.
Proof. intros Hl. eapply Forall_impl; [|exact Hl]. by intros e (_ & ? & _). Qed.

Lemma bundle_ok_mono H k k' l : k <= k' -> Forall (bundle_ok H k) l -> Forall (bundle_ok H k') l.
Proof.
  intros Hk Hl. eapply Forall_impl; [|exact Hl]. intros e (? & ? & ?). unfold bundle_ok.
  split_and!; [done|done|lia].
Qed.

Definition ctip_ok (x : DrivechainOtherSlotReplayState) : Prop :=
  (x.(ctip) = None -> x.(ctip_value) = 0) /\
  (is_Some x.(ctip) -> is_active x = true) /\
  0 <= x.(ctip_value) <= MAX_MONEY.

Record slot_inv (H k : Z) (x : DrivechainOtherSlotReplayState) : Prop := {
  si_ctip : ctip_ok x;
  si_proposals : forall h, is_Some (x.(pending_proposals) !! h) -> h <> 0;
  si_bundles : Forall (bundle_ok H k) x.(pending_withdrawals);
  si_nodup : NoDup (map m6id x.(pending_withdrawals));
  si_inactive : is_active x = false -> x.(pending_withdrawals) = [] }.

Lemma slot_inv_mono H k k' x : k <= k' -> slot_inv H k x -> slot_inv H k' x.
Proof. intros Hk []. split; eauto using bundle_ok_mono. Qed.

Lemma slot_inv_revoted H k x l : slot_inv H k x -> revoted x.(pending_withdrawals) l ->
  slot_inv H (k + 1) (with_withdrawals x l).
Proof.
  intros [H1 H2 H3 H4 H5] Hl. split; cbn; try done.
  - by eapply revoted_bundle_ok.
  - by rewrite (revoted_ids _ _ Hl).
  - intros Hi. rewrite H5 in Hl by done. by inversion Hl.
Qed.

Lemma slot_inv_empty H k : slot_inv H k empty_slot.
Proof.
  split; cbn; try by constructor.
  - unfold ctip_ok, MAX_MONEY, COIN. cbn. split_and!; [done|by intros []|lia..].
  - intros h []. by rewrite lookup_empty in *.
Qed.

(** ** M4 *)
Section m4.
Context (p : ReplayParams).
Implicit Types (st : DrivechainParentReplayState) (eff : Actions).

(** Everything but the slots is untouched. *)
Definition same_frame st st' : Prop :=
  st'.(required_proposal_activated) = st.(required_proposal_activated) /\
  st'.(required_activation_height) = st.(required_activation_height) /\
  st'.(required_activation_block_hash) = st.(required_activation_block_hash) /\
  st'.(previous_m4_actions) = st.(previous_m4_actions) /\
  (own_apart p st -> own_apart p st').

Lemma same_frame_refl st : same_frame st st.
Proof. by unfold same_frame. Qed.

Lemma same_frame_trans st1 st2 st3 : same_frame st1 st2 -> same_frame st2 st3 -> same_frame st1 st3.
Proof.
  intros (? & ? & ? & ? & ?) (? & ? & ? & ? & ?). unfold same_frame. split_and!; [congruence..|auto].
Qed.

Lemma same_frame_set st s x : same_frame st (set_slot p st s x).
Proof.
  unfold same_frame. split_and!; [unfold set_slot; by case_match..|apply own_apart_set].
Qed.

(** Only the votes of the pending bundles change. *)
Definition same_but_votes st st' : Prop :=
  forall s, exists l, slot_state p st' s = with_withdrawals (slot_state p st s) l /\
    map bundle_key l = map bundle_key (slot_state p st s).(pending_withdrawals).

Lemma with_withdrawals_id x : with_withdrawals x x.(pending_withdrawals) = x.
Proof. by destruct x. Qed.

Lemma same_but_votes_refl st : same_but_votes st st.
Proof. intros s. exists (slot_state p st s).(pending_withdrawals). by rewrite with_withdrawals_id. Qed.

Lemma same_but_votes_trans st1 st2 st3 :
  same_but_votes st1 st2 -> same_but_votes st2 st3 -> same_but_votes st1 st3.
Proof.
  intros H1 H2 s. destruct (H1 s) as (l1 & E1 & I1), (H2 s) as (l2 & E2 & I2).
  exists l2. rewrite E2, I2, E1. done.
Qed.

Lemma same_but_votes_active st st' s : same_but_votes st st' ->
  is_active (slot_state p st' s) = is_active (slot_state p st s).
Proof. intros H. destruct (H s) as (l & -> & _). done. Qed.

Lemma same_but_votes_keys st st' s : same_but_votes st st' ->
  map bundle_key (slot_state p st' s).(pending_withdrawals) =
  map bundle_key (slot_state p st s).(pending_withdrawals).
Proof. intros H. by destruct (H s) as (l & -> & ?). Qed.

Lemma same_but_votes_ids st st' s : same_but_votes st st' ->
  map m6id (slot_state p st' s).(pending_withdrawals) = map m6id (slot_state p st s).(pending_withdrawals).
Proof. intros H. by apply keys_ids, same_but_votes_keys. Qed.

Lemma same_but_votes_set st s l : revoted (slot_state p st s).(pending_withdrawals) l ->
  same_but_votes st (set_pending p st s l).
Proof.
  intros Hr s'. unfold set_pending. rewrite slot_state_set.
  case_decide; subst; [exists l; split; [done|by apply revoted_keys]|].
  exists (slot_state p st s').(pending_withdrawals). by rewrite with_withdrawals_id.
Qed.

(** What one vote does. *)
Definition vote_step (s : Z) st eff st' eff' : Prop :=
  exists l a, revoted (slot_state p st s).(pending_withdrawals) l /\
    (forall s', slot_state p st' s' = slot_state p (set_pending p st s l) s') /\
    same_frame st st' /\ eff' = record_action s a eff /\
    (forall x, a = Some x -> action_ok x = true).

Lemma vote_step_set st eff s l a :
  revoted (slot_state p st s).(pending_withdrawals) l -> (forall x, a = Some x -> action_ok x = true) ->
  vote_step s st eff (set_pending p st s l) (record_action s a eff).
Proof. intros. exists l, a. split_and!; auto using same_frame_set. apply same_frame_set. Qed.

Lemma vote_step_id st eff s st' : Forall vote_typed (slot_state p st s).(pending_withdrawals) ->
  st' = st \/ st' = touch p st s -> vote_step s st eff st' eff.
Proof.
  intros Ht Hst. exists (slot_state p st s).(pending_withdrawals), None.
  split; [by apply revoted_refl|]. unfold set_pending. rewrite with_withdrawals_id. split_and!; auto.
  - intros s'. fold (touch p st s). rewrite slot_state_touch.
    destruct Hst as [-> | ->]; [done|apply slot_state_touch].
  - destruct Hst as [-> | ->]; [apply same_frame_refl|apply same_frame_set].
  - done.
Qed.

Lemma upvote_action_ok id : action_ok (mkAction UPVOTE id) = true.
Proof. done. Qed.

Lemma vote_step_upvote st eff s id l a : Forall vote_typed (slot_state p st s).(pending_withdrawals) ->
  ApplyM4Upvote (slot_state p st s).(pending_withdrawals) id = Ok (l, a) ->
  vote_step s st eff (set_pending p st s l) (record_action s a eff).
Proof.
  intros Ht H. apply ApplyM4Upvote_spec in H as [Hr Ha]; [|done]. apply vote_step_set; [done|].
  intros x ->. by destruct Ha as [[= ->]|[[=] _]].
Qed.

Lemma vote_step_alarm st eff s l a : Forall vote_typed (slot_state p st s).(pending_withdrawals) ->
  ApplyM4Alarm (slot_state p st s).(pending_withdrawals) = (l, a) ->
  vote_step s st eff (set_pending p st s l) (record_action s a eff).
Proof.
  intros Ht H. pose proof (ApplyM4Alarm_spec _ Ht) as [Hr Ha]. rewrite H in Hr, Ha. cbn in Hr, Ha.
  apply vote_step_set; [done|]. intros x ->. by destruct Ha as [[= ->]|[=]].
Qed.

Lemma apply_explicit_vote_step st eff s v st' eff' :
  Forall vote_typed (slot_state p st s).(pending_withdrawals) ->
  apply_explicit_vote p (st, eff) (s, v) = Ok (st', eff') -> vote_step s st eff st' eff'.
Proof.
  intros Ht. unfold apply_explicit_vote. case_match; [intros [= <- <-]; by apply vote_step_id; auto|].
  case_match.
  - destruct (ApplyM4Alarm _) as [l a] eqn:E. intros [= <- <-]. by apply vote_step_alarm.
  - case_match; [|done]. intros H'. inv_ok. by eapply vote_step_upvote.
Qed.

Lemma apply_leading_step st eff s st' eff' :
  Forall vote_typed (slot_state p st s).(pending_withdrawals) ->
  apply_leading p (st, eff) s = Ok (st', eff') -> vote_step s st eff st' eff'.
Proof.
  intros Ht. unfold apply_leading. destruct (pending_withdrawals _) as [|e0 l0] eqn:El.
  { intros [= <- <-]. apply vote_step_id; [by rewrite El|auto]. }
  rewrite <- El in *. destruct (leader_scan _) as [leader second].
  case_match; [|intros [= <- <-]; apply vote_step_id; auto].
  case_match; [|intros [= <- <-]; apply vote_step_id; auto].
  intros H'. inv_ok.
  change (emplace s (default (mkAction ALARM 0) y) eff)
    with (record_action s (Some (default (mkAction ALARM 0) y)) eff).
  apply ApplyM4Upvote_spec in Hok as [Hr Ha]; [|done]. apply vote_step_set; [done|].
  intros a [= <-]. by destruct Ha as [-> |[-> _]].
Qed.

Lemma apply_repeat_step st eff s a st' eff' :
  Forall vote_typed (slot_state p st s).(pending_withdrawals) ->
  apply_repeat p (st, eff) (s, a) = Ok (st', eff') ->
  vote_step s st eff st' eff' /\ is_active (slot_state p st s) = true.
Proof.
  intros Ht H. unfold apply_repeat in H. inv_ok. split; [|done]. revert H. case_match.
  - intros H'. inv_ok. by eapply vote_step_upvote.
  - destruct (ApplyM4Alarm _) as [l b] eqn:E. intros [= <- <-]. by apply vote_step_alarm.
Qed.

(** Recorded actions are well formed and belong to active slots. *)
Definition actions_inv st eff : Prop :=
  forall s a, eff !! s = Some a -> action_ok a = true /\ is_active (slot_state p st s) = true.

Lemma record_action_lookup s a eff s' b : record_action s a eff !! s' = Some b ->
  eff !! s' = Some b \/ (s' = s /\ a = Some b).
Proof.
  unfold record_action, emplace. destruct a as [a|]; [|by left]. case_bool_decide; [by left|].
  intros [[-> ->]|[_ ?]]%lookup_insert_Some; [by right|by left].
Qed.

Lemma vote_step_effects s st eff st' eff' : vote_step s st eff st' eff' ->
  is_active (slot_state p st s) = true -> actions_inv st eff ->
  same_frame st st' /\ same_but_votes st st' /\ actions_inv st' eff'.
Proof.
  intros (l & a & Hr & Hs & Hf & -> & Ha) Hact Hinv.
  assert (Hb : same_but_votes st st').
  { intros s'. rewrite Hs. by apply same_but_votes_set. }
  split_and!; [done|done|]. intros s' b [H|[-> ->]]%record_action_lookup.
  - rewrite (same_but_votes_active st) by done. by apply Hinv.
  - rewrite (same_but_votes_active st) by done. by split; [apply Ha|].
Qed.

(** A loop of votes over distinct slots moves each slot at most once. *)
Lemma vote_loop {A} (f : DrivechainParentReplayState * Actions -> A -> result (DrivechainParentReplayState * Actions))
    (key : A -> Z) (H k : Z) (xs : list A) st0 :
  (forall x st eff st' eff', x ∈ xs -> same_but_votes st0 st ->
     Forall vote_typed (slot_state p st (key x)).(pending_withdrawals) ->
     f (st, eff) x = Ok (st', eff') ->
     vote_step (key x) st eff st' eff' /\ is_active (slot_state p st (key x)) = true) ->
  NoDup (map key xs) -> forall st eff st' eff',
  same_but_votes st0 st -> actions_inv st eff ->
  (forall s, s ∈ map key xs -> slot_inv H k (slot_state p st s)) ->
  (forall s, slot_inv H (k + 1) (slot_state p st s)) ->
  foldM f (st, eff) xs = Ok (st', eff') ->
  (forall s, slot_inv H (k + 1) (slot_state p st' s)) /\ same_frame st st' /\
  same_but_votes st st' /\ actions_inv st' eff'.
Proof.
  induction xs as [|x xs IH]; intros Hstep Hnd st eff st' eff' H0 Ha Hk Hk1 Hf.
  { cbn in Hf. injection Hf as <- <-.
    split_and!; auto using same_frame_refl, same_but_votes_refl. }
  cbn [foldM] in Hf. destruct (f (st, eff) x) as [[st1 eff1]|] eqn:E; [|done].
  cbn [map] in Hnd. apply list.NoDup_cons in Hnd as [Hx Hnd].
  assert (Hix : slot_inv H k (slot_state p st (key x))) by (apply Hk; left).
  apply Hstep in E as [Hv Hact]; [|left|done|by eapply bundle_ok_typed, si_bundles].
  pose proof (vote_step_effects _ _ _ _ _ Hv Hact Ha) as (Hf1 & Hb1 & Ha1).
  destruct Hv as (l & a & Hr & Hs & _).
  destruct (IH ltac:(intros; eapply Hstep; eauto; by right) Hnd st1 eff1 st' eff')
    as (R1 & R2 & R3 & R4); auto.
  - by eapply same_but_votes_trans.
  - intros s Hin. rewrite Hs. unfold set_pending. rewrite slot_state_set_ne by (intros <-; done).
    apply Hk. by right.
  - intros s. rewrite Hs. unfold set_pending. rewrite slot_state_set. case_decide; [|done].
    by apply slot_inv_revoted.
  - split_and!; [done|by eapply same_frame_trans|by eapply same_but_votes_trans|done].
Qed.

Lemma fst_zip_subset {A B} (l : list A) (k : list B) x : x ∈ zip l k -> x.1 ∈ l.
Proof. destruct x. intros H. by apply elem_of_zip_l in H. Qed.

Lemma NoDup_fst_zip {A B} (l : list A) (k : list B) : NoDup l -> NoDup (map fst (zip l k)).
Proof.
  intros Hl. revert k. induction Hl as [|a l Hn Hl IH]; intros k; cbn; [constructor|].
  destruct k as [|b k]; cbn; [constructor|]. constructor; [|apply IH].
  intros ([a' b'] & -> & H%elem_of_zip_l)%list_elem_of_fmap. done.
Qed.

Lemma apply_m4_inv m st eff st' eff' H k :
  own_apart p st -> (forall s, slot_inv H k (slot_state p st s)) -> actions_inv st eff ->
  apply_m4 p m st eff = Ok (st', eff') ->
  (forall s, slot_inv H (k + 1) (slot_state p st' s)) /\ same_frame st st' /\
  same_but_votes st st' /\ actions_inv st' eff'.
Proof.
  intros Hap Hs Ha Hm. unfold apply_m4 in Hm.
  assert (Hs1 : forall s, slot_inv H (k + 1) (slot_state p st s))
    by (intros s; eapply slot_inv_mono; [|apply Hs]; lia).
  assert (Hact : forall s st1, s ∈ ActiveDrivechainSlots p st -> same_but_votes st st1 ->
    is_active (slot_state p st1 s) = true).
  { intros s st1 Hin Hb. rewrite (same_but_votes_active st) by done.
    by apply elem_of_ActiveDrivechainSlots. }
  pose proof (same_but_votes_refl st) as Hrefl.
  destruct (m4_encoding m); [done|..].
  - eapply (vote_loop (apply_repeat p) fst H k _ st); eauto.
    + intros [s a] st1 eff1 st2 eff2 _ _ Ht E. by apply apply_repeat_step in E.
    + apply NoDup_fst_map_ascending.
  - inv_ok. eapply (vote_loop (apply_explicit_vote p) fst H k _ st); eauto.
    + intros [s v] st1 eff1 st2 eff2 Hin Hb Ht E. apply apply_explicit_vote_step in E; [|done].
      split; [done|]. apply Hact; [|done]. by apply fst_zip_subset in Hin.
    + by apply NoDup_fst_zip, NoDup_ActiveDrivechainSlots.
  - eapply (vote_loop (apply_leading p) id H k _ st); eauto.
    + intros s st1 eff1 st2 eff2 Hin Hb Ht E. apply apply_leading_step in E; [|done]. auto.
    + rewrite map_id. by apply NoDup_ActiveDrivechainSlots.
Qed.
End m4.

(** ** Messages *)
Section messages.
Context (p : ReplayParams) (H : Z) (block_hash : uint256).
Implicit Types (st : DrivechainParentReplayState).

Definition required_inv st : Prop :=
  if st.(required_proposal_activated)
  then st.(required_activation_block_hash) <> 0 /\ st.(required_activation_height) <= H
  else st.(required_activation_height) = 0 /\ st.(required_activation_block_hash) = 0.

(** Once recorded, the activation of the required proposal is never rewritten. *)
Definition required_stable st st' : Prop :=
  st.(required_proposal_activated) = true ->
  st'.(required_proposal_activated) = true /\
  st'.(required_activation_height) = st.(required_activation_height) /\
  st'.(required_activation_block_hash) = st.(required_activation_block_hash).

(** The treasuries are untouched and no slot is deactivated. *)
Definition same_treasury st st' : Prop :=
  forall s, (slot_state p st' s).(ctip) = (slot_state p st s).(ctip) /\
            (slot_state p st' s).(ctip_value) = (slot_state p st s).(ctip_value).
Definition active_grows st st' : Prop :=
  forall s, is_active (slot_state p st s) = true -> is_active (slot_state p st' s) = true.

(** The derived proposals are pending and distinct. *)
Definition proposals_inv st (props : list DrivechainWithdrawalProposalIdentity) : Prop :=
  NoDup props /\
  forall i, i ∈ props -> i.(i_m6id) ∈ map m6id (slot_state p st i.(i_slot)).(pending_withdrawals).

Record msg_inv (k : Z) st0 (g : Progress) : Prop := {
  mi_apart : own_apart p g.(g_state);
  mi_slots : forall s, slot_inv H k (slot_state p g.(g_state) s);
  mi_actions : actions_inv p g.(g_state) g.(g_effective);
  mi_required : required_inv g.(g_state);
  mi_stable : required_stable st0 g.(g_state);
  mi_treasury : same_treasury st0 g.(g_state);
  mi_active : active_grows st0 g.(g_state);
  mi_proposals : proposals_inv g.(g_state) g.(g_proposals) }.

(** A message that rewrites one slot and keeps its bundles, its treasury and
    its being active keeps the invariant. *)
Lemma msg_inv_set k st0 st eff props s x :
  msg_inv k st0 (mkProgress st eff props) -> slot_inv H k x ->
  x.(ctip) = (slot_state p st s).(ctip) -> x.(ctip_value) = (slot_state p st s).(ctip_value) ->
  (is_active (slot_state p st s) = true -> is_active x = true) ->
  (forall id, id ∈ map m6id (slot_state p st s).(pending_withdrawals) -> id ∈ map m6id x.(pending_withdrawals)) ->
  msg_inv k st0 (mkProgress (set_slot p st s x) eff props).
Proof.
  intros [Ha Hs He Hr Hst Ht Hg Hp] Hx Hc Hv Hact Hids. cbn in *.
  pose proof (same_frame_set p st s x) as (F1 & F2 & F3 & _ & _).
  assert (Hgrow : active_grows st (set_slot p st s x)).
  { intros s' Hs'. rewrite slot_state_set. case_decide; subst; auto. }
  split; cbn.
  - by apply own_apart_set.
  - intros s'. rewrite slot_state_set. by case_decide.
  - intros s' a Hl. destruct (He s' a Hl) as [? ?]. split; [done|by apply Hgrow].
  - unfold required_inv. by rewrite F1, F2, F3.
  - unfold required_stable. by rewrite F1, F2, F3.
  - intros s'. rewrite slot_state_set. case_decide; subst; [|by apply Ht].
    rewrite Hc, Hv. apply Ht.
  - intros s' Hs'. by apply Hgrow, Hg.
  - destruct Hp as [Hnd Hp]. split; [done|]. intros i Hi. specialize (Hp i Hi).
    rewrite slot_state_set. case_decide; subst; auto.
Qed.

Lemma msg_inv_touch k st0 st eff props s :
  msg_inv k st0 (mkProgress st eff props) -> msg_inv k st0 (mkProgress (touch p st s) eff props).
Proof. intros Hi. apply msg_inv_set; auto. apply Hi. Qed.

Lemma msg_inv_m1 k st0 st eff props m : m.(proposal_hash) <> 0 ->
  msg_inv k st0 (mkProgress st eff props) ->
  msg_inv k st0 (mkProgress (apply_m1 p H m st) eff props).
Proof.
  intros Hh Hi. unfold apply_m1. pose proof (mi_slots _ _ _ Hi (slot m)) as [H1 H2 H3 H4 H5].
  apply msg_inv_set; auto. split; auto. cbn. intros h Hs. unfold emplace in Hs.
  case_bool_decide; [by apply H2|]. destruct (decide (proposal_hash m = h)) as [<-|]; [done|].
  rewrite lookup_insert_ne in Hs by done. by apply H2.
Qed.

Lemma msg_inv_required k st0 st eff props h : block_hash <> 0 -> h <= H ->
  st.(required_proposal_activated) = false ->
  msg_inv k st0 (mkProgress st eff props) ->
  msg_inv k st0 (mkProgress (with_required st h block_hash) eff props).
Proof.
  intros Hb Hh Hf [Ha Hs He Hr Hst Ht Hg Hp]. split; try done.
  intros H0. destruct (Hst H0) as (H1 & _). cbn in H1. congruence.
Qed.

Lemma msg_inv_m2 k st0 st eff props m st' : block_hash <> 0 ->
  msg_inv k st0 (mkProgress st eff props) -> apply_m2 p H block_hash m st = Ok st' ->
  msg_inv k st0 (mkProgress st' eff props).
Proof.
  intros Hb Hi. unfold apply_m2. pose proof (mi_slots _ _ _ Hi (slot m)) as [H1 H2 H3 H4 H5].
  cbn [g_state] in *. set (x := slot_state p st (slot m)) in *.
  destruct (pending_proposals x !! proposal_hash m) as [pr|] eqn:Ep;
    [|intros [= <-]; by apply msg_inv_touch].
  case_match; [intros [= <-]; by apply msg_inv_touch|]. intros Hm. inv_ok. revert Hm.
  assert (Hh : proposal_hash m <> 0) by (apply H2; by rewrite Ep).
  case_match; cycle 1.
  { intros [= <-]. apply msg_inv_set; auto. split; auto. cbn. intros h Hs.
    destruct (decide (proposal_hash m = h)) as [<-|]; [done|].
    rewrite lookup_insert_ne in Hs by done. by apply H2. }
  assert (Hact : forall l, is_active (with_proposals (with_active x (proposal_hash m)) l) = true)
    by (intros l; unfold is_active, IsNull; cbn; by apply negb_true_iff, Z.eqb_neq).
  assert (Hset : msg_inv k st0 (mkProgress (set_slot p st (slot m)
    (with_proposals (with_active x (proposal_hash m)) (delete (proposal_hash m) (pending_proposals x)))) eff props)).
  { apply msg_inv_set; auto; cbn.
    - destruct H1 as (C1 & C2 & C3). constructor; [| |exact H3|exact H4|].
      + split; [exact C1|]. split; [intros _; apply Hact|exact C3].
      + intros h Hs. apply H2. destruct Hs as [y Hy]. cbn in Hy.
        apply lookup_delete_Some in Hy as [_ Hy]. by exists y.
      + by rewrite Hact. }
  destruct (slot m =? configured_slot p); [|intros Hm; by inv_ok].
  intros Hm. inv_ok. destruct (negb (required_proposal_activated st) && _) eqn:Hreq; [|done].
  apply andb_true_iff in Hreq as [Hreq _]. apply negb_true_iff in Hreq.
  apply msg_inv_required; [done|lia| |done].
  by rewrite (proj1 (same_frame_set p st _ _)).
Qed.

Lemma existsb_m6id id l : existsb (fun e => e.(m6id) =? id) l = false <-> id ∉ map m6id l.
Proof.
  rewrite <- not_true_iff_false, existsb_exists. split; intros Hn Hc; apply Hn.
  - apply list_elem_of_fmap in Hc as (e & -> & He). exists e. rewrite Z.eqb_refl.
    split; [by apply list_elem_of_In|done].
  - destruct Hc as (e & He & Heq%Z.eqb_eq). subst. apply list_elem_of_fmap. exists e.
    split; [done|by apply list_elem_of_In].
Qed.

Lemma msg_inv_m3 k st0 st eff props m st' : 1 <= k ->
  msg_inv k st0 (mkProgress st eff props) -> apply_m3 p H m st = Ok st' ->
  msg_inv k st0 (mkProgress st' eff (props ++ [mkIdentity m.(slot) m.(proposal_hash)])).
Proof.
  intros Hk Hi Hm. unfold apply_m3 in Hm. inv_ok. bool_simp. apply existsb_m6id in Hok0 as Hnew.
  pose proof (mi_slots _ _ _ Hi (slot m)) as [H1 H2 H3 H4 H5]. cbn [g_state] in *.
  set (x := slot_state p st (slot m)) in *.
  set (x' := with_withdrawals x (pending_withdrawals x ++ [mkPending (proposal_hash m) H 1])).
  assert (Hids : map m6id (pending_withdrawals x') = map m6id (pending_withdrawals x) ++ [proposal_hash m])
    by (cbn; by rewrite map_app).
  assert (Hg : msg_inv k st0 (mkProgress (set_slot p st (slot m) x') eff props)).
  { apply msg_inv_set; auto.
    - constructor; [exact H1|exact H2| | |].
      + cbn. apply Forall_app_2; [done|]. repeat constructor; cbn; unfold UINT16_MAX; lia.
      + rewrite Hids. apply list.NoDup_app. split_and!; [done| |apply NoDup_singleton].
        intros h Hh ->%list_elem_of_singleton. done.
      + intros Hc. unfold x' in Hc. cbn in Hc. unfold is_active in *. cbn in Hc. congruence.
    - intros id Hid. rewrite Hids. apply elem_of_app. by left. }
  destruct Hg as [Ha Hs He Hr Hst Ht Hgr [Hnd Hp]]. split; auto. cbn [g_state g_proposals] in *.
  split.
  - apply list.NoDup_app. split_and!; [done| |apply NoDup_singleton].
    intros i Hin ->%list_elem_of_singleton. apply Hnew.
    by apply (proj2 (mi_proposals _ _ _ Hi)) in Hin.
  - intros i [Hin| ->%list_elem_of_singleton]%elem_of_app; [by apply Hp|].
    cbn [i_slot i_m6id]. unfold set_pending. fold x x'. rewrite slot_state_set_eq, Hids. apply elem_of_app. right. by left.
Qed.

(** The number of M4 messages in a stream. *)
Definition is_m4 (m : DrivechainParentMessage) : bool := bool_decide (m.(type) = WITHDRAWAL_ACK).
Definition m4_count (ms : list DrivechainParentMessage) : Z := len (filter (fun m => is_m4 m = true) ms).

Lemma msg_inv_m4 k st0 st eff props m st' eff' :
  msg_inv k st0 (mkProgress st eff props) -> apply_m4 p m st eff = Ok (st', eff') ->
  msg_inv (k + 1) st0 (mkProgress st' eff' props).
Proof.
  intros [Ha Hs He Hr Hst Ht Hg [Hnd Hp]] Hm. cbn [g_state g_effective g_proposals] in *.
  apply (apply_m4_inv p m st eff st' eff' H k) in Hm as (R1 & (F1 & F2 & F3 & F4 & F5) & R3 & R4); auto.
  split; cbn; auto.
  - unfold required_inv. by rewrite F1, F2, F3.
  - unfold required_stable. by rewrite F1, F2, F3.
  - intros s. destruct (R3 s) as (l & -> & _). apply Ht.
  - intros s Has. rewrite (same_but_votes_active p st) by done. by apply Hg.
  - split; [done|]. intros i Hi. rewrite (same_but_votes_ids p st) by done. by apply Hp.
Qed.

Lemma apply_message_inv k st0 g m g' : 1 <= k -> block_hash <> 0 ->
  (m.(type) = PROPOSAL -> m.(proposal_hash) <> 0) ->
  msg_inv k st0 g -> apply_message p H block_hash g m = Ok g' ->
  msg_inv (k + m4_count [m]) st0 g'.
Proof.
  intros Hk Hb Hh Hi Hm. destruct g as [st eff props]. unfold apply_message in Hm.
  assert (Hc : m4_count [m] = if is_m4 m then 1 else 0).
  { unfold m4_count. rewrite filter_cons. case_decide as Hd; [by rewrite Hd|].
    by destruct (is_m4 m). }
  rewrite Hc. unfold is_m4. destruct (type m) eqn:E; cbn [bool_decide decide_rel] in *.
  all: rewrite ?bool_decide_eq_false_2, ?Z.add_0_r by done.
  - done.
  - inv_ok. apply msg_inv_m1; auto.
  - inv_ok. by eapply msg_inv_m2.
  - inv_ok. by eapply msg_inv_m3.
  - inv_ok. rewrite bool_decide_eq_true_2 by done. by eapply msg_inv_m4.
  - by inv_ok.
Qed.
End messages.

(** ** The scan of the coinbase *)
Definition parsed (outs : list CTxOut) : list DrivechainParentMessage :=
  filter (fun m => m.(type) <> NONE) (map (fun o => ParseDrivechainParentMessage o.(scriptPubKey)) outs).

Definition is_m7 (m : DrivechainParentMessage) : Prop := m.(type) = BMM_ACCEPT.
#[global] Instance is_m7_dec m : Decision (is_m7 m).
Proof. unfold is_m7. apply _. Defined.

Record scan_inv (sc : MessageScan) : Prop := {
  sc_m4 : m4_count sc.(messages) = if sc.(saw_m4) then 1 else 0;
  sc_m7_slots : sc.(m7_slots) = dom sc.(accepted_bmm_requests);
  sc_m7_nodup : NoDup (map slot (filter is_m7 sc.(messages)));
  sc_m7 : forall s h, sc.(accepted_bmm_requests) !! s = Some h <->
    exists m, m ∈ filter is_m7 sc.(messages) /\ m.(slot) = s /\ m.(proposal_hash) = h }.

Lemma m4_count_app l1 l2 : m4_count (l1 ++ l2) = m4_count l1 + m4_count l2.
Proof. unfold m4_count. by rewrite list.filter_app, len_app. Qed.

Lemma m4_count_one m : m4_count [m] = if is_m4 m then 1 else 0.
Proof.
  unfold m4_count. rewrite filter_cons. case_decide as Hd; [by rewrite Hd|]. by destruct (is_m4 m).
Qed.

Lemma scan_inv_empty : scan_inv scan_empty.
Proof.
  constructor; [done|done|constructor|].
  - intros s h. cbn. rewrite lookup_empty. split; [done|]. intros (m & Hm & _). by apply elem_of_nil in Hm.
Qed.

(** A message that is neither M4 nor M7 only lengthens the list. *)
Lemma scan_inv_push sc m m1 m2 : scan_inv sc -> is_m4 m = false -> ~ is_m7 m ->
  scan_inv (mkScan (sc.(messages) ++ [m]) m1 m2 sc.(m7_slots) sc.(accepted_bmm_requests) sc.(saw_m4)).
Proof.
  intros [H1 H2 H3 H4] Hm4 Hm7.
  assert (Hf : filter is_m7 (sc.(messages) ++ [m]) = filter is_m7 sc.(messages)).
  { rewrite list.filter_app, filter_cons_False, filter_nil, app_nil_r by done. done. }
  split; cbn; rewrite ?Hf; auto. rewrite m4_count_app, m4_count_one, Hm4. lia.
Qed.

Lemma scan_output_inv sc o sc' : scan_inv sc -> scan_output sc o = Ok sc' -> scan_inv sc'.
Proof.
  intros Hi. unfold scan_output. set (m := ParseDrivechainParentMessage _).
  destruct (type m) eqn:E; intros Hs; inv_ok; auto.
  1-3: apply scan_inv_push; [done|unfold is_m4; rewrite E; by apply bool_decide_eq_false_2
                            |unfold is_m7; by rewrite E].
  - destruct Hi as [H1 H2 H3 H4].
    assert (Hf : filter is_m7 (sc.(messages) ++ [m]) = filter is_m7 sc.(messages)).
    { rewrite list.filter_app, filter_cons_False, filter_nil, app_nil_r by (unfold is_m7; by rewrite E). done. }
    split; cbn; rewrite ?Hf; auto. bool_simp. rewrite Hok in H1. rewrite m4_count_app, m4_count_one, H1.
    unfold is_m4. rewrite E. by rewrite bool_decide_eq_true_2.
  - destruct Hi as [H1 H2 H3 H4]. bool_simp. rewrite H2 in Hok. apply not_elem_of_dom in Hok as Hn.
    assert (Hf : filter is_m7 (sc.(messages) ++ [m]) = filter is_m7 sc.(messages) ++ [m]).
    { rewrite list.filter_app. f_equal. by rewrite filter_cons_True by (unfold is_m7; by rewrite E). }
    rewrite Hn. rewrite bool_decide_eq_false_2 by (by intros [? ?]). split; cbn; rewrite ?Hf.
    + rewrite m4_count_app, m4_count_one, H1. unfold is_m4. rewrite E.
      rewrite bool_decide_eq_false_2 by done. lia.
    + rewrite dom_insert_L, H2. done.
    + rewrite map_app. apply list.NoDup_app. split_and!; [done| |apply NoDup_singleton].
      intros s (m' & -> & Hm')%list_elem_of_fmap Hs%list_elem_of_singleton. cbn in Hs.
      apply Hok, elem_of_dom. exists m'.(proposal_hash). apply H4. eauto.
    + intros s h. rewrite lookup_insert_Some. split.
      * intros [[<- <-]|[Hne (m' & Hm' & ? & ?)%H4]]; [exists m|exists m']; rewrite elem_of_app.
        -- split; [right; by left|done].
        -- split; [by left|done].
      * intros (m' & [Hm'| ->%list_elem_of_singleton]%elem_of_app & <- & <-); [|by left].
        right. split; [|apply H4; eauto]. intros Heq. rewrite Heq in Hn.
        assert (Hc : accepted_bmm_requests sc !! slot m' = Some (proposal_hash m')) by (apply H4; eauto).
        congruence.
Qed.

Lemma scan_output_messages sc o sc' : scan_output sc o = Ok sc' ->
  sc'.(messages) = sc.(messages) ++ parsed [o].
Proof.
  unfold scan_output, parsed. cbn [map]. set (m := ParseDrivechainParentMessage _).
  rewrite filter_cons. destruct (type m) eqn:E; intros Hs; inv_ok; cbn; case_decide as Hd;
    rewrite ?app_nil_r; try done; by destruct Hd.
Qed.

Lemma scan_messages outs sc sc' : foldM scan_output sc outs = Ok sc' ->
  sc'.(messages) = sc.(messages) ++ parsed outs.
Proof.
  revert sc. induction outs as [|o outs IH]; cbn; intros sc Hf.
  - injection Hf as <-. cbn. by rewrite app_nil_r.
  - destruct (scan_output sc o) as [sc1|] eqn:E; [|done]. rewrite (IH _ Hf), (scan_output_messages _ _ _ E).
    rewrite <- app_assoc. f_equal. unfold parsed. by rewrite <- list.filter_app.
Qed.

Lemma scan_spec outs sc : foldM scan_output scan_empty outs = Ok sc ->
  scan_inv sc /\ sc.(messages) = parsed outs.
Proof.
  intros Hf. split; [|by rewrite (scan_messages _ _ _ Hf)].
  eapply (foldM_inv scan_inv); [|apply scan_inv_empty|exact Hf].
  intros sc1 o sc2 _ Hi Hs. by eapply scan_output_inv.
Qed.

(** ** Expiry *)
Section expiry.
Context (p : ReplayParams) (H : Z).
Implicit Types (st : DrivechainParentReplayState) (x : DrivechainOtherSlotReplayState).

Definition proposal_ok (pr : DrivechainPendingProposal) : Prop :=
  pr.(p_height) <= H /\ pr.(p_votes) <= H - pr.(p_height).
Definition proposals_ok x : Prop := forall h pr, x.(pending_proposals) !! h = Some pr -> proposal_ok pr.

Lemma expire_steps_spec used l m m' : foldM (expire_step p H used) m l = Ok m' ->
  m' ⊆ m /\ Forall (fun e => proposal_ok e.2) l.
Proof.
  revert m. induction l as [|[h pr] l IH]; cbn [foldM]; intros m Hf.
  { injection Hf as <-. by split. }
  destruct (expire_step _ _ _ _ _) as [m1|] eqn:E; [|done]. unfold expire_step in E. inv_ok. bool_simp.
  apply IH in Hf as [Hsub Hall]. split.
  - etrans; [exact Hsub|]. case_match; [apply delete_subseteq|done].
  - constructor; [|done]. by split.
Qed.

Lemma expire_proposals_spec x x' : expire_proposals p H x = Ok x' ->
  exists m', x' = with_proposals x m' /\ m' ⊆ x.(pending_proposals) /\ proposals_ok x'.
Proof.
  unfold expire_proposals. intros Hx. inv_ok. subst. apply expire_steps_spec in Hok as [Hsub Hall].
  exists a. split_and!; [done|done|]. intros h pr Hl. cbn in Hl.
  rewrite list.Forall_forall in Hall. apply (Hall (h, pr)).
  apply elem_of_map_ascending. exact (lookup_weaken _ _ _ _ Hl Hsub).
Qed.

Lemma slot_inv_proposals k x m : slot_inv H k x -> m ⊆ x.(pending_proposals) ->
  slot_inv H k (with_proposals x m).
Proof.
  intros [H1 H2 H3 H4 H5] Hsub. constructor; auto. intros h [pr Hpr]. apply H2.
  exists pr. by eapply lookup_weaken.
Qed.

(** The loop over the other slots, from a snapshot [l] of them. *)
Lemma expire_others_spec l st st' : NoDup l.*1 ->
  (forall s y, (s, y) ∈ l -> other_slots st !! s = Some y) -> foldM (expire_other p H) st l = Ok st' ->
  own st' = own st /\ same_frame p st st' /\
  (forall s, s ∉ l.*1 -> other_slots st' !! s = other_slots st !! s) /\
  forall s y, (s, y) ∈ l -> exists m, other_slots st' !! s = Some (with_proposals y m) /\
    m ⊆ y.(pending_proposals) /\ proposals_ok (with_proposals y m).
Proof.
  revert st. induction l as [|[s y] l IH]; intros st Hnd Hl Hf.
  { cbn in Hf. injection Hf as ->. split_and!; auto using same_frame_refl.
    intros ? ? Hc. by apply elem_of_nil in Hc. }
  cbn [foldM] in Hf. destruct (expire_other _ _ _ _) as [st3|] eqn:E; [|done].
  unfold expire_other in E. inv_ok. apply expire_proposals_spec in Hok as (m & -> & Hsub & Hok).
  cbn [fmap list_fmap fst] in Hnd. apply list.NoDup_cons in Hnd as [Hs Hnd].
  assert (Hpre : other_slots st !! s = Some y) by (apply Hl; left).
  set (st3 := with_others st (<[s := with_proposals y m]> (other_slots st))) in *.
  assert (Hl3 : forall s' y', (s', y') ∈ l -> other_slots st3 !! s' = Some y').
  { intros s' y' Hin. cbn [other_slots with_others st3]. rewrite lookup_insert_ne; [apply Hl; by right|].
    intros <-. apply Hs, list_elem_of_fmap. by exists (s, y'). }
  destruct (IH st3 Hnd Hl3 Hf) as (R1 & R2 & R3 & R4). unfold st3 in *.
  cbn [own other_slots with_others] in *. split_and!; [done| | |].
  - eapply same_frame_trans; [|exact R2]. unfold same_frame, own_apart, with_others.
    cbn [other_slots]. split_and!; try done.
    intros Hc. destruct (decide (s = configured_slot p)) as [->|]; [congruence|].
    by rewrite lookup_insert_ne.
  - intros s' Hn. cbn in Hn. apply not_elem_of_cons in Hn as [Hne Hn]. rewrite R3 by done.
    by rewrite lookup_insert_ne.
  - intros s' y' [[= -> ->]|Hin]%elem_of_cons; [|by apply R4].
    exists m. rewrite R3 by done. rewrite lookup_insert_eq. done.
Qed.

(** Expiry of proposals: every slot keeps everything but some proposals. *)
Lemma expire_all_proposals_spec st st' : expire_all_proposals p H st = Ok st' ->
  same_frame p st st' /\
  forall s, exists m, slot_state p st' s = with_proposals (slot_state p st s) m /\
    m ⊆ (slot_state p st s).(pending_proposals) /\ proposals_ok (slot_state p st' s).
Proof.
  intros Hf. unfold expire_all_proposals in Hf. inv_ok.
  apply expire_proposals_spec in Hok as (m0 & -> & Hsub0 & Hok0).
  set (st1 := set_slot p st (configured_slot p) (with_proposals (own st) m0)) in *.
  assert (Hst1 : other_slots st1 = other_slots st) by (unfold st1, set_slot; by rewrite Z.eqb_refl).
  assert (Hown1 : own st1 = with_proposals (own st) m0) by (unfold st1, set_slot; by rewrite Z.eqb_refl).
  apply expire_others_spec in Hf as (R1 & R2 & R3 & R4);
    [|apply NoDup_fst_map_ascending|intros s y; by rewrite elem_of_map_ascending].
  split; [eapply same_frame_trans; [apply same_frame_set|exact R2]|]. intros s.
  unfold slot_state. destruct (Z.eqb_spec s (configured_slot p)) as [->|Hne].
  { exists m0. rewrite R1, Hown1. done. }
  rewrite Hst1 in *. destruct (other_slots st !! s) as [y|] eqn:Ey.
  - destruct (R4 s y) as (m & -> & Hsub & Hok); [by apply elem_of_map_ascending|]. by exists m.
  - assert (Hn : s ∉ (map_ascending (other_slots st)).*1).
    { intros ([s' y] & -> & Hin)%list_elem_of_fmap. apply elem_of_map_ascending in Hin. cbn in Ey. congruence. }
    rewrite R3, Ey by done. exists ∅. split_and!; [done|done|]. intros h pr Hc. done.
Qed.

Lemma expire_pending_spec l l' : expire_pending p H l = Ok l' -> l' `sublist_of` l.
Proof.
  revert l'. induction l as [|e l IH]; cbn; intros l' Hl; inv_ok; [done|].
  apply IH in Hok0. case_match; by constructor.
Qed.

(** Expiry of bundles: every slot keeps everything but some bundles. *)
Definition fewer_bundles st st' : Prop :=
  same_frame p st st' /\
  forall s, exists l, slot_state p st' s = with_withdrawals (slot_state p st s) l /\
    l `sublist_of` (slot_state p st s).(pending_withdrawals).

#[local] Instance fewer_bundles_refl : Reflexive fewer_bundles.
Proof.
  intros st. split; [apply same_frame_refl|]. intros s.
  exists (slot_state p st s).(pending_withdrawals). by rewrite with_withdrawals_id.
Qed.

#[local] Instance fewer_bundles_trans : Transitive fewer_bundles.
Proof.
  intros st1 st2 st3 [F1 H1] [F2 H2]. split; [by eapply same_frame_trans|]. intros s.
  destruct (H1 s) as (l1 & E1 & S1), (H2 s) as (l2 & E2 & S2). exists l2. rewrite E2, E1.
  split; [done|]. rewrite E1 in S2. cbn in S2. by etrans.
Qed.

Lemma expire_withdrawals_spec slots st st' :
  foldM (expire_withdrawals p H) st slots = Ok st' -> fewer_bundles st st'.
Proof.
  apply (foldM_rel fewer_bundles); [apply _..|]. intros st1 s st2 _ Hs.
  unfold expire_withdrawals in Hs. inv_ok. apply expire_pending_spec in Hok.
  split; [apply same_frame_set|]. intros s'. unfold set_pending. rewrite slot_state_set.
  case_decide; subst; [by exists a|]. exists (slot_state p st1 s').(pending_withdrawals).
  by rewrite with_withdrawals_id.
Qed.

Lemma slot_inv_fewer k x l : slot_inv H k x -> l `sublist_of` x.(pending_withdrawals) ->
  slot_inv H k (with_withdrawals x l).
Proof.
  intros [H1 H2 H3 H4 H5] Hs. constructor; auto; cbn.
  - rewrite list.Forall_forall in *. intros e He. apply H3. by eapply elem_of_sublist.
  - eapply sublist_NoDup; [exact H4|]. by apply sublist_map.
  - intros Hi. rewrite (H5 Hi) in Hs. by apply sublist_nil_r in Hs.
Qed.
End expiry.

(** ** Where a pending bundle comes from *)
Section provenance.
Context (p : ReplayParams) (H : Z) (bh : uint256).
Implicit Types (st : DrivechainParentReplayState).

Definition keys st (s : Z) : list (uint256 * Z) := map bundle_key (slot_state p st s).(pending_withdrawals).

Lemma keys_set st s x s' : x.(pending_withdrawals) = (slot_state p st s).(pending_withdrawals) ->
  keys (set_slot p st s x) s' = keys st s'.
Proof. intros Hx. unfold keys. rewrite slot_state_set. case_decide; [subst; by rewrite Hx|done]. Qed.

Lemma keys_m2 m st st' s : apply_m2 p H bh m st = Ok st' -> keys st' s = keys st s.
Proof.
  unfold apply_m2. intros Hm.
  destruct (pending_proposals _ !! _) as [pr|]; [|injection Hm as <-; by apply keys_set].
  destruct (p_height pr =? H); [injection Hm as <-; by apply keys_set|]. inv_ok.
  clear Hok. destruct (_ <? _); cbn [andb] in Hm; [|injection Hm as <-; by apply keys_set].
  destruct (_ <=? _); [|injection Hm as <-; by apply keys_set].
  destruct (slot m =? configured_slot p); [|injection Hm as <-; by apply keys_set]. inv_ok.
  destruct (negb (required_proposal_activated st) && _); [|by apply keys_set]. unfold with_required.
  rewrite <- (keys_set st (slot m) (with_proposals (with_active (slot_state p st (slot m)) (proposal_hash m))
    (delete (proposal_hash m) (pending_proposals (slot_state p st (slot m)))))) by done.
  done.
Qed.

(** A message adds a bundle only as the M3 that proposes it. *)
Lemma message_keys k st0 g m g' s key : msg_inv p H k st0 g -> apply_message p H bh g m = Ok g' ->
  key ∈ keys g'.(g_state) s ->
  key ∈ keys g.(g_state) s \/
  (key = (m.(proposal_hash), H) /\ m.(type) = WITHDRAWAL_PROPOSAL /\ m.(slot) = s).
Proof.
  intros [Ha Hs He _ _ _ _ _] Hm. destruct g as [st eff props]. unfold apply_message in Hm.
  cbn [g_state g_effective] in *. destruct (type m) eqn:E; inv_ok; cbn [g_state]; auto.
  - unfold apply_m1. rewrite keys_set by done. auto.
  - erewrite keys_m2 by done. auto.
  - unfold apply_m3 in Hok. inv_ok. unfold keys, set_pending. rewrite slot_state_set.
    case_decide as Hd; [subst s|auto]. cbn. rewrite map_app, elem_of_app.
    intros [Hin|Hin%list_elem_of_singleton]; [by left|by right].
  - apply (apply_m4_inv p m st eff _ _ H k) in Hok as (_ & _ & Hb & _); auto.
    unfold keys. rewrite (same_but_votes_keys p st) by done. auto.
Qed.

Lemma messages_keys ms st0 g g' s key : bh <> 0 ->
  (forall m, m ∈ ms -> m.(type) = PROPOSAL -> m.(proposal_hash) <> 0) ->
  forall k, 1 <= k -> msg_inv p H k st0 g -> foldM (apply_message p H bh) g ms = Ok g' ->
  key ∈ keys g'.(g_state) s ->
  key ∈ keys g.(g_state) s \/
  exists m, m ∈ ms /\ key = (m.(proposal_hash), H) /\ m.(type) = WITHDRAWAL_PROPOSAL /\ m.(slot) = s.
Proof.
  intros Hbh. revert g. induction ms as [|m ms IH]; intros g Hm k Hk Hi Hf Hin.
  { cbn in Hf. injection Hf as ->. by left. }
  cbn [foldM] in Hf. destruct (apply_message _ _ _ _ _) as [g1|] eqn:E; [|done].
  assert (Hi1 : msg_inv p H (k + m4_count [m]) st0 g1) by (eapply apply_message_inv; eauto; apply Hm; left).
  assert (Hk1 : 1 <= k + m4_count [m]) by (rewrite m4_count_one; case_match; lia).
  destruct (IH g1 ltac:(intros; apply Hm; [by right|done]) _ Hk1 Hi1 Hf Hin) as [Hg|(m' & Hm' & Hr)].
  - destruct (message_keys _ _ _ _ _ _ _ Hi E Hg) as [?|Hr]; [by left|]. right. exists m. split; [left|done].
  - right. exists m'. split; [by right|done].
Qed.

Lemma fewer_bundles_keys st st' s key : fewer_bundles p st st' -> key ∈ keys st' s -> key ∈ keys st s.
Proof.
  intros [_ Hf]. unfold keys. destruct (Hf s) as (l & -> & Hl). cbn. intros Hin.
  eapply elem_of_sublist; [exact Hin|]. by apply sublist_map.
Qed.
End provenance.

(** ** The coinbase *)
Record start_inv (p : ReplayParams) (H : Z) (st : DrivechainParentReplayState) : Prop := {
  st_apart : own_apart p st;
  st_slots : forall s, slot_inv H 2 (slot_state p st s);
  st_required : required_inv H st }.

Record coinbase_inv (p : ReplayParams) (H : Z) (st0 st : DrivechainParentReplayState)
    (props : list DrivechainWithdrawalProposalIdentity) : Prop := {
  ci_apart : own_apart p st;
  ci_slots : forall s, slot_inv H 2 (slot_state p st s);
  ci_proposals : forall s, proposals_ok H (slot_state p st s);
  ci_actions : actions_inv p st st.(previous_m4_actions);
  ci_required : required_inv H st;
  ci_stable : required_stable st0 st;
  ci_treasury : same_treasury p st0 st;
  ci_active : active_grows p st0 st;
  ci_nodup : NoDup props }.

(** The M1 proposals of a block hash to a nonzero id. *)
Definition m1_nonnull (block : CBlock) : Prop :=
  forall o, o ∈ coinbase_outputs block ->
    let m := ParseDrivechainParentMessage o.(scriptPubKey) in
    m.(type) = PROPOSAL -> m.(proposal_hash) <> 0.

Lemma slot_inv_next H x : slot_inv (H - 1) 2 x -> slot_inv H 1 x.
Proof.
  intros [H1 H2 H3 H4 H5]. constructor; auto. eapply Forall_impl; [|exact H3].
  intros e (? & ? & ?). unfold bundle_ok. split_and!; [lia|done|lia].
Qed.

Lemma apply_messages_inv p H bh ms st0 g g' : bh <> 0 ->
  (forall m, m ∈ ms -> m.(type) = PROPOSAL -> m.(proposal_hash) <> 0) ->
  forall k, 1 <= k -> msg_inv p H k st0 g -> foldM (apply_message p H bh) g ms = Ok g' ->
  msg_inv p H (k + m4_count ms) st0 g'.
Proof.
  intros Hbh. revert g. induction ms as [|m ms IH]; intros g Hm k Hk Hi Hf.
  { cbn in Hf. injection Hf as ->. by rewrite Z.add_0_r. }
  cbn [foldM] in Hf. destruct (apply_message _ _ _ _ _) as [g1|] eqn:E; [|done].
  change (m :: ms) with ([m] ++ ms). rewrite m4_count_app, Z.add_assoc.
  apply IH with g1; [intros; apply Hm; [by right|done]| | |done].
  - unfold m4_count. pose proof (len_nonneg (filter (fun m => is_m4 m = true) [m])). lia.
  - eapply apply_message_inv; eauto. apply Hm. left.
Qed.

Lemma start_msg_inv p H st : start_inv p (H - 1) st -> msg_inv p H 1 st (mkProgress st ∅ []).
Proof.
  intros [Ha Hs Hr]. split; cbn; auto.
  - intros s. apply slot_inv_next, Hs.
  - intros s a Hl. done.
  - unfold required_inv in *. case_match; [|done]. split; [apply Hr|lia].
  - by intros H0.
  - by intros s.
  - by intros s Hsa.
  - split; [constructor|]. intros i Hi. by apply elem_of_nil in Hi.
Qed.

Lemma apply_coinbase_inv p block H st st' props :
  start_inv p (H - 1) st -> GetBlockHash block <> 0 -> m1_nonnull block ->
  apply_coinbase p block H st = Ok (st', props) -> coinbase_inv p H st st' props.
Proof.
  intros Hst Hbh Hm1 Hc. unfold apply_coinbase in Hc. inv_ok.
  apply scan_spec in Hok as [Hscan Hms].
  apply (apply_messages_inv p H _ _ st) with (k := 1) in Hok1; [|done| |lia|by apply start_msg_inv]; cycle 1.
  { intros m Hm. rewrite Hms in Hm. unfold parsed in Hm. apply list_elem_of_filter in Hm as [_ Hm].
    apply list_elem_of_fmap in Hm as (o & -> & Ho). by apply Hm1. }
  destruct Hok1 as [Ha Hs He Hr Hsb Ht Hg [Hnd _]]. cbn [g_state g_effective g_proposals] in *.
  apply expire_all_proposals_spec in Hok2 as [(F1 & F2 & F3 & F4 & F5) HP].
  apply expire_withdrawals_spec in Hok3 as [(G1 & G2 & G3 & G4 & G5) HW].
  assert (Hslots : forall s, exists m l, slot_state p st' s =
      with_withdrawals (with_proposals (slot_state p (g_state a1) s) m) l /\
      m ⊆ (slot_state p (g_state a1) s).(pending_proposals) /\
      l `sublist_of` (slot_state p (g_state a1) s).(pending_withdrawals) /\
      proposals_ok H (with_proposals (slot_state p (g_state a1) s) m)).
  { intros s. destruct (HP s) as (m & E1 & S1 & P1), (HW s) as (l & E2 & S2). exists m, l.
    change (slot_state p (with_actions (g_state a1) (g_effective a1)) s)
      with (slot_state p (g_state a1) s) in *.
    rewrite E2, E1 in *. done. }
  split; auto.
  - intros s. destruct (Hslots s) as (m & l & -> & S1 & S2 & _).
    apply slot_inv_fewer; [apply slot_inv_proposals; [|done]|done].
    eapply slot_inv_mono; [|apply Hs]. rewrite (sc_m4 _ Hscan). case_match; lia.
  - intros s. destruct (Hslots s) as (m & l & -> & _ & _ & Hp). exact Hp.
  - rewrite G4, F4. cbn. intros s b Hb. destruct (He s b Hb) as [? Hact]. split; [done|].
    by destruct (Hslots s) as (m & l & -> & _).
  - unfold required_inv. by rewrite G1, G2, G3, F1, F2, F3.
  - unfold required_stable. by rewrite G1, G2, G3, F1, F2, F3.
  - intros s. destruct (Hslots s) as (m & l & -> & _). apply Ht.
  - intros s Hact. apply Hg in Hact. by destruct (Hslots s) as (m & l & -> & _).
Qed.

(** Every bundle pending after the coinbase was pending before the block, or is
    proposed by one of its M3 messages. *)
Lemma apply_coinbase_keys p block H st st' props s key :
  start_inv p (H - 1) st -> GetBlockHash block <> 0 -> m1_nonnull block ->
  apply_coinbase p block H st = Ok (st', props) -> key ∈ keys p st' s ->
  key ∈ keys p st s \/
  exists o, o ∈ coinbase_outputs block /\
    let m := ParseDrivechainParentMessage o.(scriptPubKey) in
    m.(type) = WITHDRAWAL_PROPOSAL /\ m.(slot) = s /\ key = (m.(proposal_hash), H).
Proof.
  intros Hst Hbh Hm1 Hc Hin. unfold apply_coinbase in Hc. inv_ok.
  apply scan_spec in Hok as [_ Hms]. apply expire_withdrawals_spec in Hok3.
  apply (fewer_bundles_keys _ _ _ _ _ Hok3) in Hin.
  apply expire_all_proposals_spec in Hok2 as [_ HP]. unfold keys in Hin.
  destruct (HP s) as (m & E1 & _). rewrite E1 in Hin.
  assert (Hfrom : forall m, m ∈ messages a -> exists o, o ∈ coinbase_outputs block /\
    m = ParseDrivechainParentMessage o.(scriptPubKey)).
  { intros m' Hm'. rewrite Hms in Hm'. apply list_elem_of_filter in Hm' as [_ Hm'].
    apply list_elem_of_fmap in Hm' as (o & -> & Ho). by exists o. }
  eapply (messages_keys p H _ _ st) with (k := 1) (s := s) in Hok1 as [?|(m' & Hm' & -> & Ht & Hs)];
    [by left| |done| |lia|by apply start_msg_inv|exact Hin].
  - right. destruct (Hfrom m' Hm') as (o & Ho & ->). exists o. done.
  - intros m' Hm'. destruct (Hfrom m' Hm') as (o & Ho & ->). by apply Hm1.
Qed.
