(* ===== verification/TreasuryFacts.v ===== *)
(** * Treasury transitions of the parent-chain replay

    What the transactions of one parent block do to the CTIPs: ownership,
    authorisation of withdrawals, backing of deposits. *)

From stdpp Require Import sorting.
From S2P Require Import Prelude Sha256 Script Transaction ParentMessage ParentState ParentFacts.

(** ** The CTIP changes of one transaction *)
Section changes.
Context (p : ReplayParams).
Implicit Types (st : DrivechainParentReplayState) (tx : CTransaction).

Definition owners_inv st (owners : gmap COutPoint Z) : Prop :=
  forall c s, owners !! c = Some s -> (slot_state p st s).(ctip) = Some c.

Lemma malformed_ctip_iff x : malformed_ctip x = false <->
  (is_Some x.(ctip) -> 0 <= x.(ctip_value) <= MAX_MONEY) /\ (x.(ctip) = None -> x.(ctip_value) = 0).
Proof.
  unfold malformed_ctip, has_ctip. destruct (ctip x) as [c|].
  - rewrite bool_decide_eq_true_2 by done. cbn [andb negb orb].
    rewrite orb_false_iff. split; [intros [H _]; split; [intros _|done]|].
    + apply orb_false_iff in H as [_ H%negb_false_iff]. by apply MoneyRange_iff.
    + intros [H _]. split; [|done]. specialize (H ltac:(done)).
      rewrite (proj2 (MoneyRange_iff _)) by done. lia.
  - rewrite bool_decide_eq_false_2 by (by intros [? ?]). cbn [andb negb orb].
    rewrite negb_false_iff, Z.eqb_eq. split; [intros ->; split; [by intros [? ?]|done]|].
    intros [_ H]. by apply H.
Qed.

(** Every active slot with a CTIP owns it alone. *)
Lemma ctip_owners_spec st slots owners0 owners : own_apart p st -> owners_inv st owners0 ->
  foldM (ctip_owner_step p st) owners0 slots = Ok owners ->
  owners_inv st owners /\ owners0 ⊆ owners /\
  forall s c, s ∈ slots -> (slot_state p st s).(ctip) = Some c -> owners !! c = Some s.
Proof.
  intros Ha. revert owners0. induction slots as [|s slots IH]; cbn [foldM]; intros owners0 Hi Hf.
  { injection Hf as <-. split_and!; auto. intros s c Hs. by apply elem_of_nil in Hs. }
  destruct (ctip_owner_step _ _ _ _) as [o1|] eqn:E; [|done].
  unfold ctip_owner_step in E. inv_ok.
  destruct (ctip (slot_state p st s)) as [c0|] eqn:Ec; inv_ok.
  - bool_simp. apply IH in Hf as (R1 & R2 & R3).
    + assert (Hsub : owners0 ⊆ owners) by (etrans; [by apply insert_subseteq|exact R2]).
      split_and!; [done|done|]. intros s' c Hs Hc. apply elem_of_cons in Hs as [->|Hs]; [|by apply R3].
      rewrite Ec in Hc. injection Hc as ->. eapply lookup_weaken; [|exact R2]. by rewrite lookup_insert_eq.
    + intros c s' [[<- <-]|[_ Hl]]%lookup_insert_Some; [done|by apply Hi].
  - apply IH in Hf as (R1 & R2 & R3); [|done]. split_and!; [done|done|].
    intros s' c Hs Hc. apply elem_of_cons in Hs as [->|Hs]; [congruence|by apply R3].
Qed.

(** The slots whose CTIP the inputs spend. *)
Lemma spends_spec (owners : gmap COutPoint Z) ins sp0 sp : foldM (spend_step owners) sp0 ins = Ok sp ->
  forall s, s ∈ sp <-> s ∈ sp0 \/ exists i, i ∈ ins /\ owners !! i.(prevout) = Some s.
Proof.
  revert sp0. induction ins as [|i ins IH]; cbn [foldM]; intros sp0 Hf s.
  { injection Hf as ->. split; [by left|]. intros [?|(i & Hi & _)]; [done|by apply elem_of_nil in Hi]. }
  destruct (spend_step _ _ _) as [sp1|] eqn:E; [|done]. rewrite (IH _ Hf). unfold spend_step in E.
  destruct (owners !! prevout i) as [s0|] eqn:Eo; inv_ok; split.
  - rewrite elem_of_union, elem_of_singleton. intros [[->|?]|(i' & ? & ?)]; [right|by left|right].
    + exists i. split; [by left|done].
    + exists i'. split; [by right|done].
  - rewrite elem_of_union, elem_of_singleton. intros [?|(i' & [->|?]%elem_of_cons & ?)]; [auto| |right; eauto].
    left. left. congruence.
  - intros [?|(i' & ? & ?)]; [by left|]. right. exists i'. split; [by right|done].
  - intros [?|(i' & [->|?]%elem_of_cons & ?)]; [by left|congruence|]. right. eauto.
Qed.

(** The replacement treasury output of each active slot. *)
Definition new_ctip_ok (active : list Z) (outs : list CTxOut) (s i : Z) : Prop :=
  s ∈ active /\ 0 <= i /\ exists o, outs !! Z.to_nat i = Some o /\
    ExtractTreasurySlot o.(scriptPubKey) p.(treasury_opcode) = Some s /\ 0 <= o.(nValue) <= MAX_MONEY.

Lemma new_ctips_spec active outs new :
  foldM (new_ctip_step p active) ∅ (imap (fun i o => (i, o)) outs) = Ok new ->
  forall s i, new !! s = Some i -> new_ctip_ok active outs s i.
Proof.
  intros Hf. set (P := fun m : gmap Z Z => forall s i, m !! s = Some i -> new_ctip_ok active outs s i).
  enough (P new) by done. eapply (foldM_inv P); [|intros s i Hc; by rewrite lookup_empty in Hc|exact Hf].
  intros m [i o] m' Hin HP E. apply elem_of_lookup_imap in Hin as (i' & o' & [= <- <-] & Ho).
  unfold new_ctip_step in E. destruct (ExtractTreasurySlot _ _) as [s|] eqn:Es; [|by inv_ok].
  destruct (bool_decide (s ∈ active)) eqn:Ea; cbn [negb] in E; [|by inv_ok]. inv_ok. bool_simp.
  intros s' j [[<- <-]|[_ Hl]]%lookup_insert_Some; [|by apply HP].
  split_and!; [done|lia|]. exists o. rewrite Nat2Z.id. rewrite MoneyRange_iff in *. done.
Qed.

(** One change: the slot is active, its replacement output pays it, its
    previous CTIP (when it has one) is spent by the transaction. *)
Record change_ok st tx (c : CtipChange) : Prop := {
  ch_active : is_active (slot_state p st c.(c_slot)) = true;
  ch_index : 0 <= c.(c_index);
  ch_output : exists o, tx.(vout) !! Z.to_nat c.(c_index) = Some o /\
    ExtractTreasurySlot o.(scriptPubKey) p.(treasury_opcode) = Some c.(c_slot) /\
    o.(nValue) = c.(new_value);
  ch_money : 0 <= c.(new_value) <= MAX_MONEY;
  ch_old : c.(old_value) = if has_ctip (slot_state p st c.(c_slot))
                           then (slot_state p st c.(c_slot)).(ctip_value) else 0;
  ch_delta : c.(new_value) <> c.(old_value);
  ch_spent : forall o, (slot_state p st c.(c_slot)).(ctip) = Some o -> o ∈ map prevout tx.(vin) }.

Lemma changes_fold st tx spends l acc changes :
  foldM (change_step p st tx spends) acc l = Ok changes ->
  map c_slot changes = map c_slot acc ++ l.*1 /\
  forall c, c ∈ changes -> c ∈ acc \/ exists i, (c.(c_slot), i) ∈ l /\ c.(c_index) = i /\
    c.(new_value) = (output_at tx i).(nValue) /\
    c.(old_value) = (if has_ctip (slot_state p st c.(c_slot))
                     then (slot_state p st c.(c_slot)).(ctip_value) else 0) /\
    c.(new_value) <> c.(old_value) /\
    (has_ctip (slot_state p st c.(c_slot)) = true -> c.(c_slot) ∈ spends).
Proof.
  revert acc. induction l as [|[s i] l IH]; cbn [foldM]; intros acc Hf.
  { injection Hf as <-. split; [by rewrite app_nil_r|]. by left. }
  destruct (change_step _ _ _ _ _ _) as [acc1|] eqn:E; [|done]. unfold change_step in E. inv_ok.
  apply IH in Hf as [R1 R2]. split.
  { rewrite R1, map_app, <- app_assoc. done. }
  intros c Hc. destruct (R2 c Hc) as [Hin|(j & Hj & Hrest)].
  - apply elem_of_app in Hin as [Hin| ->%list_elem_of_singleton]; [by left|]. right.
    exists i. cbn. bool_simp. split_and!; auto; [by left|].
    intros Hh. rewrite Hh in Hok. cbn in Hok. bool_simp. by apply dec_stable.
  - right. exists j. split; [by right|done].
Qed.

Lemma ctip_changes_spec st tx changes : own_apart p st -> ctip_changes p st tx = Ok changes ->
  NoDup (map c_slot changes) /\ (forall c, c ∈ changes -> change_ok st tx c) /\
  forall s o, is_active (slot_state p st s) = true -> (slot_state p st s).(ctip) = Some o ->
    o ∈ map prevout tx.(vin) -> s ∈ map c_slot changes.
Proof.
  intros Ha Hc. unfold ctip_changes in Hc. inv_ok.
  apply (ctip_owners_spec st) in Hok as (Hown & _ & Hcov); [|done|by intros ? ? Hl; rewrite lookup_empty in Hl].
  pose proof (spends_spec _ _ _ _ Hok0) as Hsp. pose proof (new_ctips_spec _ _ _ Hok1) as Hnew.
  apply changes_fold in Hc as [Hslots Hch]. cbn in Hslots. rewrite Hslots. split_and!.
  - apply NoDup_fst_map_ascending.
  - intros c Hin. destruct (Hch c Hin) as [Hc|(i & Hi & <- & Hv & Hold & Hne & Hs)]; [by apply elem_of_nil in Hc|].
    apply elem_of_map_ascending, Hnew in Hi as (Hact & H0 & o & Ho & Ht & Hm).
    assert (Hat : output_at tx (c_index c) = o) by (unfold output_at; by apply nth_lookup_Some).
    rewrite Hat in Hv. split; auto.
    + by apply elem_of_ActiveDrivechainSlots.
    + exists o. done.
    + by rewrite Hv.
    + intros o' Ho'. destruct (proj1 (Hsp (c_slot c))) as [Hc|(i & Hi & Hl)].
      * apply Hs. unfold has_ctip. rewrite Ho'. by apply bool_decide_eq_true_2.
      * by apply elem_of_empty in Hc.
      * apply Hown in Hl. rewrite Ho' in Hl. injection Hl as ->. apply list_elem_of_fmap. by exists i.
  - intros s o Hact Ho Hin.
    assert (Hl : a !! o = Some s) by (apply Hcov; [by apply elem_of_ActiveDrivechainSlots|done]).
    assert (Hs : s ∈ a0).
    { apply Hsp. right. apply list_elem_of_fmap in Hin as (i & -> & Hi). eauto. }
    rewrite forallb_forall in Hok2. specialize (Hok2 (o, s)). cbn beta iota in Hok2.
    rewrite bool_decide_eq_true_2 in Hok2 by done. cbn [andb] in Hok2.
    rewrite negb_true_iff, bool_decide_eq_false in Hok2.
    destruct (a1 !! s) as [i|] eqn:Ei; [|by destruct Hok2; [apply list_elem_of_In, elem_of_map_to_list|]].
    apply list_elem_of_fmap. exists (s, i). split; [done|]. by apply elem_of_map_ascending.
Qed.
End changes.

(** ** The effect of one transaction *)
Section effect.
Context (p : ReplayParams) (H : Z) (bh : uint256) (ra : bool).
Implicit Types (st : DrivechainParentReplayState) (tx : CTransaction) (g : TxProgress).

(** The mintable deposit a change of the configured slot records. *)
Definition deposit_for tx (c : CtipChange) (d : DrivechainMintableDeposit) : Prop :=
  c.(c_slot) = configured_slot p /\ ra = true /\
  d.(outpoint) = mkOutPoint (GetHash tx) c.(c_index) /\ d.(d_block_hash) = bh /\
  d.(d_block_height) = H /\ d.(d_value) = c.(new_value) - c.(old_value) /\
  1 <= len d.(address) <= 128.

Lemma nonempty_len {A} (l : list A) : l <> [] -> 1 <= len l.
Proof. destruct l; [done|]. rewrite len_cons. pose proof (len_nonneg l). lia. Qed.

Lemma apply_m5_spec tx g c g' : apply_m5 p H bh ra tx g c = Ok g' ->
  g'.(t_withdrawals) = g.(t_withdrawals) /\ g'.(t_m6_applied) = g.(t_m6_applied) /\
  0 < c.(new_value) - c.(old_value) <= MAX_MONEY /\
  g'.(t_state) = set_slot p g.(t_state) c.(c_slot)
    (with_ctip (slot_state p g.(t_state) c.(c_slot)) (mkOutPoint (GetHash tx) c.(c_index)) c.(new_value)) /\
  (g'.(t_deposits) = g.(t_deposits) \/
   exists d, deposit_for tx c d /\ g'.(t_deposits) = g.(t_deposits) ++ [d]).
Proof.
  destruct g as [st app ws ds]. unfold apply_m5. intros Hg.
  match type of Hg with match ?e with _ => _ end = _ => destruct e as [addr|]; [|done] end.
  inv_ok. bool_simp. rewrite MoneyRange_iff in *.
  cbn [t_state t_withdrawals t_m6_applied t_deposits]. split_and!; [done|done|lia|lia|done|].
  case_match eqn:Ed; [|by left]. right. bool_simp. eexists. split; [|done].
  unfold deposit_for. cbn. pose proof (nonempty_len addr ltac:(done)). split_and!; auto.
Qed.

Lemma apply_m5s_spec tx changes g g' : NoDup (map c_slot changes) ->
  foldM (apply_m5 p H bh ra tx) g changes = Ok g' ->
  g'.(t_withdrawals) = g.(t_withdrawals) /\ g'.(t_m6_applied) = g.(t_m6_applied) /\
  same_frame p g.(t_state) g'.(t_state) /\
  (forall s, s ∉ map c_slot changes -> slot_state p g'.(t_state) s = slot_state p g.(t_state) s) /\
  (forall c, c ∈ changes -> c.(old_value) < c.(new_value) /\ c.(new_value) - c.(old_value) <= MAX_MONEY /\
    slot_state p g'.(t_state) c.(c_slot) = with_ctip (slot_state p g.(t_state) c.(c_slot))
      (mkOutPoint (GetHash tx) c.(c_index)) c.(new_value)) /\
  (g'.(t_deposits) = g.(t_deposits) \/
   exists c d, c ∈ changes /\ deposit_for tx c d /\ g'.(t_deposits) = g.(t_deposits) ++ [d]).
Proof.
  revert g. induction changes as [|c cs IH]; intros g Hnd Hf.
  { cbn in Hf. injection Hf as ->. split_and!; auto using same_frame_refl. intros c Hc. by apply elem_of_nil in Hc. }
  cbn [foldM] in Hf. destruct (apply_m5 _ _ _ _ _ _ _) as [g1|] eqn:E; [|done].
  apply apply_m5_spec in E as (W1 & A1 & D1 & S1 & P1). cbn [map] in Hnd.
  apply list.NoDup_cons in Hnd as [Hc Hnd].
  apply IH in Hf as (W2 & A2 & F2 & N2 & C2 & P2); [|done]. rewrite S1 in *.
  split_and!; [congruence|congruence|eapply same_frame_trans; [apply same_frame_set|done]| | |].
  - intros s Hs. cbn in Hs. apply not_elem_of_cons in Hs as [Hs1 Hs2]. rewrite N2 by done.
    by apply slot_state_set_ne.
  - intros c' [->|Hin]%elem_of_cons.
    + rewrite N2, slot_state_set_eq by done. split_and!; [lia|lia|done].
    + destruct (C2 c' Hin) as (? & ? & ->). rewrite slot_state_set_ne; [done|].
      intros Heq. apply Hc. rewrite Heq. apply list_elem_of_fmap. by exists c'.
  - destruct P2 as [P2|(c' & d & Hc' & Hd & P2)].
    + destruct P1 as [P1|(d & Hd & P1)]; [left; congruence|]. right. exists c, d.
      split_and!; [by left|done|congruence].
    + destruct P1 as [P1|(d' & Hd' & P1)].
      * right. exists c', d. split_and!; [by right|done|congruence].
      * exfalso. apply Hc. destruct Hd as (E1 & _), Hd' as (E2 & _). rewrite E2, <- E1.
        apply list_elem_of_fmap. by exists c'.
Qed.

Lemma apply_m6_spec g tx c g' : apply_m6 p H bh g tx c = Ok g' ->
  exists i e id, (slot_state p g.(t_state) c.(c_slot)).(pending_withdrawals) !! i = Some e /\
    e.(m6id) = id /\ p.(withdrawal_bundle_inclusion_threshold) < e.(w_votes) /\
    ComputeDrivechainM6Id tx c.(old_value) p.(treasury_opcode) = Ok (id, c.(c_slot)) /\
    g'.(t_deposits) = g.(t_deposits) /\
    g'.(t_withdrawals) = g.(t_withdrawals) ++ [mkSuccess c.(c_slot) id H bh] /\
    g'.(t_state) = set_slot p g.(t_state) c.(c_slot)
      (with_ctip (with_withdrawals (slot_state p g.(t_state) c.(c_slot))
         (delete i (slot_state p g.(t_state) c.(c_slot)).(pending_withdrawals)))
         (mkOutPoint (GetHash tx) c.(c_index)) c.(new_value)).
Proof.
  destruct g as [st app ws ds]. unfold apply_m6. intros Hg. inv_ok.
  destruct (find_m6 _ _) as [[i e]|] eqn:Ef; [|done]. inv_ok. bool_simp.
  apply find_m6_Some in Ef as (Hi & He & _). cbn [t_state t_deposits t_withdrawals].
  exists i, e, x. subst. split_and!; done.
Qed.

(** What one transaction does: nothing to the slots it does not change, a new
    CTIP and possibly one bundle less to those it does. *)
Record tx_effect g tx g' : Prop := {
  te_frame : same_frame p g.(t_state) g'.(t_state);
  te_slots : exists changes, ctip_changes p g.(t_state) tx = Ok changes /\
    (forall s, s ∉ map c_slot changes -> slot_state p g'.(t_state) s = slot_state p g.(t_state) s) /\
    (forall c, c ∈ changes -> exists l,
       l `sublist_of` (slot_state p g.(t_state) c.(c_slot)).(pending_withdrawals) /\
       slot_state p g'.(t_state) c.(c_slot) =
         with_ctip (with_withdrawals (slot_state p g.(t_state) c.(c_slot)) l)
           (mkOutPoint (GetHash tx) c.(c_index)) c.(new_value)) /\
    ((g'.(t_withdrawals) = g.(t_withdrawals) /\
      (forall c, c ∈ changes -> c.(old_value) < c.(new_value) /\
         c.(new_value) - c.(old_value) <= MAX_MONEY) /\
      (g'.(t_deposits) = g.(t_deposits) \/
       exists c d, c ∈ changes /\ deposit_for tx c d /\ g'.(t_deposits) = g.(t_deposits) ++ [d])) \/
     (exists c e, changes = [c] /\ c.(new_value) < c.(old_value) /\
      e ∈ (slot_state p g.(t_state) c.(c_slot)).(pending_withdrawals) /\
      p.(withdrawal_bundle_inclusion_threshold) < e.(w_votes) /\
      ComputeDrivechainM6Id tx c.(old_value) p.(treasury_opcode) = Ok (e.(m6id), c.(c_slot)) /\
      (NoDup (map m6id (slot_state p g.(t_state) c.(c_slot)).(pending_withdrawals)) ->
       e.(m6id) ∉ map m6id (slot_state p g'.(t_state) c.(c_slot)).(pending_withdrawals)) /\
      g'.(t_deposits) = g.(t_deposits) /\
      g'.(t_withdrawals) = g.(t_withdrawals) ++ [mkSuccess c.(c_slot) e.(m6id) H bh])) }.

Lemma delete_not_elem {A B} (f : A -> B) (l : list A) i e : NoDup (map f l) -> l !! i = Some e ->
  f e ∉ map f (delete i l).
Proof.
  intros Hnd Hi Hin. apply list_elem_of_fmap in Hin as (e' & Heq & Hin).
  apply list_elem_of_lookup in Hin as [j Hj]. 
  assert (Hj' : exists j', j' <> i /\ l !! j' = Some e').
  { destruct (decide (j < i)%nat).
    - exists j. rewrite list_lookup_delete_lt in Hj by done. split; [lia|done].
    - exists (S j). rewrite list_lookup_delete_ge in Hj by lia. split; [lia|done]. }
  destruct Hj' as (j' & Hne & Hl). apply Hne.
  eapply (NoDup_lookup (map f l)); [done| |]; rewrite list_lookup_fmap; [rewrite Hl|rewrite Hi]; cbn; [|done].
  by rewrite Heq.
Qed.

Lemma apply_transaction_effect g tx g' : own_apart p g.(t_state) ->
  apply_transaction p H bh ra g tx = Ok g' -> tx_effect g tx g'.
Proof.
  intros Ha Ht. unfold apply_transaction in Ht. inv_ok. rename a into changes.
  pose proof (ctip_changes_spec _ _ _ _ Ha Hok) as (Hnd & _).
  destruct changes as [|c rest].
  { inv_ok. split; [apply same_frame_refl|]. exists []. split_and!; auto.
    - intros c Hc. by apply elem_of_nil in Hc.
    - left. split_and!; auto. intros c Hc. by apply elem_of_nil in Hc. }
  destruct (negb (len _ =? 0)) eqn:Edec.
  - inv_ok. bool_simp. subst rest.
    apply apply_m6_spec in Ht as (i & e & id & Hi & Hid & Hthr & Hm6 & Hds & Hws & Hst). subst id.
    assert (Hlt : new_value c < old_value c).
    { destruct (decide (new_value c < old_value c)) as [|Hn]; [done|].
      rewrite filter_cons_False in Edec by done. done. }
    split; [rewrite Hst; apply same_frame_set|]. exists [c]. split; [done|].
    assert (Hslot : slot_state p (t_state g') (c_slot c) =
      with_ctip (with_withdrawals (slot_state p (t_state g) (c_slot c))
        (delete i (pending_withdrawals (slot_state p (t_state g) (c_slot c)))))
        (mkOutPoint (GetHash tx) (c_index c)) (new_value c)) by (by rewrite Hst, slot_state_set_eq).
    split_and!.
    + intros s Hs. cbn in Hs. apply not_elem_of_cons in Hs as [Hs _]. rewrite Hst.
      by apply slot_state_set_ne.
    + intros c' ->%list_elem_of_singleton. eexists. split; [|exact Hslot]. apply sublist_delete.
    + right. exists c, e. split_and!; auto; [by eapply list_elem_of_lookup_2|].
      intros Hn. rewrite Hslot. cbn. by eapply delete_not_elem.
  - apply apply_m5s_spec in Ht as (W & _ & F & N & C & D); [|done].
    split; [done|]. exists (c :: rest). split_and!; [done|done| |].
    + intros c' Hc'. destruct (C c' Hc') as (_ & _ & ->).
      exists (slot_state p (t_state g) (c_slot c')).(pending_withdrawals).
      by rewrite with_withdrawals_id.
    + left. split_and!; [done| |done]. intros c' Hc'. by destruct (C c' Hc') as (? & ? & _).
Qed.
End effect.

(** ** The transactions of a block *)
Section phase.
Context (p : ReplayParams) (H : Z) (bh : uint256) (ra : bool).
Implicit Types (st : DrivechainParentReplayState) (tx : CTransaction) (g : TxProgress).

(** Distinct slots own distinct CTIPs. *)
Definition ctips_distinct st : Prop := forall s1 s2 c,
  (slot_state p st s1).(ctip) = Some c -> (slot_state p st s2).(ctip) = Some c -> s1 = s2.

(** None of the transactions still to come created a current CTIP. *)
Definition ctips_fresh st (T : list uint256) : Prop := forall s c,
  (slot_state p st s).(ctip) = Some c -> c.(hash) ∉ T.

Record slots_inv st0 st (T : list uint256) : Prop := {
  sl_apart : own_apart p st;
  sl_slots : forall s, slot_inv H 2 (slot_state p st s);
  sl_proposals : forall s, proposals_ok H (slot_state p st s);
  sl_frame : same_frame p st0 st;
  sl_active : forall s, is_active (slot_state p st s) = is_active (slot_state p st0 s);
  sl_pending : forall s, (slot_state p st s).(pending_withdrawals) `sublist_of`
                         (slot_state p st0 s).(pending_withdrawals);
  sl_distinct : ctips_distinct st;
  sl_fresh : ctips_fresh st T }.

Lemma slot_inv_ctip x l o v : slot_inv H 2 x -> l `sublist_of` x.(pending_withdrawals) ->
  is_active x = true -> 0 <= v <= MAX_MONEY -> slot_inv H 2 (with_ctip (with_withdrawals x l) o v).
Proof.
  intros Hx Hl Hact Hv. pose proof (slot_inv_fewer _ _ _ _ Hx Hl) as [_ H2 H3 H4 H5].
  constructor; auto. split; [done|]. split; [intros _; exact Hact|exact Hv].
Qed.

(** The state of every slot after a transaction. *)
Lemma tx_effect_slot g tx g' s : own_apart p g.(t_state) -> tx_effect p H bh ra g tx g' ->
  slot_state p g'.(t_state) s = slot_state p g.(t_state) s \/
  exists c l, c.(c_slot) = s /\ change_ok p g.(t_state) tx c /\
    l `sublist_of` (slot_state p g.(t_state) s).(pending_withdrawals) /\
    slot_state p g'.(t_state) s = with_ctip (with_withdrawals (slot_state p g.(t_state) s) l)
      (mkOutPoint (GetHash tx) c.(c_index)) c.(new_value).
Proof.
  intros Ha [_ (changes & Hc & Hn & Hy & _)]. destruct (decide (s ∈ map c_slot changes)) as [Hin|]; [|auto].
  right. apply list_elem_of_fmap in Hin as (c & -> & Hin). destruct (Hy c Hin) as (l & Hl & Hs).
  exists c, l. split_and!; auto. by apply ctip_changes_spec in Hc as (_ & Hok & _); [apply Hok|].
Qed.

(** Two changes of one transaction with the same output are the same slot. *)
Lemma change_ok_slot st tx c1 c2 : change_ok p st tx c1 -> change_ok p st tx c2 ->
  c1.(c_index) = c2.(c_index) -> c1.(c_slot) = c2.(c_slot).
Proof.
  intros [_ _ (o1 & E1 & T1 & _)] [_ _ (o2 & E2 & T2 & _)] Heq. rewrite Heq in E1. congruence.
Qed.

Lemma slots_inv_step st0 T g tx g' : slots_inv st0 g.(t_state) (GetHash tx :: T) -> GetHash tx ∉ T ->
  tx_effect p H bh ra g tx g' -> slots_inv st0 g'.(t_state) T.
Proof.
  intros [Ha Hs Hp Hf Hact Hpe Hd Hfr] HT Heff. pose proof (te_frame _ _ _ _ _ _ _ Heff) as Hf'.
  pose proof (fun s => tx_effect_slot g tx g' s Ha Heff) as Hslot.
  assert (Hctip : forall s c, (slot_state p g'.(t_state) s).(ctip) = Some c ->
    ((slot_state p g.(t_state) s).(ctip) = Some c /\ c.(hash) ∉ GetHash tx :: T) \/
    exists ch, ch.(c_slot) = s /\ change_ok p g.(t_state) tx ch /\ c = mkOutPoint (GetHash tx) ch.(c_index)).
  { intros s c Hc. destruct (Hslot s) as [E|(ch & l & E1 & E2 & _ & E)]; rewrite E in Hc.
    - left. split; [done|]. by eapply Hfr.
    - right. injection Hc as <-. eauto. }
  split.
  - by apply Hf'.
  - intros s. destruct (Hslot s) as [->|(c & l & <- & Hc & Hl & ->)]; [done|].
    destruct Hc. by apply slot_inv_ctip.
  - intros s. destruct (Hslot s) as [->|(c & l & <- & Hc & Hl & ->)]; [done|]. exact (Hp (c_slot c)).
  - by eapply same_frame_trans.
  - intros s. rewrite <- Hact. by destruct (Hslot s) as [->|(c & l & <- & Hc & Hl & ->)].
  - intros s. etrans; [|apply Hpe]. by destruct (Hslot s) as [->|(c & l & <- & Hc & Hl & ->)].
  - intros s1 s2 c H1 H2.
    destruct (Hctip s1 c H1) as [[E1 N1]|(c1 & <- & O1 & ->)], (Hctip s2 _ H2) as [[E2 N2]|(c2 & <- & O2 & Eq)].
    + by eapply Hd.
    + subst c. destruct N1. cbn [hash]. left.
    + destruct N2. cbn [hash]. left.
    + apply (f_equal n) in Eq. cbn [n] in Eq. by eapply change_ok_slot.
  - intros s c Hc. destruct (Hctip s c Hc) as [[_ N]|(c1 & _ & _ & ->)]; [|done].
    intros Hin. apply N. by right.
Qed.

(** ** The records derived from the transactions *)
Definition success_key (w : DrivechainSuccessfulWithdrawal) : Z * uint256 := (w.(s_slot), w.(s_m6id)).

(** A successful withdrawal was pending with enough votes and no longer is. *)
Definition success_ok st0 st (w : DrivechainSuccessfulWithdrawal) : Prop :=
  w.(s_height) = H /\ w.(s_block_hash) = bh /\
  (w.(s_m6id) ∉ map m6id (slot_state p st w.(s_slot)).(pending_withdrawals)) /\
  exists e, e ∈ (slot_state p st0 w.(s_slot)).(pending_withdrawals) /\ e.(m6id) = w.(s_m6id) /\
    p.(withdrawal_bundle_inclusion_threshold) < e.(w_votes).

Definition deposit_ok (d : DrivechainMintableDeposit) : Prop :=
  ra = true /\ d.(d_block_hash) = bh /\ d.(d_block_height) = H /\ 0 < d.(d_value) <= MAX_MONEY /\
  1 <= len d.(address) <= 128 /\ d.(outpoint).(hash) <> 0 /\ 0 <= d.(outpoint).(n) < NULL_INDEX.

Definition total (ds : list DrivechainMintableDeposit) : Z := fold_right (fun d acc => d.(d_value) + acc) 0 ds.

Lemma total_app l1 l2 : total (l1 ++ l2) = total l1 + total l2.
Proof. induction l1 as [|d l1 IH]; cbn; [done|]. unfold total in *. lia. Qed.

(** The mintable deposits are backed by the growth of the treasury, up to what
    withdrawals of the configured slot took out. *)
Definition backed st0 g : Prop := exists paid, 0 <= paid /\
  (slot_state p st0 (configured_slot p)).(ctip_value) + total g.(t_deposits) <=
    (slot_state p g.(t_state) (configured_slot p)).(ctip_value) + paid /\
  (Forall (fun w => w.(s_slot) <> configured_slot p) g.(t_withdrawals) -> paid = 0).

Record records_inv st0 g (T : list uint256) : Prop := {
  ri_ws_nodup : NoDup (map success_key g.(t_withdrawals));
  ri_ws : forall w, w ∈ g.(t_withdrawals) -> success_ok st0 g.(t_state) w;
  ri_ds_nodup : NoDup (map outpoint g.(t_deposits));
  ri_ds : forall d, d ∈ g.(t_deposits) -> deposit_ok d /\ d.(outpoint).(hash) ∉ T;
  ri_backed : backed st0 g }.

Lemma NoDup_snoc {A} (l : list A) x : NoDup l -> x ∉ l -> NoDup (l ++ [x]).
Proof.
  intros Hl Hx. apply list.NoDup_app. split_and!; [done| |apply NoDup_singleton].
  by intros y Hy ->%list_elem_of_singleton.
Qed.

Lemma success_ok_shrink st0 st st' w :
  (forall s, (slot_state p st' s).(pending_withdrawals) `sublist_of` (slot_state p st s).(pending_withdrawals)) ->
  success_ok st0 st w -> success_ok st0 st' w.
Proof.
  intros Hsub (H1 & H2 & H3 & H4). split_and!; auto. intros Hin. apply H3.
  eapply elem_of_sublist; [exact Hin|]. apply sublist_map, Hsub.
Qed.

Lemma pending_shrinks g tx g' s : own_apart p g.(t_state) -> tx_effect p H bh ra g tx g' ->
  (slot_state p g'.(t_state) s).(pending_withdrawals) `sublist_of`
  (slot_state p g.(t_state) s).(pending_withdrawals).
Proof. intros Ha He. by destruct (tx_effect_slot _ _ _ s Ha He) as [->|(c & l & <- & _ & Hl & ->)]. Qed.

(** Withdrawals. *)
Lemma withdrawals_step st0 T g tx g' : slots_inv st0 g.(t_state) T ->
  tx_effect p H bh ra g tx g' ->
  NoDup (map success_key g.(t_withdrawals)) -> (forall w, w ∈ g.(t_withdrawals) -> success_ok st0 g.(t_state) w) ->
  NoDup (map success_key g'.(t_withdrawals)) /\
  (forall w, w ∈ g'.(t_withdrawals) -> success_ok st0 g'.(t_state) w).
Proof.
  intros Hsl Heff Hnd Hok. pose proof (fun s => pending_shrinks g tx g' s (sl_apart _ _ _ Hsl) Heff) as Hsh.
  assert (Hold : forall w, w ∈ t_withdrawals g -> success_ok st0 (t_state g') w).
  { intros w Hw. eapply success_ok_shrink; [|by apply Hok]. done. }
  destruct Heff as [_ (changes & _ & _ & _ & [(-> & _)|(c & e & -> & _ & He & Hthr & _ & Hout & _ & ->)])]; [done|].
  pose proof (Hout (si_nodup _ _ _ (sl_slots _ _ _ Hsl (c_slot c)))) as Hgone. split.
  - rewrite map_app. apply NoDup_snoc; [done|]. intros (w & Heq & Hw)%list_elem_of_fmap.
    unfold success_key in Heq. cbn in Heq. injection Heq as E1 E2.
    destruct (Hok w Hw) as (_ & _ & Hn & _). apply Hn. rewrite <- E1, <- E2.
    apply list_elem_of_fmap. by exists e.
  - intros w [Hw| ->%list_elem_of_singleton]%elem_of_app; [by apply Hold|].
    split_and!; cbn; [done|done|done|]. exists e. split_and!; [|done|done].
    eapply elem_of_sublist; [exact He|apply Hsl].
Qed.

(** Deposits. *)
Lemma deposit_for_ok g tx c d : change_ok p g.(t_state) tx c -> GetHash tx <> 0 ->
  len tx.(vout) <= NULL_INDEX -> 0 < c.(new_value) - c.(old_value) <= MAX_MONEY ->
  deposit_for p H bh ra tx c d -> deposit_ok d.
Proof.
  intros Hc Hh Hl Hv (_ & Hra & Ho & Hb & Hht & Hval & Hlen). destruct Hc as [_ Hi (o & Hout & _) _ _ _ _].
  apply lookup_lt_Some in Hout. unfold deposit_ok. rewrite Ho. cbn [hash n]. unfold len in Hl.
  split_and!; auto; lia.
Qed.

Lemma deposits_step T g tx g' : own_apart p g.(t_state) -> tx_effect p H bh ra g tx g' ->
  GetHash tx <> 0 -> len tx.(vout) <= NULL_INDEX -> GetHash tx ∉ T ->
  NoDup (map outpoint g.(t_deposits)) ->
  (forall d, d ∈ g.(t_deposits) -> deposit_ok d /\ d.(outpoint).(hash) ∉ GetHash tx :: T) ->
  NoDup (map outpoint g'.(t_deposits)) /\
  (forall d, d ∈ g'.(t_deposits) -> deposit_ok d /\ d.(outpoint).(hash) ∉ T).
Proof.
  intros Ha [_ (changes & Hc & _ & _ & Hcase)] Hh Hl HT Hnd Hds.
  assert (Hold : forall d, d ∈ t_deposits g -> deposit_ok d /\ hash (outpoint d) ∉ T).
  { intros d Hd. destruct (Hds d Hd) as [? Hn]. split; [done|]. intros Hin. apply Hn. by right. }
  destruct Hcase as [(_ & Hv & [->|(c & d & Hin & Hd & ->)])|(c & e & _ & _ & _ & _ & _ & _ & -> & _)]; [done| |done].
  apply ctip_changes_spec in Hc as (_ & Hok & _); [|done]. specialize (Hv c Hin) as Hv'. split.
  - rewrite map_app. apply NoDup_snoc; [done|]. intros (d' & Heq & Hd')%list_elem_of_fmap.
    destruct (Hds d' Hd') as [_ Hn]. apply Hn. rewrite <- Heq. destruct Hd as (_ & _ & -> & _).
    cbn [hash]. left.
  - intros d' [Hd'| ->%list_elem_of_singleton]%elem_of_app; [by apply Hold|].
    split; [eapply deposit_for_ok; eauto; lia|]. destruct Hd as (_ & _ & -> & _). done.
Qed.

(** Backing. *)
Lemma backed_step st0 T g tx g' : slots_inv st0 g.(t_state) T -> tx_effect p H bh ra g tx g' ->
  backed st0 g -> backed st0 g'.
Proof.
  intros Hsl [_ (changes & Hc & Hno & Hyes & Hcase)] (paid & Hp0 & Hbal & Hnone).
  apply ctip_changes_spec in Hc as (Hnd & Hok & _); [|apply Hsl].
  assert (Hold : forall c, c ∈ changes -> old_value c = ctip_value (slot_state p (t_state g) (c_slot c))).
  { intros c Hin. destruct (Hok c Hin). unfold has_ctip in *.
    pose proof (si_ctip _ _ _ (sl_slots _ _ _ Hsl (c_slot c))) as (Hn & _).
    rewrite ch_old0. case_bool_decide as Hb; [done|]. symmetry. apply Hn.
    destruct (ctip _); [by destruct Hb|done]. }
  assert (Hnew : forall c, c ∈ changes -> ctip_value (slot_state p (t_state g') (c_slot c)) = new_value c).
  { intros c Hin. by destruct (Hyes c Hin) as (l & _ & ->). }
  destruct Hcase as [(Hw & Hv & Hd)|(c & e & -> & Hlt & _ & _ & _ & _ & Hds & Hws)].
  - exists paid. rewrite Hw. split_and!; [done| |done].
    destruct Hd as [->|(c & d & Hin & (Hs & _ & _ & _ & _ & Hval & _) & ->)].
    + destruct (decide (configured_slot p ∈ map c_slot changes)) as [Hin|Hn]; [|by rewrite (Hno _ Hn)].
      apply list_elem_of_fmap in Hin as (c & Hs & Hin). rewrite Hs in *.
      rewrite (Hnew c Hin). pose proof (Hold c Hin). pose proof (Hv c Hin). lia.
    + rewrite total_app. cbn. rewrite <- Hs in *. rewrite (Hnew c Hin). pose proof (Hold c Hin). lia.
  - assert (Hin : c ∈ [c]) by left. pose proof (Hold c Hin) as Ho. pose proof (Hnew c Hin) as Hn.
    unfold backed. rewrite Hds, Hws. destruct (decide (c_slot c = configured_slot p)) as [Hs|Hs].
    + exists (paid + (old_value c - new_value c)). rewrite <- Hs in *. rewrite Hn. split_and!; [lia|lia|].
      intros Hall. apply Forall_app in Hall as [_ Hall]. by inversion_clear Hall.
    + exists paid. rewrite (Hno (configured_slot p)) by (cbn; intros Hc%list_elem_of_singleton; congruence).
      split_and!; [done|done|]. intros Hall. apply Hnone. by apply Forall_app in Hall as [? _].
Qed.

(** ** All transactions of a block *)
Definition txs_fresh (txs : list CTransaction) : Prop :=
  NoDup (map GetHash txs) /\ Forall (fun tx => GetHash tx <> 0 /\ len tx.(vout) <= NULL_INDEX) txs.

Lemma transactions_inv st0 txs g g' : txs_fresh txs ->
  slots_inv st0 g.(t_state) (map GetHash txs) -> records_inv st0 g (map GetHash txs) ->
  foldM (apply_transaction p H bh ra) g txs = Ok g' ->
  slots_inv st0 g'.(t_state) [] /\ records_inv st0 g' [].
Proof.
  revert g. induction txs as [|tx txs IH]; intros g [Hnd Hall] Hsl Hri Hf.
  { cbn in Hf. by injection Hf as <-. }
  cbn [foldM] in Hf. destruct (apply_transaction _ _ _ _ _ _) as [g1|] eqn:E; [|done].
  apply apply_transaction_effect in E; [|apply Hsl]. cbn [map] in *.
  apply list.NoDup_cons in Hnd as [Hn Hnd]. apply Forall_cons_1 in Hall as [[Hh Hl] Hall].
  destruct Hri as [R1 R2 R3 R4 R5].
  pose proof (withdrawals_step _ _ _ _ _ Hsl E R1 R2) as [W1 W2].
  pose proof (deposits_step _ _ _ _ (sl_apart _ _ _ Hsl) E Hh Hl Hn R3 R4) as [D1 D2].
  pose proof (backed_step _ _ _ _ _ Hsl E R5) as B.
  apply (slots_inv_step _ _ _ _ _ Hsl Hn) in E. by apply IH in Hf.
Qed.

(** A recorded withdrawal is paid by a transaction with its M6 id. *)
Lemma withdrawals_from txs g g' w : own_apart p g.(t_state) ->
  foldM (apply_transaction p H bh ra) g txs = Ok g' -> w ∈ g'.(t_withdrawals) ->
  w ∈ g.(t_withdrawals) \/
  exists tx v, tx ∈ txs /\ ComputeDrivechainM6Id tx v p.(treasury_opcode) = Ok (w.(s_m6id), w.(s_slot)).
Proof.
  revert g. induction txs as [|tx txs IH]; intros g Ha Hf Hw.
  { cbn in Hf. injection Hf as <-. by left. }
  cbn [foldM] in Hf. destruct (apply_transaction _ _ _ _ _ _) as [g1|] eqn:E; [|done].
  apply apply_transaction_effect in E; [|done].
  destruct (IH g1) as [Hg|(tx' & v & Hin & Hid)]; auto.
  - by destruct E as [(_ & _ & _ & _ & Hk) _]; apply Hk.
  - destruct E as [_ (changes & _ & _ & _ & [(E & _)|(c & e & _ & _ & _ & _ & Hid & _ & _ & E)])]; rewrite E in Hg.
    + by left.
    + apply elem_of_app in Hg as [Hg| ->%list_elem_of_singleton]; [by left|].
      right. exists tx, (old_value c). split; [left|done].
  - right. exists tx', v. split; [by right|done].
Qed.
End phase.
