(* ===== verification/ParentTheorems.v ===== *)
(** * The parent rules, operation by operation

    Theorems on single operations of the parent-chain state machine: M4 votes,
    the leader scan, the two readers of M7 commitments, treasury transactions,
    and the agreement between the M6 a sidechain burn asks for
    (drivechain_withdrawal.cpp) and the M6 id the parent replay derives
    (mainchainrpc.cpp). *)

From S2P Require Import Prelude Sha256 Script Transaction Confidential Withdrawal ParentMessage.
From S2P Require Import ParentState ParentFacts TreasuryFacts.

(** ** M4 votes *)
(** What an upvote means: one more for the target, one less for the others. *)
Definition revote_for (id : uint256) (e : DrivechainPendingWithdrawal) : DrivechainPendingWithdrawal :=
  mkPending e.(ParentState.m6id) e.(w_height)
    (if e.(ParentState.m6id) =? id then e.(w_votes) + 1 else Z.max 0 (e.(w_votes) - 1)).

Lemma down_revote id e : vote_typed e -> e.(ParentState.m6id) <> id -> down e = revote_for id e.
Proof.
  intros Ht Hn. unfold down, revote_for, vote_typed in *. rewrite (proj2 (Z.eqb_neq _ _) Hn).
  destruct e as [a b v]. cbn in *. destruct (Z.ltb_spec 0 v); f_equal; lia.
Qed.

Lemma upvote_at_revote id i l e : NoDup (map ParentState.m6id l) -> Forall vote_typed l ->
  l !! i = Some e -> e.(ParentState.m6id) = id -> e.(w_votes) <> UINT16_MAX ->
  upvote_at i l = map (revote_for id) l.
Proof.
  revert i. induction l as [|x l IH]; intros i Hnd Ht Hi He Hv; [done|].
  cbn [map] in Hnd. apply list.NoDup_cons in Hnd as [Hx Hnd]. apply Forall_cons_1 in Ht as [Htx Ht].
  destruct i as [|i]; cbn in Hi; cbn [upvote_at map].
  - injection Hi as ->. f_equal.
    + unfold revote_for. rewrite He, Z.eqb_refl. f_equal. unfold vote_typed, UINT16_MAX in *.
      unfold u16. rewrite Z.mod_small; lia.
    + apply map_ext_in. intros y Hy. apply list_elem_of_In in Hy. rewrite list.Forall_forall in Ht.
      apply down_revote; [by apply Ht|]. intros E. apply Hx. rewrite He, <- E. apply list_elem_of_fmap. by exists y.
  - f_equal; [|by apply IH]. apply down_revote; [done|]. intros E. apply Hx. rewrite E, <- He.
    apply list_elem_of_fmap. exists e. split; [done|]. by eapply list_elem_of_lookup_2.
Qed.

(** The votes at the maximum of a list, 0 for the empty list. *)
Definition max_votes (l : list DrivechainPendingWithdrawal) : Z := fold_right (fun e m => Z.max e.(w_votes) m) 0 l.

(** [i] is the first entry with the most votes, [s] the most votes of the others. *)
Definition leads (l : list DrivechainPendingWithdrawal) (i : nat) (s : Z) : Prop :=
  exists e, l !! i = Some e /\ s = max_votes (delete i l) /\
    (forall j x, l !! j = Some x -> x.(w_votes) <= e.(w_votes)) /\
    (forall j x, (j < i)%nat -> l !! j = Some x -> x.(w_votes) < e.(w_votes)).

Lemma max_votes_app l1 l2 : Forall vote_typed l1 -> Forall vote_typed l2 ->
  max_votes (l1 ++ l2) = Z.max (max_votes l1) (max_votes l2).
Proof.
  intros H1 H2. induction H1 as [|e l1 He _ IH]; cbn.
  - symmetry. apply Z.max_r. clear -H2. induction H2 as [|e l He _ IH]; cbn; unfold vote_typed in *; lia.
  - unfold max_votes in *. lia.
Qed.

Lemma max_votes_nonneg l : 0 <= max_votes l.
Proof. induction l as [|e l IH]; cbn; unfold max_votes in *; lia. Qed.

Lemma max_votes_delete l i e : Forall vote_typed l -> l !! i = Some e ->
  max_votes l = Z.max e.(w_votes) (max_votes (delete i l)).
Proof.
  intros Ht Hi. revert i Hi. induction Ht as [|x l Hx Hl IH]; intros i Hi; [done|].
  destruct i as [|i]; cbn in Hi.
  - by injection Hi as ->.
  - specialize (IH i Hi). change (delete (S i) (x :: l)) with (x :: delete i l).
    unfold max_votes in *. cbn. rewrite IH. lia.
Qed.

Lemma leads_step pre x i s : Forall vote_typed (pre ++ [x]) -> leads pre i s ->
  forall l, (exists t, l = (pre ++ [x]) ++ t) ->
  let '(i', s') := leader_step l (i, s) (length pre, x) in leads (pre ++ [x]) i' s'.
Proof.
  intros Ht (e & Hi & Hs & Hmax & Hfirst) l [t ->].
  apply Forall_app in Ht as [Hpre Hx]. pose proof (lookup_lt_Some _ _ _ Hi) as Hlt.
  assert (Hat : ((pre ++ [x]) ++ t) !! i = Some e) by (by rewrite <- app_assoc; apply lookup_app_l_Some).
  unfold leader_step. rewrite Hat. cbn [from_option]. destruct (Z.ltb_spec (w_votes e) (w_votes x)) as [Hl|Hl].
  - exists x. split_and!.
    + rewrite lookup_app_r by lia. by rewrite Nat.sub_diag.
    + rewrite (delete_middle pre [] x), app_nil_r, (max_votes_delete pre i e) by done. lia.
    + intros j y [Hy|[_ ->%list_elem_of_lookup_2%list_elem_of_singleton]]%lookup_app_Some; [|lia].
      specialize (Hmax j y Hy). lia.
    + intros j y Hj Hy. rewrite lookup_app_l in Hy by done. specialize (Hmax j y Hy). lia.
  - exists e. split_and!.
    + by apply lookup_app_l_Some.
    + rewrite delete_take_drop, take_app_le, drop_app_le by lia. rewrite app_assoc, <- delete_take_drop.
      assert (Hd : Forall vote_typed (delete i pre)) by (by apply Forall_delete).
      rewrite max_votes_app, <- Hs by done. cbn. pose proof (max_votes_nonneg (delete i pre)).
      inversion_clear Hx as [|? ? Hv _]. unfold vote_typed in Hv. lia.
    + intros j y [Hy|[_ ->%list_elem_of_lookup_2%list_elem_of_singleton]]%lookup_app_Some; [|lia].
      by apply (Hmax j).
    + intros j y Hj Hy. rewrite lookup_app_l in Hy by lia. by apply (Hfirst j).
Qed.

Lemma leads_fold l suf pre i s : l = pre ++ suf -> Forall vote_typed l -> leads pre i s ->
  let '(i', s') := fold_left (leader_step l) (imap (fun k x => ((length pre + k)%nat, x)) suf) (i, s) in
  leads l i' s'.
Proof.
  revert pre i s. induction suf as [|x suf IH]; intros pre i s El Ht Hl; cbn [imap fold_left].
  { subst l. by rewrite app_nil_r. }
  rewrite Nat.add_0_r.
  assert (El' : l = (pre ++ [x]) ++ suf) by (by rewrite <- app_assoc).
  assert (Ht' : Forall vote_typed (pre ++ [x])) by (rewrite El' in Ht; by apply Forall_app in Ht as [? _]).
  pose proof (leads_step pre x i s Ht' Hl l (ex_intro _ suf El')) as Hst.
  destruct (leader_step l (i, s) (length pre, x)) as [i' s'].
  specialize (IH (pre ++ [x]) i' s' El' Ht Hst). rewrite length_app in IH. cbn [length] in IH.
  erewrite imap_ext; [exact IH|]. intros k y _. cbn. f_equal. lia.
Qed.

(**  An M4 upvote of a pending bundle gives that bundle one vote and
    takes one, down to zero, from every other bundle of the slot; it changes
    nothing when the bundle already has the maximal count, and it is an error
    exactly when the bundle is not pending. *)
Theorem M4_upvote_effect (l : list DrivechainPendingWithdrawal) (id : uint256) :
  NoDup (map ParentState.m6id l) -> Forall vote_typed l ->
  match ApplyM4Upvote l id with
  | Ok (l', None) => l' = l /\ exists e, e ∈ l /\ e.(ParentState.m6id) = id /\ e.(w_votes) = UINT16_MAX
  | Ok (l', Some a) => a = mkAction UPVOTE id /\ id ∈ map ParentState.m6id l /\
      l' = map (revote_for id) l /\ Forall vote_typed l'
  | Err _ => id ∉ map ParentState.m6id l
  end.
Proof.
  intros Hnd Ht. unfold ApplyM4Upvote. destruct (find_m6 id l) as [[i e]|] eqn:Ef.
  - apply find_m6_Some in Ef as Hf. destruct Hf as (Hi & He & _).
    pose proof (list_elem_of_lookup_2 _ _ _ Hi) as Hin.
    destruct (Z.eqb_spec (w_votes e) UINT16_MAX) as [Hv|Hv].
    + split; [done|]. by exists e.
    + rewrite (upvote_at_revote id i l e) by done. split_and!; [done| |done|].
      * apply list_elem_of_fmap. by exists e.
      * rewrite list.Forall_forall in Ht |- *. intros y (x & -> & Hx)%list_elem_of_fmap.
        specialize (Ht x Hx). unfold vote_typed, revote_for in *. cbn.
        destruct (Z.eqb_spec (ParentState.m6id x) id) as [Hid|Hid]; [|lia].
        assert (x = e) as ->; [|lia]. by eapply (NoDup_map_inj _ _ x e Hnd); [| |rewrite Hid].
  - intros (e & -> & Hin)%list_elem_of_fmap. unfold find_m6 in Ef. apply list_find_None in Ef.
    rewrite list.Forall_forall in Ef. by apply (Ef e).
Qed.

(**  The leader scan of a LEADING_BY_50 vote finds the first bundle
    with the most votes, and the runner-up count it returns is the most votes
    of the others. *)
Theorem leader_scan_spec (l : list DrivechainPendingWithdrawal) : l <> [] -> Forall vote_typed l ->
  let '(i, s) := leader_scan l in leads l i s.
Proof.
  destruct l as [|x l]; [done|]. intros _ Ht. unfold leader_scan. cbn [imap drop].
  pose proof (leads_fold (x :: l) l [x] 0 0 eq_refl Ht) as Hf. cbn [length] in Hf. apply Hf.
  exists x. split_and!; [done|done| |lia]. intros [|j] y Hy; [by injection Hy as ->|done].
Qed.

(** ** Two readers of M7 *)
Definition m7_for (s : Z) (m : DrivechainParentMessage) : Prop := is_m7 m /\ m.(slot) = s.
#[global] Instance m7_for_dec s m : Decision (m7_for s m).
Proof. unfold m7_for. apply _. Defined.

Lemma has_tag_eq tag payload : has_tag tag payload = true <-> take (length tag) payload = tag.
Proof. unfold has_tag. apply bytes_eqb_eq. Qed.

Lemma other_tag tag payload : length tag = 4%nat -> tag <> M7_TAG -> has_tag M7_TAG payload = true ->
  has_tag tag payload = false.
Proof.
  intros Hl Hne Ht. destruct (has_tag tag payload) eqn:E; [|done]. apply has_tag_eq in E, Ht.
  destruct Hne. rewrite <- E, <- Ht. by rewrite Hl.
Qed.

(** The message parser and the block matcher agree on one script. *)
Lemma M7_commitment_parse s script : 0 <= s <= 255 ->
  let m := ParseDrivechainParentMessage script in
  M7_commitment s script = if decide (m7_for s m) then Some m.(proposal_hash) else None.
Proof.
  intros Hs. cbv zeta. unfold M7_commitment, ParseDrivechainParentMessage.
  assert (Hno : forall m, m.(type) <> BMM_ACCEPT ->
    (if decide (m7_for s m) then Some m.(proposal_hash) else None) = None).
  { intros m Hm. rewrite decide_False; [done|]. by intros [? _]. }
  destruct (ExtractSingleOpReturnPush script) as [pl|]; [|by rewrite Hno].
  assert (E8 : u8 s = s) by (unfold u8; rewrite Z.mod_small; lia). rewrite E8.
  destruct (has_tag M7_TAG pl) eqn:E7.
  - rewrite (other_tag M1_TAG pl), (other_tag M2_TAG pl), (other_tag M3_TAG pl), (other_tag M4_TAG pl) by done.
    rewrite !andb_false_r, andb_true_r. destruct (Z.eqb_spec (len pl) 37) as [El|El]; cbn [negb orb].
    + rewrite (proj2 (Z.ltb_ge _ _)) by lia. destruct (Z.eqb_spec (at_ pl 4) s); cbn [negb].
      * by rewrite decide_True by (by split).
      * rewrite decide_False; [done|]. by intros [_ ?].
    + rewrite Hno; [done|]. by destruct (_ <? _).
  - rewrite orb_true_r, orb_true_l, andb_false_r. rewrite Hno; [done|].
    destruct (_ <? _); [done|]. destruct (has_tag M1_TAG pl); [done|].
    destruct (_ && _); [done|]. destruct (_ && _); [done|]. destruct (has_tag M4_TAG pl); [|done].
    unfold ParseM4. repeat case_match; done.
Qed.

(** The M7 messages for one slot. *)
Definition m7_hits (s : Z) (outs : list CTxOut) : list DrivechainParentMessage :=
  filter (m7_for s) (map (fun o => ParseDrivechainParentMessage o.(scriptPubKey)) outs).

Lemma M7_fold s k outs acc : 0 <= s <= 255 ->
  let '(matches, index, h) := fold_left (fun '(matches, index, h) '(i, o) =>
      match M7_commitment s o.(scriptPubKey) with
      | None => (matches, index, h)
      | Some c => (matches + 1, u32 (Z.of_nat i), c)
      end) (imap (fun i o => ((k + i)%nat, o)) outs) acc in
  matches = acc.1.1 + len (m7_hits s outs) /\
  ((m7_hits s outs = [] /\ (index, h) = (acc.1.2, acc.2)) \/
   exists j o, outs !! j = Some o /\ index = u32 (Z.of_nat (k + j)) /\
     M7_commitment s o.(scriptPubKey) = Some h).
Proof.
  intros Hs. revert k acc. induction outs as [|o outs IH]; intros k [[ma ix] hh].
  { cbn. unfold len. cbn. split; [lia|by left]. }
  cbn [imap fold_left]. rewrite Nat.add_0_r.
  erewrite (imap_ext _ (fun i o => ((S k + i)%nat, o))) by (intros; cbn; f_equal; lia).
  unfold m7_hits. cbn [map]. rewrite filter_cons.
  pose proof (M7_commitment_parse s (scriptPubKey o) Hs) as Hp. cbv zeta in Hp.
  destruct (decide (m7_for s _)) as [Hm|Hm]; rewrite Hp.
  - specialize (IH (S k) (ma + 1, u32 (Z.of_nat k), proposal_hash (ParseDrivechainParentMessage (scriptPubKey o)))).
    destruct (fold_left _ _ _) as [[m i] h]. destruct IH as [-> IH]. cbn [fst snd] in *. split.
    { unfold len, m7_hits. cbn [length]. lia. }
    right. destruct IH as [[_ [= -> ->]]|(j & o' & Hj & Hi & Hh)].
    + exists O, o. split_and!; [done|by rewrite Nat.add_0_r|done].
    + exists (S j), o'. split_and!; [done| |done]. rewrite Hi. f_equal. lia.
  - specialize (IH (S k) (ma, ix, hh)).
    destruct (fold_left _ _ _) as [[m i] h]. destruct IH as [-> IH]. cbn [fst snd] in *. split; [done|].
    destruct IH as [?|(j & o' & Hj & Hi & Hh)]; [by left|right].
    exists (S j), o'. split_and!; [done| |done]. rewrite Hi. f_equal. lia.
Qed.

Lemma elem_of_m7_hits s outs m : m ∈ m7_hits s outs <-> m ∈ filter is_m7 (parsed outs) /\ m.(slot) = s.
Proof.
  unfold m7_hits, parsed, m7_for. rewrite !list_elem_of_filter. unfold is_m7.
  split; [intros ([? ?] & ?)|intros ((? & ? & ?) & ?)]; split_and!; auto. congruence.
Qed.

Lemma m7_hits_sublist s outs : map slot (m7_hits s outs) `sublist_of` map slot (filter is_m7 (parsed outs)).
Proof.
  apply sublist_map. unfold m7_hits, parsed.
  induction (map (fun o => ParseDrivechainParentMessage o.(scriptPubKey)) outs) as [|m l IH]; [done|].
  rewrite !filter_cons. destruct (decide (m7_for s m)) as [[Hm Hsl]|Hm].
  - rewrite decide_True by (rewrite Hm; done). rewrite filter_cons_True by done. by constructor.
  - case_decide; [|done]. rewrite filter_cons. case_decide; [by constructor|done].
Qed.

Lemma m7_hits_slots s outs : Forall (fun x => x = s) (map slot (m7_hits s outs)).
Proof.
  apply list.Forall_forall. intros x (m & -> & Hm)%list_elem_of_fmap. by apply elem_of_m7_hits in Hm as [_ ?].
Qed.

Lemma NoDup_const {A} (a : A) (l : list A) : NoDup l -> Forall (fun x => x = a) l -> (length l <= 1)%nat.
Proof.
  intros Hn Hl. destruct l as [|x [|y l]]; cbn; [lia|lia|].
  inversion_clear Hl as [|? ? Hx Hl']. inversion_clear Hl' as [|? ? Hy _]. subst.
  apply list.NoDup_cons in Hn as [Hn _]. destruct Hn. left.
Qed.

(**  In a block whose coinbase messages are accepted, the commitment map
    that the M8 requests are checked against and the canonical BMM commitment
    extracted for the replayed edge are the same function of the slot. *)
Theorem M7_readers_agree (block : CBlock) (s : Z) (sc : MessageScan) (h : uint256) :
  has_coinbase block = true -> 0 <= s <= 255 ->
  foldM scan_output scan_empty (coinbase_outputs block) = Ok sc ->
  sc.(accepted_bmm_requests) !! s = Some h <->
  exists i, ExtractCanonicalDrivechainBmmCommitmentInBlock block s = Ok (h, i).
Proof.
  intros Hcb Hs Hsc. apply scan_spec in Hsc as [[_ _ Hnd Hacc] Hms]. rewrite Hms in *. rewrite Hacc.
  unfold ExtractCanonicalDrivechainBmmCommitmentInBlock. rewrite Hcb, ensure_bind by lia.
  cbn [ensure mbind result_bind].
  pose proof (M7_fold s 0 (coinbase_outputs block) (0, 0, 0) Hs) as Hf. unfold M7_scan.
  rewrite (imap_ext _ (fun i o => ((0 + i)%nat, o))) by done.
  destruct (fold_left _ _ _) as [[ma ix] hh]. destruct Hf as [-> Hf]. cbn [fst snd] in *.
  set (hits := m7_hits s (coinbase_outputs block)) in *.
  assert (Hle : (length hits <= 1)%nat).
  { rewrite <- (length_map slot). eapply NoDup_const; [|apply m7_hits_slots].
    eapply sublist_NoDup; [exact Hnd|apply m7_hits_sublist]. }
  assert (Hin : forall m, m ∈ hits <-> m ∈ filter is_m7 (parsed (coinbase_outputs block)) /\ slot m = s)
    by (intros; apply elem_of_m7_hits).
  destruct hits as [|m [|? ?]] eqn:Eh; [| |cbn in Hle; lia].
  - split; [|by intros [i Hi]]. intros (m & Hm & Hsl & _).
    exfalso. apply (not_elem_of_nil m), Hin. done.
  - cbn. destruct Hf as [[? _]|(j & o & Ho & _ & Hh)]; [done|].
    rewrite M7_commitment_parse in Hh by done. case_decide as Hm7; [|done]. injection Hh as Hh.
    assert (Hom : ParseDrivechainParentMessage (scriptPubKey o) = m).
    { apply list_elem_of_singleton. rewrite <- Eh. apply list_elem_of_filter. split; [done|].
      apply list_elem_of_fmap. exists o. split; [done|]. by eapply list_elem_of_lookup_2. }
    rewrite Hom in Hh. split.
    + intros (m' & Hm' & Hsl & <-). exists ix.
      assert (m' = m) as -> by (by apply list_elem_of_singleton, Hin). by rewrite <- Hh.
    + intros [i [= <- _]]. exists m. rewrite <- Hh. split; [|split; [|done]]; apply (Hin m); left.
Qed.

(** ** Treasury transactions *)
(** C22.  A transaction the replay accepts moves a treasury only by its
    rules: it leaves a slot whose CTIP it does not spend as it was, and if it
    spends the CTIP of an active slot then one of its outputs is the slot's
    treasury script, becomes the CTIP with that output's value, and the value
    either grows by a valid amount or, as the transaction's only change,
    shrinks by paying a pending bundle whose votes exceed the threshold and
    whose id is the transaction's M6 id. *)
Theorem treasury_moves_by_rule p H bh ra g tx g' s c :
  own_apart p g.(t_state) -> apply_transaction p H bh ra g tx = Ok g' ->
  is_active (slot_state p g.(t_state) s) = true -> (slot_state p g.(t_state) s).(ctip) = Some c ->
  if bool_decide (c ∈ map prevout tx.(vin)) then
    exists i o, tx.(vout) !! i = Some o /\
      ExtractTreasurySlot o.(scriptPubKey) p.(treasury_opcode) = Some s /\
      (slot_state p g'.(t_state) s).(ctip) = Some (mkOutPoint (GetHash tx) (Z.of_nat i)) /\
      (slot_state p g'.(t_state) s).(ctip_value) = o.(nValue) /\
      let old := (slot_state p g.(t_state) s).(ctip_value) in
      (0 < o.(nValue) - old <= MAX_MONEY \/
       o.(nValue) < old /\
       exists e, e ∈ (slot_state p g.(t_state) s).(pending_withdrawals) /\
         p.(withdrawal_bundle_inclusion_threshold) < e.(w_votes) /\
         ComputeDrivechainM6Id tx old p.(treasury_opcode) = Ok (e.(ParentState.m6id), s) /\
         (forall s', s' <> s -> slot_state p g'.(t_state) s' = slot_state p g.(t_state) s'))
  else slot_state p g'.(t_state) s = slot_state p g.(t_state) s.
Proof.
  intros Ha Ht Hact Hc. apply apply_transaction_effect in Ht as [_ Hch]; [|done].
  destruct Hch as (changes & Hchg & Hno & Hyes & Hcase).
  destruct (ctip_changes_spec _ _ _ _ Ha Hchg) as (_ & Hok & Hcov).
  case_bool_decide as Hin.
  - pose proof (Hcov s c Hact Hc Hin) as (k & -> & Hk)%list_elem_of_fmap.
    destruct (Hok k Hk) as [_ Hix (o & Ho & Hex & Hv) _ Hold _ _].
    unfold has_ctip in Hold. rewrite Hc, bool_decide_eq_true_2 in Hold by done.
    destruct (Hyes k Hk) as (l & _ & Hst). exists (Z.to_nat (c_index k)), o. rewrite Hst. cbn [ctip ctip_value with_ctip].
    rewrite Z2Nat.id, <- Hold, Hv by done. split_and!; auto.
    destruct Hcase as [(_ & Hinc & _)|(k' & e & -> & Hdec & He & Hthr & Hid & _)].
    + left. destruct (Hinc k Hk). lia.
    + right. apply list_elem_of_singleton in Hk as ->. split; [done|]. exists e. split_and!; auto.
      intros s' Hs'. apply Hno. cbn. by rewrite list_elem_of_singleton.
  - apply Hno. intros (k & -> & Hk)%list_elem_of_fmap. apply Hin. by apply (ch_spent _ _ _ _ (Hok k Hk)).
Qed.

(** ** The bundle a burn asks for and the bundle the parent pays *)
(** C21.  Take the M6 that the sidechain derives from an accepted burn and
    any transaction that spends a treasury worth [v] with it: same payouts,
    the treasury output put in front with the burned amount taken off.  The
    parent replay computes for that transaction exactly the id that the
    sidechain announced. *)
Theorem payout_has_announced_id g slot txid vo w m6 i script opcode s v :
  BuildNativeWithdrawalM6 g slot txid vo w = Ok m6 ->
  ExtractTreasurySlot script opcode = Some s ->
  w.(burn_amount) <= v <= MAX_MONEY ->
  ComputeDrivechainM6Id
    (mkTx [i] (mkTxOut (v - w.(burn_amount)) script :: drop 1 m6.(blinded_transaction).(vout)) CURRENT_VERSION 0)
    v opcode = Ok (m6.(Withdrawal.m6id), s).
Proof.
  intros (_ & _ & _ & (Hf & Hp & Hm & _) & _ & ->)%BuildNativeWithdrawalM6_Ok Hs Hv.
  unfold ComputeDrivechainM6Id. cbn [Transaction.vout m6_of blinded_transaction blinded_m6_tx drop scriptPubKey nValue].
  rewrite Hs. change (len (vin _)) with 1.
  rewrite ensure_bind by done. unfold MoneyRange. rewrite ensure_bind by lia.
  cbn [payout_total nValue]. unfold MoneyRange.
  rewrite !ensure_bind by lia. cbn [mbind result_bind]. rewrite ensure_bind by lia.
  replace (v - (v - burn_amount w) - (0 + 0 + (burn_amount w - parent_fee w))) with (parent_fee w) by lia.
  reflexivity.
Qed.

(** ** Instances of the theorems *)
Definition sample_bundles : list DrivechainPendingWithdrawal := [mkPending 5 1 3; mkPending 6 1 60; mkPending 7 2 0].

Lemma sample_bundles_typed : Forall vote_typed sample_bundles.
Proof. repeat constructor; vm_compute; discriminate. Qed.

Lemma sample_bundles_nodup : NoDup (map ParentState.m6id sample_bundles).
Proof. by apply (bool_decide_unpack _). Qed.

Lemma M4_upvote_effect_witness :
  ApplyM4Upvote sample_bundles 5 =
    Ok ([mkPending 5 1 4; mkPending 6 1 59; mkPending 7 2 0], Some (mkAction UPVOTE 5)) /\
  Forall vote_typed (map (revote_for 5) sample_bundles).
Proof.
  split; [reflexivity|].
  pose proof (M4_upvote_effect sample_bundles 5 sample_bundles_nodup sample_bundles_typed) as H.
  destruct H as (_ & _ & _ & H). exact H.
Defined.

Lemma leader_scan_spec_witness : leader_scan sample_bundles = (1%nat, 3) /\ leads sample_bundles 1 3.
Proof.
  split; [reflexivity|]. apply (leader_scan_spec sample_bundles); [discriminate|exact sample_bundles_typed].
Defined.

Definition sample_m7_block : CBlock :=
  mkBlock (mkHeader 1 0 0 0 0 0)
    [mkTx [mkTxIn (mkOutPoint 0 NULL_INDEX) [] 0 []]
       [mkTxOut 0 (BuildSinglePushScript (M7_TAG ++ [24] ++ uint256_bytes (2^255 + 9)))] 2 0].

Lemma M7_readers_agree_witness : exists sc h,
  foldM scan_output scan_empty (coinbase_outputs sample_m7_block) = Ok sc /\
  sc.(accepted_bmm_requests) !! 24 = Some h.
Proof.
  eexists. eexists. split; [vm_compute; reflexivity|].
  apply (M7_readers_agree sample_m7_block 24).
  - reflexivity.
  - split; discriminate.
  - vm_compute. reflexivity.
  - eexists. vm_compute. reflexivity.
Defined.

Definition sample_params : ReplayParams := mkParams 24 7 10 2 10 2 10 2 NOP8 SEQUENTIAL_M6.
Definition sample_treasury (v : Z) : CTxOut := mkTxOut v [0xb7; 1; 24; 0x51].
Definition sample_deposit_tx : CTransaction :=
  mkTx [mkTxIn (mkOutPoint 9 0) [] 0 []] [sample_treasury 1500; mkTxOut 0 (BuildSinglePushScript [65; 66])] 2 0.
Definition sample_progress : TxProgress :=
  mkTxProgress (mkState (mkSlot 7 ∅ [] (Some (mkOutPoint 9 0)) 1000) true 3 33 ∅ ∅) false [] [].

Lemma treasury_moves_by_rule_witness : exists g',
  apply_transaction sample_params 7 101 true sample_progress sample_deposit_tx = Ok g' /\
  (slot_state sample_params g'.(t_state) 24).(ctip_value) = 1500.
Proof.
  assert (Hr : exists g', apply_transaction sample_params 7 101 true sample_progress sample_deposit_tx = Ok g')
    by (eexists; vm_compute; reflexivity).
  destruct Hr as [g' Hg]. exists g'. split; [exact Hg|].
  pose proof (treasury_moves_by_rule sample_params 7 101 true sample_progress sample_deposit_tx g' 24
    (mkOutPoint 9 0) eq_refl Hg eq_refl eq_refl) as H.
  rewrite bool_decide_eq_true_2 in H by left.
  destruct H as (i & o & Ho & Hs & _ & Hv & _). rewrite Hv.
  destruct i as [|[|i]]; cbn in Ho; [|injection Ho as <-; discriminate Hs|discriminate Ho].
  injection Ho as <-. reflexivity.
Defined.

Lemma payout_has_announced_id_witness : exists id,
  ComputeDrivechainM6Id (mkTx [mkTxIn (mkOutPoint 9 0) [] 0 []]
    (mkTxOut 4000 [0xb7; 1; 24; 0x51] :: drop 1 (blinded_m6_tx 5 24 6 1 10 990 [0; 1; 33]).(vout)) CURRENT_VERSION 0)
    5000 NOP8 = Ok (id, 24).
Proof.
  exists ((m6_of 5 24 6 1 10 990 [0; 1; 33]).(Withdrawal.m6id)).
  apply (payout_has_announced_id 5 24 6 1 sample_withdrawal (m6_of 5 24 6 1 10 990 [0; 1; 33])
    (mkTxIn (mkOutPoint 9 0) [] 0 []) [0xb7; 1; 24; 0x51] NOP8 24 5000).
  - vm_compute. reflexivity.
  - reflexivity.
  - split; discriminate.
Defined.
