(* ===== verification/ReplayStore.v ===== *)
(** * The persistent replay store (src/src/drivechain_parent_replay.{h,cpp})

    The derived LevelDB index of the parent replay.  The database is a map per
    record prefix; a stored value is either a record or bytes that do not
    deserialize.  [CDBWrapper::WriteBatch] applies the whole batch or throws
    and applies nothing; which of the two happens is the argument [io]. *)

From S2P Require Import Prelude Sha256 Script Transaction ParentMessage ParentState.

Record DrivechainParentReplayTip := mkTip {
  tip_height : Z; tip_hash : uint256; tip_state : DrivechainParentReplayState }.

Record DrivechainReplayedBmmEdge := mkEdge {
  successor_hash : uint256; parent_height : Z; successor_height : Z;
  has_canonical_commitment : bool; committed_sidechain_hash : uint256 }.

Definition SCHEMA_VERSION : Z := 4.
Definition REPROPOSAL_SCHEMA_VERSION : Z := 5.

Definition StoreSchemaVersion (rule : DrivechainWithdrawalHistoryRule) : Z :=
  match rule with UNIQUE_M6ID => SCHEMA_VERSION | ALLOW_REPROPOSAL => REPROPOSAL_SCHEMA_VERSION end.

(** ** Serialization of the replay state *)
Definition ser_bool (b : bool) : bytes := [if b then 1 else 0].
Definition ser_map {A} (key : Z -> bytes) (val : A -> bytes) (m : gmap Z A) : bytes :=
  ser_vector (fun e => key e.1 ++ val e.2) (map_ascending m).

Definition ser_proposal (pr : DrivechainPendingProposal) : bytes :=
  le_encode 4 pr.(p_height) ++ le_encode 4 pr.(p_votes).
Definition ser_pending (e : DrivechainPendingWithdrawal) : bytes :=
  uint256_bytes e.(m6id) ++ le_encode 4 e.(w_height) ++ le_encode 2 e.(w_votes).
Definition ser_action (a : DrivechainM4Action) : bytes := [u8 a.(a_type)] ++ uint256_bytes a.(a_m6id).
Definition ser_ctip (c : option COutPoint) : bytes :=
  ser_bool (bool_decide (is_Some c)) ++ from_option ser_outpoint [] c.

Definition ser_slot (x : DrivechainOtherSlotReplayState) : bytes :=
  uint256_bytes x.(active_proposal_hash) ++
  ser_map uint256_bytes ser_proposal x.(pending_proposals) ++
  ser_vector ser_pending x.(pending_withdrawals) ++
  ser_ctip x.(ctip) ++ le_encode 8 x.(ctip_value).

Definition ser_state (st : DrivechainParentReplayState) : bytes :=
  uint256_bytes st.(own).(active_proposal_hash) ++
  ser_bool st.(required_proposal_activated) ++
  le_encode 4 st.(required_activation_height) ++
  uint256_bytes st.(required_activation_block_hash) ++
  ser_map uint256_bytes ser_proposal st.(own).(pending_proposals) ++
  ser_vector ser_pending st.(own).(pending_withdrawals) ++
  ser_ctip st.(own).(ctip) ++ le_encode 8 st.(own).(ctip_value) ++
  ser_map (fun k => [u8 k]) ser_slot st.(other_slots) ++
  ser_map (fun k => [u8 k]) ser_action st.(previous_m4_actions).

(** ** Sanity of the records *)
Definition sane_proposals (height : Z) (m : gmap Z DrivechainPendingProposal) : bool :=
  forallb (fun '(h, pr) =>
      negb (IsNull h || (height <? pr.(p_height)) || (height - pr.(p_height) <? pr.(p_votes))))
    (map_ascending m).

(** Each id may be inserted into the set of seen ids only once. *)
Fixpoint sane_withdrawals (height : Z) (seen : gset Z) (l : list DrivechainPendingWithdrawal) : bool :=
  match l with
  | [] => true
  | e :: t =>
      negb ((height <? e.(w_height)) || (height - e.(w_height) + 2 <? e.(w_votes)) ||
            bool_decide (e.(m6id) ∈ seen)) && sane_withdrawals height ({[ e.(m6id) ]} ∪ seen) t
  end.

Definition sane_slot (height : Z) (x : DrivechainOtherSlotReplayState) : bool :=
  negb (IsNull x.(active_proposal_hash) && has_ctip x) &&
  negb (negb (has_ctip x) && negb (x.(ctip_value) =? 0)) &&
  negb ((x.(ctip_value) <? 0) || negb (MoneyRange x.(ctip_value))) &&
  sane_proposals height x.(pending_proposals) &&
  sane_withdrawals height ∅ x.(pending_withdrawals) &&
  negb (IsNull x.(active_proposal_hash) && negb (bool_decide (x.(pending_withdrawals) = []))).

(** [std::set::insert] of every CTIP, in slot order. *)
Fixpoint distinct_ctips (seen : gset COutPoint) (l : list (option COutPoint)) : bool :=
  match l with
  | [] => true
  | None :: t => distinct_ctips seen t
  | Some c :: t => negb (bool_decide (c ∈ seen)) && distinct_ctips ({[ c ]} ∪ seen) t
  end.

(** The action loop: at most one key may be absent from [other_slots]. *)
Fixpoint sane_actions (st : DrivechainParentReplayState) (configured_slot_action_seen : bool)
    (l : list (Z * DrivechainM4Action)) : bool :=
  match l with
  | [] => true
  | (s, a) :: t =>
      action_ok a &&
      match st.(other_slots) !! s with
      | Some x => is_active x && sane_actions st configured_slot_action_seen t
      | None => negb (configured_slot_action_seen || negb (is_active st.(own))) && sane_actions st true t
      end
  end.

Definition sane_required (height : Z) (st : DrivechainParentReplayState) : bool :=
  if st.(required_proposal_activated) then
    negb (IsNull st.(own).(active_proposal_hash) || IsNull st.(required_activation_block_hash) ||
          (height <? st.(required_activation_height)))
  else negb (negb (st.(required_activation_height) =? 0) ||
             negb (IsNull st.(required_activation_block_hash))).

Definition IsSaneTip (tip : DrivechainParentReplayTip) : bool :=
  let st := tip.(tip_state) in
  negb (IsNull tip.(tip_hash)) && sane_required tip.(tip_height) st &&
  sane_slot tip.(tip_height) st.(own) &&
  forallb (fun '(_, x) => sane_slot tip.(tip_height) x) (map_ascending st.(other_slots)) &&
  distinct_ctips ∅ (st.(own).(ctip) :: map (fun '(_, x) => x.(ctip)) (map_ascending st.(other_slots))) &&
  sane_actions st false (map_ascending st.(previous_m4_actions)).

Definition IsSaneDeposit (d : DrivechainMintableDeposit) : bool :=
  negb (IsNull d.(outpoint).(hash)) && negb (d.(outpoint).(n) =? NULL_INDEX) &&
  negb (IsNull d.(d_block_hash)) && (0 <? d.(d_value)) && MoneyRange d.(d_value) &&
  negb (bytes_eqb d.(address) []) && (len d.(address) <=? 128).

Definition IsSaneEdge (parent_hash : uint256) (e : DrivechainReplayedBmmEdge) : bool :=
  negb (IsNull parent_hash) && negb (IsNull e.(successor_hash)) &&
  negb (e.(parent_height) =? UINT32_MAX) &&
  (e.(successor_height) =? u32 (e.(parent_height) + 1)) &&
  (negb e.(has_canonical_commitment) || negb (IsNull e.(committed_sidechain_hash))).

Definition IsSaneSuccessfulWithdrawal (w : DrivechainSuccessfulWithdrawal) : bool :=
  negb (IsNull w.(s_block_hash)).

(** ** The database *)
Inductive Cell (A : Type) : Type := Malformed | Value (a : A).
Arguments Malformed {A}.
Arguments Value {A} a.

Record ReplayDb := mkDb {
  db_identity : option (Cell (Z * uint256));
  db_tip : option (Cell DrivechainParentReplayTip);
  db_deposits : gmap COutPoint (Cell DrivechainMintableDeposit);
  db_edges : gmap Z (Cell DrivechainReplayedBmmEdge);
  db_successes : gmap (Z * Z) (Cell DrivechainSuccessfulWithdrawal);
  db_occurrences : gmap (Z * Z * Z) (Cell DrivechainSuccessfulWithdrawal) }.

Definition empty_db : ReplayDb := mkDb None None ∅ ∅ ∅ ∅.

Record DrivechainParentReplayStore := mkStore { m_db : option ReplayDb; m_schema_version : Z }.

Inductive DrivechainReplayStoreReadStatus (A : Type) : Type := FOUND (a : A) | NOT_FOUND | CORRUPT.
Arguments FOUND {A} a.
Arguments NOT_FOUND {A}.
Arguments CORRUPT {A}.

Inductive DrivechainReplayStoreLoadStatus : Type :=
| EMPTY | LOADED (tip : DrivechainParentReplayTip) | LOAD_CORRUPT | IDENTITY_MISMATCH.

Definition ReadRecord {A} (c : option (Cell A)) : DrivechainReplayStoreReadStatus A :=
  match c with None => NOT_FOUND | Some Malformed => CORRUPT | Some (Value a) => FOUND a end.

(** A record that is read but inconsistent is reported as corrupt. *)
Definition checked {A} (ok : A -> bool) (r : DrivechainReplayStoreReadStatus A)
    : DrivechainReplayStoreReadStatus A :=
  match r with FOUND a => if ok a then FOUND a else CORRUPT | r => r end.

Definition Load (s : DrivechainParentReplayStore) (identity : uint256) : DrivechainReplayStoreLoadStatus :=
  match s.(m_db) with
  | None => LOAD_CORRUPT
  | Some db =>
      match ReadRecord db.(db_identity) with
      | NOT_FOUND => if bool_decide (is_Some db.(db_tip)) then LOAD_CORRUPT else EMPTY
      | CORRUPT => LOAD_CORRUPT
      | FOUND (schema, stored) =>
          if negb (schema =? s.(m_schema_version)) || negb (stored =? identity) then IDENTITY_MISMATCH
          else match ReadRecord db.(db_tip) with
               | FOUND tip => if IsSaneTip tip then LOADED tip else LOAD_CORRUPT
               | _ => LOAD_CORRUPT
               end
      end
  end.

(** How far a reset gets: the wiped database may fail to open, or the seeding
    batch may fail to be written. *)
Inductive ResetIo := ResetOpenFails | ResetWriteFails | ResetOk.

Definition Reset_ (s : DrivechainParentReplayStore) (identity : uint256)
    (seed : DrivechainParentReplayTip) (io : ResetIo) : result unit * DrivechainParentReplayStore :=
  if negb (IsSaneTip seed) then
    (Err "refusing to seed persistent parent replay with an invalid tip", s)
  else match io with
  | ResetOpenFails =>
      (Err "failed to rebuild persistent parent replay database: %s", mkStore None s.(m_schema_version))
  | ResetWriteFails =>
      (Err "failed to rebuild persistent parent replay database: %s",
       mkStore (Some empty_db) s.(m_schema_version))
  | ResetOk =>
      (Ok tt, mkStore (Some (mkDb (Some (Value (s.(m_schema_version), identity))) (Some (Value seed))
                               ∅ ∅ ∅ ∅)) s.(m_schema_version))
  end.

(** ** Append *)
Definition wkey (w : DrivechainSuccessfulWithdrawal) : Z * Z := (w.(s_slot), w.(s_m6id)).
Definition okey (w : DrivechainSuccessfulWithdrawal) : Z * Z * Z := (w.(s_slot), w.(s_m6id), w.(s_height)).
Definition exists_ {K} `{Countable K} {A} (m : gmap K A) (k : K) : bool := bool_decide (is_Some (m !! k)).

Fixpoint check_deposits (db : ReplayDb) (next : DrivechainParentReplayTip) (seen : gset COutPoint)
    (l : list DrivechainMintableDeposit) : bool :=
  match l with
  | [] => true
  | d :: t =>
      negb (negb (IsSaneDeposit d) || negb (d.(d_block_height) =? next.(tip_height)) ||
            negb (d.(d_block_hash) =? next.(tip_hash)) || bool_decide (d.(outpoint) ∈ seen) ||
            exists_ db.(db_deposits) d.(outpoint)) &&
      check_deposits db next ({[ d.(outpoint) ]} ∪ seen) t
  end.

Definition check_edge (db : ReplayDb) (previous next : DrivechainParentReplayTip)
    (edge : option (uint256 * DrivechainReplayedBmmEdge)) : bool :=
  match edge with
  | None => true
  | Some (parent, e) =>
      negb (negb (IsSaneEdge parent e) || negb (e.(parent_height) =? previous.(tip_height)) ||
            negb (e.(successor_height) =? next.(tip_height)) ||
            negb (e.(successor_hash) =? next.(tip_hash)) || negb (parent =? previous.(tip_hash)) ||
            exists_ db.(db_edges) parent)
  end.

Fixpoint check_successes (schema : Z) (db : ReplayDb) (next : DrivechainParentReplayTip)
    (seen : gset (Z * Z)) (l : list DrivechainSuccessfulWithdrawal) : bool :=
  match l with
  | [] => true
  | w :: t =>
      negb (negb (IsSaneSuccessfulWithdrawal w) || negb (w.(s_height) =? next.(tip_height)) ||
            negb (w.(s_block_hash) =? next.(tip_hash)) || bool_decide (wkey w ∈ seen) ||
            ((schema =? SCHEMA_VERSION) && exists_ db.(db_successes) (wkey w)) ||
            exists_ db.(db_occurrences) (okey w)) &&
      check_successes schema db next ({[ wkey w ]} ∪ seen) t
  end.

Fixpoint check_proposals (schema : Z) (db : ReplayDb) (seen : gset (Z * Z))
    (l : list DrivechainWithdrawalProposalIdentity) : result unit :=
  match l with
  | [] => Ok tt
  | i :: t =>
      let key := (i.(i_slot), i.(i_m6id)) in
      ensure (negb (bool_decide (key ∈ seen)))
        "persistent parent replay append contains a duplicate M3 proposal identity";;
      ensure (negb ((schema =? SCHEMA_VERSION) && exists_ db.(db_successes) key))
        "M3 re-proposes a withdrawal that already succeeded on the active parent chain";;
      check_proposals schema db ({[ key ]} ∪ seen) t
  end.

(** The batch.  [m_db->Exists] reads the database, not the batch. *)
Definition write_success (schema : Z) (db0 : ReplayDb) (db : ReplayDb)
    (w : DrivechainSuccessfulWithdrawal) : ReplayDb :=
  mkDb db.(db_identity) db.(db_tip) db.(db_deposits) db.(db_edges)
    (if exists_ db0.(db_successes) (wkey w) then db.(db_successes)
     else <[wkey w := Value w]> db.(db_successes))
    (if schema =? REPROPOSAL_SCHEMA_VERSION then <[okey w := Value w]> db.(db_occurrences)
     else db.(db_occurrences)).

Definition write_batch (schema : Z) (db : ReplayDb) (next : DrivechainParentReplayTip)
    (deposits : list DrivechainMintableDeposit)
    (edge : option (uint256 * DrivechainReplayedBmmEdge))
    (successes : list DrivechainSuccessfulWithdrawal) : ReplayDb :=
  let db1 := mkDb db.(db_identity) db.(db_tip)
    (fold_left (fun m d => <[d.(outpoint) := Value d]> m) deposits db.(db_deposits))
    (match edge with Some (parent, e) => <[parent := Value e]> db.(db_edges) | None => db.(db_edges) end)
    db.(db_successes) db.(db_occurrences) in
  let db2 := fold_left (write_success schema db) successes db1 in
  mkDb db2.(db_identity) (Some (Value next)) db2.(db_deposits) db2.(db_edges)
    db2.(db_successes) db2.(db_occurrences).

Definition check_tips (s : DrivechainParentReplayStore) (db : ReplayDb)
    (previous next : DrivechainParentReplayTip) : result unit :=
  ensure (negb (negb (IsSaneTip previous) || negb (IsSaneTip next) ||
                (previous.(tip_height) =? UINT32_MAX) ||
                negb (next.(tip_height) =? u32 (previous.(tip_height) + 1))))
    "refusing a non-contiguous persistent parent replay append";;
  ensure (match ReadRecord db.(db_identity) with
          | FOUND (schema, _) => schema =? s.(m_schema_version)
          | _ => false
          end) "persistent parent replay append uses the wrong schema";;
  ensure (match ReadRecord db.(db_tip) with
          | FOUND stored =>
              (stored.(tip_height) =? previous.(tip_height)) && (stored.(tip_hash) =? previous.(tip_hash)) &&
              (Hash (ser_state stored.(tip_state)) =? Hash (ser_state previous.(tip_state)))
          | _ => false
          end) "persistent parent replay tip changed before append".

Definition Append (s : DrivechainParentReplayStore) (previous next : DrivechainParentReplayTip)
    (deposits : list DrivechainMintableDeposit) (edge : option (uint256 * DrivechainReplayedBmmEdge))
    (successes : list DrivechainSuccessfulWithdrawal)
    (proposals : list DrivechainWithdrawalProposalIdentity) (io : bool)
    : result DrivechainParentReplayStore :=
  match s.(m_db) with
  | None => Err "persistent parent replay database is not open"
  | Some db =>
      check_tips s db previous next;;
      ensure (check_deposits db next ∅ deposits)
        "persistent parent replay append contains a duplicate or malformed deposit";;
      ensure (check_edge db previous next edge)
        "persistent parent replay append contains a duplicate or malformed BMM edge";;
      ensure (check_successes s.(m_schema_version) db next ∅ successes)
        "persistent parent replay append contains a duplicate or malformed successful withdrawal";;
      check_proposals s.(m_schema_version) db ∅ proposals;;
      ensure io "persistent parent replay append failed: %s";;
      Ok (mkStore (Some (write_batch s.(m_schema_version) db next deposits edge successes))
            s.(m_schema_version))
  end.

(** ** Reads *)
Definition with_db {A} (s : DrivechainParentReplayStore)
    (f : ReplayDb -> DrivechainReplayStoreReadStatus A) : DrivechainReplayStoreReadStatus A :=
  match s.(m_db) with None => CORRUPT | Some db => f db end.

Definition ReadDeposit (s : DrivechainParentReplayStore) (o : COutPoint) :=
  with_db s (fun db => checked (fun d => IsSaneDeposit d && bool_decide (d.(outpoint) = o))
                         (ReadRecord (db.(db_deposits) !! o))).

Definition ReadBmmEdge (s : DrivechainParentReplayStore) (parent : uint256) :=
  with_db s (fun db => checked (IsSaneEdge parent) (ReadRecord (db.(db_edges) !! parent))).

Definition ReadSuccessfulWithdrawal (s : DrivechainParentReplayStore) (slot_ : Z) (id : uint256) :=
  with_db s (fun db =>
    checked (fun w => IsSaneSuccessfulWithdrawal w && (w.(s_slot) =? slot_) && (w.(s_m6id) =? id))
      (ReadRecord (db.(db_successes) !! (slot_, id)))).

Definition ReadSuccessfulWithdrawalAtHeight (s : DrivechainParentReplayStore) (slot_ : Z) (id : uint256)
    (height : Z) :=
  if negb (s.(m_schema_version) =? REPROPOSAL_SCHEMA_VERSION) then CORRUPT
  else with_db s (fun db =>
    checked (fun w => IsSaneSuccessfulWithdrawal w && (w.(s_slot) =? slot_) && (w.(s_m6id) =? id) &&
                      (w.(s_height) =? height))
      (ReadRecord (db.(db_occurrences) !! (slot_, id, height)))).
