(* ===== verification/StoreFacts.v ===== *)
(** * The replay store keeps what it is given

    Facts on [ReplayStore]: an invariant that every open database satisfies and
    under which no read reports corruption, its preservation by [Append], the
    read-back of what a batch writes, and the conditions under which a batch is
    accepted. *)

From S2P Require Import Prelude Sha256 Script Transaction ParentMessage ParentState ParentFacts.
From S2P Require Import TreasuryFacts ReplayStore.

Section store.
Implicit Types (s : DrivechainParentReplayStore) (db : ReplayDb) (tip : DrivechainParentReplayTip).
Implicit Types (ds : list DrivechainMintableDeposit) (ws : list DrivechainSuccessfulWithdrawal).

(** Every entry of a table is a readable record with property [P] of its key. *)
Definition table_ok {K} `{Countable K} {A} (P : K -> A -> Prop) (m : gmap K (Cell A)) : Prop :=
  forall k c, m !! k = Some c -> exists a, c = Value a /\ P k a.

Definition deposit_at (h : Z) (o : COutPoint) (d : DrivechainMintableDeposit) : Prop :=
  IsSaneDeposit d = true /\ d.(outpoint) = o /\ d.(d_block_height) <= h.

Definition edge_at (h : Z) (parent : Z) (e : DrivechainReplayedBmmEdge) : Prop :=
  IsSaneEdge parent e = true /\ e.(successor_height) <= h.

Definition success_at (h : Z) (k : Z * Z) (w : DrivechainSuccessfulWithdrawal) : Prop :=
  IsSaneSuccessfulWithdrawal w = true /\ wkey w = k /\ w.(s_height) <= h.

Definition occurrence_at (h : Z) (k : Z * Z * Z) (w : DrivechainSuccessfulWithdrawal) : Prop :=
  IsSaneSuccessfulWithdrawal w = true /\ okey w = k /\ w.(s_height) <= h.

(** The tables hold records of parent blocks up to height [h] only. *)
Record tables_ok (h : Z) db : Prop := {
  to_deposits : table_ok (deposit_at h) db.(db_deposits);
  to_edges : table_ok (edge_at h) db.(db_edges);
  to_successes : table_ok (success_at h) db.(db_successes);
  to_occurrences : table_ok (occurrence_at h) db.(db_occurrences) }.

(** An open database of identity [id] whose tip is [tip]. *)
Record store_inv (id : uint256) tip s db : Prop := {
  so_open : s.(m_db) = Some db;
  so_identity : db.(db_identity) = Some (Value (s.(m_schema_version), id));
  so_tip : db.(db_tip) = Some (Value tip);
  so_sane : IsSaneTip tip = true;
  so_tables : tables_ok tip.(tip_height) db }.

(** ** Tables *)
Lemma table_ok_empty {K} `{Countable K} {A} (P : K -> A -> Prop) : table_ok P ∅.
Proof. intros k c Hc. by rewrite lookup_empty in Hc. Qed.

Lemma table_ok_impl {K} `{Countable K} {A} (P Q : K -> A -> Prop) m :
  (forall k a, P k a -> Q k a) -> table_ok P m -> table_ok Q m.
Proof. intros Hi Hm k c Hc. destruct (Hm k c Hc) as (a & -> & Ha). eauto. Qed.

Lemma table_ok_insert {K} `{Countable K} {A} (P : K -> A -> Prop) m k a :
  P k a -> table_ok P m -> table_ok P (<[k := Value a]> m).
Proof. intros Ha Hm k' c. rewrite lookup_insert_Some. intros [[<- <-]|[_ Hc]]; eauto. Qed.

Lemma table_ok_read {K} `{Countable K} {A} (P : K -> A -> Prop) m k (ok : A -> bool) :
  table_ok P m -> (forall a, P k a -> ok a = true) -> checked ok (ReadRecord (m !! k)) <> CORRUPT.
Proof.
  intros Hm Hok. destruct (m !! k) as [c|] eqn:E; [|done].
  destruct (Hm _ _ E) as (a & -> & Ha). cbn. by rewrite Hok.
Qed.

Lemma tables_ok_mono h h' db : h <= h' -> tables_ok h db -> tables_ok h' db.
Proof.
  intros Hh [H1 H2 H3 H4]. split; (eapply table_ok_impl; [|done]); intros k a;
    unfold deposit_at, edge_at, success_at, occurrence_at; intuition lia.
Qed.

(** ** What a batch checks *)
Lemma check_deposits_iff db next seen ds : check_deposits db next seen ds = true <->
  Forall (fun d => IsSaneDeposit d = true /\ d.(d_block_height) = next.(tip_height) /\
                   d.(d_block_hash) = next.(tip_hash) /\ (d.(outpoint) ∉ seen) /\
                   db.(db_deposits) !! d.(outpoint) = None) ds /\ NoDup (map outpoint ds).
Proof.
  revert seen. induction ds as [|d ds IH]; intros seen; cbn [check_deposits map].
  { split; [intros _; split; constructor|done]. }
  rewrite andb_true_iff, IH, list.Forall_cons, list.NoDup_cons, negb_true_iff, !orb_false_iff, !negb_false_iff.
  unfold exists_. rewrite !Z.eqb_eq, !bool_decide_eq_false, <- eq_None_not_Some.
  rewrite !list.Forall_forall. setoid_rewrite not_elem_of_union. setoid_rewrite not_elem_of_singleton.
  rewrite list_elem_of_fmap. split.
  - intros (((((H1 & H2) & H3) & H4) & H5) & H6 & H7). split_and!; auto.
    + intros d' Hd'. destruct (H6 d' Hd') as (? & ? & ? & [? ?] & ?). done.
    + intros (d' & Heq & Hd'). destruct (H6 d' Hd') as (? & ? & ? & [Hne ?] & ?). by apply Hne.
  - intros (((H1 & H2 & H3 & H4 & H5) & H6) & H7 & H8). split_and!; auto.
    intros d' Hd'. destruct (H6 d' Hd') as (? & ? & ? & ? & ?). split_and!; auto.
    intros Heq. apply H7. by exists d'.
Qed.

Lemma check_successes_iff schema db next seen ws : check_successes schema db next seen ws = true <->
  Forall (fun w => IsSaneSuccessfulWithdrawal w = true /\ w.(s_height) = next.(tip_height) /\
                   w.(s_block_hash) = next.(tip_hash) /\ (wkey w ∉ seen) /\
                   (schema = SCHEMA_VERSION -> db.(db_successes) !! wkey w = None) /\
                   db.(db_occurrences) !! okey w = None) ws /\ NoDup (map wkey ws).
Proof.
  revert seen. induction ws as [|w ws IH]; intros seen; cbn [check_successes map].
  { split; [intros _; split; constructor|done]. }
  rewrite andb_true_iff, IH, list.Forall_cons, list.NoDup_cons, negb_true_iff, !orb_false_iff, !negb_false_iff.
  unfold exists_. rewrite !Z.eqb_eq, !bool_decide_eq_false, <- eq_None_not_Some.
  rewrite andb_false_iff, Z.eqb_neq, bool_decide_eq_false, <- eq_None_not_Some.
  rewrite !list.Forall_forall. setoid_rewrite not_elem_of_union. setoid_rewrite not_elem_of_singleton.
  rewrite list_elem_of_fmap. split.
  - intros ((((((H1 & H2) & H3) & H4) & H5) & H6) & H7 & H8). split_and!; auto.
    + intros ->. by destruct H5.
    + intros w' Hw'. destruct (H7 w' Hw') as (? & ? & ? & [? ?] & ? & ?). done.
    + intros (w' & Heq & Hw'). destruct (H7 w' Hw') as (? & ? & ? & [Hne ?] & ?). by apply Hne.
  - intros (((H1 & H2 & H3 & H4 & H5 & H6) & H7) & H8 & H9). split_and!; auto.
    + destruct (decide (schema = SCHEMA_VERSION)); auto.
    + intros w' Hw'. destruct (H7 w' Hw') as (? & ? & ? & ? & ? & ?). split_and!; auto.
      intros Heq. apply H8. by exists w'.
Qed.

Lemma check_proposals_ok schema db seen l : schema <> SCHEMA_VERSION ->
  NoDup (map (fun i => (i.(i_slot), i.(i_m6id))) l) ->
  (forall i, i ∈ l -> (i.(i_slot), i.(i_m6id)) ∉ seen) -> check_proposals schema db seen l = Ok tt.
Proof.
  intros Hs. revert seen. induction l as [|i l IH]; intros seen Hnd Hn; [done|].
  cbn [check_proposals map] in *. apply list.NoDup_cons in Hnd as [Hi Hnd].
  rewrite bool_decide_eq_false_2 by (apply Hn; left). rewrite (proj2 (Z.eqb_neq _ _) Hs). cbn.
  apply IH; [done|]. intros j Hj. rewrite not_elem_of_union, not_elem_of_singleton. split.
  - intros E. apply Hi. rewrite <- E. apply list_elem_of_fmap. by exists j.
  - apply Hn. by right.
Qed.

(** ** What a batch writes *)
Lemma write_deposits_lookup ds (m : gmap COutPoint (Cell DrivechainMintableDeposit)) o : NoDup (map outpoint ds) ->
  (forall d, d ∈ ds -> d.(outpoint) = o ->
     fold_left (fun m d => <[d.(outpoint) := Value d]> m) ds m !! o = Some (Value d)) /\
  (o ∉ map outpoint ds -> fold_left (fun m d => <[d.(outpoint) := Value d]> m) ds m !! o = m !! o).
Proof.
  revert m. induction ds as [|d ds IH]; intros m Hnd; cbn [fold_left map] in *.
  { split; [intros d Hd; by apply elem_of_nil in Hd|done]. }
  apply list.NoDup_cons in Hnd as [Hn Hnd]. destruct (IH (<[d.(outpoint) := Value d]> m) Hnd) as [I1 I2]. split.
  - intros d' [->|Hd']%elem_of_cons Ho; [|by apply I1]. rewrite I2 by (by rewrite <- Ho). rewrite Ho.
    apply lookup_insert_eq.
  - rewrite not_elem_of_cons. intros [Ho Hds]. rewrite I2 by done. by apply lookup_insert_ne.
Qed.

Lemma write_deposits_ok h ds m : Forall (fun d => deposit_at h d.(outpoint) d) ds ->
  table_ok (deposit_at h) m ->
  table_ok (deposit_at h) (fold_left (fun m d => <[d.(outpoint) := Value d]> m) ds m).
Proof.
  intros Hd. revert m. induction Hd as [|d ds Hd _ IH]; intros m Hm; [done|]. cbn. by apply IH, table_ok_insert.
Qed.

Lemma write_success_frame schema db0 ws db : 
  let db' := fold_left (write_success schema db0) ws db in
  db'.(db_identity) = db.(db_identity) /\ db'.(db_deposits) = db.(db_deposits) /\ db'.(db_edges) = db.(db_edges).
Proof.
  revert db. induction ws as [|w ws IH]; intros db; [done|]. cbn.
  destruct (IH (write_success schema db0 db w)) as (E1 & E2 & E3). by rewrite E1, E2, E3.
Qed.

Lemma write_successes_ok schema db0 h ws db :
  Forall (fun w => IsSaneSuccessfulWithdrawal w = true /\ w.(s_height) <= h) ws ->
  table_ok (success_at h) db.(db_successes) -> table_ok (occurrence_at h) db.(db_occurrences) ->
  table_ok (success_at h) (fold_left (write_success schema db0) ws db).(db_successes) /\
  table_ok (occurrence_at h) (fold_left (write_success schema db0) ws db).(db_occurrences).
Proof.
  intros Hw. revert db. induction Hw as [|w ws [H1 H2] _ IH]; intros db Hs Ho; [done|]. cbn.
  apply IH; cbn; case_match; auto; by apply table_ok_insert.
Qed.

(** A first success is never replaced; a new one becomes readable. *)
Lemma write_successes_lookup schema db0 ws db k : NoDup (map wkey ws) ->
  (forall w, w ∈ ws -> wkey w = k -> db0.(db_successes) !! k = None ->
     (fold_left (write_success schema db0) ws db).(db_successes) !! k = Some (Value w)) /\
  (k ∉ map wkey ws \/ is_Some (db0.(db_successes) !! k) ->
     (fold_left (write_success schema db0) ws db).(db_successes) !! k = db.(db_successes) !! k).
Proof.
  revert db. induction ws as [|w ws IH]; intros db Hnd; cbn [fold_left map] in *.
  { split; [intros w Hw; by apply elem_of_nil in Hw|done]. }
  apply list.NoDup_cons in Hnd as [Hn Hnd].
  destruct (IH (write_success schema db0 db w) Hnd) as [I1 I2]. split.
  - intros w' [->|Hw']%elem_of_cons <- Hk; [|by apply I1]. rewrite I2 by (by left). cbn. unfold exists_.
    rewrite bool_decide_eq_false_2 by (rewrite Hk; apply is_Some_None). apply lookup_insert_eq.
  - intros Hk. rewrite I2 by (rewrite not_elem_of_cons in Hk; intuition). cbn. unfold exists_.
    case_bool_decide as Hd; [done|]. apply lookup_insert_ne. rewrite not_elem_of_cons in Hk.
    destruct Hk as [[Hk _]|Hk]; [done|]. intros E. apply Hd. by rewrite E.
Qed.

Lemma write_occurrences_lookup db0 ws db k : NoDup (map wkey ws) ->
  (forall w, w ∈ ws -> okey w = k ->
     (fold_left (write_success REPROPOSAL_SCHEMA_VERSION db0) ws db).(db_occurrences) !! k = Some (Value w)) /\
  (k ∉ map okey ws ->
     (fold_left (write_success REPROPOSAL_SCHEMA_VERSION db0) ws db).(db_occurrences) !! k
       = db.(db_occurrences) !! k).
Proof.
  revert db. induction ws as [|w ws IH]; intros db Hnd; cbn [fold_left map] in *.
  { split; [intros w Hw; by apply elem_of_nil in Hw|done]. }
  apply list.NoDup_cons in Hnd as [Hn Hnd].
  destruct (IH (write_success REPROPOSAL_SCHEMA_VERSION db0 db w) Hnd) as [I1 I2]. split.
  - intros w' [->|Hw']%elem_of_cons <-; [|by apply I1]. rewrite I2; [cbn; apply lookup_insert_eq|].
    intros (w' & Heq & Hw')%list_elem_of_fmap. apply Hn, list_elem_of_fmap. exists w'. split; [|done].
    unfold okey in Heq. unfold wkey. congruence.
  - rewrite not_elem_of_cons. intros [Hne Hk]. rewrite I2 by done. cbn. by apply lookup_insert_ne.
Qed.

(** ** Append *)
Definition tip_typed tip : Prop := 0 <= tip.(tip_height) <= UINT32_MAX.

Definition edge_ok previous next (edge : option (uint256 * DrivechainReplayedBmmEdge)) db : Prop :=
  match edge with
  | None => True
  | Some (parent, e) =>
      IsSaneEdge parent e = true /\ e.(parent_height) = previous.(tip_height) /\
      e.(successor_height) = next.(tip_height) /\ e.(successor_hash) = next.(tip_hash) /\
      parent = previous.(tip_hash) /\ db.(db_edges) !! parent = None
  end.

Lemma check_edge_iff db previous next edge :
  check_edge db previous next edge = true <-> edge_ok previous next edge db.
Proof.
  destruct edge as [[parent e]|]; cbn; [|done]. unfold exists_.
  rewrite negb_true_iff, !orb_false_iff, !negb_false_iff, bool_decide_eq_false, <- eq_None_not_Some.
  rewrite !Z.eqb_eq. tauto.
Qed.

(** What an accepted batch satisfied. *)
Record append_ok s db previous next ds edge ws : Prop := {
  ao_next : IsSaneTip next = true;
  ao_height : next.(tip_height) = u32 (previous.(tip_height) + 1) /\ previous.(tip_height) <> UINT32_MAX;
  ao_deposits : check_deposits db next ∅ ds = true;
  ao_edge : edge_ok previous next edge db;
  ao_successes : check_successes s.(m_schema_version) db next ∅ ws = true }.

Lemma Append_elim s previous next ds edge ws ps io s' :
  Append s previous next ds edge ws ps io = Ok s' ->
  exists db, s.(m_db) = Some db /\ append_ok s db previous next ds edge ws /\
    s' = mkStore (Some (write_batch s.(m_schema_version) db next ds edge ws)) s.(m_schema_version).
Proof.
  unfold Append, check_tips. destruct (m_db s) as [db|]; [|done]. intros Ha. inv_ok.
  exists db. split_and!; [done| |done]. bool_simp.
  split; [done|split; [lia|done]|done|by apply check_edge_iff|done].
Qed.

Lemma append_height s db previous next ds edge ws : tip_typed previous ->
  append_ok s db previous next ds edge ws ->
  next.(tip_height) = previous.(tip_height) + 1 /\ tip_typed next.
Proof.
  intros Ht Ha. destruct (ao_height _ _ _ _ _ _ _ Ha) as [E Hm]. unfold tip_typed, UINT32_MAX in *.
  rewrite u32_mod, Z.mod_small in E by lia. lia.
Qed.

Lemma write_batch_ok s db previous next ds edge ws : tip_typed previous ->
  tables_ok previous.(tip_height) db -> append_ok s db previous next ds edge ws ->
  tables_ok next.(tip_height) (write_batch s.(m_schema_version) db next ds edge ws).
Proof.
  intros Ht Hdb Ha. pose proof (append_height _ _ _ _ _ _ _ Ht Ha) as [Hh _].
  apply (tables_ok_mono _ next.(tip_height)) in Hdb as [D E S O]; [|lia].
  destruct Ha as [_ _ Hds He Hws].
  apply check_deposits_iff in Hds as [Hds _]. apply check_successes_iff in Hws as [Hws _].
  unfold write_batch.
  set (db1 := mkDb _ _ (fold_left _ ds _) _ _ _).
  destruct (write_success_frame (m_schema_version s) db ws db1) as (_ & F2 & F3).
  destruct (write_successes_ok (m_schema_version s) db next.(tip_height) ws db1) as [W1 W2]; [|done|done|].
  { eapply Forall_impl; [|exact Hws]. cbn. intros w (? & -> & _). by split. }
  split; cbn [db_deposits db_edges db_successes db_occurrences]; [rewrite F2|rewrite F3|done|done].
  - apply write_deposits_ok; [|done]. eapply Forall_impl; [|exact Hds]. cbn.
    intros d (? & Hd & _). unfold deposit_at. split_and!; [done|done|lia].
  - unfold db1. cbn. destruct edge as [[parent e]|]; [|done]. apply table_ok_insert; [|done].
    destruct He as (H1 & _ & H2 & _). split; [done|lia].
Qed.

Lemma Append_inv id tip s db next ds edge ws ps io s' : tip_typed tip -> store_inv id tip s db ->
  Append s tip next ds edge ws ps io = Ok s' ->
  store_inv id next s' (write_batch s.(m_schema_version) db next ds edge ws) /\ tip_typed next.
Proof.
  intros Ht [H1 H2 H3 H4 H5] Ha. apply Append_elim in Ha as (db' & Hdb & Ha & ->).
  rewrite H1 in Hdb. injection Hdb as <-.
  pose proof (append_height _ _ _ _ _ _ _ Ht Ha) as [_ Hn]. split; [|done]. split.
  - done.
  - unfold write_batch. cbn. match goal with |- context [fold_left (write_success ?a ?b) ws ?c] =>
      destruct (write_success_frame a b ws c) as (E & _) end. rewrite E. done.
  - done.
  - apply Ha.
  - by apply (write_batch_ok s db tip).
Qed.

(** ** A store's life: a reset, then appends on its own tip *)
Inductive store_run (id : uint256) : DrivechainParentReplayStore -> DrivechainParentReplayTip -> Prop :=
| run_reset s seed s' : tip_typed seed -> Reset_ s id seed ResetOk = (Ok tt, s') -> store_run id s' seed
| run_append s tip next ds edge ws ps io s' : store_run id s tip ->
    Append s tip next ds edge ws ps io = Ok s' -> store_run id s' next.

Lemma store_run_inv id s tip : store_run id s tip -> exists db, store_inv id tip s db /\ tip_typed tip.
Proof.
  induction 1 as [s seed s' Ht Hr|s tip next ds edge ws ps io s' _ (db & Hi & Ht) Ha].
  - unfold Reset_ in Hr. destruct (IsSaneTip seed) eqn:Es; [|done]. cbn in Hr. injection Hr as <-.
    eexists. split; [|done]. split; [done|done|done|done|]. split; apply table_ok_empty.
  - eexists. by apply (Append_inv id tip s db next ds edge ws ps io).
Qed.

(** ** Reads *)
Lemma Load_inv id tip s db : store_inv id tip s db -> Load s id = LOADED tip.
Proof.
  intros [H1 H2 H3 H4 _]. unfold Load. rewrite H1, H2. cbn [ReadRecord]. rewrite !Z.eqb_refl, H3. cbn [negb orb ReadRecord]. by rewrite H4.
Qed.

Lemma ReadDeposit_iff s db h o d : s.(m_db) = Some db -> table_ok (deposit_at h) db.(db_deposits) ->
  ReadDeposit s o = FOUND d <-> db.(db_deposits) !! o = Some (Value d).
Proof.
  intros Hs Ht. unfold ReadDeposit, with_db. rewrite Hs.
  destruct (_ !! o) as [c|] eqn:E; [|done]. destruct (Ht _ _ E) as (a & -> & (H1 & H2 & _)). cbn.
  rewrite H1, bool_decide_eq_true_2 by done. cbn. split; congruence.
Qed.

Lemma ReadBmmEdge_iff s db h parent e : s.(m_db) = Some db -> table_ok (edge_at h) db.(db_edges) ->
  ReadBmmEdge s parent = FOUND e <-> db.(db_edges) !! parent = Some (Value e).
Proof.
  intros Hs Ht. unfold ReadBmmEdge, with_db. rewrite Hs.
  destruct (_ !! parent) as [c|] eqn:E; [|done]. destruct (Ht _ _ E) as (a & -> & (H1 & _)). cbn.
  rewrite H1. split; congruence.
Qed.

Lemma ReadSuccess_iff s db h sl m w : s.(m_db) = Some db -> table_ok (success_at h) db.(db_successes) ->
  ReadSuccessfulWithdrawal s sl m = FOUND w <-> db.(db_successes) !! (sl, m) = Some (Value w).
Proof.
  intros Hs Ht. unfold ReadSuccessfulWithdrawal, with_db. rewrite Hs.
  destruct (_ !! (sl, m)) as [c|] eqn:E; [|done]. destruct (Ht _ _ E) as (a & -> & (H1 & H2 & _)). cbn.
  unfold wkey in H2. injection H2 as <- <-. rewrite H1, !Z.eqb_refl. cbn. split; congruence.
Qed.

Lemma ReadOccurrence_iff s db h sl m k w : s.(m_schema_version) = REPROPOSAL_SCHEMA_VERSION ->
  s.(m_db) = Some db -> table_ok (occurrence_at h) db.(db_occurrences) ->
  ReadSuccessfulWithdrawalAtHeight s sl m k = FOUND w <-> db.(db_occurrences) !! (sl, m, k) = Some (Value w).
Proof.
  intros Hv Hs Ht. unfold ReadSuccessfulWithdrawalAtHeight, with_db. rewrite Hv, Hs, Z.eqb_refl. cbn [negb].
  destruct (_ !! (sl, m, k)) as [c|] eqn:E; [|done]. destruct (Ht _ _ E) as (a & -> & (H1 & H2 & _)). cbn.
  unfold okey in H2. injection H2 as <- <- <-. rewrite H1, !Z.eqb_refl. cbn. split; congruence.
Qed.
End store.

(** The deposits the replay derives are the ones the store accepts. *)
Lemma deposit_ok_sane H bh ra d : bh <> 0 -> deposit_ok H bh ra d -> IsSaneDeposit d = true.
Proof.
  intros Hbh (_ & Hd & _ & Hv & Hl & Hh & Hn). unfold IsSaneDeposit, IsNull.
  rewrite !andb_true_iff, !negb_true_iff, !Z.eqb_neq, Z.ltb_lt, Z.leb_le, MoneyRange_iff, Hd.
  split_and!; try done; try lia. destruct (address d); [unfold len in Hl; cbn in Hl; lia|done].
Qed.

(** The tables after a batch. *)
Lemma write_batch_tables schema db next ds edge ws :
  let db' := write_batch schema db next ds edge ws in
  db'.(db_deposits) = fold_left (fun m d => <[d.(outpoint) := Value d]> m) ds db.(db_deposits) /\
  db'.(db_edges) = match edge with Some (parent, e) => <[parent := Value e]> db.(db_edges)
                   | None => db.(db_edges) end.
Proof.
  unfold write_batch. cbn. match goal with |- context [fold_left (write_success ?a ?b) ws ?c] =>
    destruct (write_success_frame a b ws c) as (_ & -> & ->) end. done.
Qed.

(** What could be read of deposits and edges before a batch is not touched by it. *)
Lemma write_batch_keeps s db previous next ds edge ws : append_ok s db previous next ds edge ws ->
  let db' := write_batch s.(m_schema_version) db next ds edge ws in
  (forall o c, db.(db_deposits) !! o = Some c -> db'.(db_deposits) !! o = Some c) /\
  (forall parent c, db.(db_edges) !! parent = Some c -> db'.(db_edges) !! parent = Some c) /\
  (forall k c, db.(db_successes) !! k = Some c -> db'.(db_successes) !! k = Some c).
Proof.
  intros [_ _ Hds He Hws] db'. destruct (write_batch_tables s.(m_schema_version) db next ds edge ws) as [E1 E2].
  fold db' in E1, E2. rewrite E1, E2.
  apply check_deposits_iff in Hds as [Hds Hnd]. apply check_successes_iff in Hws as [_ Hndw]. split_and!.
  - intros o c Hc. rewrite (proj2 (write_deposits_lookup ds _ o Hnd)); [done|].
    intros (d & -> & Hd)%list_elem_of_fmap. rewrite list.Forall_forall in Hds.
    destruct (Hds d Hd) as (_ & _ & _ & _ & Hn). congruence.
  - intros parent c Hc. destruct edge as [[pa e]|]; [|done]. destruct He as (_ & _ & _ & _ & _ & Hn).
    rewrite lookup_insert_ne by congruence. done.
  - intros k c Hc. unfold db', write_batch. cbn [db_successes].
    rewrite (proj2 (write_successes_lookup _ _ _ _ k Hndw)); [done|]. right. by rewrite Hc.
Qed.

(** What a batch adds. *)
Lemma write_batch_adds s db previous next ds edge ws : append_ok s db previous next ds edge ws ->
  let db' := write_batch s.(m_schema_version) db next ds edge ws in
  (forall d, d ∈ ds -> db'.(db_deposits) !! d.(outpoint) = Some (Value d)) /\
  (forall parent e, edge = Some (parent, e) -> db'.(db_edges) !! parent = Some (Value e)) /\
  (forall w, w ∈ ws -> db.(db_successes) !! wkey w = None -> db'.(db_successes) !! wkey w = Some (Value w)) /\
  (s.(m_schema_version) = REPROPOSAL_SCHEMA_VERSION -> forall w, w ∈ ws ->
     db'.(db_occurrences) !! okey w = Some (Value w)).
Proof.
  intros [_ _ Hds He Hws] db'. destruct (write_batch_tables s.(m_schema_version) db next ds edge ws) as [E1 E2].
  fold db' in E1, E2. rewrite E1, E2.
  apply check_deposits_iff in Hds as [_ Hnd]. apply check_successes_iff in Hws as [_ Hndw]. split_and!.
  - intros d Hd. by apply (proj1 (write_deposits_lookup ds _ _ Hnd)).
  - intros parent e ->. apply lookup_insert_eq.
  - intros w Hw Hn. unfold db', write_batch. cbn [db_successes].
    by apply (proj1 (write_successes_lookup _ _ _ _ _ Hndw)).
  - intros Hv w Hw. unfold db', write_batch. cbn [db_occurrences]. rewrite Hv.
    by apply (proj1 (write_occurrences_lookup _ _ _ _ Hndw)).
Qed.

(** ** The store's contract *)
(** A store that was reset successfully and then only appended
    to on its own tip loads that tip under its identity, and none of its reads
    ever reports a corrupt record: everything [Append] writes passes the checks
    of the readers. *)
Theorem store_never_corrupt id s tip : store_run id s tip ->
  Load s id = LOADED tip /\
  (forall o, ReadDeposit s o <> CORRUPT) /\
  (forall parent, ReadBmmEdge s parent <> CORRUPT) /\
  (forall sl m, ReadSuccessfulWithdrawal s sl m <> CORRUPT) /\
  (s.(m_schema_version) = REPROPOSAL_SCHEMA_VERSION ->
   forall sl m h, ReadSuccessfulWithdrawalAtHeight s sl m h <> CORRUPT).
Proof.
  intros (db & Hi & _)%store_run_inv. pose proof (Load_inv _ _ _ _ Hi) as HL.
  destruct Hi as [Ho _ _ _ [D E S O]]. split; [done|].
  unfold ReadDeposit, ReadBmmEdge, ReadSuccessfulWithdrawal, ReadSuccessfulWithdrawalAtHeight, with_db.
  rewrite Ho. split_and!.
  - intros o. eapply table_ok_read; [done|]. intros d (-> & <- & _). by rewrite bool_decide_eq_true_2.
  - intros parent. eapply table_ok_read; [done|]. by intros e (-> & _).
  - intros sl m. eapply table_ok_read; [done|]. intros w (-> & [= <- <-] & _). by rewrite !Z.eqb_refl.
  - intros -> sl m h. cbn [negb Z.eqb]. rewrite Z.eqb_refl. eapply table_ok_read; [done|].
    intros w (-> & [= <- <- <-] & _). by rewrite !Z.eqb_refl.
Qed.

(** After an accepted append every deposit, the BMM edge and
    every occurrence of the batch is read back as written; a withdrawal that had
    already succeeded keeps its first record and a new one gets the batch's; and
    everything that could be read before still reads the same. *)
Theorem Append_read_back id s tip next ds edge ws ps io s' : store_run id s tip ->
  Append s tip next ds edge ws ps io = Ok s' ->
  (forall d, d ∈ ds -> ReadDeposit s' d.(outpoint) = FOUND d) /\
  (forall parent e, edge = Some (parent, e) -> ReadBmmEdge s' parent = FOUND e) /\
  (forall w, w ∈ ws -> ReadSuccessfulWithdrawal s' w.(s_slot) w.(s_m6id) =
     match ReadSuccessfulWithdrawal s w.(s_slot) w.(s_m6id) with FOUND w0 => FOUND w0 | _ => FOUND w end) /\
  (s.(m_schema_version) = REPROPOSAL_SCHEMA_VERSION -> forall w, w ∈ ws ->
     ReadSuccessfulWithdrawalAtHeight s' w.(s_slot) w.(s_m6id) w.(s_height) = FOUND w) /\
  (forall o d, ReadDeposit s o = FOUND d -> ReadDeposit s' o = FOUND d) /\
  (forall parent e, ReadBmmEdge s parent = FOUND e -> ReadBmmEdge s' parent = FOUND e) /\
  (forall sl m w, ReadSuccessfulWithdrawal s sl m = FOUND w -> ReadSuccessfulWithdrawal s' sl m = FOUND w).
Proof.
  intros Hrun Ha. apply store_run_inv in Hrun as (db & Hi & Ht).
  pose proof (Append_inv _ _ _ _ _ _ _ _ _ _ _ Ht Hi Ha) as [Hi' _].
  apply Append_elim in Ha as (db0 & Hdb & Ha & Hs'). destruct Hi as [Ho _ _ _ [D E S _]].
  rewrite Ho in Hdb. injection Hdb as <-. destruct Hi' as [Ho' _ _ _ [D' E' S' O']].
  destruct (write_batch_keeps _ _ _ _ _ _ _ Ha) as (K1 & K2 & K3).
  destruct (write_batch_adds _ _ _ _ _ _ _ Ha) as (A1 & A2 & A3 & A4).
  split_and!.
  - intros d Hd. eapply ReadDeposit_iff; eauto.
  - intros parent e He. eapply ReadBmmEdge_iff; eauto.
  - intros w Hw. destruct (db_successes db !! wkey w) as [c|] eqn:Ec.
    + destruct (S _ _ Ec) as (w0 & -> & _). unfold wkey in Ec.
      rewrite (proj2 (ReadSuccess_iff s db _ _ _ w0 Ho S) Ec). eapply ReadSuccess_iff; [done|done|]. auto.
    + replace (ReadSuccessfulWithdrawal s (s_slot w) (s_m6id w)) with (NOT_FOUND (A:=DrivechainSuccessfulWithdrawal)).
      * eapply ReadSuccess_iff; [done|done|]. by apply (A3 w).
      * unfold ReadSuccessfulWithdrawal, with_db. rewrite Ho. unfold wkey in Ec. by rewrite Ec.
  - intros Hv w Hw. eapply ReadOccurrence_iff; [by rewrite Hs'|done|done|]. by apply (A4 Hv w).
  - intros o d Hd. eapply ReadDeposit_iff; [done|done|]. apply K1. by eapply ReadDeposit_iff in Hd.
  - intros parent e He. eapply ReadBmmEdge_iff; [done|done|]. apply K2. by eapply ReadBmmEdge_iff in He.
  - intros sl m w Hw. eapply ReadSuccess_iff; [done|done|]. apply K3. by eapply ReadSuccess_iff in Hw.
Qed.

(** A store seeded with the empty state at height 6, and one append to it. *)
Definition empty_state : DrivechainParentReplayState := mkState empty_slot false 0 0 ∅ ∅.
Definition sample_seed : DrivechainParentReplayTip := mkTip 6 100 empty_state.
Definition sample_next : DrivechainParentReplayTip := mkTip 7 101 empty_state.
Definition sample_deposit : DrivechainMintableDeposit := mkDeposit (mkOutPoint 9 0) 101 7 5000 [65].
Definition sample_edge : DrivechainReplayedBmmEdge := mkEdge 101 6 7 true 77.
Definition sample_success : DrivechainSuccessfulWithdrawal := mkSuccess 24 55 7 101.
Definition closed_store : DrivechainParentReplayStore := mkStore None REPROPOSAL_SCHEMA_VERSION.
Definition seeded_store : DrivechainParentReplayStore := snd (Reset_ closed_store 3 sample_seed ResetOk).
Definition appended_store : result DrivechainParentReplayStore :=
  Append seeded_store sample_seed sample_next [sample_deposit] (Some (100, sample_edge)) [sample_success]
    [] true.

Lemma seeded_run : store_run 3 seeded_store sample_seed.
Proof. apply (run_reset 3 closed_store); [split; by vm_compute|by vm_compute]. Qed.

Lemma appended_ok : exists s, appended_store = Ok s.
Proof. unfold appended_store. eexists. vm_compute. reflexivity. Qed.

Lemma store_never_corrupt_witness : Load seeded_store 3 = LOADED sample_seed.
Proof. apply (store_never_corrupt 3 seeded_store sample_seed). exact seeded_run. Defined.

Lemma Append_read_back_witness : exists s, appended_store = Ok s /\
  ReadDeposit s (mkOutPoint 9 0) = FOUND sample_deposit.
Proof.
  destruct appended_ok as [s Hs]. exists s. split; [exact Hs|].
  destruct (Append_read_back 3 _ _ _ _ _ _ _ _ _ seeded_run Hs) as [Hd _].
  apply (Hd sample_deposit). left.
Defined.
