(* ===== verification/Replay.v ===== *)
(** * Replaying parent blocks into the store (src/src/mainchainrpc.cpp)

    The loop body of [EnsurePinnedDrivechainParentStateThroughLocked]: apply an
    authenticated block to a copy of the cached state, check the milestones,
    derive the BMM edge, append everything to the store, and only then advance
    the cache.  Reading and authenticating the raw block happens before. *)

From stdpp Require Import sorting.
From S2P Require Import Prelude Sha256 Script Transaction ParentMessage ParentState ParentFacts.
From S2P Require Import TreasuryFacts ReplayStore.

(** ** Milestones *)
Record Milestones := mkMilestones {
  ms_description : bytes;
  ms_active_hash : uint256;
  ms_proposal_height : Z;
  ms_proposal_block : uint256;
  ms_activation_height : Z;
  ms_activation_block : uint256;
  ms_state_height : Z;
  ms_state_hash : uint256;
  ms_ctip_txid : uint256;
  ms_ctip_vout : Z;
  ms_ctip_value : Z }.

Definition BlockContainsExactDrivechainMessage (block : CBlock) (expected : bytes) : result unit :=
  ensure (has_coinbase block) "pinned parent identity block has no coinbase transaction";;
  ensure (len (filter (fun o => ExtractSingleOpReturnPush o.(scriptPubKey) = Some expected)
                 (coinbase_outputs block)) =? 1)
    "pinned parent identity block contains %u copies of its expected drivechain message".

Definition require_block_hash (block : CBlock) (expected : uint256) : result unit :=
  ensure (GetBlockHash block =? expected)
    "authenticated parent milestone height %u hashes to %s, expected %s".

Definition CheckDrivechainParentReplayMilestone (p : ReplayParams) (c : Milestones) (height : Z)
    (block : CBlock) (st : DrivechainParentReplayState) : result unit :=
  let post_activation := negb (bytes_eqb c.(ms_description) []) in
  (if post_activation && (height =? c.(ms_proposal_height)) then
     require_block_hash block c.(ms_proposal_block);;
     BlockContainsExactDrivechainMessage block (M1_TAG ++ [configured_slot p] ++ c.(ms_description));;
     ensure (match st.(own).(pending_proposals) !! c.(ms_active_hash) with
             | Some pr => (pr.(p_height) =? height) && (pr.(p_votes) =? 0)
             | None => false
             end)
       "authenticated parent proposal milestone did not derive the expected pending proposal state"
   else Ok tt);;
  (if post_activation && (height =? c.(ms_activation_height)) then
     require_block_hash block c.(ms_activation_block);;
     BlockContainsExactDrivechainMessage block
       (M2_TAG ++ [configured_slot p] ++ uint256_bytes c.(ms_active_hash));;
     ensure (negb (negb (st.(own).(active_proposal_hash) =? c.(ms_active_hash)) ||
                   bool_decide (is_Some (st.(own).(pending_proposals) !! c.(ms_active_hash)))))
       "authenticated parent activation milestone did not derive the expected active proposal state"
   else Ok tt);;
  (if height =? c.(ms_state_height) then
     require_block_hash block c.(ms_state_hash);;
     let checkpoint_ctip_matches :=
       if negb (IsNull c.(ms_ctip_txid)) then
         bool_decide (st.(own).(ctip) = Some (mkOutPoint c.(ms_ctip_txid) c.(ms_ctip_vout))) &&
         (st.(own).(ctip_value) =? c.(ms_ctip_value))
       else negb (has_ctip st.(own)) && (st.(own).(ctip_value) =? 0) in
     let checkpoint_proposal_matches :=
       if post_activation then st.(own).(active_proposal_hash) =? c.(ms_active_hash)
       else IsNull st.(own).(active_proposal_hash) in
     ensure (checkpoint_proposal_matches && checkpoint_ctip_matches)
       "authenticated parent checkpoint milestone did not derive the asserted active proposal and CTIP"
   else Ok tt).

(** ** One step
    The cache is the tip it would append to. *)
Definition replay_edge (p : ReplayParams) (c : Milestones) (cache : DrivechainParentReplayTip)
    (block : CBlock) (height : Z) : option (uint256 * DrivechainReplayedBmmEdge) :=
  if c.(ms_state_height) <? height then
    Some (cache.(tip_hash),
      match ExtractCanonicalDrivechainBmmCommitmentInBlock block (configured_slot p) with
      | Ok (h, _) => mkEdge (GetBlockHash block) (height - 1) height true h
      | Err _ => mkEdge (GetBlockHash block) (height - 1) height false 0
      end)
  else None.

Definition replay_step (p : ReplayParams) (c : Milestones) (io : bool)
    (s : DrivechainParentReplayStore) (cache : DrivechainParentReplayTip) (block : CBlock)
    : result (DrivechainParentReplayStore * DrivechainParentReplayTip) :=
  let height := u32 (cache.(tip_height) + 1) in
  ensure (block.(header).(hashPrevBlock) =? cache.(tip_hash))
    "authenticated parent-state replay is not a contiguous chain";;
  r ← ApplyDrivechainParentBlockState p block height cache.(tip_state);
  CheckDrivechainParentReplayMilestone p c height block r.(r_state);;
  let next := mkTip height (GetBlockHash block) r.(r_state) in
  s' ← Append s cache next r.(r_deposits) (replay_edge p c cache block height)
         r.(r_withdrawals) r.(r_proposals) io;
  Ok (s', next).

(** ** Sanity of a tip is the replay invariant *)
Lemma sane_withdrawals_iff H seen l : Forall vote_typed l ->
  sane_withdrawals H seen l = true <->
  Forall (bundle_ok H 2) l /\ NoDup (map m6id l) /\ forall e, e ∈ l -> m6id e ∉ seen.
Proof.
  intros Ht. revert seen. induction Ht as [|e l He Hl IH]; intros seen; cbn [sane_withdrawals map].
  { split; [intros _|done]. split_and!; [constructor|constructor|]. intros e Hc. by apply elem_of_nil in Hc. }
  rewrite andb_true_iff, IH, negb_true_iff, !orb_false_iff, !Z.ltb_ge, bool_decide_eq_false.
  rewrite list.NoDup_cons, list.Forall_cons. unfold bundle_ok. split.
  - intros (((H1 & H2) & H3) & H4 & H5 & H6). unfold vote_typed in *.
    split_and!; try lia; try done.
    + intros (e' & Heq & Hin)%list_elem_of_fmap. apply (H6 e' Hin). rewrite <- Heq.
      by apply elem_of_union_l, elem_of_singleton.
    + intros e' [->|Hin]%elem_of_cons; [done|]. intros Hs.
      apply (H6 e' Hin). by apply elem_of_union_r.
  - intros ((H1 & H2) & (H3 & H4) & H5). split_and!; try done; try lia.
    + apply H5. by left.
    + intros e' Hin. rewrite not_elem_of_union, not_elem_of_singleton. split; [|apply H5; by right].
      intros Heq. apply H3. rewrite <- Heq. apply list_elem_of_fmap. by exists e'.
Qed.

Lemma sane_proposals_iff H m : sane_proposals H m = true <->
  forall h pr, m !! h = Some pr -> h <> 0 /\ proposal_ok H pr.
Proof.
  unfold sane_proposals, proposal_ok. rewrite forallb_map_ascending. unfold map_Forall, IsNull.
  split; intros Hm h pr Hl; specialize (Hm h pr Hl); cbn beta iota in *.
  - bool_simp. split; [done|]. lia.
  - lia.
Qed.

(** The typing the C++ fields have: votes are 16-bit. *)
Definition slot_typed (x : DrivechainOtherSlotReplayState) : Prop := Forall vote_typed x.(pending_withdrawals).

Lemma sane_slot_iff H x : slot_typed x ->
  sane_slot H x = true <-> slot_inv H 2 x /\ proposals_ok H x.
Proof.
  intros Ht. unfold sane_slot. rewrite !andb_true_iff, sane_proposals_iff, (sane_withdrawals_iff _ _ _ Ht).
  split.
  - intros (((((C1 & C2) & C3) & P) & (W1 & W2 & _)) & A). split; [split|].
    + unfold has_ctip, IsNull in *. split_and!.
      * intros Hn. rewrite Hn in C2. cbn in C2. lia.
      * intros Hs. rewrite (bool_decide_eq_true_2 _ Hs) in C1. unfold is_active, IsNull. lia.
      * bool_simp. by apply MoneyRange_iff.
      * bool_simp. by apply MoneyRange_iff.
    + intros h [pr Hl]. by apply (P h pr).
    + done.
    + done.
    + intros Hi. unfold is_active in Hi. bool_simp. rewrite Hi in A. cbn in A. by bool_simp.
    + intros h pr Hl. by apply (P h pr).
  - intros [[(C1 & C2 & C3) P1 W1 W2 A] P2]. unfold has_ctip, is_active in *. split_and!.
    + case_bool_decide as Hs; [rewrite negb_true_iff, andb_true_r; by apply negb_true_iff, C2|].
      by rewrite andb_false_r.
    + case_bool_decide as Hs; [done|]. cbn. destruct (ctip x); [by destruct Hs|]. rewrite C1 by done. done.
    + rewrite (proj2 (MoneyRange_iff _)) by done. lia.
    + intros h pr Hl. split; [apply P1; by rewrite Hl|by apply (P2 h pr)].
    + done.
    + done.
    + intros e _ Hc. by apply elem_of_empty in Hc.
    + destruct (IsNull _); [|done]. cbn. rewrite A by done. done.
Qed.

(** CTIPs keyed by their slot are distinct exactly when no two slots share one. *)
Lemma distinct_ctips_iff (kl : list (Z * option COutPoint)) seen : NoDup kl.*1 ->
  distinct_ctips seen (map snd kl) = true <->
  (forall s1 s2 c, (s1, Some c) ∈ kl -> (s2, Some c) ∈ kl -> s1 = s2) /\
  (forall s c, (s, Some c) ∈ kl -> c ∉ seen).
Proof.
  revert seen. induction kl as [|[s o] kl IH]; intros seen Hnd; cbn [map snd distinct_ctips].
  { split; [intros _|done]. split; [intros s1 s2 c Hc|intros s c Hc]; by apply elem_of_nil in Hc. }
  cbn [fmap list_fmap fst] in Hnd. apply list.NoDup_cons in Hnd as [Hs Hnd].
  assert (Hne : forall s' o', (s', o') ∈ kl -> s' <> s).
  { intros s' o' Hin ->. apply Hs, list_elem_of_fmap. by exists (s, o'). }
  destruct o as [c0|]; [rewrite andb_true_iff, negb_true_iff, bool_decide_eq_false|]; rewrite IH by done.
  - setoid_rewrite elem_of_cons. setoid_rewrite not_elem_of_union. setoid_rewrite not_elem_of_singleton. split.
    + intros (H1 & H2 & H3). split.
      * intros s1 s2 c [Q1|E1] [Q2|E2]; simplify_eq; [done| | |by eapply H2].
        -- by destruct (H3 _ _ E2).
        -- by destruct (H3 _ _ E1).
      * intros s' c [[= -> ->]|E1]; [done|]. by apply (H3 _ _ E1).
    + intros [H1 H2]. split_and!.
      * apply (H2 s). by left.
      * intros s1 s2 c E1 E2. eapply H1; eauto.
      * intros s' c E. split; [|by eapply H2; right; exact E]. intros ->.
        eapply Hne; [exact E|]. eapply H1; [by right|by left].
  - setoid_rewrite elem_of_cons. split.
    + intros [H1 H2]. split; [|intros s' c [[=]|E]; by eapply H2].
      intros s1 s2 c [[=]|E1] [[=]|E2]. by eapply H1.
    + intros [H1 H2]. split; [intros s1 s2 c E1 E2; eapply H1; eauto|intros s' c E; eapply H2; eauto].
Qed.

Section tips.
Context (p : ReplayParams).
Implicit Types (st : DrivechainParentReplayState).

Definition keyed_ctips st : list (Z * option COutPoint) :=
  (configured_slot p, st.(own).(ctip)) :: map (fun '(s, x) => (s, x.(ctip))) (map_ascending st.(other_slots)).

Lemma keyed_ctips_snd st : map snd (keyed_ctips st) =
  st.(own).(ctip) :: map (fun '(_, x) => x.(ctip)) (map_ascending st.(other_slots)).
Proof. cbn. f_equal. rewrite map_map. by apply map_ext; intros []. Qed.

Lemma keyed_ctips_fst st : own_apart p st -> NoDup (keyed_ctips st).*1.
Proof.
  intros Ha. unfold keyed_ctips. cbn [fmap list_fmap fst].
  assert (E : (map (fun '(s, x) => (s, ctip x)) (map_ascending (other_slots st))).*1 = (map_ascending (other_slots st)).*1).
  { unfold fmap. generalize (map_ascending (other_slots st)). induction l as [|[s x] l IH]; cbn; congruence. }
  rewrite E. constructor; [|apply NoDup_fst_map_ascending].
  intros ([s x] & Heq & Hin)%list_elem_of_fmap. apply elem_of_map_ascending in Hin. cbn in Heq. subst s.
  unfold own_apart in Ha. congruence.
Qed.

Lemma elem_of_keyed_ctips st s c : own_apart p st ->
  (s, Some c) ∈ keyed_ctips st <-> (slot_state p st s).(ctip) = Some c.
Proof.
  intros Ha. unfold keyed_ctips. rewrite elem_of_cons, list_elem_of_fmap. split.
  - intros [[= -> ->]|([s' x] & [= -> ->] & Hin)]; [by rewrite slot_state_own|].
    apply elem_of_map_ascending in Hin. by rewrite (slot_state_other p st s' x).
  - intros Hc. destruct (slot_state_inv p st s) as [->|Hx]; [by intros E; rewrite E in Hc| |].
    + left. rewrite slot_state_own in Hc. by rewrite Hc.
    + right. exists (s, slot_state p st s). rewrite Hc. split; [done|]. by apply elem_of_map_ascending.
Qed.

Lemma sane_ctips_iff st : own_apart p st ->
  distinct_ctips ∅ (st.(own).(ctip) :: map (fun '(_, x) => x.(ctip)) (map_ascending st.(other_slots))) = true <->
  ctips_distinct p st.
Proof.
  intros Ha. rewrite <- keyed_ctips_snd, distinct_ctips_iff by (by apply keyed_ctips_fst). unfold ctips_distinct.
  split.
  - intros [Hd _] s1 s2 c H1 H2. by eapply Hd; apply elem_of_keyed_ctips.
  - intros Hd. split; [|by intros s c _ Hc; apply elem_of_empty in Hc].
    intros s1 s2 c H1 H2. by eapply Hd; apply elem_of_keyed_ctips.
Qed.
End tips.

(** ** One block *)
Section block.
Context (p : ReplayParams).
Implicit Types (st : DrivechainParentReplayState).

(** What the replay takes from the parent chain's own consensus rules: block
    and proposal hashes are not null, the transactions of a block have distinct
    non-null ids and a 32-bit number of outputs, and no transaction id of the
    block is that of a transaction that already created a CTIP. *)
Record block_ok st (block : CBlock) : Prop := {
  bo_hash : GetBlockHash block <> 0;
  bo_m1 : m1_nonnull block;
  bo_txs : txs_fresh (drop 1 block.(vtx));
  bo_ctips : ctips_fresh p st (map GetHash (drop 1 block.(vtx))) }.

Lemma check_start_own_apart block st u : check_start p block st = Ok u -> own_apart p st.
Proof.
  unfold check_start. intros Hc. inv_ok.
  match goal with H : forallb _ (map_ascending (other_slots st)) = true |- _ =>
    apply forallb_map_ascending in H; rename H into Hall end.
  unfold own_apart. destruct (other_slots st !! configured_slot p) as [x|] eqn:E; [|done].
  specialize (Hall _ _ E). cbn beta iota in Hall. by rewrite Z.eqb_refl in Hall.
Qed.

Lemma slot_empty_inv m s x : slot_empty m s x = true -> x = empty_slot.
Proof.
  unfold slot_empty, has_ctip, IsNull. intros Hs. bool_simp. destruct x as [a pp pw c v]. cbn in *.
  subst. destruct c; [by match goal with H : ~ is_Some _ |- _ => destruct H end|done].
Qed.

Lemma slot_state_prune st s : slot_state p (prune st) s = slot_state p st s.
Proof.
  unfold slot_state, prune, with_others. cbn [own other_slots]. case_match; [done|].
  rewrite map_lookup_filter. destruct (other_slots st !! s) as [x|] eqn:E; [|done]. cbn.
  destruct (slot_empty _ s x) eqn:Hs.
  - rewrite option_guard_False by done. by rewrite (slot_empty_inv _ _ _ Hs).
  - by rewrite option_guard_True.
Qed.

Lemma own_apart_prune st : own_apart p st -> own_apart p (prune st).
Proof.
  unfold own_apart, prune, with_others. cbn [other_slots]. intros E. by rewrite map_lookup_filter, E.
Qed.

(** What a successfully applied block guarantees. *)
Record block_inv (H : Z) (block : CBlock) st (r : BlockResult) : Prop := {
  bi_start : start_inv p H r.(r_state);
  bi_proposals : forall s, proposals_ok H (slot_state p r.(r_state) s);
  bi_actions : actions_inv p r.(r_state) r.(r_state).(previous_m4_actions);
  bi_required : r.(r_state).(required_proposal_activated) = true ->
    r.(r_state).(own).(active_proposal_hash) = p.(required_active_proposal);
  bi_stable : required_stable st r.(r_state);
  bi_distinct : ctips_distinct p r.(r_state);
  bi_identities : NoDup r.(r_proposals);
  bi_paid : forall w, w ∈ r.(r_withdrawals) -> exists tx v, tx ∈ drop 1 block.(vtx) /\
    ComputeDrivechainM6Id tx v p.(treasury_opcode) = Ok (w.(s_m6id), w.(s_slot));
  bi_records : exists st3 g ra, coinbase_inv p H st st3 r.(r_proposals) /\
    (ra = true -> r.(r_state).(required_proposal_activated) = true) /\
    apply_coinbase p block H st = Ok (st3, r.(r_proposals)) /\
    (forall s, slot_state p r.(r_state) s = slot_state p g.(t_state) s) /\
    slots_inv p H st3 g.(t_state) [] /\
    records_inv p H (GetBlockHash block) ra st3 g [] /\
    g.(t_withdrawals) = r.(r_withdrawals) /\ g.(t_deposits) = r.(r_deposits) }.

Lemma slots_inv_start H st st3 props T : coinbase_inv p H st st3 props ->
  ctips_distinct p st -> ctips_fresh p st T -> slots_inv p H st3 st3 T.
Proof.
  intros [Ha Hs Hp _ _ _ Ht _ _] Hd Hf. split; auto using same_frame_refl.
  - intros s1 s2 c. rewrite (proj1 (Ht s1)), (proj1 (Ht s2)). apply Hd.
  - intros s c. rewrite (proj1 (Ht s)). apply Hf.
Qed.

Lemma records_inv_start H bh ra st3 applied T : records_inv p H bh ra st3 (mkTxProgress st3 applied [] []) T.
Proof.
  split; cbn; try by constructor.
  - intros w Hw. by apply elem_of_nil in Hw.
  - intros d Hd. by apply elem_of_nil in Hd.
  - exists 0. cbn. split_and!; [lia|lia|done].
Qed.

Lemma Apply_inv block H st r : start_inv p (H - 1) st -> ctips_distinct p st -> block_ok st block ->
  ApplyDrivechainParentBlockState p block H st = Ok r -> block_inv H block st r.
Proof.
  intros Hst Hd [Hbh Hm1 Htx Hct] Hr. unfold ApplyDrivechainParentBlockState in Hr. inv_ok.
  rename x into st3, y into props.
  pose proof (apply_coinbase_inv p block H st st3 props Hst Hbh Hm1 Hok0) as Hci.
  match goal with H : foldM _ _ _ = Ok ?gg |- _ => rename gg into g; rename H into Hfold end.
  pose proof (fun w => withdrawals_from p H _ _ _ (mkTxProgress st3 _ _ _) _ w (ci_apart _ _ _ _ _ Hci) Hfold) as Hpaid.
  apply (transactions_inv p H _ _ st3) in Hfold as [Hsl Hri];
    [|done|by eapply slots_inv_start|apply records_inv_start].
  pose proof Hci as Hci'. destruct Hci as [_ _ _ Hact Hreq Hstb _ _ Hnd].
  destruct (sl_frame _ _ _ _ _ Hsl) as (F1 & F2 & F3 & F4 & _).
  split; cbn [r_state r_proposals r_withdrawals r_deposits].
  - split; [by apply own_apart_prune, Hsl|intros s; rewrite slot_state_prune; apply Hsl|].
    unfold required_inv in *. cbn. by rewrite F1, F2, F3.
  - intros s. rewrite slot_state_prune. apply Hsl.
  - intros s a Ha. cbn in Ha. rewrite F4 in Ha. rewrite slot_state_prune, (sl_active _ _ _ _ _ Hsl).
    by apply Hact.
  - intros Ha. rewrite Ha in *. cbn [andb negb] in *. bool_simp. done.
  - unfold required_stable in *. cbn. by rewrite F1, F2, F3.
  - intros s1 s2 c. rewrite !slot_state_prune. apply Hsl.
  - done.
  - intros w Hw. destruct (Hpaid w Hw) as [Hn|?]; [by apply elem_of_nil in Hn|done].
  - exists st3, g, (required_proposal_active p st3). split_and!; auto; [|intros s; apply slot_state_prune].
    intros Hra. unfold required_proposal_active in Hra. bool_simp. cbn. by rewrite F1.
Qed.
End block.

(** ** Sane tips *)
Section sane.
Context (p : ReplayParams).
Implicit Types (st : DrivechainParentReplayState) (tip : DrivechainParentReplayTip).

Definition state_typed st : Prop := forall s, slot_typed (slot_state p st s).

Lemma slot_typed_inv H k x : slot_inv H k x -> slot_typed x.
Proof. intros Hx. by eapply bundle_ok_typed, si_bundles. Qed.

(** All slots satisfy a property that the empty slot has exactly when the
    configured one and every entry do. *)
Lemma all_slots_iff (P : DrivechainOtherSlotReplayState -> Prop) st : own_apart p st -> P empty_slot ->
  (forall s, P (slot_state p st s)) <-> P st.(own) /\ map_Forall (fun _ x => P x) st.(other_slots).
Proof.
  intros Ha He. split.
  - intros Hs. split; [by rewrite <- (slot_state_own p)|]. intros s x Hx.
    by rewrite <- (slot_state_other p st s x).
  - intros [Ho Hx] s. unfold slot_state. case_match; [done|].
    destruct (other_slots st !! s) as [x|] eqn:E; [|done]. by apply (Hx s x).
Qed.

Lemma proposals_ok_empty H : proposals_ok H empty_slot.
Proof. intros h pr Hl. done. Qed.

Lemma sane_slots_iff H st : own_apart p st -> state_typed st ->
  sane_slot H st.(own) && forallb (fun '(_, x) => sane_slot H x) (map_ascending st.(other_slots)) = true <->
  forall s, slot_inv H 2 (slot_state p st s) /\ proposals_ok H (slot_state p st s).
Proof.
  intros Ha Ht. rewrite andb_true_iff, forallb_map_ascending.
  rewrite (all_slots_iff (fun x => slot_inv H 2 x /\ proposals_ok H x)) by
    (auto using slot_inv_empty, proposals_ok_empty).
  rewrite sane_slot_iff by (rewrite <- (slot_state_own p); apply Ht).
  apply and_iff_compat_l. unfold map_Forall. split; intros Hm s x Hx; specialize (Hm s x Hx); cbn beta iota in *.
  - apply sane_slot_iff in Hm; [done|]. rewrite <- (slot_state_other p st s x) by done. apply Ht.
  - apply sane_slot_iff; [|done]. rewrite <- (slot_state_other p st s x) by done. apply Ht.
Qed.

Lemma sane_required_iff H st : sane_required H st = true <->
  required_inv H st /\ (st.(required_proposal_activated) = true -> is_active st.(own) = true).
Proof.
  unfold sane_required, required_inv, is_active, IsNull.
  destruct (required_proposal_activated st); rewrite negb_true_iff, !orb_false_iff.
  - rewrite !Z.eqb_neq, Z.ltb_ge. split; [|intros [[? ?] Ha]; specialize (Ha eq_refl); bool_simp; done].
    intros [[? ?] ?]. split; [done|]. intros _. by apply negb_true_iff, Z.eqb_neq.
  - rewrite !negb_false_iff, !Z.eqb_eq. split; [|by intros [? _]]. by intros [? ?].
Qed.

Lemma sane_actions_intro st l seen : own_apart p st -> NoDup l.*1 ->
  (forall s a, (s, a) ∈ l -> action_ok a = true /\ is_active (slot_state p st s) = true) ->
  (seen = true -> configured_slot p ∉ l.*1) -> sane_actions st seen l = true.
Proof.
  intros Ha. revert seen. induction l as [|[s a] l IH]; intros seen Hnd Hl Hseen; [done|].
  cbn [sane_actions]. cbn [fmap list_fmap fst] in *. apply list.NoDup_cons in Hnd as [Hs Hnd].
  destruct (Hl s a ltac:(left)) as [-> Hact]. cbn [andb].
  assert (Hl' : forall s' a', (s', a') ∈ l -> action_ok a' = true /\ is_active (slot_state p st s') = true).
  { intros s' a' Hin. apply Hl. by right. }
  destruct (slot_state_inv p st s (is_active_nonempty _ Hact)) as [->|Hx].
  - unfold own_apart in Ha. rewrite Ha. rewrite slot_state_own in Hact. rewrite Hact.
    destruct seen; [destruct Hseen; [done|left]|]. cbn. apply IH; auto.
  - rewrite Hx, Hact. cbn [andb]. apply IH; auto. intros Hseen' Hin. apply Hseen; [done|]. by right.
Qed.

Lemma IsSaneTip_elim tip : own_apart p tip.(tip_state) -> state_typed tip.(tip_state) ->
  IsSaneTip tip = true ->
  tip.(tip_hash) <> 0 /\ start_inv p tip.(tip_height) tip.(tip_state) /\ ctips_distinct p tip.(tip_state).
Proof.
  intros Ha Ht Hs. unfold IsSaneTip in Hs. rewrite !andb_true_iff in Hs.
  destruct Hs as [[[[[H1 H2] H3] H4] H5] _]. apply sane_required_iff in H2 as [H2 _].
  apply (sane_ctips_iff p) in H5; [|done].
  assert (Hsl := proj1 (sane_slots_iff _ _ Ha Ht) (proj2 (andb_true_iff _ _) (conj H3 H4))).
  split_and!; [unfold IsNull in H1; bool_simp; done| |done].
  split; [done| |done]. intros s. apply Hsl.
Qed.

Lemma IsSaneTip_intro H block st r : params_ok p = true -> GetBlockHash block <> 0 ->
  block_inv p H block st r -> IsSaneTip (mkTip H (GetBlockHash block) r.(r_state)) = true.
Proof.
  intros Hp Hh [Hst Hpr Hact Hreq _ Hd _ _ _]. destruct Hst as [Ha Hs Hr].
  unfold IsSaneTip. cbn [tip_hash tip_state tip_height]. rewrite !andb_true_iff.
  assert (Ht : state_typed (r_state r)) by (intros s; by eapply slot_typed_inv).
  pose proof (proj2 (sane_slots_iff H _ Ha Ht) (fun s => conj (Hs s) (Hpr s))) as Hsl.
  apply andb_true_iff in Hsl as [S1 S2]. split_and!; auto.
  - unfold IsNull. by apply negb_true_iff, Z.eqb_neq.
  - apply sane_required_iff. split; [done|]. intros Hx. unfold is_active, IsNull. rewrite (Hreq Hx).
    unfold params_ok, IsNull in Hp. bool_simp. by apply negb_true_iff, Z.eqb_neq.
  - by apply (sane_ctips_iff p).
  - apply sane_actions_intro; auto; [apply NoDup_fst_map_ascending| |done].
    intros s a Hin%elem_of_map_ascending. by apply Hact.
Qed.
End sane.
