(* ===== verification/ReplayTheorems.v ===== *)
(** * What the parent replay guarantees

    The theorems on [ApplyDrivechainParentBlockState] and on the replay loop
    built from the invariants of the previous files: sane tips stay sane,
    mintable deposits are backed by the treasury, the required activation is
    final, withdrawals are delayed, and the store accepts what the replay
    derives. *)

From S2P Require Import Prelude Sha256 Script Transaction ParentMessage ParentState ParentFacts.
From S2P Require Import TreasuryFacts ReplayStore StoreFacts Replay.

(** ** Chains of blocks *)
Section chain.
Context (p : ReplayParams).
Implicit Types (st : DrivechainParentReplayState) (b : CBlock).

(** The state the replay starts from: what [Load] accepts, with typed fields
    and the configured slot kept apart. *)
Record tip_ok (tip : DrivechainParentReplayTip) : Prop := {
  tk_sane : IsSaneTip tip = true;
  tk_apart : own_apart p tip.(tip_state);
  tk_typed : state_typed p tip.(tip_state) }.

(** [blocks] lead from the starting tip to the state [st]. *)
Inductive parent_chain (t0 : DrivechainParentReplayTip) : list CBlock -> DrivechainParentReplayState -> Prop :=
| chain_start : parent_chain t0 [] t0.(tip_state)
| chain_block blocks st b r : parent_chain t0 blocks st -> block_ok p st b ->
    ApplyDrivechainParentBlockState p b (t0.(tip_height) + len blocks + 1) st = Ok r ->
    parent_chain t0 (blocks ++ [b]) r.(r_state).

(** The block carries an M3 message that proposes bundle [id] for slot [s]. *)
Definition proposes b (s : Z) (id : uint256) : Prop :=
  exists o, o ∈ coinbase_outputs b /\
    let m := ParseDrivechainParentMessage o.(scriptPubKey) in
    m.(type) = WITHDRAWAL_PROPOSAL /\ m.(slot) = s /\ m.(proposal_hash) = id.

Lemma Apply_start block H st r : ApplyDrivechainParentBlockState p block H st = Ok r ->
  params_ok p = true /\ own_apart p st.
Proof.
  unfold ApplyDrivechainParentBlockState. intros Hr. inv_ok. split; [|by eapply check_start_own_apart].
  unfold check_start in Hok. inv_ok. done.
Qed.

Lemma tip_ok_inv tip : tip_ok tip ->
  start_inv p tip.(tip_height) tip.(tip_state) /\ ctips_distinct p tip.(tip_state).
Proof. intros [Hs Ha Ht]. by destruct (IsSaneTip_elim p tip Ha Ht Hs) as (_ & ? & ?). Qed.

Lemma Apply_tip_ok tip block r : tip_ok tip -> block_ok p tip.(tip_state) block ->
  ApplyDrivechainParentBlockState p block (tip.(tip_height) + 1) tip.(tip_state) = Ok r ->
  block_inv p (tip.(tip_height) + 1) block tip.(tip_state) r /\
  tip_ok (mkTip (tip.(tip_height) + 1) (GetBlockHash block) r.(r_state)).
Proof.
  intros Hok Hb Hr. destruct (tip_ok_inv _ Hok) as [Hst Hd]. destruct (Apply_start _ _ _ _ Hr) as [Hp _].
  assert (Hi : block_inv p (tip_height tip + 1) block (tip_state tip) r).
  { eapply Apply_inv; eauto. by replace (tip_height tip + 1 - 1) with (tip_height tip) by lia. }
  split; [done|]. split; cbn [tip_state].
  - exact (IsSaneTip_intro p _ block _ r Hp (bo_hash _ _ _ Hb) Hi).
  - apply Hi.
  - intros s. eapply slot_typed_inv. apply Hi.
Qed.

Lemma chain_inv t0 blocks st : tip_ok t0 -> parent_chain t0 blocks st ->
  start_inv p (t0.(tip_height) + len blocks) st /\ ctips_distinct p st.
Proof.
  intros H0. induction 1 as [|blocks st b r _ [IH1 IH2] Hb Hr].
  - replace (tip_height t0 + len []) with (tip_height t0) by (unfold len; cbn [length]; lia). by apply tip_ok_inv.
  - apply Apply_inv in Hr as Hi; [|by replace (_ + 1 - 1) with (tip_height t0 + len blocks) by lia|done|done].
    rewrite len_app. replace (_ + (_ + _)) with (tip_height t0 + len blocks + 1) by (unfold len; cbn [length]; lia).
    split; apply Hi.
Qed.

(** A bundle pending after a block was pending before it or is proposed in it. *)
Lemma Apply_keys block H st r s key : start_inv p (H - 1) st -> ctips_distinct p st -> block_ok p st block ->
  ApplyDrivechainParentBlockState p block H st = Ok r -> key ∈ keys p r.(r_state) s ->
  key ∈ keys p st s \/ (proposes block s key.1 /\ key.2 = H).
Proof.
  intros Hst Hd Hb Hr Hin. destruct (Apply_inv _ _ _ _ _ Hst Hd Hb Hr) as [_ _ _ _ _ _ _ _ Hrec].
  destruct Hrec as (st3 & g & ra & _ & _ & Hc & Hsl & Hsi & _).
  unfold keys in Hin. rewrite Hsl in Hin.
  assert (Hin3 : key ∈ keys p st3 s).
  { unfold keys. eapply elem_of_sublist; [exact Hin|]. apply sublist_map, Hsi. }
  eapply apply_coinbase_keys in Hc as [?|(o & Ho & Ht & Hs & ->)]; eauto using bo_hash, bo_m1.
  right. split; [|done]. by exists o.
Qed.

Lemma chain_keys t0 blocks st s key : tip_ok t0 ->
  (forall s, (slot_state p t0.(tip_state) s).(pending_withdrawals) = []) ->
  parent_chain t0 blocks st -> key ∈ keys p st s ->
  exists i b, blocks !! i = Some b /\ proposes b s key.1 /\ key.2 = t0.(tip_height) + Z.of_nat i + 1.
Proof.
  intros H0 Hnone Hc. induction Hc as [|blocks st b r Hc IH Hb Hr]; intros Hin.
  { unfold keys in Hin. rewrite Hnone in Hin. by apply elem_of_nil in Hin. }
  destruct (chain_inv _ _ _ H0 Hc) as [Hst Hd].
  eapply Apply_keys in Hr as [Hk|[Hp Hk]]; eauto.
  - destruct (IH Hk) as (i & b' & Hi & Hb'). exists i, b'. split; [|done].
    by apply lookup_app_l_Some.
  - exists (length blocks), b. split; [|split; [done|unfold len in Hk; lia]].
    rewrite lookup_app_r by lia. by rewrite Nat.sub_diag.
  - by replace (_ + 1 - 1) with (tip_height t0 + len blocks) by lia.
Qed.

(** Where the bundle of a recorded withdrawal was pending. *)
Lemma Apply_withdrawal_key block H st r w : start_inv p (H - 1) st -> ctips_distinct p st -> block_ok p st block ->
  ApplyDrivechainParentBlockState p block H st = Ok r -> w ∈ r.(r_withdrawals) ->
  2 <= p.(withdrawal_bundle_inclusion_threshold) ->
  exists h, (w.(s_m6id), h) ∈ keys p st w.(s_slot) /\
    h + p.(withdrawal_bundle_inclusion_threshold) < H + 2.
Proof.
  intros Hst Hd Hb Hr Hw Hthr. destruct (Apply_inv _ _ _ _ _ Hst Hd Hb Hr) as [_ _ _ _ _ _ _ _ Hrec].
  destruct Hrec as (st3 & g & ra & Hci & _ & Hc & _ & _ & Hri & Ew & _). rewrite <- Ew in Hw.
  destruct (ri_ws _ _ _ _ _ _ _ Hri w Hw) as (_ & _ & _ & e & He & Hid & Hv).
  pose proof (si_bundles _ _ _ (ci_slots _ _ _ _ _ Hci (s_slot w))) as Hall.
  rewrite list.Forall_forall in Hall. destruct (Hall e He) as (_ & _ & Hle).
  exists (w_height e). split; [|lia].
  assert (Hk : (s_m6id w, w_height e) ∈ keys p st3 (s_slot w)).
  { unfold keys. apply list_elem_of_fmap. exists e. unfold bundle_key. by rewrite Hid. }
  eapply apply_coinbase_keys in Hc as [?|(o & _ & _ & _ & E)]; eauto using bo_hash, bo_m1.
  apply (f_equal snd) in E. cbn [snd] in E. lia.
Qed.
End chain.

(** ** Checking a concrete chain *)
Section check.
Context (p : ReplayParams).
Implicit Types (st : DrivechainParentReplayState) (b : CBlock).

Definition block_okb st b : bool :=
  let txs := drop 1 b.(vtx) in
  negb (GetBlockHash b =? 0) &&
  forallb (fun o => let m := ParseDrivechainParentMessage o.(scriptPubKey) in
             match m.(type) with PROPOSAL => negb (m.(proposal_hash) =? 0) | _ => true end)
    (coinbase_outputs b) &&
  bool_decide (NoDup (map GetHash txs)) &&
  forallb (fun tx => negb (GetHash tx =? 0) && (len tx.(vout) <=? NULL_INDEX)) txs &&
  forallb (fun x => match x.(ctip) with
                    | Some c => bool_decide (c.(hash) ∉ map GetHash txs)
                    | None => true
                    end) (st.(own) :: (map_to_list st.(other_slots)).*2).

Fixpoint run_blocks (h : Z) st (blocks : list CBlock) : option DrivechainParentReplayState :=
  match blocks with
  | [] => Some st
  | b :: t =>
      if block_okb st b then
        match ApplyDrivechainParentBlockState p b (h + 1) st with
        | Ok r => run_blocks (h + 1) r.(r_state) t
        | Err _ => None
        end
      else None
  end.

Lemma block_okb_sound st b : block_okb st b = true -> block_ok p st b.
Proof.
  unfold block_okb. rewrite !andb_true_iff, !forallb_forall, negb_true_iff, Z.eqb_neq, bool_decide_eq_true.
  intros ((((H1 & H2) & H3) & H4) & H5). split; [done| |split; [done|]|].
  - intros o Ho m Ht. apply list_elem_of_In in Ho. specialize (H2 o Ho). cbn zeta in H2.
    fold m in H2. rewrite Ht in H2. by apply negb_true_iff, Z.eqb_neq in H2.
  - rewrite list.Forall_forall. intros tx Htx%list_elem_of_In. specialize (H4 tx Htx).
    apply andb_true_iff in H4 as [Hn Hl]. by apply negb_true_iff, Z.eqb_neq in Hn; apply Z.leb_le in Hl.
  - intros s c Hc.
    assert (Hx : In (slot_state p st s) (st.(own) :: (map_to_list st.(other_slots)).*2)).
    { destruct (slot_state_inv p st s) as [->|Hx]; [by intros E; rewrite E in Hc| |].
      - left. by rewrite slot_state_own.
      - right. apply list_elem_of_In, list_elem_of_fmap. exists (s, slot_state p st s). split; [done|].
        by apply elem_of_map_to_list. }
    specialize (H5 _ Hx). rewrite Hc in H5. by apply bool_decide_eq_true in H5.
Qed.

Lemma run_blocks_sound t0 pre st blocks st' : parent_chain p t0 pre st ->
  run_blocks (t0.(tip_height) + len pre) st blocks = Some st' -> parent_chain p t0 (pre ++ blocks) st'.
Proof.
  revert pre st. induction blocks as [|b blocks IH]; intros pre st Hc Hr; cbn [run_blocks] in Hr.
  { injection Hr as <-. by rewrite app_nil_r. }
  destruct (block_okb st b) eqn:Eb; [|done].
  destruct (ApplyDrivechainParentBlockState _ _ _ _) as [r|] eqn:Er; [|done].
  replace (pre ++ b :: blocks) with ((pre ++ [b]) ++ blocks) by (by rewrite <- app_assoc).
  apply (IH _ r.(r_state)).
  - eapply chain_block; [done|by apply block_okb_sound|done].
  - rewrite len_app. unfold len in *. cbn [length]. by rewrite Z.add_assoc.
Qed.

Lemma tip_okb_sound tip : IsSaneTip tip = true ->
  bool_decide (tip.(tip_state).(other_slots) !! configured_slot p = None) = true ->
  forallb (fun x => forallb (fun e => (0 <=? e.(w_votes)) && (e.(w_votes) <=? UINT16_MAX)) x.(pending_withdrawals))
    (tip.(tip_state).(own) :: (map_to_list tip.(tip_state).(other_slots)).*2) = true -> tip_ok p tip.
Proof.
  intros Hs Ha%bool_decide_eq_true Hv. split; [done|done|]. intros s. unfold slot_typed.
  rewrite forallb_forall in Hv. unfold slot_state. case_match.
  - apply Forall_forall. intros e He. specialize (Hv _ (or_introl eq_refl)). rewrite forallb_forall in Hv.
    specialize (Hv e He). unfold vote_typed. lia.
  - destruct (_ !! s) as [x|] eqn:E; [|by constructor]. apply Forall_forall. intros e He.
    assert (Hx : In x (map_to_list (other_slots (tip_state tip))).*2).
    { apply list_elem_of_In, list_elem_of_fmap. exists (s, x). split; [done|]. by apply elem_of_map_to_list. }
    specialize (Hv _ (or_intror Hx)). rewrite forallb_forall in Hv. specialize (Hv e He).
    unfold vote_typed. lia.
Qed.
End check.

(** ** Sample blocks
    Slot 24 is active with the required proposal and a treasury of 1000.  An M3
    and two M4 blocks carry a bundle to three votes; the third block pays it.
    Another block deposits 500. *)
Module Sample.
Definition params : ReplayParams := mkParams 24 7 10 2 10 2 10 2 NOP8 SEQUENTIAL_M6.
Definition op_return (payload : bytes) : CTxOut := mkTxOut 0 (BuildSinglePushScript payload).
Definition treasury (v : Z) : CTxOut := mkTxOut v [0xb7; 1; 24; 0x51].
Definition spend (o : COutPoint) (outs : list CTxOut) : CTransaction :=
  mkTx [mkTxIn o [] 0 []] outs 2 0.
Definition block (prev : uint256) (outs : list CTxOut) (txs : list CTransaction) : CBlock :=
  mkBlock (mkHeader 1 prev 0 0 0 0) (spend (mkOutPoint 0 NULL_INDEX) outs :: txs).
Definition state : DrivechainParentReplayState :=
  mkState (mkSlot 7 ∅ [] (Some (mkOutPoint 9 0)) 1000) true 3 33 ∅ ∅.
Definition tip : DrivechainParentReplayTip := mkTip 6 100 state.

Definition m6_tx : CTransaction := spend (mkOutPoint 9 0) [treasury 800; mkTxOut 150 [0x51]].
Definition m6_id : uint256 :=
  match ComputeDrivechainM6Id m6_tx 1000 NOP8 with Ok (id, _) => id | Err _ => 0 end.
Definition m4 : CTxOut := op_return (M4_TAG ++ [1; 0]).
Definition b1 : CBlock := block 100 [op_return (M3_TAG ++ [24] ++ uint256_bytes m6_id)] [].
Definition b2 : CBlock := block (GetBlockHash b1) [m4] [].
Definition b3 : CBlock := block (GetBlockHash b2) [m4] [m6_tx].
Definition m5_tx : CTransaction := spend (mkOutPoint 9 0) [treasury 1500; op_return [65; 66]].
Definition b_deposit : CBlock := block 100 [] [m5_tx].

Definition state2 : DrivechainParentReplayState :=
  match run_blocks params 6 state [b1; b2] with Some st => st | None => state end.

Lemma tip_is_ok : tip_ok params tip.
Proof. apply tip_okb_sound; vm_compute; reflexivity. Qed.

Lemma deposit_block_ok : block_ok params state b_deposit.
Proof. apply block_okb_sound. vm_compute. reflexivity. Qed.

Lemma deposit_applies : exists r, ApplyDrivechainParentBlockState params b_deposit 7 state = Ok r.
Proof. eexists. vm_compute. reflexivity. Qed.

Lemma chain2 : parent_chain params tip [b1; b2] state2.
Proof.
  apply (run_blocks_sound params tip [] state [b1; b2]); [apply (chain_start params tip)|].
  vm_compute. reflexivity.
Qed.

Lemma b3_ok : block_ok params state2 b3.
Proof. apply block_okb_sound. vm_compute. reflexivity. Qed.

Lemma b3_applies : exists r, ApplyDrivechainParentBlockState params b3 9 state2 = Ok r /\
  r.(r_withdrawals) = [mkSuccess 24 m6_id 9 (GetBlockHash b3)].
Proof. eexists. split; vm_compute; reflexivity. Qed.
End Sample.

(** ** Theorems *)
(** C26.  Applying a block to a sane parent tip yields a sane tip again: the
    state machine never derives a state that the persistent store would refuse
    or report as corrupt. *)
Theorem Apply_preserves_sane_tip p tip block r :
  tip_ok p tip -> block_ok p tip.(tip_state) block ->
  ApplyDrivechainParentBlockState p block (tip.(tip_height) + 1) tip.(tip_state) = Ok r ->
  IsSaneTip (mkTip (tip.(tip_height) + 1) (GetBlockHash block) r.(r_state)) = true.
Proof. intros Ht Hb Hr. by destruct (Apply_tip_ok p tip block r Ht Hb Hr) as [_ [? _ _]]. Qed.

Lemma Apply_preserves_sane_tip_witness : exists r,
  ApplyDrivechainParentBlockState Sample.params Sample.b_deposit 7 Sample.state = Ok r /\
  IsSaneTip (mkTip 7 (GetBlockHash Sample.b_deposit) r.(r_state)) = true.
Proof.
  destruct Sample.deposit_applies as [r Hr]. exists r. split; [exact Hr|].
  exact (Apply_preserves_sane_tip Sample.params Sample.tip Sample.b_deposit r Sample.tip_is_ok
    Sample.deposit_block_ok Hr).
Defined.

(** C2.  Along any chain of applied blocks that starts with no pending
    bundle, a successful M6 withdrawal pays, with a transaction of its block, a
    bundle that an M3 of an earlier block of the chain proposed for the same
    slot, and since then at least [threshold - 1] further blocks were applied. *)
Theorem withdrawal_delay p t0 blocks st block r w :
  tip_ok p t0 -> (forall s, (slot_state p t0.(tip_state) s).(pending_withdrawals) = []) ->
  2 <= p.(withdrawal_bundle_inclusion_threshold) ->
  parent_chain p t0 blocks st -> block_ok p st block ->
  ApplyDrivechainParentBlockState p block (t0.(tip_height) + len blocks + 1) st = Ok r ->
  w ∈ r.(r_withdrawals) ->
  (exists tx v, tx ∈ drop 1 block.(vtx) /\
     ComputeDrivechainM6Id tx v p.(treasury_opcode) = Ok (w.(s_m6id), w.(s_slot))) /\
  exists i b, blocks !! i = Some b /\ proposes b w.(s_slot) w.(s_m6id) /\
    p.(withdrawal_bundle_inclusion_threshold) - 1 <= len blocks - Z.of_nat i.
Proof.
  intros H0 Hnone Hthr Hc Hb Hr Hw. destruct (chain_inv _ _ _ _ H0 Hc) as [Hst Hd].
  replace (t0.(tip_height) + len blocks) with (t0.(tip_height) + len blocks + 1 - 1) in Hst by lia.
  split; [exact (bi_paid _ _ _ _ _ (Apply_inv _ _ _ _ _ Hst Hd Hb Hr) w Hw)|].
  destruct (Apply_withdrawal_key _ _ _ _ _ _ Hst Hd Hb Hr Hw Hthr) as (h & Hk & Hh).
  destruct (chain_keys _ _ _ _ _ _ H0 Hnone Hc Hk) as (i & b & Hi & Hp & Hkh). cbn [fst snd] in *.
  exists i, b. split_and!; [done|done|lia].
Qed.

Lemma withdrawal_delay_witness : exists i b,
  [Sample.b1; Sample.b2] !! i = Some b /\ proposes b 24 Sample.m6_id.
Proof.
  destruct Sample.b3_applies as (r & Hr & Hw).
  destruct (withdrawal_delay Sample.params Sample.tip [Sample.b1; Sample.b2] Sample.state2 Sample.b3 r
    (mkSuccess 24 Sample.m6_id 9 (GetBlockHash Sample.b3))) as [_ (i & b & Hi & Hp & _)].
  - exact Sample.tip_is_ok.
  - intros s. unfold slot_state. case_match; [reflexivity|]. reflexivity.
  - vm_compute. discriminate.
  - exact Sample.chain2.
  - exact Sample.b3_ok.
  - exact Hr.
  - rewrite Hw. left.
  - exists i, b. split; [exact Hi|exact Hp].
Defined.

(** Without withdrawals of the configured slot, deposits are backed by the growth of its treasury. *)
Lemma Apply_backed p tip block r : tip_ok p tip -> block_ok p tip.(tip_state) block ->
  ApplyDrivechainParentBlockState p block (tip.(tip_height) + 1) tip.(tip_state) = Ok r ->
  Forall (fun w => w.(s_slot) <> configured_slot p) r.(r_withdrawals) ->
  total r.(r_deposits) <= r.(r_state).(own).(ctip_value) - tip.(tip_state).(own).(ctip_value).
Proof.
  intros Ht Hb Hr. destruct (Apply_tip_ok p tip block r Ht Hb Hr) as [Hi _].
  destruct Hi as [_ _ _ _ _ _ _ _ (st3 & g & ra & Hci & _ & _ & Hsl & _ & Hri & Ew & Ed)].
  destruct Hri as [_ _ _ _ (paid & _ & Hback & Hpaid)]. rewrite Ed, Ew in *. intros Hall. specialize (Hpaid Hall).
  rewrite <- Hsl, !slot_state_own in Hback.
  pose proof (proj2 (ci_treasury _ _ _ _ _ Hci (configured_slot p))) as Hv. rewrite !slot_state_own in Hv. lia.
Qed.

(** C13.  The mintable deposits a block yields are well formed, have
    distinct outpoints and carry the block's hash and height; there are none
    unless the required proposal is active; and, when no withdrawal of the
    configured slot succeeds in the block, their total is at most the growth of
    the slot's treasury. *)
Theorem deposits_backed p tip block r :
  tip_ok p tip -> block_ok p tip.(tip_state) block ->
  ApplyDrivechainParentBlockState p block (tip.(tip_height) + 1) tip.(tip_state) = Ok r ->
  NoDup (map outpoint r.(r_deposits)) /\
  Forall (fun d => IsSaneDeposit d = true /\ d.(d_block_hash) = GetBlockHash block /\
                   d.(d_block_height) = tip.(tip_height) + 1) r.(r_deposits) /\
  (r.(r_deposits) <> [] -> r.(r_state).(required_proposal_activated) = true /\
     r.(r_state).(own).(active_proposal_hash) = p.(required_active_proposal)) /\
  (Forall (fun w => w.(s_slot) <> configured_slot p) r.(r_withdrawals) ->
   total r.(r_deposits) <= r.(r_state).(own).(ctip_value) - tip.(tip_state).(own).(ctip_value)).
Proof.
  intros Ht Hb Hr. destruct (Apply_tip_ok p tip block r Ht Hb Hr) as [Hi _].
  destruct Hi as [_ _ _ Hreq _ _ _ _ (st3 & g & ra & Hci & Hra & _ & Hsl & _ & Hri & Ew & Ed)].
  destruct Hri as [_ _ Hnd Hds _]. rewrite Ed in *.
  split_and!.
  - done.
  - rewrite list.Forall_forall. intros d Hd. destruct (Hds d Hd) as [Hok _].
    split_and!; [|apply Hok..]. eapply deposit_ok_sane; [exact (bo_hash _ _ _ Hb)|exact Hok].
  - intros Hne. destruct (r_deposits r) as [|d ds]; [done|].
    destruct (Hds d ltac:(left)) as [(Hrat & _) _]. auto.
  - by apply (Apply_backed p tip block r).
Qed.

Lemma deposits_backed_witness : exists r,
  ApplyDrivechainParentBlockState Sample.params Sample.b_deposit 7 Sample.state = Ok r /\
  NoDup (map outpoint r.(r_deposits)).
Proof.
  destruct Sample.deposit_applies as [r Hr]. exists r. split; [exact Hr|].
  apply (deposits_backed Sample.params Sample.tip Sample.b_deposit r Sample.tip_is_ok
    Sample.deposit_block_ok Hr).
Defined.

(**  Once the required proposal is recorded as activated, no later
    chain of blocks clears the record or changes its height and block hash, and
    the configured slot keeps that proposal active. *)
Theorem required_activation_final p t0 blocks st :
  tip_ok p t0 -> t0.(tip_state).(required_proposal_activated) = true ->
  parent_chain p t0 blocks st -> blocks <> [] ->
  st.(required_proposal_activated) = true /\
  st.(required_activation_height) = t0.(tip_state).(required_activation_height) /\
  st.(required_activation_block_hash) = t0.(tip_state).(required_activation_block_hash) /\
  st.(own).(active_proposal_hash) = p.(required_active_proposal).
Proof.
  intros H0 Ha Hc Hne.
  assert (Hs : required_stable t0.(tip_state) st /\
    (blocks = [] \/ (st.(required_proposal_activated) = true ->
       st.(own).(active_proposal_hash) = p.(required_active_proposal)))).
  { clear Hne. induction Hc as [|blocks st b r Hc [IH _] Hb Hr]; [by split; [|left]|].
    destruct (chain_inv _ _ _ _ H0 Hc) as [Hst Hd].
    replace (t0.(tip_height) + len blocks) with (t0.(tip_height) + len blocks + 1 - 1) in Hst by lia.
    destruct (Apply_inv _ _ _ _ _ Hst Hd Hb Hr) as [_ _ _ Hreq Hstb _ _ _ _]. split; [|by right].
    intros Hx. destruct (IH Hx) as (E1 & E2 & E3). destruct (Hstb E1) as (-> & -> & ->). done. }
  destruct Hs as [Hs [?|Hact]]; [done|]. destruct (Hs Ha) as (E1 & E2 & E3). auto.
Qed.

Lemma required_activation_final_witness : Sample.state2.(own).(active_proposal_hash) = 7.
Proof.
  apply (required_activation_final Sample.params Sample.tip [Sample.b1; Sample.b2] Sample.state2).
  - exact Sample.tip_is_ok.
  - reflexivity.
  - exact Sample.chain2.
  - discriminate.
Defined.

(** ** The store accepts what the replay derives *)
Section accepts.
Context (p : ReplayParams) (c : Milestones).

Lemma IsSaneEdge_intro parent e : parent <> 0 -> e.(successor_hash) <> 0 ->
  0 <= e.(parent_height) < UINT32_MAX -> e.(successor_height) = e.(parent_height) + 1 ->
  (e.(has_canonical_commitment) = true -> e.(committed_sidechain_hash) <> 0) -> IsSaneEdge parent e = true.
Proof.
  intros H1 H2 H3 H4 H5. unfold IsSaneEdge, IsNull. rewrite !andb_true_iff, !negb_true_iff, !Z.eqb_neq, Z.eqb_eq.
  split_and!; auto; [lia| |].
  - rewrite u32_mod, Z.mod_small; [done|]. unfold UINT32_MAX in *. lia.
  - destruct (has_canonical_commitment e); [|done]. cbn. apply negb_true_iff, Z.eqb_neq. auto.
Qed.

Lemma replay_edge_ok db cache block r : tip_typed cache -> cache.(tip_height) < UINT32_MAX ->
  cache.(tip_hash) <> 0 -> GetBlockHash block <> 0 -> db.(db_edges) !! cache.(tip_hash) = None ->
  (forall h i, ExtractCanonicalDrivechainBmmCommitmentInBlock block (configured_slot p) = Ok (h, i) -> h <> 0) ->
  edge_ok cache (mkTip (cache.(tip_height) + 1) (GetBlockHash block) r)
    (replay_edge p c cache block (cache.(tip_height) + 1)) db.
Proof.
  intros Ht Hm Hh Hb He Hz. unfold replay_edge. destruct (_ <? _); [|done].
  unfold tip_typed in Ht.
  destruct (ExtractCanonicalDrivechainBmmCommitmentInBlock _ _) as [[h i]|] eqn:Ex;
    (split; [apply IsSaneEdge_intro|]); cbn; try done; try lia; try (split_and!; [lia|done..]).
  intros _. by apply (Hz h i).
Qed.

Lemma replay_successes_ok s db id cache block r : store_inv id cache s db -> tip_typed cache ->
  s.(m_schema_version) = REPROPOSAL_SCHEMA_VERSION -> GetBlockHash block <> 0 ->
  block_inv p (cache.(tip_height) + 1) block cache.(tip_state) r ->
  check_successes s.(m_schema_version) db (mkTip (cache.(tip_height) + 1) (GetBlockHash block) r.(r_state))
    ∅ r.(r_withdrawals) = true.
Proof.
  intros Hi Ht Hv Hb [_ _ _ _ _ _ _ _ (st3 & g & ra & _ & _ & _ & _ & _ & Hri & <- & _)].
  destruct Hri as [Hnd Hok _ _ _]. apply check_successes_iff. split; [|done].
  rewrite list.Forall_forall. intros w Hw. destruct (Hok w Hw) as (E1 & E2 & _). rewrite E1, E2.
  cbn [tip_height tip_hash]. unfold IsSaneSuccessfulWithdrawal, IsNull. rewrite E2, (proj2 (Z.eqb_neq _ _) Hb).
  split_and!; auto; [apply not_elem_of_empty|by rewrite Hv|].
  destruct (db_occurrences db !! okey w) as [cl|] eqn:E; [|done].
  destruct (to_occurrences _ _ (so_tables _ _ _ _ Hi) _ _ E) as (w' & _ & (_ & Hk & Hle)).
  unfold okey in Hk. injection Hk as _ _ Hk. lia.
Qed.

Lemma identities_keys (l : list DrivechainWithdrawalProposalIdentity) : NoDup l ->
  NoDup (map (fun i => (i.(i_slot), i.(i_m6id))) l).
Proof. apply NoDup_fmap_2. intros [s1 m1] [s2 m2]. cbn. by intros [= -> ->]. Qed.

Lemma Append_accepts s db id cache block r : store_inv id cache s db -> tip_typed cache ->
  cache.(tip_height) < UINT32_MAX -> s.(m_schema_version) = REPROPOSAL_SCHEMA_VERSION ->
  tip_ok p cache -> block_ok p cache.(tip_state) block ->
  ApplyDrivechainParentBlockState p block (cache.(tip_height) + 1) cache.(tip_state) = Ok r ->
  (forall d, d ∈ r.(r_deposits) -> db.(db_deposits) !! d.(outpoint) = None) ->
  db.(db_edges) !! cache.(tip_hash) = None ->
  (forall h i, ExtractCanonicalDrivechainBmmCommitmentInBlock block (configured_slot p) = Ok (h, i) -> h <> 0) ->
  exists s', Append s cache (mkTip (cache.(tip_height) + 1) (GetBlockHash block) r.(r_state)) r.(r_deposits)
    (replay_edge p c cache block (cache.(tip_height) + 1)) r.(r_withdrawals) r.(r_proposals) true = Ok s'.
Proof.
  intros Hi Ht Hm Hv Hok Hb Hr Hfd Hfe Hz. destruct (Apply_tip_ok p cache block r Hok Hb Hr) as [Hbi Hok'].
  pose proof (bo_hash _ _ _ Hb) as Hbh.
  destruct (IsSaneTip_elim p cache (tk_apart _ _ Hok) (tk_typed _ _ Hok) (tk_sane _ _ Hok)) as (Hh & _ & _).
  pose proof (replay_successes_ok _ _ _ _ _ _ Hi Ht Hv Hbh Hbi) as Hws.
  pose proof (replay_edge_ok db cache block r.(r_state) Ht Hm Hh Hbh Hfe Hz) as He. apply check_edge_iff in He.
  set (next := mkTip _ _ _) in *.
  assert (Hct : check_tips s db cache next = Ok tt).
  { unfold check_tips. rewrite (so_identity _ _ _ _ Hi), (so_tip _ _ _ _ Hi).
    assert (E : u32 (tip_height cache + 1) = tip_height next).
    { unfold tip_typed, UINT32_MAX in *. rewrite u32_mod, Z.mod_small; [done|lia]. }
    cbn [ReadRecord]. rewrite (tk_sane _ _ Hok), (tk_sane _ _ Hok'), E, !Z.eqb_refl, (proj2 (Z.eqb_neq _ _)) by lia.
    reflexivity. }
  assert (Hds : check_deposits db next ∅ r.(r_deposits) = true).
  { destruct Hbi as [_ _ _ _ _ _ _ _ (st3 & g & ra & _ & _ & _ & _ & _ & Hri & _ & Ed)].
    destruct Hri as [_ _ Hnd Hds _]. rewrite Ed in *. apply check_deposits_iff. split; [|done].
    rewrite list.Forall_forall. intros d Hd. destruct (Hds d Hd) as [Hdk _].
    refine (conj (deposit_ok_sane _ _ _ _ Hbh Hdk) _).
    split_and!; [apply Hdk|apply Hdk|apply not_elem_of_empty|by apply Hfd]. }
  unfold Append. rewrite (so_open _ _ _ _ Hi), Hct, Hds, He, Hws.
  cbn [ensure mbind result_bind]. rewrite check_proposals_ok; [by eexists|by rewrite Hv|apply identities_keys, Hbi|].
  intros i _. apply not_elem_of_empty.
Qed.
End accepts.

(** A block that starts at the sample tip and whose M7 commits the null hash. *)
Module ZeroM7.
Definition b : CBlock := Sample.block 100 [Sample.op_return (M7_TAG ++ [24] ++ repeat 0 32)] [].
Definition milestones : Milestones := mkMilestones [] 0 0 0 0 0 5 0 0 0 0.
Definition store : DrivechainParentReplayStore :=
  snd (Reset_ closed_store 3 Sample.tip ResetOk).

Lemma store_runs : store_run 3 store Sample.tip.
Proof. apply (run_reset 3 closed_store); [split; by vm_compute|vm_compute; reflexivity]. Qed.
End ZeroM7.

(** C23.  Under the re-proposal schema a parent block that applies and passes
    its milestones is appended to a store synchronised with the cache, provided
    its deposits and its edge are not already stored and its BMM commitment, if
    any, is not null; the store is then synchronised with the new tip. *)
Theorem replay_step_accepts p c s id cache block r :
  store_run id s cache -> s.(m_schema_version) = REPROPOSAL_SCHEMA_VERSION ->
  tip_ok p cache -> cache.(tip_height) < UINT32_MAX -> block_ok p cache.(tip_state) block ->
  block.(header).(hashPrevBlock) = cache.(tip_hash) ->
  ApplyDrivechainParentBlockState p block (cache.(tip_height) + 1) cache.(tip_state) = Ok r ->
  CheckDrivechainParentReplayMilestone p c (cache.(tip_height) + 1) block r.(r_state) = Ok tt ->
  (forall d, d ∈ r.(r_deposits) -> ReadDeposit s d.(outpoint) = NOT_FOUND) ->
  ReadBmmEdge s cache.(tip_hash) = NOT_FOUND ->
  (forall h i, ExtractCanonicalDrivechainBmmCommitmentInBlock block (configured_slot p) = Ok (h, i) -> h <> 0) ->
  exists s', replay_step p c true s cache block
    = Ok (s', mkTip (cache.(tip_height) + 1) (GetBlockHash block) r.(r_state)) /\
    store_run id s' (mkTip (cache.(tip_height) + 1) (GetBlockHash block) r.(r_state)).
Proof.
  intros Hrun Hv Hok Hm Hb Hprev Hr Hms Hfd Hfe Hz.
  destruct (store_run_inv _ _ _ Hrun) as (db & Hi & Ht).
  destruct (Append_accepts p c s db id cache block r) as [s' Ha]; auto.
  - intros d Hd. specialize (Hfd d Hd). unfold ReadDeposit, with_db in Hfd. rewrite (so_open _ _ _ _ Hi) in Hfd.
    destruct (_ !! _) as [[|d']|]; [done| |done]. cbn in Hfd. by case_match.
  - unfold ReadBmmEdge, with_db in Hfe. rewrite (so_open _ _ _ _ Hi) in Hfe.
    destruct (_ !! _) as [[|e]|]; [done| |done]. cbn [ReadRecord checked] in Hfe. by case_match.
  - exists s'. split; [|by eapply run_append].
    assert (E : u32 (tip_height cache + 1) = tip_height cache + 1).
    { unfold tip_typed, UINT32_MAX in *. rewrite u32_mod, Z.mod_small; [done|lia]. }
    unfold replay_step. cbv zeta. rewrite E, Hprev, Z.eqb_refl, Hr. cbn [ensure mbind result_bind].
    rewrite Hms. cbn [mbind result_bind]. rewrite Ha. done.
Qed.

Lemma replay_step_accepts_witness : exists r s',
  replay_step Sample.params ZeroM7.milestones true ZeroM7.store Sample.tip Sample.b_deposit
    = Ok (s', mkTip 7 (GetBlockHash Sample.b_deposit) r).
Proof.
  destruct Sample.deposit_applies as [r Hr].
  destruct (replay_step_accepts Sample.params ZeroM7.milestones ZeroM7.store 3 Sample.tip Sample.b_deposit r)
    as (s' & Hs & _).
  - exact ZeroM7.store_runs.
  - reflexivity.
  - exact Sample.tip_is_ok.
  - reflexivity.
  - exact Sample.deposit_block_ok.
  - reflexivity.
  - exact Hr.
  - reflexivity.
  - intros d _. reflexivity.
  - reflexivity.
  - intros h i Hx. vm_compute in Hx. discriminate Hx.
  - exists r.(r_state), s'. exact Hs.
Defined.

(** C40.  A parent block whose single M7 for the configured slot commits
    to the null hash can never be appended past the checkpoint height, whatever
    the store holds: the extractor reports a canonical commitment and the
    store's sanity check refuses it, so the replay cannot get past such a
    block even when the parent state machine accepts it. *)
Theorem replay_step_null_commitment_stuck p c io s cache block i :
  c.(ms_state_height) < u32 (cache.(tip_height) + 1) ->
  ExtractCanonicalDrivechainBmmCommitmentInBlock block (configured_slot p) = Ok (0, i) ->
  forall s' next, replay_step p c io s cache block <> Ok (s', next).
Proof.
  intros Hh Hx s' next Hs. unfold replay_step in Hs. inv_ok.
  apply Append_elim in Hok2 as (db & _ & Ha & _). pose proof (ao_edge _ _ _ _ _ _ _ Ha) as He.
  unfold replay_edge in He. rewrite (proj2 (Z.ltb_lt _ _) Hh), Hx in He. cbn [edge_ok] in He.
  destruct He as [He _]. unfold IsSaneEdge in He. cbn in He. by rewrite !andb_false_r in He.
Qed.

Lemma replay_step_null_commitment_stuck_witness :
  (exists r, ApplyDrivechainParentBlockState Sample.params ZeroM7.b 7 Sample.state = Ok r) /\
  forall s' next, replay_step Sample.params ZeroM7.milestones true ZeroM7.store Sample.tip ZeroM7.b <> Ok (s', next).
Proof.
  split; [eexists; vm_compute; reflexivity|].
  apply (replay_step_null_commitment_stuck Sample.params ZeroM7.milestones true ZeroM7.store Sample.tip ZeroM7.b 0).
  - reflexivity.
  - vm_compute. reflexivity.
Defined.
