(* ===== verification/Pegin.v ===== *)
(** * Peg-in witnesses (src/src/pegins.{h,cpp}, src/src/script/pegins.cpp)

    A deposit on the parent chain is claimed by a peg-in input whose witness stack
    carries the amount, the asset, the parent genesis block, the claim script and
    then one of three kinds of evidence: eight items that name the parent block
    and the committed address (native deposits), eleven items with the deposit
    transaction, its Merkle proof, the spent treasury transaction and the headers
    above it (version 2 evidence), or six items with the transaction's identifier
    (version 1, two historical deposits).  [DecodeDestination],
    [IsValidDestination] and [GetScriptForDestination] of key_io.cpp and
    script/solver.cpp are one argument, from the bytes of an address to its
    script. *)

From S2P Require Import Prelude ArithUint256 Sha256 Script Transaction Confidential ParentMessage PartialMerkle ParentBlock Bmm BmmFacts.

(** The script of an address, when the address is valid. *)
Class DestinationEnv := GetScriptForAddress : bytes -> option bytes.

Module Pegin.
(** What the parent node's state says of a deposit (src/src/mainchainrpc.h). *)
Inductive DrivechainDepositStatus := VALID | INVALID | UNAVAILABLE.

(** ** Data *)
Record CAssetIssuance := mkIssuance {
  assetBlindingNonce : uint256; assetEntropy : uint256; nAmount : bytes; nInflationKeys : bytes }.

Definition issuance_IsNull (i : CAssetIssuance) : bool := Conf.IsNull i.(nAmount) && Conf.IsNull i.(nInflationKeys).

Record CTxIn := mkPeginTxIn { prevout : COutPoint; scriptSig : bytes; assetIssuance : CAssetIssuance; m_is_pegin : bool }.

(** An Elements transaction: inputs, outputs and the peg-in witness of each entry of [witness.vtxinwit]. *)
Record CTransaction := mkPeginTx {
  txid : uint256; vin : list CTxIn; vout : list Elements.CTxOut; pegin_witness : list (list bytes) }.

(** The chain parameters the peg reads. *)
Record peg_params := mkPegParams {
  pegged_asset : uint256; ParentGenesisBlockHash : uint256; parentChainPowLimit : uint256; drivechain_slot : option Z }.

Record DrivechainDepositEvidence := mkEvidence {
  deposit_tx : bytes; txout_proof : bytes; previous_ctip_tx : bytes; sequence_number : Z;
  previous_sequence_number : Z; headers : list CBlockHeader }.

(** [drivechain-deposit-v2], which both kinds of evidence use, and [drivechain-deposit-v1]. *)
Definition DRIVECHAIN_DEPOSIT_MARKER : bytes :=
  [100; 114; 105; 118; 101; 99; 104; 97; 105; 110; 45; 100; 101; 112; 111; 115; 105; 116; 45; 118; 50].
Definition ECX_LEGACY_DEPOSIT_MARKER : bytes :=
  [100; 114; 105; 118; 101; 99; 104; 97; 105; 110; 45; 100; 101; 112; 111; 115; 105; 116; 45; 118; 49].
Definition DRIVECHAIN_DEPOSIT_EVIDENCE_MARKER : bytes :=
  [100; 114; 105; 118; 101; 99; 104; 97; 105; 110; 45; 100; 101; 112; 111; 115; 105; 116; 45; 118; 50].

Definition MAX_BLOCK_SERIALIZED_SIZE : Z := 6000000.
Definition INT64_MAX : Z := 2^63 - 1.

(** ** Reading a witness *)
Definition item (stack : list bytes) (i : nat) : bytes := nth i stack [].

Definition read_int64 : reader Z := let* v := read_le 8 in rret (to_int64 v).

Record prefix := mkPrefix { p_value : Z; p_asset : uint256; p_genesis : uint256; p_claim : bytes }.

Definition ReadPeginWitnessPrefix (stack : list bytes) : result prefix :=
  ensure (negb (len stack <? 4)) "Not enough stack items.";;
  match read_int64 (item stack 0) with
  | None => Err "Could not deserialize value."
  | Some (value, _) =>
      ensure (MoneyRange value) "Value was not in valid value range.";;
      ensure (len (item stack 1) =? 32) "Asset type was not 32 bytes.";;
      ensure (len (item stack 2) =? 32) "Parent genesis blockhash was not 32 bytes.";;
      ensure (negb (100 <? len (item stack 3))) "Claim script is too large.";;
      Ok (mkPrefix value (uint256_of (item stack 1)) (uint256_of (item stack 2)) (item stack 3))
  end.

Definition CheckParentProofOfWork (params : peg_params) (hash nBits : Z) : bool :=
  let '(bnTarget, fNegative, fOverflow) := SetCompact nBits in
  negb (fNegative || EqualTo bnTarget 0 || fOverflow ||
        (0 <? CompareTo bnTarget (UintToArith256 params.(parentChainPowLimit)))) &&
  negb (0 <? CompareTo (UintToArith256 hash) bnTarget).

Section pegins.
Context (params : peg_params).

Definition pegs (p : prefix) : bool :=
  negb ((p.(p_value) <=? 0) || negb (p.(p_asset) =? params.(pegged_asset)) ||
        negb (p.(p_genesis) =? params.(ParentGenesisBlockHash))).

Definition IsLegacyDrivechainDepositPeginWitness (stack : list bytes) : bool :=
  (len stack =? 6) && bytes_eqb (item stack 4) ECX_LEGACY_DEPOSIT_MARKER && (len (item stack 5) =? 32).

(** The value, the claim script and the parent transaction of an ECX deposit. *)
Definition GetDrivechainDepositPeginData (stack : list bytes) (prevout_ : COutPoint) : option (Z * bytes * uint256) :=
  let legacy := (len stack =? 6) && bytes_eqb (item stack 4) ECX_LEGACY_DEPOSIT_MARKER && (len (item stack 5) =? 32) in
  let deterministic := (len stack =? 11) && bytes_eqb (item stack 4) DRIVECHAIN_DEPOSIT_EVIDENCE_MARKER in
  if negb legacy && negb deterministic then None else
  match ReadPeginWitnessPrefix stack with
  | Err _ => None
  | Ok p =>
      if negb (pegs p) then None else
      match (if legacy then Some (uint256_of (item stack 5))
             else if MAX_BLOCK_SERIALIZED_SIZE <? len (item stack 5) then None
             else match Bmm.DeserializeExactly (UnserializeTransaction true) (item stack 5) with
                  | Some tx => Some (GetHash tx)
                  | None => None
                  end) with
      | None => None
      | Some mainchain_txid =>
          if negb (prevout_.(hash) =? mainchain_txid) then None
          else Some (p.(p_value), p.(p_claim), mainchain_txid)
      end
  end.

Definition IsEcxDrivechainDepositPeginWitness (stack : list bytes) (prevout_ : COutPoint) : bool :=
  match GetDrivechainDepositPeginData stack prevout_ with Some _ => true | None => false end.

(** What a recognised witness says: the block and address are those of a native
    deposit.  [native_fields] is whether the caller asks for them. *)
Record deposit_fields := mkFields { f_value : Z; f_claim : bytes; f_native : option (uint256 * bytes) }.

Definition IsDrivechainDepositPeginWitness (native_fields : bool) (stack : list bytes) (prevout_ : COutPoint)
    : option deposit_fields :=
  if (len stack =? 6) || (len stack =? 11) then
    if native_fields then None else
    match GetDrivechainDepositPeginData stack prevout_ with
    | Some (value, claim, _) => Some (mkFields value claim None)
    | None => None
    end
  else if negb (len stack =? 8) || negb (bytes_eqb (item stack 4) DRIVECHAIN_DEPOSIT_MARKER) ||
          negb (len (item stack 0) =? 8) || negb (len (item stack 5) =? 32) || negb (len (item stack 6) =? 32) ||
          (len (item stack 7) =? 0) || (128 <? len (item stack 7)) then None
  else match ReadPeginWitnessPrefix stack with
  | Err _ => None
  | Ok p =>
      if negb (pegs p) then None
      else if negb (prevout_.(hash) =? uint256_of (item stack 5)) then None
      else Some (mkFields p.(p_value) p.(p_claim) (Some (uint256_of (item stack 6), item stack 7)))
  end.

Definition is_deposit (stack : list bytes) (prevout_ : COutPoint) : bool :=
  match IsDrivechainDepositPeginWitness false stack prevout_ with Some _ => true | None => false end.

Definition GetDrivechainDepositEvidence (stack : list bytes) (prevout_ : COutPoint) : result DrivechainDepositEvidence :=
  ensure ((len stack =? 11) && bytes_eqb (item stack 4) DRIVECHAIN_DEPOSIT_EVIDENCE_MARKER)
    "drivechain deposit witness does not contain deterministic v2 evidence";;
  let out_of_bounds (i : nat) (bound : Z) := (len (item stack i) =? 0) || (bound <? len (item stack i)) in
  ensure (negb (out_of_bounds 5%nat MAX_BLOCK_SERIALIZED_SIZE || out_of_bounds 6%nat MAX_BLOCK_SERIALIZED_SIZE ||
                out_of_bounds 7%nat MAX_BLOCK_SERIALIZED_SIZE || out_of_bounds 10%nat (2017 * 80 + 16)))
    "drivechain deposit evidence field is empty or exceeds its consensus bound";;
  ensure match Bmm.DeserializeExactly (UnserializeTransaction true) (item stack 5) with
         | Some tx => GetHash tx =? prevout_.(hash)
         | None => false
         end "drivechain deposit transaction encoding or txid is invalid";;
  match Bmm.DeserializeExactly read_int64 (item stack 8), Bmm.DeserializeExactly read_int64 (item stack 9),
        Bmm.DeserializeExactly (read_vector read_header) (item stack 10) with
  | Some sequence, Some previous, Some hs =>
      ensure (negb ((sequence <? 0) || (previous <? 0) || (previous =? INT64_MAX) || negb (sequence =? previous + 1)))
        "drivechain deposit sequence transition is invalid";;
      ensure (negb ((len hs =? 0) || (2017 <? len hs))) "drivechain deposit header chain length is invalid";;
      Ok (mkEvidence (item stack 5) (item stack 6) (item stack 7) sequence previous hs)
  | _, _, _ => Err "drivechain deposit sequence or header encoding is non-canonical"
  end.

(** The key under which a claimed peg-in is recorded. *)
Definition GetPeginSpentKey (stack : list bytes) (prevout_ : COutPoint) : uint256 * COutPoint :=
  if is_deposit stack prevout_ then (prevout_.(hash), prevout_) else (uint256_of (item stack 2), prevout_).

(** ** Outputs of a native claim *)
Context {Dest : DestinationEnv}.

(** The deposit inputs, counted from the first input. *)
Fixpoint count_deposit_inputs (vin_ : list CTxIn) (wits : list (list bytes)) (count : Z) : result Z :=
  match vin_ with
  | [] => Ok count
  | i :: vin' =>
      if match wits with w :: _ => is_deposit w i.(prevout) | [] => false end
      then count_deposit_inputs vin' (tail wits) (count + 1)
      else if i.(m_is_pegin)
      then Err "Drivechain deposit transactions cannot mix deposit and legacy pegin inputs."
      else count_deposit_inputs vin' (tail wits) count
  end.

Definition pays_exactly (deposit_value : Z) (o : Elements.CTxOut) : bool :=
  negb (negb (Conf.IsExplicit ConfAsset o.(Elements.nAsset)) ||
        negb (GetAsset o.(Elements.nAsset) =? params.(pegged_asset)) ||
        negb (Conf.IsExplicit ConfValue o.(Elements.nValue)) || Conf.IsCommitment ConfNonce o.(Elements.nNonce) ||
        negb (GetAmount o.(Elements.nValue) =? deposit_value)).

Definition count_recipient (expected_script : bytes) (deposit_value : Z) (count : Z) (o : Elements.CTxOut) : result Z :=
  if negb (bytes_eqb o.(Elements.scriptPubKey) expected_script) then Ok count
  else
    ensure (pays_exactly deposit_value o)
      "The committed deposit recipient must receive the exact explicit pegged-asset amount.";;
    Ok (count + 1).

Definition CheckDrivechainDepositOutputs (tx : CTransaction) (pegin_index : nat) : result unit :=
  match tx.(vin) !! pegin_index, tx.(pegin_witness) !! pegin_index with
  | Some input, Some stack =>
      drivechain_pegin_inputs ← count_deposit_inputs tx.(vin) tx.(pegin_witness) 0;
      ensure (drivechain_pegin_inputs =? 1)
        "Drivechain deposit transactions must contain exactly one drivechain pegin input.";;
      ensure (issuance_IsNull input.(assetIssuance)) "Drivechain deposit inputs cannot contain an asset issuance.";;
      match IsDrivechainDepositPeginWitness true stack input.(prevout) with
      | Some (mkFields deposit_value claim_script (Some (_, address))) =>
          ensure (bytes_eqb claim_script [OP_TRUE]) "Drivechain deposit claim script must be OP_TRUE.";;
          match GetScriptForAddress address with
          | None => Err "BIP300 deposit commits to an invalid Elements destination address."
          | Some expected_script =>
              recipient_outputs ← foldM (count_recipient expected_script deposit_value) 0 tx.(vout);
              ensure (recipient_outputs =? 1)
                "Drivechain deposit transaction must contain exactly one recipient output."
          end
      | _ => Err "Invalid drivechain deposit witness while checking outputs."
      end
  | _, _ => Err "Drivechain deposit input or witness index is out of range."
  end.

Definition IsCanonicalFeeFreeDrivechainDeposit (tx : CTransaction) : bool :=
  match tx.(vin), tx.(vout), tx.(pegin_witness) with
  | [input], [_], [stack] =>
      input.(m_is_pegin) && issuance_IsNull input.(assetIssuance) && is_deposit stack input.(prevout) &&
      is_ok (CheckDrivechainDepositOutputs tx 0)
  | _, _, _ => false
  end.
End pegins.

(** The output a peg-in input spends; reading a short amount throws. *)
Definition null_txout : Elements.CTxOut := Elements.mkTxOut [] [] [] [].

Definition GetPeginOutputFromWitness (stack : list bytes) : result Elements.CTxOut :=
  if len stack <? 4 then Ok null_txout
  else match read_int64 (item stack 0) with
  | None => Err "DataStream::read(): end of data"
  | Some (value, _) => Ok (Elements.CTxOut_new (uint256_of (item stack 1)) value (item stack 3))
  end.

(** ** Building a witness *)
Definition ser_int64 (v : Z) : bytes := le_encode 8 (u64 v).

Definition witness_prefix (value : Z) (asset genesis_hash : uint256) (claim_script : bytes) : list bytes :=
  [ser_int64 value; uint256_bytes asset; uint256_bytes genesis_hash; claim_script].

Definition CreateNativeWitness (value : Z) (asset genesis_hash : uint256) (claim_script : bytes)
    (mainchain_outpoint : COutPoint) (mainchain_block_hash : uint256) (address : bytes) : result (list bytes) :=
  ensure (negb ((len address =? 0) || (128 <? len address))) "Drivechain deposit address must contain 1..128 bytes.";;
  Ok (witness_prefix value asset genesis_hash claim_script ++
      [DRIVECHAIN_DEPOSIT_MARKER; uint256_bytes mainchain_outpoint.(hash); uint256_bytes mainchain_block_hash; address]).

Definition CreateLegacyWitness (value : Z) (asset genesis_hash : uint256) (claim_script : bytes)
    (mainchain_txid : uint256) : list bytes :=
  witness_prefix value asset genesis_hash claim_script ++ [ECX_LEGACY_DEPOSIT_MARKER; uint256_bytes mainchain_txid].

Definition CreateEvidenceWitness (value : Z) (asset genesis_hash : uint256) (claim_script : bytes)
    (evidence : DrivechainDepositEvidence) : list bytes :=
  witness_prefix value asset genesis_hash claim_script ++
  [DRIVECHAIN_DEPOSIT_EVIDENCE_MARKER; evidence.(deposit_tx); evidence.(txout_proof); evidence.(previous_ctip_tx);
   ser_int64 evidence.(sequence_number); ser_int64 evidence.(previous_sequence_number);
   ser_vector ser_header evidence.(headers)].
End Pegin.
