(* ===== verification/Peg.v ===== *)
(** * The deterministic peg (src/src/drivechain_peg.{h,cpp})

    On the public branch a deposit carries its own evidence: the parent
    transaction that grows the treasury output of slot 24, a Merkle proof of it,
    the transaction whose treasury output it spends, and the headers above it.
    The node keeps the treasury output it has credited up to - the CTIP, current
    treasury UTXO - in a coin of the chainstate under a reserved outpoint, and a
    deposit must spend exactly that output.  Two historical deposits are admitted
    by immutable checkpoints. *)

From S2P Require Import Prelude ArithUint256 Sha256 Script Transaction Confidential ParentMessage BlockMerkle PartialMerkle ParentBlock Coins SideBlock Bmm BmmFacts Pegin.

Module Peg.
Import Pegin.

(** ** Data *)
Record CtipState := mkCtip { outpoint : COutPoint; value : Z; ctip_sequence : Z }.

#[global] Instance CtipState_eq_dec : EqDecision CtipState.
Proof. solve_decision. Defined.

Record AuthenticatedDeposit := mkAuthenticated {
  a_sidechain_slot : Z; a_sequence_number : Z; a_outpoint : COutPoint; a_value : Z; a_address : bytes;
  a_destination_script : bytes; a_confirmation_block : uint256; a_current_ctip : COutPoint;
  a_current_ctip_value : Z; a_current_ctip_sequence : Z }.

Record ParsedDeterministicDeposit := mkParsed {
  authenticated : AuthenticatedDeposit; previous_state : CtipState; next_state : CtipState; anchor : uint256 }.

Definition DRIVECHAIN_SIDECHAIN_SLOT : Z := 24.
Definition CTIP_STATE_OUTPOINT : COutPoint :=
  Eval vm_compute in mkOutPoint (Bmm.hex_uint256 0x2d15ce4b128995291c4e38d36b8ae411a15bf80d7acee97cf5f58d2fc4de52b1) 0.
Definition CTIP_STATE_MARKER : bytes :=
  [100; 114; 105; 118; 101; 99; 104; 97; 105; 110; 45; 99; 116; 105; 112; 45; 118; 49].

Definition IsSlot24CtipScript (script : bytes) : bool := IsTreasuryScript script NOP5 DRIVECHAIN_SIDECHAIN_SLOT.

(** ** Deposits with evidence *)
Section peg.
Context {Dest : DestinationEnv} (params : peg_params).

(** The address an output commits to, with its script. *)
Definition committed_destination (script : bytes) : option (bytes * bytes) :=
  match Bmm.next_op script with
  | Some (op1, _, pc1) =>
      if negb (op1 =? OP_RETURN) then None else
      match Bmm.next_op pc1 with
      | Some (op2, data, pc2) =>
          if (OP_PUSHDATA4 <? op2) || bytes_eqb data [] || negb (bytes_eqb pc2 []) then None
          else match GetScriptForAddress data with Some s => Some (data, s) | None => None end
      | None => None
      end
  | None => None
  end.

Definition ExtractDepositDestination (deposit : Transaction.CTransaction) : result (bytes * bytes) :=
  found ← Bmm.single None "deposit transaction contains multiple valid sidechain destinations"
            (map (fun o => committed_destination o.(scriptPubKey)) deposit.(Transaction.vout));
  match found with
  | Some d => Ok d
  | None => Err "deposit transaction does not commit a valid sidechain destination"
  end.

(** The headers have enough work, and each extends the one before. *)
Fixpoint check_headers (previous : option uint256) (hs : list CBlockHeader) : result unit :=
  match hs with
  | [] => Ok tt
  | h :: hs' =>
      let hash_ := Hash (ser_header h) in
      ensure (CheckParentProofOfWork params hash_ h.(nBits))
        "drivechain deposit evidence contains an invalid L1 proof-of-work header";;
      ensure match previous with Some p => h.(hashPrevBlock) =? p | None => true end
        "drivechain deposit L1 header evidence is not a contiguous chain";;
      check_headers (Some hash_) hs'
  end.

Definition header_hash (h : option CBlockHeader) : uint256 :=
  match h with Some x => Hash (ser_header x) | None => 0 end.

(** The inputs that spend a treasury output of a transaction. *)
Definition spends_treasury (previous_tx : Transaction.CTransaction) (previous_txid : uint256)
    (i : Transaction.CTxIn) : bool :=
  (i.(Transaction.prevout).(hash) =? previous_txid) &&
  match previous_tx.(Transaction.vout) !! Z.to_nat i.(Transaction.prevout).(n) with
  | Some o => IsSlot24CtipScript o.(scriptPubKey)
  | None => false
  end.

Definition treasury_inputs (deposit previous_tx : Transaction.CTransaction) (previous_txid : uint256)
    : list Transaction.CTxIn :=
  List.filter (spends_treasury previous_tx previous_txid) deposit.(Transaction.vin).

(** The decoded parts of the evidence: the deposit, the transaction it spends and the Merkle proof. *)
Definition decode_evidence (evidence : DrivechainDepositEvidence)
    : result (Transaction.CTransaction * Transaction.CTransaction * CMerkleBlock) :=
  match Bmm.DeserializeExactly (UnserializeTransaction true) evidence.(deposit_tx),
        Bmm.DeserializeExactly (UnserializeTransaction true) evidence.(previous_ctip_tx),
        Bmm.DeserializeExactly read_merkle_block evidence.(txout_proof) with
  | Some deposit, Some previous, Some proof => Ok (deposit, previous, proof)
  | _, _, _ => Err "drivechain deposit evidence contains malformed transaction or merkle proof data"
  end.

Definition ParseV2Deposit (tx : CTransaction) (input_index : nat) : result ParsedDeterministicDeposit :=
  match tx.(vin) !! input_index, tx.(pegin_witness) !! input_index with
  | Some input, Some stack =>
      let o := input.(prevout) in
      evidence ← GetDrivechainDepositEvidence stack o;
      decoded ← decode_evidence evidence;
      let '(deposit, previous, proof) := decoded in
      match deposit.(Transaction.vout) !! Z.to_nat o.(n) with
      | Some current_output =>
          ensure (GetHash deposit =? o.(hash))
            "drivechain deposit outpoint is absent from the authenticated L1 transaction";;
          let x := ExtractMatches proof.(txn) in
          let proof_hash := Hash (ser_header proof.(mb_header)) in
          ensure ((x.(x_root) =? proof.(mb_header).(hashMerkleRoot)) && (len x.(x_matches) =? 1) &&
                  (nth 0 x.(x_matches) 0 =? GetHash deposit) &&
                  (header_hash (head evidence.(headers)) =? proof_hash))
            "drivechain deposit merkle proof does not authenticate the exact L1 transaction";;
          check_headers None evidence.(headers);;
          ensure (IsSlot24CtipScript current_output.(scriptPubKey) && negb (current_output.(nValue) <=? 0))
            "drivechain deposit outpoint is not the slot-24 CTIP output";;
          let previous_txid := GetHash previous in
          match treasury_inputs deposit previous previous_txid with
          | [i] =>
              let previous_vout := i.(Transaction.prevout).(n) in
              let previous_value :=
                match previous.(Transaction.vout) !! Z.to_nat previous_vout with Some p => p.(nValue) | None => 0 end in
              match GetDrivechainDepositPeginData params stack o with
              | Some (witness_value, _, _) =>
                  ensure (negb ((previous_value <=? 0) || (current_output.(nValue) <=? previous_value) ||
                                negb (current_output.(nValue) - previous_value =? witness_value)))
                    "drivechain deposit value does not equal the authenticated CTIP increase";;
                  destination ← ExtractDepositDestination deposit;
                  let next := mkCtip o current_output.(nValue) evidence.(sequence_number) in
                  Ok (mkParsed
                        (mkAuthenticated DRIVECHAIN_SIDECHAIN_SLOT evidence.(sequence_number) o witness_value
                           destination.1 destination.2 proof_hash o current_output.(nValue) evidence.(sequence_number))
                        (mkCtip (mkOutPoint previous_txid previous_vout) previous_value
                           evidence.(previous_sequence_number))
                        next (header_hash (list.last evidence.(headers))))
              | None => Err "drivechain deposit value does not equal the authenticated CTIP increase"
              end
          | _ => Err "drivechain deposit transaction does not spend exactly one authenticated prior CTIP"
          end
      | None => Err "drivechain deposit outpoint is absent from the authenticated L1 transaction"
      end
  | _, _ => Err "drivechain deposit input index is out of range"
  end.

(** ** Historical deposits *)
Record LegacyCheckpoint := mkCheckpoint {
  cp_sidechain_txid : uint256; cp_parent_hash : uint256; cp_outpoint : COutPoint; cp_deposit_value : Z;
  cp_ctip_value : Z; cp_sequence_number : Z; cp_destination : bytes }.

Definition LEGACY_CHECKPOINTS : list LegacyCheckpoint :=
  Eval vm_compute in
  [mkCheckpoint (Bmm.hex_uint256 0xfeed724d3382997ae6500d8185353e116d557a4f299b58e8f722c1aa400ab730)
     (Bmm.hex_uint256 0x000001d9988239435d51e763fd4231893dad22d7d03048266a5e21361e2db065)
     (mkOutPoint (Bmm.hex_uint256 0x7de4aeb747a54bbe6b590d2038f445b9dc995217fb1b4e524c4129cdd0f06bea) 0)
     2000 14402000 8
     [101; 114; 116; 49; 113; 57; 50; 54; 51; 121; 57; 110; 113; 102; 50; 107; 119; 106; 108; 55; 104; 114; 104;
      115; 103; 101; 119; 101; 102; 113; 55; 56; 53; 57; 119; 57; 51; 122; 53; 110; 56; 120; 56];
   mkCheckpoint (Bmm.hex_uint256 0x7d78b50fa26e51ca01d1a916820971e46dd6d11e8da7c06571b95d8c6dd4a382)
     (Bmm.hex_uint256 0x00000268748226d792c32914d26f5608a766a13741f3762c35cb053084ac4d1c)
     (mkOutPoint (Bmm.hex_uint256 0x010a70b5e1fca8e8433dd2efc7c3b8f0783e98b133bbf03bcbe05cdd29a4edab) 0)
     100000 14400000 7
     [101; 114; 116; 49; 113; 50; 100; 50; 53; 106; 117; 118; 51; 113; 118; 108; 107; 57; 48; 112; 102; 115; 110;
      113; 101; 100; 55; 102; 57; 119; 122; 122; 103; 101; 118; 112; 56; 121; 50; 118; 102; 109; 118]].

Definition FindLegacyCheckpoint (tx : CTransaction) (input_index : nat) : option LegacyCheckpoint :=
  match tx.(vin) !! input_index, tx.(pegin_witness) !! input_index with
  | Some input, Some stack =>
      if negb (IsLegacyDrivechainDepositPeginWitness stack) then None
      else List.find (fun c => (c.(cp_sidechain_txid) =? tx.(txid)) && bool_decide (c.(cp_outpoint) = input.(prevout)))
             LEGACY_CHECKPOINTS
  | _, _ => None
  end.

Definition BuildLegacyAuthenticated (tx : CTransaction) (input_index : nat) (c : LegacyCheckpoint)
    : result AuthenticatedDeposit :=
  match tx.(vin) !! input_index, tx.(pegin_witness) !! input_index with
  | Some input, Some stack =>
      ensure match GetDrivechainDepositPeginData params stack input.(prevout) with
             | Some (witness_value, _, _) => witness_value =? c.(cp_deposit_value)
             | None => false
             end "historical drivechain checkpoint witness does not match its immutable value";;
      match GetScriptForAddress c.(cp_destination) with
      | None => Err "historical drivechain checkpoint destination is invalid for this network"
      | Some script =>
          Ok (mkAuthenticated DRIVECHAIN_SIDECHAIN_SLOT c.(cp_sequence_number) c.(cp_outpoint) c.(cp_deposit_value)
                c.(cp_destination) script c.(cp_parent_hash) c.(cp_outpoint) c.(cp_ctip_value) c.(cp_sequence_number))
      end
  | _, _ => Err "vector index is out of range"
  end.

(** ** Outputs of a deposit *)
Record tally := mkTally { credited : Z; fee : Z; credit_outputs : Z; fee_outputs : Z }.

Definition tally_output (destination_script : bytes) (t : tally) (o : Elements.CTxOut) : result tally :=
  ensure (Conf.IsExplicit ConfAsset o.(Elements.nAsset) &&
          (GetAsset o.(Elements.nAsset) =? params.(pegged_asset)) &&
          Conf.IsExplicit ConfValue o.(Elements.nValue) && Conf.IsNull o.(Elements.nNonce))
    "drivechain deposit outputs must use explicit native asset values";;
  if bytes_eqb o.(Elements.scriptPubKey) [] then
    Ok (mkTally t.(credited) (t.(fee) + GetAmount o.(Elements.nValue)) t.(credit_outputs) (t.(fee_outputs) + 1))
  else
    ensure (bytes_eqb o.(Elements.scriptPubKey) destination_script)
      "drivechain deposit destination script does not match enforcer data";;
    Ok (mkTally (t.(credited) + GetAmount o.(Elements.nValue)) t.(fee) (t.(credit_outputs) + 1) t.(fee_outputs)).

Definition VerifyDepositTransaction (tx : CTransaction) (input_index : nat) (a : AuthenticatedDeposit) : result unit :=
  match tx.(vin), input_index with
  | [input], O =>
      match tx.(pegin_witness) with
      | [stack] =>
          ensure (input.(m_is_pegin) && bool_decide (input.(prevout) = a.(a_outpoint)) &&
                  bytes_eqb input.(scriptSig) [] && issuance_IsNull input.(assetIssuance))
            "drivechain deposit input does not match the authenticated outpoint";;
          ensure match GetDrivechainDepositPeginData params stack input.(prevout) with
                 | Some (witness_value, claim_script, mainchain_txid) =>
                     (witness_value =? a.(a_value)) && (mainchain_txid =? a.(a_outpoint).(hash)) &&
                     bytes_eqb claim_script [OP_TRUE]
                 | None => false
                 end "drivechain deposit witness does not match the authenticated deposit";;
          ensure (negb ((len tx.(vout) =? 0) || (2 <? len tx.(vout))))
            "drivechain deposit transaction must contain one credit output and at most one fee output";;
          t ← foldM (tally_output a.(a_destination_script)) (mkTally 0 0 0 0) tx.(vout);
          ensure (negb (negb (t.(credit_outputs) =? 1) || (1 <? t.(fee_outputs)) || (t.(credited) <=? 0) ||
                        (t.(fee) <? 0) || negb (t.(credited) + t.(fee) =? a.(a_value))))
            "drivechain deposit output value and fee do not equal the authenticated deposit value"
      | _ => Err "drivechain deposit transaction has an invalid input witness count"
      end
  | _, _ => Err "drivechain deposit transaction must contain exactly one input"
  end.

(** ** The treasury output in the chainstate *)
Definition EncodeCtipState (s : CtipState) : bytes :=
  push_data (ser_bytes CTIP_STATE_MARKER ++ ser_outpoint s.(outpoint) ++ ser_int64 s.(value) ++
             ser_int64 s.(ctip_sequence)) ++ [OP_DROP; OP_FALSE].

Definition read_marked_ctip : reader (bytes * CtipState) :=
  let* marker := read_script in let* o := read_outpoint in let* v := read_int64 in let* s := read_int64 in
  rret (marker, mkCtip o v s).

Definition DecodeCtipState (coin_ : Coin) : result CtipState :=
  let o := coin_.(out) in
  ensure (negb (IsSpent coin_ || negb (Conf.IsExplicit ConfAsset o.(Elements.nAsset)) ||
                negb (GetAsset o.(Elements.nAsset) =? params.(pegged_asset)) ||
                negb (Conf.IsExplicit ConfValue o.(Elements.nValue)) || negb (GetAmount o.(Elements.nValue) =? 0)))
    "persisted drivechain CTIP state has invalid asset or value encoding";;
  match Bmm.state_payload o.(Elements.scriptPubKey) with
  | None => Err "persisted drivechain CTIP state script is malformed"
  | Some data =>
      match read_marked_ctip data with
      | None => Err "persisted drivechain CTIP state payload cannot be decoded"
      | Some (marker, s, rest) =>
          ensure (negb (negb (bytes_eqb rest []) || negb (bytes_eqb marker CTIP_STATE_MARKER) ||
                        IsNull s.(outpoint).(hash) || (s.(value) <=? 0) || (s.(ctip_sequence) <? 0)))
            "persisted drivechain CTIP state payload is invalid";;
          Ok s
      end
  end.

Definition IsCtipStateInternalOutpoint (o : COutPoint) : bool := bool_decide (o = CTIP_STATE_OUTPOINT).

Section chainstate.
Context {V : Type} `{!CoinsCache V}.

Definition SetCtipState (v : V) (s : CtipState) (height_ : Z) : result V :=
  let '(v1, _) := cache_spend v CTIP_STATE_OUTPOINT in
  let output := Elements.CTxOut_new params.(pegged_asset) 0 (EncodeCtipState s) in
  cache_add v1 CTIP_STATE_OUTPOINT (mkCoin output false (Z.max height_ 0)) true.

(** [Ok None] when there is no state, which the code tells from a malformed one by the empty error. *)
Definition GetCtipState (v : V) : V * result (option CtipState) :=
  let '(v', coin_) := cache_access v CTIP_STATE_OUTPOINT in
  (v', if IsSpent coin_ then Ok None else s ← DecodeCtipState coin_; Ok (Some s)).

Definition is_legacy_input (tx : CTransaction) (input_index : nat) : bool :=
  match tx.(pegin_witness) !! input_index with
  | Some stack => IsLegacyDrivechainDepositPeginWitness stack
  | None => false
  end.

Definition VerifyDeterministicDeposit (tx : CTransaction) (input_index : nat) (v : V) : V * result unit :=
  match FindLegacyCheckpoint tx input_index with
  | Some c =>
      let '(v', r) := GetCtipState v in
      (v', existing ← r;
           match existing with
           | Some _ => Err "historical drivechain checkpoint cannot overwrite authenticated CTIP state"
           | None => a ← BuildLegacyAuthenticated tx input_index c; VerifyDepositTransaction tx input_index a
           end)
  | None =>
      if is_legacy_input tx input_index
      then (v, Err "legacy drivechain deposit witness is not an immutable historical checkpoint")
      else match ParseV2Deposit tx input_index with
      | Err e => (v, Err e)
      | Ok parsed =>
          let '(v', r) := GetCtipState v in
          (v', found ← r;
               match found with
               | None => Err "drivechain deposit has no authenticated prior CTIP state"
               | Some current =>
                   ensure (bool_decide (current = parsed.(previous_state)))
                     "drivechain deposit evidence is stale or does not extend the authenticated CTIP state";;
                   VerifyDepositTransaction tx input_index parsed.(authenticated)
               end)
      end
  end.

Definition VerifyDepositEvidenceAnchor (tx : CTransaction) (input_index : nat) (expected_parent : uint256) : result unit :=
  match FindLegacyCheckpoint tx input_index with
  | Some c =>
      ensure (c.(cp_parent_hash) =? expected_parent)
        "historical drivechain checkpoint is not in its immutable L1 parent block"
  | None =>
      ensure (negb (is_legacy_input tx input_index))
        "legacy drivechain deposit witness is not an immutable historical checkpoint";;
      parsed ← ParseV2Deposit tx input_index;
      ensure (parsed.(anchor) =? expected_parent)
        "drivechain deposit evidence anchor does not match sidechain block L1 parent"
  end.

Definition checkpoint_state (c : LegacyCheckpoint) : CtipState :=
  mkCtip c.(cp_outpoint) c.(cp_ctip_value) c.(cp_sequence_number).

Definition ConnectDepositState (tx : CTransaction) (input_index : nat) (v : V) (height_ : Z) : result V :=
  match FindLegacyCheckpoint tx input_index with
  | Some c =>
      a ← BuildLegacyAuthenticated tx input_index c;
      VerifyDepositTransaction tx input_index a;;
      SetCtipState v (checkpoint_state c) height_
  | None =>
      parsed ← ParseV2Deposit tx input_index;
      let '(v', r) := GetCtipState v in
      found ← r;
      match found with
      | None => Err "cannot connect drivechain deposit over missing authenticated CTIP state"
      | Some current =>
          ensure (bool_decide (current = parsed.(previous_state))) "cannot connect drivechain deposit over stale CTIP state";;
          SetCtipState v' parsed.(next_state) height_
      end
  end.

Definition DisconnectDepositState (tx : CTransaction) (input_index : nat) (v : V) (height_ : Z) : result V :=
  let '(v', r) := GetCtipState v in
  found ← r;
  match found with
  | None => Err "cannot disconnect drivechain deposit without authenticated CTIP state"
  | Some current =>
      match FindLegacyCheckpoint tx input_index with
      | Some c =>
          ensure (bool_decide (current = checkpoint_state c))
            "historical drivechain checkpoint CTIP state is inconsistent during disconnect";;
          let '(v'', spent) := cache_spend v' CTIP_STATE_OUTPOINT in
          ensure spent "historical drivechain checkpoint CTIP state could not be removed";;
          Ok v''
      | None =>
          parsed ← ParseV2Deposit tx input_index;
          ensure (bool_decide (current = parsed.(next_state)))
            "drivechain deposit CTIP state is inconsistent during disconnect";;
          SetCtipState v' parsed.(previous_state) (height_ - 1)
      end
  end.
End chainstate.
End peg.
End Peg.
