(* ===== verification/PegFacts.v ===== *)
(** * Facts on the deterministic peg

    The persisted treasury output reads back from the chainstate, and what a
    parsed deposit says: it spends the previous treasury output, grows it by the
    witness value, and is proven under a chain of headers. *)

From S2P Require Import Prelude ArithUint256 Sha256 Script Transaction Confidential ParentMessage BlockMerkle PartialMerkle ParentBlock Coins SideBlock Bmm BmmFacts Pegin Peg.
Import Pegin Peg.

(** ** Encodings *)
Lemma reads_int64 v : - 2^63 <= v < 2^63 -> reads read_int64 v (ser_int64 v).
Proof.
  intros Hv. eapply reads_bind_nil; [apply reads_le; unfold u64; apply Z.mod_pos_bound; lia|].
  rewrite to_int64_u64 by done. apply reads_ret.
Qed.

Lemma yields_int64 : yields read_int64 (fun v => - 2^63 <= v < 2^63).
Proof.
  eapply yields_bind; [apply yields_le|]. intros v Hv. apply yields_ret. unfold to_int64.
  assert (E : 256 ^ Z.of_nat 8 = 2^64) by reflexivity. rewrite E in Hv. destruct (Z.ltb_spec v (2^63)); lia.
Qed.

Record ctip_ok (s : CtipState) : Prop := {
  ctip_outpoint : outpoint_ok s.(outpoint);
  ctip_nonnull : s.(outpoint).(hash) <> 0;
  ctip_positive : 0 < s.(value) < 2^63;
  ctip_counted : 0 <= s.(ctip_sequence) < 2^63 }.

Definition ctip_payload (s : CtipState) : bytes :=
  ser_bytes CTIP_STATE_MARKER ++ ser_outpoint s.(outpoint) ++ ser_int64 s.(value) ++ ser_int64 s.(ctip_sequence).

Lemma ctip_payload_len s : len (ctip_payload s) = 71.
Proof.
  unfold ctip_payload, ser_outpoint, ser_int64. rewrite !len_app. unfold len. rewrite !le_encode_length, uint256_bytes_length.
  reflexivity.
Qed.

Lemma EncodeCtipState_head s : exists t, EncodeCtipState s = 71 :: t /\ len t = 73.
Proof.
  unfold EncodeCtipState. fold (ctip_payload s). unfold push_data. rewrite ctip_payload_len.
  change (AppendDataSize (u32 71)) with [71]. exists (ctip_payload s ++ [OP_DROP; OP_FALSE]). split; [reflexivity|]. rewrite len_app, ctip_payload_len. reflexivity.
Qed.

Lemma reads_marked_ctip s : ctip_ok s -> reads read_marked_ctip (CTIP_STATE_MARKER, s) (ctip_payload s).
Proof.
  intros [H1 _ H3 H4]. unfold ctip_payload. eapply reads_bind.
  { apply reads_script. split; [|done]. refine (bool_decide_unpack _ _). vm_compute. exact I. }
  eapply reads_bind; [by apply reads_outpoint|]. eapply reads_bind; [apply reads_int64; lia|].
  eapply reads_bind_nil; [apply reads_int64; lia|]. destruct s. apply reads_ret.
Qed.

(** ** The state in the chainstate *)
Section persisted.
Context (params : peg_params) (Hasset : uint256_ok params.(pegged_asset)).

Definition ctip_coin (s : CtipState) (h : Z) : Coin :=
  mkCoin (Elements.CTxOut_new params.(pegged_asset) 0 (EncodeCtipState s)) false (Z.max h 0).

Lemma ctip_coin_unspent s h : IsSpent (ctip_coin s h) = false.
Proof. reflexivity. Qed.

Lemma ctip_coin_spendable s h : IsUnspendable (Elements.scriptPubKey (out (ctip_coin s h))) = false.
Proof.
  destruct (EncodeCtipState_head s) as (t & E & Ht). cbn. rewrite E. unfold IsUnspendable. rewrite len_cons, Ht. reflexivity.
Qed.

Lemma DecodeCtipState_back s h : ctip_ok s -> DecodeCtipState params (ctip_coin s h) = Ok s.
Proof.
  intros Hs. unfold DecodeCtipState. rewrite ctip_coin_unspent.
  unfold ctip_coin. cbn [out Elements.CTxOut_new Elements.nAsset Elements.nValue Elements.scriptPubKey].
  rewrite SetToAsset_explicit, SetToAmount_explicit, GetAsset_SetToAsset, GetAmount_SetToAmount, Z.eqb_refl by (lia || done).
  rewrite ensure_bind by done. unfold EncodeCtipState. fold (ctip_payload s).
  rewrite state_payload_push by (rewrite ctip_payload_len; lia).
  pose proof (reads_marked_ctip s Hs []) as R. rewrite app_nil_r in R. rewrite R.
  rewrite ensure_bind; [done|]. destruct Hs as [_ H2 H3 H4]. rewrite !bytes_eqb_refl. unfold IsNull.
  rewrite (proj2 (Z.eqb_neq _ _) H2), (proj2 (Z.leb_gt _ _)), (proj2 (Z.ltb_ge _ _)) by lia. done.
Qed.

Context {V : Type} `{!CoinsCache V, !CoinsCacheLaws V}.

(** The treasury output that a chainstate holds. *)
Definition ctip_of (x : option Coin) : result (option CtipState) :=
  match x with None => Ok None | Some c => s ← DecodeCtipState params c; Ok (Some s) end.

Definition held (v : V) : result (option CtipState) := ctip_of (cache_coin v CTIP_STATE_OUTPOINT).

Lemma GetCtipState_held v : cache_inv v -> exists v', GetCtipState params v = (v', held v) /\ v' = (cache_access v CTIP_STATE_OUTPOINT).1 /\
  cache_inv v' /\ forall o, cache_coin v' o = cache_coin v o.
Proof.
  intros Hv. unfold GetCtipState, held. pose proof (cache_access_law v CTIP_STATE_OUTPOINT Hv) as L.
  destruct (cache_access v CTIP_STATE_OUTPOINT) as [v' x]. destruct L as (Hv' & Hc & Hl). exists v'. split; [|done].
  f_equal. unfold live in Hl. destruct (IsSpent x); by rewrite <- Hl.
Qed.

Lemma SetCtipState_held v s h : cache_inv v -> ctip_ok s ->
  exists v', SetCtipState params v s h = Ok v' /\ cache_inv v' /\ held v' = Ok (Some s) /\
    cache_coin v' CTIP_STATE_OUTPOINT = Some (ctip_coin s h) /\
    forall o, o <> CTIP_STATE_OUTPOINT -> cache_coin v' o = cache_coin v o.
Proof.
  intros Hv Hs. unfold SetCtipState. pose proof (cache_spend_law v CTIP_STATE_OUTPOINT Hv) as L.
  destruct (cache_spend v CTIP_STATE_OUTPOINT) as [v1 b]. destruct L as (Hv1 & Hc1 & _). fold (ctip_coin s h).
  destruct (cache_add_law v1 CTIP_STATE_OUTPOINT (ctip_coin s h) true Hv1) as (v2 & E & Hv2 & Hc2);
    [done|apply ctip_coin_spendable|by left|].
  exists v2. unfold held. rewrite Hc2, decide_True by done. cbn [ctip_of]. rewrite DecodeCtipState_back by done.
  split_and!; try done. intros o Ho. by rewrite Hc2, decide_False, Hc1, decide_False by done.
Qed.

Lemma held_eq (v v' : V) : cache_coin v' CTIP_STATE_OUTPOINT = cache_coin v CTIP_STATE_OUTPOINT -> held v' = held v.
Proof. unfold held. by intros ->. Qed.
End persisted.

(** ** Witness data *)
Lemma item_ok stack i : Forall bytes_ok stack -> bytes_ok (item stack i).
Proof. intros H. unfold item. destruct (nth_in_or_default i stack []) as [Hin| ->]; [|constructor]. by apply (proj1 (List.Forall_forall _ _) H). Qed.

Lemma PeginData_inv params stack o x claim id : GetDrivechainDepositPeginData params stack o = Some (x, claim, id) ->
  0 < x <= MAX_MONEY /\ id = o.(hash) /\ is_deposit params stack o = true /\ len stack <> 8.
Proof.
  unfold is_deposit, IsDrivechainDepositPeginWitness. intros E. rewrite E. unfold GetDrivechainDepositPeginData in E.
  destruct (_ && _ : bool) eqn:Hn in E; [discriminate|].
  assert (Hsz : len stack = 6 \/ len stack = 11).
  { apply andb_false_iff in Hn as [Hn|Hn]; apply negb_false_iff in Hn; bool_simp; auto. }
  assert (Hb : (len stack =? 6) || (len stack =? 11) = true).
  { apply orb_true_iff. destruct Hsz; [left|right]; by apply Z.eqb_eq. }
  rewrite Hb. destruct (ReadPeginWitnessPrefix stack) as [p|] eqn:Hp; [|discriminate].
  destruct (negb (pegs params p)) eqn:Hpeg; [discriminate|]. apply negb_false_iff in Hpeg.
  match type of E with context [match ?m with Some _ => _ | None => _ end] => destruct m as [id'|] eqn:Hid; [|discriminate] end.
  destruct (negb (hash o =? id')) eqn:Ho; [discriminate|]. apply negb_false_iff, Z.eqb_eq in Ho.
  injection E as <- <- <-. unfold pegs in Hpeg. apply negb_true_iff in Hpeg. bool_simp.
  unfold ReadPeginWitnessPrefix in Hp. apply bind_Ok in Hp as (? & _ & Hp).
  destruct (read_int64 (item stack 0)) as [[z t]|]; [|discriminate]. apply bind_Ok in Hp as (? & Hm & Hp).
  apply ensure_Ok in Hm. unfold MoneyRange in Hm. apply andb_true_iff in Hm as [Hm1%Z.leb_le Hm2%Z.leb_le].
  do 3 apply bind_Ok in Hp as (? & _ & Hp). injection Hp as <-. cbn [p_value] in *. split_and!; try done; try lia.
Qed.

(** ** Chains of headers *)
Fixpoint header_chain (params : peg_params) (hs : list CBlockHeader) : Prop :=
  match hs with
  | [] => True
  | h :: hs' =>
      CheckParentProofOfWork params (Hash (ser_header h)) h.(nBits) = true /\
      match hs' with h' :: _ => h'.(hashPrevBlock) = Hash (ser_header h) | [] => True end /\
      header_chain params hs'
  end.

Lemma check_headers_chain params hs : forall previous, check_headers params previous hs = Ok tt -> header_chain params hs /\
  match previous, hs with Some p, h :: _ => h.(hashPrevBlock) = p | _, _ => True end.
Proof.
  induction hs as [|h hs IH]; intros previous H; cbn [check_headers] in H; [by destruct previous|].
  apply bind_Ok in H as (? & H1 & H). apply bind_Ok in H as (? & H2 & H). apply ensure_Ok in H1, H2.
  apply IH in H as [Hc Hp]. cbn [header_chain]. split; [split_and!; [done| |done]|].
  - destruct hs; [done|]. exact Hp.
  - destruct previous; [by apply Z.eqb_eq|done].
Qed.

(** ** Deposits with evidence
    The parent transaction [D], the transaction [P] whose treasury output it
    spends, the Merkle proof and the headers behind a parsed deposit. *)
Record v2_deposit (params : peg_params) (stack : list bytes) (o : COutPoint) (parsed : ParsedDeterministicDeposit)
    (D P : Transaction.CTransaction) (proof : CMerkleBlock) (hs : list CBlockHeader) : Prop := {
  vd_witness : exists claim, GetDrivechainDepositPeginData params stack o = Some (parsed.(authenticated).(a_value), claim, o.(hash));
  vd_outpoint : parsed.(next_state).(outpoint) = o /\ parsed.(authenticated).(a_outpoint) = o /\ GetHash D = o.(hash);
  vd_output : exists x, D.(Transaction.vout) !! Z.to_nat o.(n) = Some x /\ IsSlot24CtipScript x.(scriptPubKey) = true /\
    x.(nValue) = parsed.(next_state).(value);
  vd_spends : exists i, treasury_inputs D P (GetHash P) = [i] /\ i.(Transaction.prevout) = parsed.(previous_state).(outpoint);
  vd_spent : exists x, P.(Transaction.vout) !! Z.to_nat parsed.(previous_state).(outpoint).(n) = Some x /\
    IsSlot24CtipScript x.(scriptPubKey) = true /\ x.(nValue) = parsed.(previous_state).(value);
  vd_value : 0 < parsed.(previous_state).(value) /\
    parsed.(next_state).(value) = parsed.(previous_state).(value) + parsed.(authenticated).(a_value);
  vd_sequence : 0 <= parsed.(previous_state).(ctip_sequence) /\
    parsed.(next_state).(ctip_sequence) = parsed.(previous_state).(ctip_sequence) + 1;
  vd_merkle : (ExtractMatches proof.(txn)).(x_root) = proof.(mb_header).(hashMerkleRoot) /\
    (ExtractMatches proof.(txn)).(x_matches) = [GetHash D];
  vd_headers : header_chain params hs /\ header_hash (head hs) = Hash (ser_header proof.(mb_header)) /\
    header_hash (list.last hs) = parsed.(anchor);
  vd_typed : Forall bytes_ok stack -> tx_ok D /\ tx_ok P /\ parsed.(previous_state).(ctip_sequence) < INT64_MAX }.

Lemma Evidence_inv stack o e : GetDrivechainDepositEvidence stack o = Ok e ->
  e.(deposit_tx) = item stack 5 /\ e.(previous_ctip_tx) = item stack 7 /\
  0 <= e.(previous_sequence_number) /\ (Forall bytes_ok stack -> e.(previous_sequence_number) < INT64_MAX) /\
  e.(sequence_number) = e.(previous_sequence_number) + 1.
Proof.
  unfold GetDrivechainDepositEvidence. intros H. do 3 apply bind_Ok in H as ([] & _ & H).
  destruct (Bmm.DeserializeExactly read_int64 (item stack 8)) as [s|] eqn:E8; [|discriminate].
  destruct (Bmm.DeserializeExactly read_int64 (item stack 9)) as [p|] eqn:E9; [|discriminate].
  destruct (Bmm.DeserializeExactly (read_vector read_header) (item stack 10)) as [hs|]; [|discriminate].
  apply bind_Ok in H as ([] & Hs & H). apply bind_Ok in H as ([] & _ & H). injection H as <-. apply ensure_Ok in Hs.
  apply negb_true_iff in Hs. bool_simp. cbn. split_and!; try done; try lia.
  intros Hb. apply exactly_inv in E9. pose proof (yields_int64 _ _ _ (item_ok _ 9 Hb) E9) as [Hp _]. unfold INT64_MAX in *. lia.
Qed.

Lemma spends_treasury_inv P t i : spends_treasury P t i = true ->
  i.(Transaction.prevout).(hash) = t /\ exists x, P.(Transaction.vout) !! Z.to_nat i.(Transaction.prevout).(n) = Some x /\
    IsSlot24CtipScript x.(scriptPubKey) = true.
Proof.
  unfold spends_treasury. intros [H1%Z.eqb_eq H2]%andb_true_iff. split; [done|].
  destruct (_ !! _) as [x|] eqn:E; [|discriminate]. by exists x.
Qed.

Lemma decode_evidence_inv e D P proof : decode_evidence e = Ok (D, P, proof) ->
  Bmm.DeserializeExactly (UnserializeTransaction true) e.(deposit_tx) = Some D /\
  Bmm.DeserializeExactly (UnserializeTransaction true) e.(previous_ctip_tx) = Some P.
Proof. unfold decode_evidence. repeat case_match; intros [= <- <- <-]; done. Qed.

Lemma exactly_tx_ok b t : bytes_ok b -> Bmm.DeserializeExactly (UnserializeTransaction true) b = Some t -> tx_ok t.
Proof. intros Hb E%exactly_inv. by apply (yields_transaction true _ _ _ Hb E). Qed.

Section parsed.
Context {Dest : DestinationEnv} (params : peg_params).

Lemma ParseV2Deposit_inv tx i parsed : ParseV2Deposit params tx i = Ok parsed ->
  exists input stack D P proof hs, tx.(vin) !! i = Some input /\ tx.(pegin_witness) !! i = Some stack /\
    v2_deposit params stack input.(prevout) parsed D P proof hs.
Proof.
  intros H. unfold ParseV2Deposit in H. destruct (vin tx !! i) as [input|] eqn:Ei; [|discriminate].
  destruct (pegin_witness tx !! i) as [stack|] eqn:Ew; [|discriminate].
  apply bind_Ok in H as (e & He & H). apply bind_Ok in H as ([[D P] proof] & Hd & H).
  destruct (Transaction.vout D !! Z.to_nat (n (prevout input))) as [cur|] eqn:Ec; [|discriminate].
  apply bind_Ok in H as ([] & Hh & H). apply bind_Ok in H as ([] & Hm & H). apply bind_Ok in H as ([] & Hc & H).
  apply bind_Ok in H as ([] & Ht & H). apply ensure_Ok in Hh, Hm, Ht. apply Z.eqb_eq in Hh.
  destruct (treasury_inputs D P (GetHash P)) as [|j [|]] eqn:Ej; [discriminate| |discriminate].
  destruct (GetDrivechainDepositPeginData params stack (prevout input)) as [[[x claim] id]|] eqn:Ed; [|discriminate].
  apply bind_Ok in H as ([] & Hv & H). apply bind_Ok in H as ([addr script] & _ & H). injection H as <-.
  apply ensure_Ok, negb_true_iff in Hv. rewrite !orb_false_iff, negb_false_iff in Hv. destruct Hv as [[Hv1 Hv2] Hv3].
  apply Z.leb_gt in Hv1, Hv2. apply Z.eqb_eq in Hv3. rewrite !andb_true_iff, !Z.eqb_eq in Hm. destruct Hm as [[[Hm1 Hm2] Hm3] Hm4].
  apply andb_true_iff in Ht as [Ht _]. destruct (PeginData_inv _ _ _ _ _ _ Ed) as (_ & -> & _).
  assert (Hj : spends_treasury P (GetHash P) j = true).
  { assert (Hin : In j (treasury_inputs D P (GetHash P))) by (rewrite Ej; by left). by apply List.filter_In in Hin as [_ Hin]. }
  destruct (spends_treasury_inv _ _ _ Hj) as (Hj1 & y & Hy & Hy'). rewrite Hy in *.
  destruct (Evidence_inv _ _ _ He) as (E5 & E7 & S1 & S2 & S3). destruct (check_headers_chain _ _ _ Hc) as [Hc' _].
  exists input, stack, D, P, proof, (headers e). split_and!; [done..|].
  split; cbn [authenticated next_state previous_state anchor outpoint value ctip_sequence a_value a_outpoint Transaction.hash Transaction.n].
  - by exists claim.
  - split_and!; [reflexivity|reflexivity|exact Hh].
  - exists cur. split_and!; [exact Ec|exact Ht|reflexivity].
  - exists j. split; [exact Ej|]. rewrite <- Hj1. by destruct (Transaction.prevout j).
  - exists y. split_and!; [exact Hy|exact Hy'|reflexivity].
  - split; [exact Hv1|lia].
  - split; [exact S1|exact S3].
  - split; [exact Hm1|]. destruct (x_matches _) as [|m [|]]; [discriminate Hm2| |unfold len in Hm2; cbn in Hm2; lia].
    cbn [nth] in Hm3. by rewrite Hm3.
  - split_and!; [exact Hc'|exact Hm4|reflexivity].
  - intros Hb. apply decode_evidence_inv in Hd as [Hd Hp]. rewrite E5 in Hd. rewrite E7 in Hp.
    split_and!; [exact (exactly_tx_ok _ _ (item_ok _ 5 Hb) Hd)|exact (exactly_tx_ok _ _ (item_ok _ 7 Hb) Hp)|exact (S2 Hb)].
Qed.

(** The states before and after a deposit can be persisted. *)
Lemma v2_states_ok stack o parsed D P proof hs : v2_deposit params stack o parsed D P proof hs -> Forall bytes_ok stack ->
  outpoint_ok o -> o.(hash) <> 0 -> parsed.(previous_state).(outpoint).(hash) <> 0 ->
  ctip_ok parsed.(previous_state) /\ ctip_ok parsed.(next_state).
Proof.
  intros [(claim & Hw) (Ho & _ & _) (x & Hx & _ & Hxv) (i & Hi & Hi') (y & Hy & _ & Hyv) Hv Hs _ _ Ht] Hb Hok Hn Hpn.
  destruct (Ht Hb) as (TD & TP & Hq). unfold INT64_MAX in Hq. destruct (PeginData_inv _ _ _ _ _ _ Hw) as (Hr & _).
  assert (Hin : In i (Transaction.vin D)).
  { assert (Hin : In i (treasury_inputs D P (GetHash P))) by (rewrite Hi; by left). by apply List.filter_In in Hin as [Hin _]. }
  destruct TD as (_ & _ & TDi & _ & TDo & _), TP as (_ & _ & _ & _ & TPo & _).
  assert (Hio : outpoint_ok (Transaction.prevout i)) by (apply (proj1 (List.Forall_forall _ _) TDi i Hin)).
  assert (Hxo : txout_ok x) by (eapply list.Forall_lookup_1; [exact TDo|exact Hx]).
  assert (Hyo : txout_ok y) by (eapply list.Forall_lookup_1; [exact TPo|exact Hy]).
  destruct Hxo as [Hxo _], Hyo as [Hyo _]. split; split; try lia; try done.
  - by rewrite <- Hi'.
  - by rewrite Ho.
  - by rewrite Ho.
Qed.
End parsed.
