(* ===== verification/Mint.v ===== *)
(** * Claiming deposits (src/src/pegins.cpp, src/src/consensus/tx_verify.cpp,
      src/src/validation.cpp, src/src/coins.cpp)

    How a transaction of the sidechain mints from a deposit: the peg-in witness is
    validated, its key is checked against the peg-ins already claimed, and
    connecting the transaction records the key, moves the treasury output of the
    public branch and updates the coins; disconnecting it undoes all of this.  The
    code outside the model is passed as arguments: the status of a native deposit
    ([GetConfirmedDrivechainDepositStatus], modelled in Warm), the federated
    peg-in of networks without a slot, the balance of confidential amounts
    ([VerifyAmounts]), and the bound of the loop over the outputs of a transaction. *)

From S2P Require Import Prelude ArithUint256 Sha256 Script Transaction Confidential ParentMessage BlockMerkle PartialMerkle ParentBlock Coins SideBlock Bmm BmmFacts Pegin Peg.

Module Mint.
Import Pegin Peg.

(** ** Verdicts: a check passes, the transaction is invalid, or the parent node could not tell *)
Inductive verdict (A : Type) : Type := Pass (a : A) | Invalid (reason : string) | Error (reason : string).
Arguments Pass {A} a.
Arguments Invalid {A} reason.
Arguments Error {A} reason.

#[global] Instance verdict_ret : MRet verdict := fun A a => Pass a.
#[global] Instance verdict_bind : MBind verdict := fun A B f m =>
  match m with Pass a => f a | Invalid r => Invalid r | Error r => Error r end.

Definition require (b : bool) (reason : string) : verdict unit := if b then Pass tt else Invalid reason.

(** [DisconnectResult] of a step that did not fail: whether it was clean. *)
Abbreviation disconnected V := (result (V * bool)).

Definition EXCHANGE_TRACKER_OUTPOINT : COutPoint :=
  Eval vm_compute in mkOutPoint (Bmm.hex_uint256 0xe31f7fb1e9489bfb9f6a73c10f80ecdcce1f276fbdf0cf85c02e3bcf174dc041) 0.
Definition FORCED_INBOX_TRACKER_OUTPOINT : COutPoint :=
  Eval vm_compute in mkOutPoint (Bmm.hex_uint256 0xc3fd019db845c81a68a561f5ab67d92c3ab2505cb2c8212f02511e07e8c2f2a1) 0.
Definition DEPOSIT_INBOX_TRACKER_OUTPOINT : COutPoint :=
  Eval vm_compute in mkOutPoint (Bmm.hex_uint256 0x0cc4c302121a9d75c8a0e520253c1740520a6d6f4d03db6947a99565175d6586) 0.

Definition IsExchangeStateInternalOutpoint (o : COutPoint) : bool :=
  bool_decide (o = EXCHANGE_TRACKER_OUTPOINT) || bool_decide (o = FORCED_INBOX_TRACKER_OUTPOINT) ||
  bool_decide (o = DEPOSIT_INBOX_TRACKER_OUTPOINT).

Definition COINBASE_MATURITY : Z := 100.

Definition IsCoinBase (tx : CTransaction) : bool :=
  match tx.(vin) with [i] => COutPoint_IsNull i.(prevout) | _ => false end.

(** ** Fees: [CAmountMap] is a map from assets to amounts *)
Definition AmountMap_MoneyRange (m : gmap uint256 Z) : bool :=
  bool_decide (map_Forall (fun _ x => ((x <? 0) || (MAX_MONEY <? x)) = false) m).

Definition add_amount (m : gmap uint256 Z) (asset : uint256) (x : Z) : gmap uint256 Z :=
  <[asset := default 0 (m !! asset) + x]> m.

Definition fee_step (m : gmap uint256 Z) (o : Elements.CTxOut) : result (gmap uint256 Z) :=
  if Elements.IsFee o then
    let fee_ := GetAmount o.(Elements.nValue) in
    ensure (negb ((fee_ =? 0) || negb (MoneyRange fee_))) "fee";;
    let m' := add_amount m (GetAsset o.(Elements.nAsset)) fee_ in
    ensure (AmountMap_MoneyRange m') "fee";;
    Ok m'
  else Ok m.

Definition HasValidFee (tx : CTransaction) : bool := is_ok (foldM fee_step ∅ tx.(vout)).

Definition GetFeeMap (tx : CTransaction) : gmap uint256 Z :=
  foldl (fun m o => if Elements.IsFee o then add_amount m (GetAsset o.(Elements.nAsset)) (GetAmount o.(Elements.nValue)) else m)
    ∅ tx.(vout).

Definition amounts_plus (a b : gmap uint256 Z) : gmap uint256 Z :=
  map_fold (fun asset x m => add_amount m asset x) a b.

Definition TxOutDBEntryIsSame (block_txout txdb_txout : Elements.CTxOut) : bool :=
  bytes_eqb txdb_txout.(Elements.nValue) block_txout.(Elements.nValue) &&
  bytes_eqb txdb_txout.(Elements.nAsset) block_txout.(Elements.nAsset) &&
  bytes_eqb txdb_txout.(Elements.scriptPubKey) block_txout.(Elements.scriptPubKey).

Definition empty_coin : Coin := mkCoin null_txout false 0.

Section mint.
Context {Dest : DestinationEnv} (params : peg_params).
Context (deposit_status : uint256 -> Z -> COutPoint -> Z -> bytes -> Z -> DrivechainDepositStatus).
Context (federated : list bytes -> COutPoint -> bool -> bool).
Context (VerifyAmounts : list Elements.CTxOut -> CTransaction -> bool).
Context (connect_genesis_outputs : bool) (MAX_OUTPUTS_PER_BLOCK : nat).

(** ** Validity of a witness *)
Definition of_result {A} (r : result A) : verdict A := match r with Ok a => Pass a | Err e => Invalid e end.

Definition is_ecx_format (stack : list bytes) : bool :=
  ((len stack =? 6) && bytes_eqb (item stack 4) ECX_LEGACY_DEPOSIT_MARKER) ||
  ((len stack =? 11) && bytes_eqb (item stack 4) DRIVECHAIN_DEPOSIT_EVIDENCE_MARKER).

Definition IsValidEcxPeginWitness (stack : list bytes) (prevout_ : COutPoint) (check_depth : bool) : verdict unit :=
  require (negb (negb (len stack =? 6) && negb (len stack =? 11))) "Not enough stack items.";;
  p ← of_result (ReadPeginWitnessPrefix stack);
  if bytes_eqb (item stack 4) ECX_LEGACY_DEPOSIT_MARKER || bytes_eqb (item stack 4) DRIVECHAIN_DEPOSIT_EVIDENCE_MARKER then
    require (is_deposit params stack prevout_) "Invalid drivechain deposit pegin witness.";;
    require (p.(p_genesis) =? params.(ParentGenesisBlockHash)) "Parent genesis block mismatch.";;
    require (p.(p_asset) =? params.(pegged_asset)) "Pegin asset is not the pegged asset."
  else require (federated stack prevout_ check_depth) "federated peg-in".

Definition IsValidPeginWitness (stack : list bytes) (prevout_ : COutPoint) (check_depth : bool) (child_height : Z)
    : verdict unit :=
  if is_ecx_format stack then
    match params.(drivechain_slot) with
    | Some _ => Invalid "ECX deposit evidence is not a native Alpha CTIP witness."
    | None => IsValidEcxPeginWitness stack prevout_ check_depth
    end
  else
    let is_drivechain_deposit := (5 <=? len stack) && bytes_eqb (item stack 4) DRIVECHAIN_DEPOSIT_MARKER in
    require (len stack =? (if is_drivechain_deposit then 8 else 6)) "Peg-in witness has %u stack items; expected %u.";;
    p ← of_result (ReadPeginWitnessPrefix stack);
    if is_drivechain_deposit then
      match params.(drivechain_slot) with
      | None => Invalid "Drivechain deposits are not enabled on this network."
      | Some slot_ =>
          match IsDrivechainDepositPeginWitness params true stack prevout_ with
          | Some (mkFields _ _ (Some (mainchain_block_hash, address))) =>
              require (p.(p_genesis) =? params.(ParentGenesisBlockHash)) "Parent genesis block mismatch.";;
              require (p.(p_asset) =? params.(pegged_asset)) "Pegin asset is not the pegged asset.";;
              require (bytes_eqb p.(p_claim) [OP_TRUE]) "Drivechain deposit claim script must be OP_TRUE.";;
              match deposit_status mainchain_block_hash slot_ prevout_ p.(p_value) address child_height with
              | VALID => Pass tt
              | INVALID => Invalid "BIP300 deposit is not confirmed on the mainchain"
              | UNAVAILABLE => Error "BIP300 deposit is not confirmed on the mainchain"
              end
          | _ => Invalid "Invalid drivechain deposit pegin witness."
          end
      end
    else match params.(drivechain_slot) with
    | Some _ => Invalid "Legacy federated peg-ins are disabled on a Drivechain network."
    | None => require (federated stack prevout_ check_depth) "federated peg-in"
    end.

(** ** Checking the inputs of a transaction *)
Context {V : Type} `{!CoinsCache V, !PeginCache V}.

Definition have_coin (v : V) (o : COutPoint) : V * bool :=
  let '(v', r) := cache_get v o in (v', bool_decide (is_Some r)).

Fixpoint have_inputs (v : V) (l : list CTxIn) : V * bool :=
  match l with
  | [] => (v, true)
  | i :: l' =>
      if i.(m_is_pegin) then have_inputs v l'
      else let '(v', found) := have_coin v i.(prevout) in if found then have_inputs v' l' else (v', false)
  end.

Definition HaveInputs (v : V) (tx : CTransaction) : V * bool :=
  if IsCoinBase tx then (v, true) else have_inputs v tx.(vin).

Definition reserved_input (i : CTxIn) : verdict unit :=
  require (negb (negb i.(m_is_pegin) && IsExchangeStateInternalOutpoint i.(prevout))) "bad-ecx-internal-state-spend";;
  require (negb (negb i.(m_is_pegin) && (Bmm.IsBmmStateInternalOutpoint i.(prevout) ||
                                         IsCtipStateInternalOutpoint i.(prevout))))
    "bad-drivechain-internal-state-spend".

(** The loop over the inputs: the view, the claimed peg-ins and the spent outputs so far. *)
Record progress := mkProgress { g_view : V; g_pegins : gset (uint256 * COutPoint); g_spent : list Elements.CTxOut }.

Definition check_pegin (tx : CTransaction) (nSpendHeight : Z) (i : nat) (input : CTxIn) (g : progress) : verdict progress :=
  match tx.(pegin_witness) !! i with
  | None => Invalid "bad-pegin-witness"
  | Some stack =>
      IsValidPeginWitness stack input.(prevout) true nSpendHeight;;
      v1 ← (if is_deposit params stack input.(prevout) then
              if len stack =? 8
              then match CheckDrivechainDepositOutputs params tx i with
                   | Ok _ => Pass g.(g_view)
                   | Err _ => Invalid "bad-drivechain-deposit"
                   end
              else match VerifyDeterministicDeposit params tx i g.(g_view) with
                   | (v', Ok _) => Pass v'
                   | (_, Err _) => Invalid "bad-drivechain-deposit"
                   end
            else Pass g.(g_view));
      let pegin := GetPeginSpentKey params stack input.(prevout) in
      let '(v2, spent) := cache_is_pegin_spent v1 pegin in
      require (negb spent) "bad-txns-double-pegin";;
      require (bool_decide (pegin ∉ g.(g_pegins))) "bad-txns-double-pegin-in-obj";;
      o ← (match GetPeginOutputFromWitness stack with Ok o => Pass o | Err e => Error e end);
      require (MoneyRange (GetAmount o.(Elements.nValue))) "bad-txns-inputvalues-outofrange";;
      Pass (mkProgress v2 ({[pegin]} ∪ g.(g_pegins)) (g.(g_spent) ++ [o]))
  end.

Definition check_coin (nSpendHeight : Z) (input : CTxIn) (g : progress) : verdict progress :=
  let '(v', coin_) := cache_access g.(g_view) input.(prevout) in
  if IsSpent coin_ then Error "Assertion `!coin.IsSpent()' failed"
  else
    require (negb (coin_.(fCoinBase) && (nSpendHeight - coin_.(nHeight) <? COINBASE_MATURITY)))
      "bad-txns-premature-spend-of-coinbase";;
    Pass (mkProgress v' g.(g_pegins) (g.(g_spent) ++ [coin_.(out)])).

Fixpoint check_inputs (tx : CTransaction) (nSpendHeight : Z) (i : nat) (l : list CTxIn) (g : progress) : verdict progress :=
  match l with
  | [] => Pass g
  | input :: l' =>
      g' ← (if input.(m_is_pegin) then check_pegin tx nSpendHeight i input g else check_coin nSpendHeight input g);
      check_inputs tx nSpendHeight (S i) l' g'
  end.

(** [fScriptChecks] is whether the amounts are checked. *)
Definition CheckTxInputs (tx : CTransaction) (v : V) (nSpendHeight : Z) (fee_map : gmap uint256 Z)
    (setPeginsSpent : gset (uint256 * COutPoint)) (fScriptChecks : bool) : verdict (progress * gmap uint256 Z) :=
  foldr (fun i rest => reserved_input i;; rest) (Pass tt) tx.(vin);;
  let '(v1, have) := HaveInputs v tx in
  require have "bad-txns-inputs-missingorspent";;
  g ← check_inputs tx nSpendHeight 0 tx.(vin) (mkProgress v1 setPeginsSpent []);
  require (HasValidFee tx) "bad-txns-fee-outofrange";;
  require (negb (fScriptChecks && negb (VerifyAmounts g.(g_spent) tx))) "bad-txns-in-ne-out";;
  let fees := amounts_plus fee_map (GetFeeMap tx) in
  require (AmountMap_MoneyRange fees) "bad-block-total-fee-outofrange";;
  Pass (g, fees).

(** ** Connecting a transaction *)
Fixpoint spend_inputs (tx : CTransaction) (i : nat) (l : list CTxIn) (v : V) (undo : list Coin) : result (V * list Coin) :=
  match l with
  | [] => Ok (v, undo)
  | input :: l' =>
      if input.(m_is_pegin) then
        match tx.(pegin_witness) !! i with
        | None => Err "vector index is out of range"
        | Some stack =>
            let v' := cache_set_pegin_spent v (GetPeginSpentKey params stack input.(prevout)) true in
            spend_inputs tx (S i) l' v' (undo ++ [empty_coin])
        end
      else
        let '(v', is_spent, moved) := cache_take v input.(prevout) in
        ensure is_spent "Assertion `is_spent' failed";;
        spend_inputs tx (S i) l' v' (undo ++ [moved])
  end.

Fixpoint add_outputs (tx : CTransaction) (nHeight_ : Z) (i : nat) (l : list Elements.CTxOut) (v : V) : result V :=
  match l with
  | [] => Ok v
  | o :: l' =>
      v' ← cache_add v (mkOutPoint tx.(txid) (Z.of_nat i)) (mkCoin o (IsCoinBase tx) nHeight_) (IsCoinBase tx);
      add_outputs tx nHeight_ (S i) l' v'
  end.

Definition UpdateCoins (tx : CTransaction) (v : V) (nHeight_ : Z) : result (V * list Coin) :=
  r ← (if IsCoinBase tx then Ok (v, []) else spend_inputs tx 0 tx.(vin) v []);
  v' ← add_outputs tx nHeight_ 0 tx.(vout) r.1;
  Ok (v', r.2).

(** The inputs that carry the evidence of the public branch. *)
Definition carries_evidence (tx : CTransaction) (i : nat) (input : CTxIn) : bool :=
  input.(m_is_pegin) &&
  match tx.(pegin_witness) !! i with
  | Some stack => IsEcxDrivechainDepositPeginWitness params stack input.(prevout)
  | None => false
  end.

Fixpoint check_anchors (tx : CTransaction) (parent : result uint256) (i : nat) (l : list CTxIn) : result unit :=
  match l with
  | [] => Ok tt
  | input :: l' =>
      (if carries_evidence tx i input then expected ← parent; VerifyDepositEvidenceAnchor params tx i expected else Ok tt);;
      check_anchors tx parent (S i) l'
  end.

Fixpoint connect_deposits (tx : CTransaction) (height_ : Z) (i : nat) (l : list CTxIn) (v : V) : result V :=
  match l with
  | [] => Ok v
  | input :: l' =>
      v' ← (if carries_evidence tx i input then ConnectDepositState params tx i v height_ else Ok v);
      connect_deposits tx height_ (S i) l' v'
  end.

(** What [ConnectBlock] does with the peg-ins and coins of one transaction.
    [parent] is the parent hash committed by the block. *)
Definition connect_tx (parent : result uint256) (height_ : Z) (tx : CTransaction) (v : V) (fees : gmap uint256 Z)
    (setPeginsSpent : gset (uint256 * COutPoint)) (fScriptChecks : bool)
    : verdict (V * gmap uint256 Z * gset (uint256 * COutPoint) * list Coin) :=
  if IsCoinBase tx then
    r ← of_result (UpdateCoins tx v height_);
    Pass (r.1, fees, setPeginsSpent, r.2)
  else
    match check_anchors tx parent 0 tx.(vin) with
    | Err _ => Invalid "bad-drivechain-deposit-anchor"
    | Ok _ =>
        c ← CheckTxInputs tx v height_ fees setPeginsSpent fScriptChecks;
        match connect_deposits tx height_ 0 tx.(vin) c.1.(g_view) with
        | Err _ => Invalid "bad-drivechain-deposit-state"
        | Ok v1 =>
            match UpdateCoins tx v1 height_ with
            | Err e => Error e
            | Ok (v2, undo) => Pass (v2, c.2, c.1.(g_pegins), undo)
            end
        end
    end.

(** ** Disconnecting a transaction *)
Fixpoint AccessByTxid (fuel : nat) (v : V) (txid_ : uint256) (n_ : Z) : V * Coin :=
  match fuel with
  | O => (v, empty_coin)
  | S f =>
      let '(v', alternate) := cache_access v (mkOutPoint txid_ n_) in
      if negb (IsSpent alternate) then (v', alternate) else AccessByTxid f v' txid_ (n_ + 1)
  end.

Definition ApplyTxInUndo (undo : Coin) (v : V) (txin : CTxIn) (stack : list bytes) : disconnected V :=
  let o := txin.(prevout) in
  if negb txin.(m_is_pegin) then
    let '(v1, have) := have_coin v o in
    r ← (if undo.(nHeight) =? 0 then
           let '(v2, alternate) := AccessByTxid MAX_OUTPUTS_PER_BLOCK v1 o.(hash) 0 in
           if negb (IsSpent alternate) then Ok (v2, mkCoin undo.(out) alternate.(fCoinBase) alternate.(nHeight))
           else (ensure connect_genesis_outputs "DISCONNECT_FAILED";; Ok (v2, undo))
         else Ok (v1, undo));
    v3 ← cache_add r.1 o r.2 have;
    Ok (v3, negb have)
  else
    let valid_native_drivechain_pegin :=
      match params.(drivechain_slot) with Some _ => is_deposit params stack o | None => false end in
    let valid_pegin := valid_native_drivechain_pegin ||
      match IsValidPeginWitness stack o false (-1) with Pass _ => true | _ => false end in
    if negb valid_pegin then Ok (v, false)
    else
      let key := GetPeginSpentKey params stack o in
      let '(v1, fSpent) := cache_is_pegin_spent v key in
      if negb fSpent then Ok (v1, false) else Ok (cache_set_pegin_spent v1 key false, true).

(** The outputs are removed from the first to the last. *)
Fixpoint remove_outputs (tx : CTransaction) (height_ : Z) (i : nat) (l : list Elements.CTxOut) (v : V) : V * bool :=
  match l with
  | [] => (v, true)
  | o :: l' =>
      if IsUnspendable o.(Elements.scriptPubKey) then remove_outputs tx height_ (S i) l' v
      else
        let '(v1, is_spent, coin_) := cache_take v (mkOutPoint tx.(txid) (Z.of_nat i)) in
        let same := is_spent && TxOutDBEntryIsSame o coin_.(out) && (height_ =? coin_.(nHeight)) &&
                    Bool.eqb (IsCoinBase tx) coin_.(fCoinBase) in
        let '(v2, clean) := remove_outputs tx height_ (S i) l' v1 in
        (v2, same && clean)
  end.

(** The inputs are restored from the last to the first. *)
Fixpoint restore_inputs (tx : CTransaction) (height_ : Z) (i : nat) (l : list (CTxIn * Coin)) (v : V) : disconnected V :=
  match l with
  | [] => Ok (v, true)
  | (input, undo) :: l' =>
      r ← restore_inputs tx height_ (S i) l' v;
      let stack := default [] (tx.(pegin_witness) !! i) in
      v1 ← (if input.(m_is_pegin) && IsEcxDrivechainDepositPeginWitness params stack input.(prevout)
            then DisconnectDepositState params tx i r.1 height_ else Ok r.1);
      r' ← ApplyTxInUndo undo v1 input stack;
      Ok (r'.1, r'.2 && r.2)
  end.

(** One transaction of [DisconnectBlock]; the coinbase has no undo data. *)
Definition disconnect_tx (height_ : Z) (tx : CTransaction) (undo : list Coin) (v : V) : disconnected V :=
  let '(v1, clean) := remove_outputs tx height_ 0 tx.(vout) v in
  if IsCoinBase tx then Ok (v1, clean)
  else
    ensure (len undo =? len tx.(vin)) "DISCONNECT_FAILED";;
    r ← restore_inputs tx height_ 0 (zip tx.(vin) undo) v1;
    Ok (r.1, clean && r.2).

(** The transactions of a block, in order and in reverse order. *)
Fixpoint connect_txs (parent : result uint256) (height_ : Z) (l : list CTransaction) (v : V) (fees : gmap uint256 Z)
    (setPeginsSpent : gset (uint256 * COutPoint)) (fScriptChecks : bool) : verdict (V * list (list Coin)) :=
  match l with
  | [] => Pass (v, [])
  | tx :: l' =>
      r ← connect_tx parent height_ tx v fees setPeginsSpent fScriptChecks;
      let '(v', fees', pegins', undo) := r in
      rest ← connect_txs parent height_ l' v' fees' pegins' fScriptChecks;
      Pass (rest.1, undo :: rest.2)
  end.

Fixpoint disconnect_txs (height_ : Z) (l : list (CTransaction * list Coin)) (v : V) : disconnected V :=
  match l with
  | [] => Ok (v, true)
  | (tx, undo) :: l' =>
      r ← disconnect_txs height_ l' v;
      r' ← disconnect_tx height_ tx undo r.1;
      Ok (r'.1, r.2 && r'.2)
  end.
End mint.
End Mint.
