(* ===== verification/MintFacts.v ===== *)
(** * Facts on claiming deposits

    The effect of every step of connecting and disconnecting a transaction on the
    coins and on the claimed peg-ins of a chainstate, for any cache that keeps its
    laws. *)

From S2P Require Import Prelude ArithUint256 Sha256 Script Transaction Confidential ParentMessage BlockMerkle PartialMerkle ParentBlock Coins SideBlock Bmm BmmFacts Pegin Peg PegFacts Mint.
Import Pegin Peg Mint.

(** ** Verdicts *)
Lemma bind_Pass {A B} (m : verdict A) (f : A -> verdict B) b : m ≫= f = Pass b <-> exists a, m = Pass a /\ f a = Pass b.
Proof. split; [destruct m; [by eauto|done|done]|]. by intros (a & -> & ?). Qed.

Lemma require_Pass b e u : require b e = Pass u <-> b = true.
Proof. by destruct b, u. Qed.

Lemma of_result_Pass {A} (r : result A) a : of_result r = Pass a <-> r = Ok a.
Proof. destruct r; cbn; split; congruence. Qed.

Ltac inv_pass :=
  repeat match goal with
  | H : Pass _ = Pass _ |- _ => injection H as H; try subst
  | H : Invalid _ = Pass _ |- _ => discriminate H
  | H : Error _ = Pass _ |- _ => discriminate H
  | H : mbind ?f ?m = Pass _ |- _ =>
      apply bind_Pass in H; let a := fresh "a" in let H1 := fresh "Hok" in destruct H as (a & H1 & H); cbv beta in H
  | H : require _ _ = Pass _ |- _ => apply require_Pass in H
  | H : of_result _ = Pass _ |- _ => apply of_result_Pass in H
  | u : unit |- _ => destruct u
  end.

(** ** Membership *)
Lemma decide_cons {A B} `{EqDecision A} (x a : A) (l : list A) (p q : B) :
  (if decide (x ∈ l) then p else if decide (x = a) then p else q) = if decide (x ∈ a :: l) then p else q.
Proof.
  destruct (decide (x ∈ a :: l)) as [[->|Hin]%elem_of_cons|Hn].
  - rewrite (decide_True _ _ (eq_refl a)). by case_decide.
  - by rewrite decide_True.
  - rewrite not_elem_of_cons in Hn. destruct Hn. by rewrite !decide_False.
Qed.

(** ** Witnesses *)
Lemma native_is_deposit params stack o f : IsDrivechainDepositPeginWitness params true stack o = Some f ->
  is_deposit params stack o = true /\ len stack = 8.
Proof.
  unfold is_deposit, IsDrivechainDepositPeginWitness. destruct (_ || _ : bool) eqn:E; [discriminate|].
  intros H. rewrite H. split; [done|]. destruct (negb (len stack =? 8)) eqn:E8; [discriminate|].
  by apply negb_false_iff, Z.eqb_eq in E8.
Qed.

Lemma native_flag params stack o : len stack = 8 ->
  IsDrivechainDepositPeginWitness params true stack o = IsDrivechainDepositPeginWitness params false stack o.
Proof. intros H. unfold IsDrivechainDepositPeginWitness. by rewrite H. Qed.

Lemma ecx_is_deposit params stack o : IsEcxDrivechainDepositPeginWitness params stack o = true ->
  is_deposit params stack o = true /\ len stack <> 8 /\ is_ecx_format stack = true.
Proof.
  unfold IsEcxDrivechainDepositPeginWitness. destruct (GetDrivechainDepositPeginData params stack o) as [[[x c] id]|] eqn:E; [|discriminate].
  intros _. destruct (PeginData_inv _ _ _ _ _ _ E) as (_ & _ & Hd & Hl). split_and!; [done..|].
  unfold GetDrivechainDepositPeginData in E. destruct (_ && _ : bool) eqn:Hn in E; [discriminate|]. unfold is_ecx_format.
  apply andb_false_iff in Hn as [Hn|Hn]; apply negb_false_iff in Hn; apply orb_true_iff.
  - left. by apply andb_true_iff in Hn as [Hn _].
  - right. done.
Qed.

Lemma deposit_not_native params stack o : is_deposit params stack o = true -> len stack <> 8 ->
  IsEcxDrivechainDepositPeginWitness params stack o = true.
Proof.
  unfold is_deposit, IsDrivechainDepositPeginWitness, IsEcxDrivechainDepositPeginWitness. intros H Hl.
  destruct (_ || _ : bool); [by destruct (GetDrivechainDepositPeginData params stack o) as [[[]]|]|].
  by rewrite (proj2 (Z.eqb_neq _ _) Hl) in H.
Qed.

Lemma deposit_key params stack o : is_deposit params stack o = true -> GetPeginSpentKey params stack o = (o.(hash), o).
Proof. unfold GetPeginSpentKey. by intros ->. Qed.

(** ** Views *)
Section views.
Context {V : Type} `{!CoinsCache V, !CoinsCacheLaws V, !PeginCache V, !PeginCacheLaws V}.

(** A view with the same coins and peg-ins. *)
Record same (v v' : V) : Prop := {
  same_inv : cache_inv v';
  same_coin : forall o, cache_coin v' o = cache_coin v o;
  same_pegin : forall k, k.1 <> 0 -> cache_pegin v' k = cache_pegin v k }.

Lemma same_refl v : cache_inv v -> same v v.
Proof. by split. Qed.

Lemma same_trans v1 v2 v3 : same v1 v2 -> same v2 v3 -> same v1 v3.
Proof.
  intros [_ C1 P1] [I2 C2 P2]. split; [done|intros o; by rewrite C2, C1|]. intros k Hk. by rewrite P2, P1.
Qed.

Lemma get_same v o : cache_inv v -> same v (cache_get v o).1 /\ (cache_get v o).2 = cache_coin v o.
Proof.
  intros Hv. pose proof (cache_get_law v o Hv) as L. pose proof (fun k => cache_get_pegin v o k Hv) as P.
  destruct (cache_get v o) as [v' r]. destruct L as (L1 & L2 & L3). by split.
Qed.

Lemma access_same v o : cache_inv v -> same v (cache_access v o).1 /\ live (cache_access v o).2 = cache_coin v o.
Proof.
  intros Hv. pose proof (cache_access_law v o Hv) as L. pose proof (fun k => cache_access_pegin v o k Hv) as P.
  destruct (cache_access v o) as [v' r]. destruct L as (L1 & L2 & L3). by split.
Qed.

Lemma is_pegin_same v k : cache_inv v -> k.1 <> 0 ->
  same v (cache_is_pegin_spent v k).1 /\ (cache_is_pegin_spent v k).2 = cache_pegin v k.
Proof.
  intros Hv Hk. pose proof (cache_is_pegin_law v k Hv Hk) as L. destruct (cache_is_pegin_spent v k) as [v' r].
  destruct L as (L1 & L2 & L3 & L4). by split.
Qed.

Lemma have_coin_same v o : cache_inv v ->
  same v (have_coin v o).1 /\ (have_coin v o).2 = bool_decide (is_Some (cache_coin v o)).
Proof.
  intros Hv. destruct (get_same v o Hv) as [S E]. unfold have_coin. destruct (cache_get v o) as [v' r]. cbn in *. by subst r.
Qed.

Lemma have_inputs_same l : forall v, cache_inv v -> same v (have_inputs v l).1 /\
  ((have_inputs v l).2 = true -> forall i, i ∈ l -> i.(m_is_pegin) = false -> is_Some (cache_coin v i.(prevout))).
Proof.
  induction l as [|x l IH]; intros v Hv; cbn [have_inputs].
  { split; [by apply same_refl|]. intros _ i Hi. by apply elem_of_nil in Hi. }
  destruct (m_is_pegin x) eqn:Ex.
  - destruct (IH v Hv) as [S H]. split; [done|]. intros Hb i [->|Hi]%elem_of_cons Hp; [congruence|by apply H].
  - destruct (have_coin_same v (prevout x) Hv) as [S E]. destruct (have_coin v (prevout x)) as [v' b]. cbn [fst snd] in *.
    destruct b; [|done]. symmetry in E. apply bool_decide_eq_true in E. destruct (IH v' (same_inv _ _ S)) as [S' H].
    split; [by eapply same_trans|]. intros Hb i [->|Hi]%elem_of_cons Hp; [done|]. rewrite <- (same_coin _ _ S). by apply H.
Qed.

Lemma HaveInputs_same v tx : cache_inv v -> IsCoinBase tx = false -> same v (HaveInputs v tx).1 /\
  ((HaveInputs v tx).2 = true -> forall i, i ∈ tx.(vin) -> i.(m_is_pegin) = false -> is_Some (cache_coin v i.(prevout))).
Proof. intros Hv Hc. unfold HaveInputs. rewrite Hc. by apply have_inputs_same. Qed.

Section peg.
Context {Dest : DestinationEnv} (params : peg_params) (Hasset : uint256_ok params.(pegged_asset)).

Lemma GetCtipState_same v : cache_inv v -> exists v', GetCtipState params v = (v', held params v) /\ same v v'.
Proof.
  intros Hv. destruct (GetCtipState_held params v Hv) as (v' & E & Ev & _). exists v'. split; [done|]. subst v'.
  by apply access_same.
Qed.

Lemma VerifyDeterministicDeposit_same tx i v : cache_inv v -> same v (VerifyDeterministicDeposit params tx i v).1.
Proof.
  intros Hv. unfold VerifyDeterministicDeposit. destruct (GetCtipState_same v Hv) as (v' & E & S). rewrite E.
  destruct (FindLegacyCheckpoint tx i); [done|]. destruct (is_legacy_input tx i); [by apply same_refl|].
  destruct (ParseV2Deposit params tx i); [done|by apply same_refl].
Qed.

(** A chainstate whose treasury output is replaced. *)
Lemma SetCtipState_step v s h : cache_inv v -> ctip_ok s ->
  exists v', SetCtipState params v s h = Ok v' /\ cache_inv v' /\ held params v' = Ok (Some s) /\
    (forall o, o <> CTIP_STATE_OUTPOINT -> cache_coin v' o = cache_coin v o) /\
    (forall k, k.1 <> 0 -> cache_pegin v' k = cache_pegin v k).
Proof.
  intros Hv Hs. destruct (SetCtipState_held params Hasset v s h Hv Hs) as (v' & E & Hv' & Hh & _ & Hc). exists v'.
  split_and!; [done..|]. intros k Hk. unfold SetCtipState in E. pose proof (cache_spend_law v CTIP_STATE_OUTPOINT Hv) as L.
  pose proof (cache_spend_pegin v CTIP_STATE_OUTPOINT k Hv Hk) as P.
  destruct (cache_spend v CTIP_STATE_OUTPOINT) as [v1 b]. destruct L as (Hv1 & _). cbn [fst] in P.
  rewrite <- P. eapply cache_add_pegin; [exact Hv1| |left; reflexivity|exact E|exact Hk]. apply (ctip_coin_unspent params s h).
Qed.

(** What a successful verification of a deposit saw. *)
Lemma VerifyDeterministicDeposit_inv tx i v : cache_inv v -> (VerifyDeterministicDeposit params tx i v).2 = Ok tt ->
  (exists c a, FindLegacyCheckpoint tx i = Some c /\ held params v = Ok None /\ BuildLegacyAuthenticated params tx i c = Ok a /\
     VerifyDepositTransaction params tx i a = Ok tt) \/
  (exists parsed, FindLegacyCheckpoint tx i = None /\ is_legacy_input tx i = false /\ ParseV2Deposit params tx i = Ok parsed /\
     held params v = Ok (Some parsed.(previous_state)) /\ VerifyDepositTransaction params tx i parsed.(authenticated) = Ok tt).
Proof.
  intros Hv H. unfold VerifyDeterministicDeposit in H. destruct (GetCtipState_same v Hv) as (v' & E & _). rewrite E in H.
  destruct (FindLegacyCheckpoint tx i) as [c|].
  - left. cbn [snd] in H. apply bind_Ok in H as ([s|] & Hh & H); [discriminate|]. apply bind_Ok in H as (a & Ha & H).
    exists c, a. by split_and!.
  - right. destruct (is_legacy_input tx i); [discriminate|]. destruct (ParseV2Deposit params tx i) as [parsed|]; [|discriminate].
    cbn [snd] in H. apply bind_Ok in H as ([s|] & Hh & H); [|discriminate]. apply bind_Ok in H as ([] & Hs & H).
    apply ensure_Ok, bool_decide_eq_true in Hs. subst s. exists parsed. by split_and!.
Qed.

Lemma VerifyDepositTransaction_single tx i a : VerifyDepositTransaction params tx i a = Ok tt ->
  i = 0%nat /\ exists input stack, tx.(vin) = [input] /\ tx.(pegin_witness) = [stack] /\ input.(m_is_pegin) = true.
Proof.
  unfold VerifyDepositTransaction. destruct (vin tx) as [|input [|]]; [done| |done]. destruct i; [|done].
  destruct (pegin_witness tx) as [|stack [|]]; [done| |done]. intros H. apply bind_Ok in H as ([] & H & _).
  apply ensure_Ok in H. rewrite !andb_true_iff in H. split; [done|]. exists input, stack. by split_and!; try apply H.
Qed.
End peg.
End views.

(** ** The checks of the inputs *)
Section checks.
Context {Dest : DestinationEnv} (params : peg_params).
Context (deposit_status : uint256 -> Z -> COutPoint -> Z -> bytes -> Z -> DrivechainDepositStatus).
Context (federated : list bytes -> COutPoint -> bool -> bool).
Context (VerifyAmounts : list Elements.CTxOut -> CTransaction -> bool).
Context {V : Type} `{!CoinsCache V, !CoinsCacheLaws V, !PeginCache V, !PeginCacheLaws V}.

(** The keys that the peg-in inputs of a transaction claim, with the inputs numbered from [i]. *)
Fixpoint claims (tx : CTransaction) (i : nat) (l : list CTxIn) : list (uint256 * COutPoint) :=
  match l with
  | [] => []
  | input :: l' =>
      (if input.(m_is_pegin) then
         match tx.(pegin_witness) !! i with Some stack => [GetPeginSpentKey params stack input.(prevout)] | None => [] end
       else []) ++ claims tx (S i) l'
  end.

Definition claims_ok (tx : CTransaction) : Prop := Forall (fun k => k.1 <> 0) (claims tx 0 tx.(vin)).

(** A claim that was checked over a view. *)
Definition claim_checked (tx : CTransaction) (h : Z) (v : V) (j : nat) (input : CTxIn) (stack : list bytes) : Prop :=
  IsValidPeginWitness params deposit_status federated stack input.(prevout) true h = Pass tt /\
  (is_deposit params stack input.(prevout) = true ->
   if len stack =? 8 then CheckDrivechainDepositOutputs params tx j = Ok tt
   else exists v', same v v' /\ (VerifyDeterministicDeposit params tx j v').2 = Ok tt).

Lemma claim_checked_same tx h v v' j input stack : same v v' -> claim_checked tx h v' j input stack ->
  claim_checked tx h v j input stack.
Proof.
  intros S [H1 H2]. split; [done|]. intros Hd. specialize (H2 Hd). destruct (len stack =? 8); [done|].
  destruct H2 as (v2 & S2 & H2). exists v2. split; [by eapply same_trans|done].
Qed.

Lemma check_pegin_spec tx h i input g g' : cache_inv g.(g_view) ->
  check_pegin params deposit_status federated tx h i input g = Pass g' ->
  (forall stack, tx.(pegin_witness) !! i = Some stack -> (GetPeginSpentKey params stack input.(prevout)).1 <> 0) ->
  exists stack o, tx.(pegin_witness) !! i = Some stack /\ claim_checked tx h g.(g_view) i input stack /\
    same g.(g_view) g'.(g_view) /\ cache_pegin g.(g_view) (GetPeginSpentKey params stack input.(prevout)) = false /\
    ~ (GetPeginSpentKey params stack input.(prevout) ∈ g.(g_pegins)) /\
    g'.(g_pegins) = {[GetPeginSpentKey params stack input.(prevout)]} ∪ g.(g_pegins) /\
    GetPeginOutputFromWitness stack = Ok o /\ g'.(g_spent) = g.(g_spent) ++ [o].
Proof.
  intros Hv H Hk. unfold check_pegin in H. destruct (pegin_witness tx !! i) as [stack|] eqn:Ew; [|discriminate].
  specialize (Hk stack eq_refl). apply bind_Pass in H as ([] & Hval & H). apply bind_Pass in H as (v1 & H1 & H).
  assert (Hc : claim_checked tx h (g_view g) i input stack /\ same (g_view g) v1).
  { unfold claim_checked. destruct (is_deposit params stack (prevout input)); [|split; [done|injection H1 as <-; by apply same_refl]].
    destruct (len stack =? 8).
    - destruct (CheckDrivechainDepositOutputs params tx i) as [[]|]; [|discriminate]. injection H1 as <-.
      split; [done|by apply same_refl].
    - pose proof (VerifyDeterministicDeposit_same params tx i (g_view g) Hv) as S.
      destruct (VerifyDeterministicDeposit params tx i (g_view g)) as [v' [[]|]] eqn:E; [|discriminate]. injection H1 as <-.
      split; [|done]. split; [done|]. intros _. exists (g_view g). split; [by apply same_refl|]. by rewrite E. }
  destruct Hc as [Hc S1]. destruct (is_pegin_same v1 _ (same_inv _ _ S1) Hk) as [S2 E2].
  destruct (cache_is_pegin_spent v1 _) as [v2 b]. cbn [fst snd] in *. apply bind_Pass in H as ([] & Hb & H).
  apply require_Pass, negb_true_iff in Hb. apply bind_Pass in H as ([] & Hin & H). apply require_Pass, bool_decide_eq_true in Hin.
  destruct (GetPeginOutputFromWitness stack) as [o|] eqn:Eo; [|discriminate]. apply bind_Pass in H as (o' & Ho & H).
  injection Ho as <-. apply bind_Pass in H as ([] & _ & H). injection H as <-.
  exists stack, o. cbn [g_view g_pegins g_spent]. split_and!; try done; [by eapply same_trans|].
  by rewrite <- (same_pegin _ _ S1), <- E2.
Qed.

Lemma check_inputs_spec tx h l : forall i g g', cache_inv g.(g_view) ->
  Forall (fun k => k.1 <> 0) (claims tx i l) ->
  check_inputs params deposit_status federated tx h i l g = Pass g' ->
  same g.(g_view) g'.(g_view) /\ NoDup (claims tx i l) /\
  (forall k, k ∈ claims tx i l -> cache_pegin g.(g_view) k = false /\ k ∉ g.(g_pegins)) /\
  g'.(g_pegins) = list_to_set (claims tx i l) ∪ g.(g_pegins) /\
  forall j input, l !! j = Some input -> input.(m_is_pegin) = true ->
    exists stack, tx.(pegin_witness) !! ((i + j)%nat) = Some stack /\ claim_checked tx h g.(g_view) (i + j) input stack.
Proof.
  induction l as [|x l IH]; intros i g g' Hv Hk H; cbn [check_inputs claims] in *.
  { injection H as <-. cbn [list_to_set]. split_and!; [by apply same_refl|constructor| |by rewrite (left_id_L ∅ (∪))|done].
    intros k Hin. by apply elem_of_nil in Hin. }
  apply Forall_app in Hk as [Hk1 Hk2]. apply bind_Pass in H as (g1 & H1 & H). destruct (m_is_pegin x) eqn:Ex.
  - apply check_pegin_spec in H1 as (stack & o & Ew & Hc & S1 & P1 & N1 & G1 & _); [|done|].
    2:{ intros stack E. rewrite E in Hk1. by apply list.Forall_cons_1 in Hk1 as [Hk1 _]. }
    rewrite Ew in *. destruct (IH _ _ _ (same_inv _ _ S1) Hk2 H) as (S2 & N2 & F2 & G2 & C2).
    apply list.Forall_cons_1 in Hk1 as [Hk1 _]. split_and!.
    + by eapply same_trans.
    + cbn [app]. constructor; [|done]. intros Hin. destruct (F2 _ Hin) as [_ F]. apply F. rewrite G1. by apply elem_of_union_l, elem_of_singleton.
    + cbn [app]. intros k [->|Hin]%elem_of_cons; [done|]. destruct (F2 _ Hin) as [F3 F4]. rewrite G1, not_elem_of_union in F4.
      rewrite <- (same_pegin _ _ S1) by exact (proj1 (list.Forall_forall _ _) Hk2 k Hin). split; [done|apply F4].
    + rewrite G2, G1. cbn [app list_to_set]. rewrite (assoc_L (∪)), (comm_L (∪) _ {[_]}). done.
    + intros [|j] input Hj Hp.
      * injection Hj as <-. rewrite Nat.add_0_r. by exists stack.
      * cbn in Hj. destruct (C2 j input Hj Hp) as (st & Es & Hs). rewrite <- Nat.add_succ_comm. exists st. split; [done|].
        by eapply claim_checked_same.
  - unfold check_coin in H1. destruct (access_same (g_view g) (prevout x) Hv) as [S1 _].
    destruct (cache_access (g_view g) (prevout x)) as [v' c]. destruct (IsSpent c); [discriminate|].
    apply bind_Pass in H1 as ([] & _ & H1). injection H1 as <-. cbn [fst g_view g_pegins] in *.
    destruct (IH (S i) (mkProgress v' (g_pegins g) (g_spent g ++ [out c])) g' (same_inv _ _ S1) Hk2 H) as (S2 & N2 & F2 & G2 & C2).
    cbn [g_view g_pegins app] in *. split_and!.
    + by eapply same_trans.
    + done.
    + intros k Hin. destruct (F2 _ Hin) as [F3 F4].
      by rewrite <- (same_pegin _ _ S1) by exact (proj1 (list.Forall_forall _ _) Hk2 k Hin).
    + done.
    + intros [|j] input Hj Hp; [injection Hj as <-; congruence|].
      cbn in Hj. destruct (C2 j input Hj Hp) as (st & Es & Hs). rewrite <- Nat.add_succ_comm. exists st. split; [done|].
      by eapply claim_checked_same.
Qed.
End checks.

(** ** The effect on the coins *)
Section effects.
Context {Dest : DestinationEnv} (params : peg_params).
Context {V : Type} `{!CoinsCache V, !CoinsCacheLaws V, !PeginCache V, !PeginCacheLaws V}.

(** The coins that the inputs spend. *)
Fixpoint spends (l : list CTxIn) : list COutPoint :=
  match l with [] => [] | i :: l' => (if i.(m_is_pegin) then [] else [i.(prevout)]) ++ spends l' end.

Lemma elem_of_spends l i : i ∈ l -> i.(m_is_pegin) = false -> i.(prevout) ∈ spends l.
Proof.
  induction l as [|x l IH]; intros [->|Hi]%elem_of_cons Hp || intros Hi Hp; [by apply elem_of_nil in Hi| |]; cbn [spends].
  - rewrite Hp. by left.
  - apply elem_of_app. right. by apply IH.
Qed.

Definition restores (v0 : V) (input : CTxIn) (x : Coin) : Prop :=
  input.(m_is_pegin) = false -> cache_coin v0 input.(prevout) = Some x /\ IsSpent x = false.

Lemma spend_inputs_spec tx l : forall i v undo0 v' undo, cache_inv v -> NoDup (spends l) ->
  Forall (fun k => k.1 <> 0) (claims params tx i l) ->
  (forall input, input ∈ l -> input.(m_is_pegin) = false -> is_Some (cache_coin v input.(prevout))) ->
  spend_inputs params tx i l v undo0 = Ok (v', undo) ->
  exists coins, undo = undo0 ++ coins /\ cache_inv v' /\ Forall2 (restores v) l coins /\
    (forall o, cache_coin v' o = if decide (o ∈ spends l) then None else cache_coin v o) /\
    (forall k, k.1 <> 0 -> cache_pegin v' k = if decide (k ∈ claims params tx i l) then true else cache_pegin v k).
Proof.
  induction l as [|x l IH]; intros i v undo0 v' undo Hv Hn Hk Hc H; cbn [spend_inputs spends claims] in *.
  { injection H as <- <-. exists []. rewrite app_nil_r. by split_and!. }
  apply list.NoDup_app in Hn as (_ & Hd & Hn). apply Forall_app in Hk as [Hk1 Hk2]. destruct (m_is_pegin x) eqn:Ex.
  - destruct (pegin_witness tx !! i) as [stack|]; [|discriminate]. apply list.Forall_cons_1 in Hk1 as [Hk1 _].
    pose proof (cache_set_pegin_law v _ true Hv Hk1) as (L1 & L2 & L3). set (v1 := cache_set_pegin_spent v _ true) in *.
    destruct (IH (S i) v1 (undo0 ++ [empty_coin]) v' undo) as (coins & -> & Hv' & HF & C & P); try done.
    { intros input Hin Hp. rewrite L2. apply Hc; [by right|done]. }
    exists (empty_coin :: coins). rewrite <- app_assoc. split_and!; try done.
    + constructor; [by intros ?; congruence|]. eapply list.Forall2_impl; [exact HF|]. intros a b Hr Hp. specialize (Hr Hp). by rewrite L2 in Hr.
    + intros o. rewrite C, L2. done.
    + intros k Hkk. rewrite P, L3 by done. cbn [app]. apply decide_cons.
  - destruct (Hc x ltac:(by left) Ex) as [c Hx]. pose proof (cache_take_law v (prevout x) Hv) as L.
    destruct (cache_take v (prevout x)) as [[v1 b] moved]. destruct L as (L1 & L2 & L3 & L4 & L5).
    apply bind_Ok in H as ([] & Hb & H). apply ensure_Ok in Hb. specialize (L5 Hb). rewrite Hx in L5.
    assert (moved = c /\ IsSpent c = false) as [-> Hs].
    { unfold live in L5. destruct (IsSpent moved) eqn:E; [discriminate|]. injection L5 as ->. done. }
    assert (Hx' : prevout x ∉ spends l) by (apply Hd; cbn; by left).
    destruct (IH (S i) v1 (undo0 ++ [c]) v' undo) as (coins & -> & Hv' & HF & C & P); try done.
    { intros input Hin Hp. rewrite L2. case_decide as Hq; [|apply Hc; [by right|done]].
      destruct Hx'. rewrite <- Hq. by apply elem_of_spends. }
    exists (c :: coins). rewrite <- app_assoc. cbn [app]. split_and!; try done.
    + constructor; [by intros _|]. eapply list.Forall2_impl; [exact HF|]. intros a b' Hr Hp. specialize (Hr Hp). rewrite L2 in Hr.
      by case_decide; [destruct Hr|].
    + intros o. rewrite C, L2. apply decide_cons.
    + intros k Hkk. by rewrite P, L3.
Qed.

(** The coins that the outputs create, with the outputs numbered from [i]. *)
Fixpoint created (tx : CTransaction) (h : Z) (i : nat) (l : list Elements.CTxOut) (o : COutPoint) : option Coin :=
  match l with
  | [] => None
  | x :: l' =>
      if decide (o = mkOutPoint tx.(txid) (Z.of_nat i)) then
        if IsUnspendable x.(Elements.scriptPubKey) then None else Some (mkCoin x (IsCoinBase tx) h)
      else created tx h (S i) l' o
  end.

Lemma created_later tx h l : forall i j o, o = mkOutPoint tx.(txid) (Z.of_nat j) -> (j < i)%nat -> created tx h i l o = None.
Proof.
  induction l as [|x l IH]; intros i j o -> Hj; cbn [created]; [done|]. rewrite decide_False by (intros [= ?]; lia).
  eapply IH; [done|lia].
Qed.

Lemma created_txid tx h l : forall i o c, created tx h i l o = Some c -> o.(hash) = tx.(txid).
Proof.
  induction l as [|x l IH]; intros i o c H; cbn [created] in H; [done|]. case_decide as Ho; [by rewrite Ho|by eapply IH].
Qed.

Definition outputs_ok (l : list Elements.CTxOut) : Prop := Forall (fun o => forall cb h, IsSpent (mkCoin o cb h) = false) l.

Lemma add_outputs_spec tx h l : forall i v, cache_inv v -> outputs_ok l ->
  (forall j, (i <= j)%nat -> cache_coin v (mkOutPoint tx.(txid) (Z.of_nat j)) = None) ->
  exists v', add_outputs tx h i l v = Ok v' /\ cache_inv v' /\
    (forall o, cache_coin v' o = match created tx h i l o with Some c => Some c | None => cache_coin v o end) /\
    (forall k, k.1 <> 0 -> cache_pegin v' k = cache_pegin v k).
Proof.
  induction l as [|x l IH]; intros i v Hv Hok Hf; cbn [add_outputs created]; [by exists v|].
  apply list.Forall_cons_1 in Hok as [Hx Hok]. specialize (Hx (IsCoinBase tx) h).
  destruct (IsUnspendable (Elements.scriptPubKey x)) eqn:Hu.
  - rewrite cache_add_unspendable by done. destruct (IH (S i) v Hv Hok) as (v' & E & Hv' & C & P); [intros; apply Hf; lia|].
    exists v'. split_and!; [done..| |done]. intros o. rewrite C. case_decide as Ho; [|done]. by rewrite (created_later _ _ _ _ i) by (done || lia).
  - destruct (cache_add_law v (mkOutPoint (txid tx) (Z.of_nat i)) (mkCoin x (IsCoinBase tx) h) (IsCoinBase tx) Hv Hx Hu)
      as (v1 & E1 & Hv1 & C1); [right; by apply Hf|].
    pose proof (fun k => cache_add_pegin v _ _ _ v1 k Hv Hx (or_intror (Hf i (le_n i))) E1) as P1. rewrite E1.
    destruct (IH (S i) v1 Hv1 Hok) as (v' & E & Hv' & C & P).
    { intros j Hj. rewrite C1, decide_False by (intros [= ?]; lia). apply Hf. lia. }
    exists v'. split_and!; [done..| |]; [|intros k Hk; by rewrite P, P1].
    intros o. rewrite C, C1. case_decide as Ho; [|done]. by rewrite (created_later _ _ _ _ i) by (done || lia).
Qed.

Lemma remove_outputs_spec tx h l : forall i v, cache_inv v ->
  (forall o c, created tx h i l o = Some c -> cache_coin v o = Some c) ->
  let '(v', clean) := remove_outputs tx h i l v in
  clean = true /\ cache_inv v' /\
  (forall o, cache_coin v' o = match created tx h i l o with Some _ => None | None => cache_coin v o end) /\
  (forall k, k.1 <> 0 -> cache_pegin v' k = cache_pegin v k).
Proof.
  induction l as [|x l IH]; intros i v Hv Hc; cbn [remove_outputs created] in *; [done|].
  assert (Hlater : forall o c, created tx h (S i) l o = Some c -> o <> mkOutPoint (txid tx) (Z.of_nat i)).
  { intros o c Ho ->. by rewrite (created_later _ _ _ _ i) in Ho by (done || lia). }
  destruct (IsUnspendable (Elements.scriptPubKey x)) eqn:Hu.
  - specialize (IH (S i) v Hv). destruct (remove_outputs tx h (S i) l v) as [v' clean]. destruct IH as (E & Hv' & C & P).
    { intros o c Ho. apply Hc. rewrite decide_False; [done|by eapply Hlater]. }
    split_and!; try done. intros o. rewrite C. case_decide as Ho; [|done]. by rewrite (created_later _ _ _ _ i) by (done || lia).
  - assert (Hx : cache_coin v (mkOutPoint (txid tx) (Z.of_nat i)) = Some (mkCoin x (IsCoinBase tx) h)).
    { apply Hc. by rewrite decide_True. }
    pose proof (cache_take_law v (mkOutPoint (txid tx) (Z.of_nat i)) Hv) as L.
    destruct (cache_take v _) as [[v1 b] moved]. destruct L as (L1 & L2 & L3 & L4 & L5). specialize (L4 ltac:(by rewrite Hx)). subst b.
    specialize (L5 eq_refl). rewrite Hx in L5. assert (moved = mkCoin x (IsCoinBase tx) h) as ->.
    { unfold live in L5. destruct (IsSpent moved); [discriminate|]. by injection L5. }
    specialize (IH (S i) v1 L1). destruct (remove_outputs tx h (S i) l v1) as [v2 clean]. destruct IH as (-> & Hv2 & C & P).
    { intros o c Ho. rewrite L2, decide_False by (by eapply Hlater). apply Hc. rewrite decide_False; [done|by eapply Hlater]. }
    split_and!; try done.
    + cbn. unfold TxOutDBEntryIsSame. by rewrite !bytes_eqb_refl, Z.eqb_refl, eqb_reflx.
    + intros o. rewrite C, L2. case_decide as Ho; [|done]. by rewrite (created_later _ _ _ _ i) by (done || lia).
    + intros k Hk. by rewrite P, L3.
Qed.

(** ** Undoing the inputs *)
Context (deposit_status : uint256 -> Z -> COutPoint -> Z -> bytes -> Z -> DrivechainDepositStatus).
Context (federated : list bytes -> COutPoint -> bool -> bool).
Context (connect_genesis_outputs : bool) (MAX_OUTPUTS_PER_BLOCK : nat).
Lemma undo_coin v input x stack : cache_inv v -> input.(m_is_pegin) = false -> cache_coin v input.(prevout) = None ->
  IsSpent x = false -> IsUnspendable x.(out).(Elements.scriptPubKey) = false -> x.(nHeight) <> 0 ->
  exists v', ApplyTxInUndo params deposit_status federated connect_genesis_outputs MAX_OUTPUTS_PER_BLOCK x v input stack = Ok (v', true) /\
    cache_inv v' /\ (forall o, cache_coin v' o = if decide (o = input.(prevout)) then Some x else cache_coin v o) /\
    (forall k, k.1 <> 0 -> cache_pegin v' k = cache_pegin v k).
Proof.
  intros Hv Hp Hn Hs Hu Hh. unfold ApplyTxInUndo. rewrite Hp. cbn [negb].
  destruct (have_coin_same v (prevout input) Hv) as [S E]. destruct (have_coin v (prevout input)) as [v1 b]. cbn [fst snd] in *.
  rewrite Hn in E. cbn in E. subst b. rewrite (proj2 (Z.eqb_neq _ _) Hh).
  assert (Hn1 : cache_coin v1 (prevout input) = None) by (by rewrite (same_coin _ _ S)).
  destruct (cache_add_law v1 (prevout input) x false (same_inv _ _ S) Hs Hu (or_intror Hn1)) as (v' & Ea & Hv' & C).
  pose proof (fun k => cache_add_pegin v1 (prevout input) x false v' k (same_inv _ _ S) Hs (or_intror Hn1) Ea) as P. exists v'. cbn [mbind result_bind fst snd].
  rewrite Ea. split_and!; [done..| |].
  - intros o. rewrite C. by case_decide; [|apply same_coin].
  - intros k Hk. rewrite (P k Hk). by apply same_pegin.
Qed.

(** The witness of a claim is still recognised when it is undone, without asking the parent chain. *)
Definition undo_valid (stack : list bytes) (o : COutPoint) : bool :=
  match params.(drivechain_slot) with Some _ => is_deposit params stack o | None => false end ||
  match IsValidPeginWitness params deposit_status federated stack o false (-1) with Pass _ => true | _ => false end.

Lemma undo_pegin v input x stack : cache_inv v -> input.(m_is_pegin) = true -> undo_valid stack input.(prevout) = true ->
  (GetPeginSpentKey params stack input.(prevout)).1 <> 0 -> cache_pegin v (GetPeginSpentKey params stack input.(prevout)) = true ->
  exists v', ApplyTxInUndo params deposit_status federated connect_genesis_outputs MAX_OUTPUTS_PER_BLOCK x v input stack = Ok (v', true) /\
    cache_inv v' /\ (forall o, cache_coin v' o = cache_coin v o) /\
    (forall k, k.1 <> 0 -> cache_pegin v' k = if decide (k = GetPeginSpentKey params stack input.(prevout)) then false else cache_pegin v k).
Proof.
  intros Hv Hp Hval Hk Ht. unfold ApplyTxInUndo. rewrite Hp. cbn [negb]. fold (undo_valid stack (prevout input)). rewrite Hval.
  cbn [negb]. destruct (is_pegin_same v _ Hv Hk) as [S E]. destruct (cache_is_pegin_spent v _) as [v1 b]. cbn [fst snd] in *.
  rewrite E, Ht. cbn [negb]. pose proof (cache_set_pegin_law v1 _ false (same_inv _ _ S) Hk) as (L1 & L2 & L3).
  eexists. split; [reflexivity|]. split_and!; [done| |].
  - intros o. rewrite L2. by apply same_coin.
  - intros k Hkk. rewrite L3 by done. case_decide; [done|]. by apply same_pegin.
Qed.

Lemma valid_undo stack o h : IsValidPeginWitness params deposit_status federated stack o true h = Pass tt ->
  (forall s o', federated s o' true = true -> federated s o' false = true) -> undo_valid stack o = true.
Proof.
  intros H Hf. unfold undo_valid, IsValidPeginWitness in *. destruct (is_ecx_format stack).
  - destruct (drivechain_slot params) as [s|]; [discriminate|]. unfold IsValidEcxPeginWitness in *. inv_pass.
    rewrite Hok. cbn [require mbind verdict_bind]. rewrite Hok0. cbn [of_result mbind verdict_bind].
    destruct (_ || _ : bool); inv_pass; [rewrite Hok1, Hok2, H; done|]. rewrite (Hf _ _ H). done.
  - inv_pass. destruct ((5 <=? len stack) && _) eqn:Ed.
    + destruct (drivechain_slot params) as [s|]; [|discriminate].
      destruct (IsDrivechainDepositPeginWitness params true stack o) as [f|] eqn:E; [|discriminate].
      by rewrite (proj1 (native_is_deposit _ _ _ _ E)).
    + destruct (drivechain_slot params) as [s|]; [discriminate|]. inv_pass. rewrite Hok, Hok0. cbn [require mbind verdict_bind of_result].
      by rewrite (Hf _ _ H).
Qed.

(** What disconnecting needs to know of the coins that were spent. *)
Definition restorable (v0 : V) (l : list CTxIn) : Prop :=
  forall input x, input ∈ l -> input.(m_is_pegin) = false -> input.(prevout) <> CTIP_STATE_OUTPOINT ->
    cache_coin v0 input.(prevout) = Some x -> IsUnspendable x.(out).(Elements.scriptPubKey) = false /\ x.(nHeight) <> 0.

Lemma restore_inputs_spec tx h v0 l : forall coins i v, cache_inv v -> NoDup (spends l) -> NoDup (claims params tx i l) ->
  Forall (fun k => k.1 <> 0) (claims params tx i l) -> Forall2 (restores v0) l coins -> restorable v0 l -> ~ (CTIP_STATE_OUTPOINT ∈ spends l) ->
  (forall o, o ∈ spends l -> cache_coin v o = None) -> (forall k, k ∈ claims params tx i l -> cache_pegin v k = true) ->
  (forall j input, l !! j = Some input -> input.(m_is_pegin) = true -> exists stack, tx.(pegin_witness) !! ((i + j)%nat) = Some stack /\
     undo_valid stack input.(prevout) = true /\ IsEcxDrivechainDepositPeginWitness params stack input.(prevout) = false) ->
  exists v', restore_inputs params deposit_status federated connect_genesis_outputs MAX_OUTPUTS_PER_BLOCK tx h i (zip l coins) v = Ok (v', true) /\
    cache_inv v' /\ (forall o, cache_coin v' o = if decide (o ∈ spends l) then cache_coin v0 o else cache_coin v o) /\
    (forall k, k.1 <> 0 -> cache_pegin v' k = if decide (k ∈ claims params tx i l) then false else cache_pegin v k).
Proof.
  induction l as [|x l IH]; intros coins i v Hv Hn Hnc Hk HF Hr Hct Hs Hp Hw.
  { apply Forall2_nil_inv_l in HF as ->. exists v. by split_and!. }
  apply Forall2_cons_inv_l in HF as (c & coins' & Hx & HF & ->). cbn [spends claims zip zip_with restore_inputs] in *.
  apply list.NoDup_app in Hn as (_ & Hd & Hn). apply list.NoDup_app in Hnc as (_ & Hdc & Hnc). apply Forall_app in Hk as [Hk1 Hk2].
  destruct (IH coins' (S i) v Hv Hn Hnc Hk2 HF) as (v1 & E1 & Hv1 & C1 & P1).
  { intros a b Ha. apply Hr. by right. }
  { intros Hin. apply Hct, elem_of_app. by right. }
  { intros o Ho. apply Hs. apply elem_of_app. by right. }
  { intros k Hin. apply Hp. apply elem_of_app. by right. }
  { intros j input Hj Hpi. destruct (Hw (S j) input Hj Hpi) as (st & Est & Hst). rewrite Nat.add_succ_comm. by exists st. }
  cbn [zip] in E1. unfold zip in *. rewrite E1. cbn [mbind result_bind fst snd]. destruct (m_is_pegin x) eqn:Ex.
  - destruct (Hw 0%nat x eq_refl Ex) as (st & Est & Hst1 & Hst2). rewrite Nat.add_0_r in Est. rewrite Est in *. change (default [] (Some st)) with st. cbn [andb].
    rewrite Hst2. cbn [mbind result_bind]. apply list.Forall_cons_1 in Hk1 as [Hk1 _].
    destruct (undo_pegin v1 x c st Hv1 Ex Hst1 Hk1) as (v' & E & Hv' & C & P).
    { rewrite P1 by done. rewrite decide_False; [apply Hp; by left|]. apply Hdc. by left. }
    rewrite E. cbn [mbind result_bind fst snd andb]. exists v'. split_and!; [done..| |].
    + intros o. by rewrite C, C1.
    + intros k Hkk. rewrite P, P1 by done. cbn [app]. rewrite <- decide_cons. by repeat case_decide.
  - cbn [andb mbind result_bind app] in *. destruct (Hx Ex) as [Hx1 Hx2]. destruct (Hr x c ltac:(by left) Ex ltac:(intros E; apply Hct; rewrite <- E; by left) Hx1) as [Hr1 Hr2].
    assert (Hxn : prevout x ∉ spends l) by (apply Hd; by left).
    destruct (undo_coin v1 x c (default [] (pegin_witness tx !! i)) Hv1 Ex) as (v' & E & Hv' & C & P); [|done..|].
    { rewrite C1, decide_False by done. apply Hs. by left. }
    rewrite E. cbn [mbind result_bind fst snd andb]. exists v'. split_and!; [done..| |].
    + intros o. rewrite C, C1, <- decide_cons. destruct (decide (o = prevout x)) as [->|]; [|by case_decide].
      by rewrite decide_False.
    + intros k Hkk. by rewrite P, P1.
Qed.
End effects.
