(* ===== verification/MintTheorems.v ===== *)
(** * Theorems on claiming deposits

    Disconnecting a block undoes exactly what connecting it did to the coins, the
    claimed peg-ins and the treasury output; the public branch credits what its
    treasury output grew by; and no deposit is claimed twice. *)

From S2P Require Import Prelude ArithUint256 Sha256 Script Transaction Confidential ParentMessage BlockMerkle PartialMerkle ParentBlock Coins SideBlock Bmm BmmFacts Pegin Peg PegFacts Mint MintFacts.
Import Pegin Peg Mint.

Section deposits.
Context {Dest : DestinationEnv} (params : peg_params) (Hasset : uint256_ok params.(pegged_asset)).
Context {V : Type} `{!CoinsCache V, !CoinsCacheLaws V, !PeginCache V, !PeginCacheLaws V}.

(** Two views with the same coins, peg-ins and treasury output; the height at
    which the treasury output was recorded is not part of it. *)
Record alike (v w : V) : Prop := {
  alike_inv : cache_inv w;
  alike_coin : forall o, o <> CTIP_STATE_OUTPOINT -> cache_coin w o = cache_coin v o;
  alike_pegin : forall k, k.1 <> 0 -> cache_pegin w k = cache_pegin v k;
  alike_held : held params w = held params v }.

Lemma alike_refl v : cache_inv v -> alike v v.
Proof. by split. Qed.

Lemma alike_trans v1 v2 v3 : alike v1 v2 -> alike v2 v3 -> alike v1 v3.
Proof.
  intros [_ C1 P1 H1] [I2 C2 P2 H2]. split; [done| | |by rewrite H2].
  - intros o Ho. by rewrite C2, C1.
  - intros k Hk. by rewrite P2, P1.
Qed.

Lemma alike_same v w : same v w -> alike v w.
Proof. intros [I C P]. split; [done|intros o _; apply C|apply P|by apply held_eq]. Qed.

(** A view that differs from another in its treasury output. *)
Record moved (v w : V) (s : option CtipState) : Prop := {
  moved_inv : cache_inv w;
  moved_coin : forall o, o <> CTIP_STATE_OUTPOINT -> cache_coin w o = cache_coin v o;
  moved_pegin : forall k, k.1 <> 0 -> cache_pegin w k = cache_pegin v k;
  moved_held : held params w = Ok s }.

Lemma moved_alike v v1 w s : alike v v1 -> moved v1 w s -> moved v w s.
Proof.
  intros [_ C1 P1 _] [I C P H]. split; [done| | |done].
  - intros o Ho. by rewrite C, C1.
  - intros k Hk. by rewrite P, P1.
Qed.

(** The treasury outputs before and after a verified deposit. *)
Definition deposit_moves (tx : CTransaction) (i : nat) (before after : option CtipState) : Prop :=
  (exists c, FindLegacyCheckpoint tx i = Some c /\ before = None /\ after = Some (checkpoint_state c)) \/
  (exists parsed, FindLegacyCheckpoint tx i = None /\ ParseV2Deposit params tx i = Ok parsed /\
     before = Some parsed.(previous_state) /\ after = Some parsed.(next_state)).

(** The peg-in inputs are typed and name non-null parent transactions. *)
Definition input_ok (tx : CTransaction) (i : nat) : Prop :=
  forall input stack, tx.(vin) !! i = Some input -> tx.(pegin_witness) !! i = Some stack ->
    outpoint_ok input.(prevout) /\ input.(prevout).(hash) <> 0 /\ Forall bytes_ok stack.

Lemma checkpoint_ok tx i c : FindLegacyCheckpoint tx i = Some c -> ctip_ok (checkpoint_state c).
Proof.
  unfold FindLegacyCheckpoint. intros H. destruct (_ !! _); [|discriminate]. destruct (_ !! _); [|discriminate].
  destruct (negb _); [discriminate|]. apply List.find_some in H as [H _]. clear -H.
  destruct H as [<-|[<-|[]]]; (split; [split|..]; vm_compute; split || intros ?; try discriminate; try reflexivity).
Qed.

Lemma held_decoded (v : V) s : held params v = Ok (Some s) -> s.(outpoint).(hash) <> 0.
Proof.
  unfold held, ctip_of. destruct (cache_coin v CTIP_STATE_OUTPOINT) as [c|]; [|discriminate]. intros H.
  apply bind_Ok in H as (s' & H & E). injection E as ->. unfold DecodeCtipState in H. apply bind_Ok in H as ([] & _ & H).
  destruct (Bmm.state_payload _); [|discriminate]. destruct (read_marked_ctip _) as [[[marker s'] rest]|]; [|discriminate].
  apply bind_Ok in H as ([] & Hc & H). injection H as ->. apply ensure_Ok, negb_true_iff in Hc.
  rewrite !orb_false_iff in Hc. destruct Hc as [[[_ Hc] _] _]. unfold IsNull in Hc. by apply Z.eqb_neq.
Qed.

(** ** Connecting and disconnecting the treasury output *)
Lemma deposit_states_ok tx i before after (v : V) : input_ok tx i -> deposit_moves tx i before after -> held params v = Ok before ->
  match before with Some s => ctip_ok s | None => True end /\ match after with Some s => ctip_ok s | None => True end.
Proof.
  intros Hi [(c & Hc & -> & ->)|(parsed & _ & Hp & -> & ->)] Hh; [split; [done|by eapply checkpoint_ok]|].
  destruct (ParseV2Deposit_inv _ _ _ _ Hp) as (input & stack & D & P & proof & hs & E1 & E2 & Hd).
  destruct (Hi _ _ E1 E2) as (Ho & Hn & Hb). eapply v2_states_ok; try done. by eapply held_decoded.
Qed.

Lemma ConnectDepositState_moves tx i v v' h : cache_inv v -> input_ok tx i -> ConnectDepositState params tx i v h = Ok v' ->
  (FindLegacyCheckpoint tx i <> None -> held params v = Ok None) ->
  exists before after, held params v = Ok before /\ deposit_moves tx i before after /\ moved v v' after.
Proof.
  intros Hv Hi H Hl. unfold ConnectDepositState in H. destruct (FindLegacyCheckpoint tx i) as [c|] eqn:Hc.
  - apply bind_Ok in H as (a & _ & H). apply bind_Ok in H as ([] & _ & H). exists None, (Some (checkpoint_state c)).
    destruct (SetCtipState_step params Hasset v (checkpoint_state c) h Hv (checkpoint_ok _ _ _ Hc)) as (w & E & ? & ? & ? & ?).
    assert (w = v') as -> by congruence. split_and!; [by apply Hl|left; by exists c|by split].
  - apply bind_Ok in H as (parsed & Hp & H). destruct (GetCtipState_same params v Hv) as (v1 & E1 & S). rewrite E1 in H.
    apply bind_Ok in H as ([s|] & Hh & H); [|discriminate]. apply bind_Ok in H as ([] & Hs & H).
    apply ensure_Ok, bool_decide_eq_true in Hs. subst s.
    assert (Hm : deposit_moves tx i (Some (previous_state parsed)) (Some (next_state parsed))) by (right; by exists parsed).
    destruct (deposit_states_ok _ _ _ _ _ Hi Hm Hh) as [_ Hok].
    destruct (SetCtipState_step params Hasset v1 (next_state parsed) h (same_inv _ _ S) Hok) as (w & E & ? & ? & ? & ?).
    assert (w = v') as -> by congruence. exists (Some (previous_state parsed)), (Some (next_state parsed)).
    split_and!; [done..|]. eapply moved_alike; [by apply alike_same|by split].
Qed.

Lemma DisconnectDepositState_moves tx i w h before after (v : V) : cache_inv w -> input_ok tx i -> deposit_moves tx i before after ->
  held params v = Ok before -> held params w = Ok after ->
  exists w', DisconnectDepositState params tx i w h = Ok w' /\ moved w w' before.
Proof.
  intros Hw Hi Hm Hh Ha. destruct (deposit_states_ok _ _ _ _ _ Hi Hm Hh) as [Hok _]. unfold DisconnectDepositState.
  destruct (GetCtipState_same params w Hw) as (w1 & E1 & S). rewrite E1, Ha.
  destruct Hm as [(c & Hc & -> & ->)|(parsed & Hc & Hp & -> & ->)]; cbn [mbind result_bind]; rewrite Hc.
  - rewrite ensure_bind by (by apply bool_decide_eq_true).
    pose proof (cache_spend_law w1 CTIP_STATE_OUTPOINT (same_inv _ _ S)) as L.
    pose proof (fun k => cache_spend_pegin w1 CTIP_STATE_OUTPOINT k (same_inv _ _ S)) as P.
    destruct (cache_spend w1 CTIP_STATE_OUTPOINT) as [w2 b]. destruct L as (L1 & L2 & L3). cbn [fst] in P.
    assert (b = true) as ->.
    { apply L3. rewrite (same_coin _ _ S). unfold held in Ha. by destruct (cache_coin w CTIP_STATE_OUTPOINT). }
    exists w2. split; [done|]. split; [done| | |].
    + intros o Ho. rewrite L2, decide_False by done. apply (same_coin _ _ S).
    + intros k Hk. rewrite P by done. by apply (same_pegin _ _ S).
    + unfold held. by rewrite L2, decide_True.
  - rewrite Hp. cbn [mbind result_bind]. rewrite ensure_bind by (by apply bool_decide_eq_true).
    destruct (SetCtipState_step params Hasset w1 (previous_state parsed) (h - 1) (same_inv _ _ S) Hok) as (w2 & E & ? & ? & ? & ?).
    exists w2. split; [done|]. eapply moved_alike; [by apply alike_same|by split].
Qed.
End deposits.

(** ** One transaction *)
Section transactions.
Context {Dest : DestinationEnv} (params : peg_params) (Hasset : uint256_ok params.(pegged_asset)).
Context (deposit_status : uint256 -> Z -> COutPoint -> Z -> bytes -> Z -> DrivechainDepositStatus).
Context (federated : list bytes -> COutPoint -> bool -> bool).
Context (VerifyAmounts : list Elements.CTxOut -> CTransaction -> bool).
Context {V : Type} `{!CoinsCache V, !CoinsCacheLaws V, !PeginCache V, !PeginCacheLaws V}.

(** What checked inputs guarantee over the view they were checked on. *)
Record inputs_checked (tx : CTransaction) (h : Z) (v : V) (pegins : gset (uint256 * COutPoint)) (g : progress) : Prop := {
  ic_same : same v g.(g_view);
  ic_distinct : NoDup (claims params tx 0 tx.(vin));
  ic_unclaimed : forall k, k ∈ claims params tx 0 tx.(vin) -> cache_pegin v k = false /\ ~ (k ∈ pegins);
  ic_pegins : g.(g_pegins) = list_to_set (claims params tx 0 tx.(vin)) ∪ pegins;
  ic_claims : forall j input, tx.(vin) !! j = Some input -> input.(m_is_pegin) = true ->
    exists stack, tx.(pegin_witness) !! j = Some stack /\ claim_checked params deposit_status federated tx h v j input stack;
  ic_coins : forall input, input ∈ tx.(vin) -> input.(m_is_pegin) = false ->
    is_Some (cache_coin v input.(prevout)) /\ input.(prevout) <> CTIP_STATE_OUTPOINT }.

Lemma reserved_inputs l : foldr (fun i rest => reserved_input i;; rest) (Pass tt) l = Pass tt ->
  forall i, i ∈ l -> i.(m_is_pegin) = false -> i.(prevout) <> CTIP_STATE_OUTPOINT.
Proof.
  induction l as [|x l IH]; cbn [foldr]; intros H i Hi Hp; [by apply elem_of_nil in Hi|].
  apply bind_Pass in H as ([] & Hx & H). apply elem_of_cons in Hi as [->|Hi]; [|by apply IH].
  unfold reserved_input in Hx. apply bind_Pass in Hx as ([] & _ & Hx). apply require_Pass, negb_true_iff in Hx.
  rewrite Hp in Hx. cbn [negb andb] in Hx. apply orb_false_iff in Hx as [_ Hx]. unfold IsCtipStateInternalOutpoint in Hx.
  by apply bool_decide_eq_false in Hx.
Qed.

Lemma CheckTxInputs_spec tx v h fees pegins fs g fees' : cache_inv v -> IsCoinBase tx = false -> claims_ok params tx ->
  CheckTxInputs params deposit_status federated VerifyAmounts tx v h fees pegins fs = Pass (g, fees') ->
  inputs_checked tx h v pegins g.
Proof.
  intros Hv Hcb Hk H. unfold CheckTxInputs in H. apply bind_Pass in H as ([] & Hr & H).
  destruct (HaveInputs_same v tx Hv Hcb) as [S Hh]. destruct (HaveInputs v tx) as [v1 b]. cbn [fst snd] in *.
  apply bind_Pass in H as ([] & Hb & H). apply require_Pass in Hb. apply bind_Pass in H as (g' & Hg & H).
  do 2 apply bind_Pass in H as ([] & _ & H). apply bind_Pass in H as ([] & _ & H). injection H as -> _.
  destruct (check_inputs_spec params deposit_status federated tx h (vin tx) 0 (mkProgress v1 pegins []) g (same_inv _ _ S) Hk Hg)
    as (S2 & N & F & G & C). cbn [g_view g_pegins] in *. split.
  - by eapply same_trans.
  - done.
  - intros k Hin. rewrite <- (same_pegin _ _ S) by exact (proj1 (list.Forall_forall _ _) Hk k Hin). by apply F.
  - done.
  - intros j input Hj Hp. destruct (C j input Hj Hp) as (stack & Es & Hc). exists stack. split; [done|].
    by eapply claim_checked_same.
  - intros input Hin Hp. split; [by apply Hh|by eapply reserved_inputs].
Qed.

(** A transaction carries no evidence, or it is the single claim of a verified deposit. *)
Definition no_evidence (tx : CTransaction) : Prop :=
  forall j input, tx.(vin) !! j = Some input -> carries_evidence params tx j input = false.

Definition one_deposit (tx : CTransaction) (v : V) : Prop := exists input stack v', tx.(vin) = [input] /\ tx.(pegin_witness) = [stack] /\
  input.(m_is_pegin) = true /\ IsEcxDrivechainDepositPeginWitness params stack input.(prevout) = true /\
  same v v' /\ (VerifyDeterministicDeposit params tx 0 v').2 = Ok tt.

Lemma evidence_single tx h v pegins g j input : inputs_checked tx h v pegins g -> tx.(vin) !! j = Some input ->
  carries_evidence params tx j input = true -> j = 0%nat /\ one_deposit tx v.
Proof.
  intros Hi Hj He. unfold carries_evidence in He. apply andb_true_iff in He as [Hp He].
  destruct (ic_claims _ _ _ _ _ Hi j input Hj Hp) as (stack & Es & _ & Hc). rewrite Es in He.
  destruct (ecx_is_deposit _ _ _ He) as (Hd & Hl & _). specialize (Hc Hd). rewrite (proj2 (Z.eqb_neq _ _) Hl) in Hc.
  destruct Hc as (v' & S & Hver).
  assert (Hsingle : j = 0%nat /\ exists input stack, vin tx = [input] /\ pegin_witness tx = [stack] /\ m_is_pegin input = true).
  { destruct (VerifyDeterministicDeposit_inv params tx j v' (same_inv _ _ S) Hver) as [(c & a & _ & _ & _ & Ht)|(parsed & _ & _ & _ & _ & Ht)];
      by eapply VerifyDepositTransaction_single. }
  destruct Hsingle as (-> & input' & stack' & E1 & E2 & Hp'). split; [done|]. rewrite E1 in Hj. rewrite E2 in Es.
  injection Hj as ->. injection Es as ->. exists input, stack, v'. by split_and!.
Qed.

Lemma evidence_cases tx h v pegins g : inputs_checked tx h v pegins g -> no_evidence tx \/ one_deposit tx v.
Proof.
  intros Hi. destruct (vin tx) as [|x l] eqn:E.
  - left. intros j input Hj. rewrite E in Hj. done.
  - destruct (carries_evidence params tx 0 x) eqn:Hx.
    + right. eapply (evidence_single tx h v pegins g 0 x); [done|by rewrite E|done].
    + left. intros j input Hj. destruct (carries_evidence params tx j input) eqn:Hc; [|done].
      destruct (evidence_single tx h v pegins g j input Hi Hj Hc) as [-> _]. rewrite E in Hj. injection Hj as ->. congruence.
Qed.

Lemma connect_deposits_none tx h l : forall i v, (forall j input, l !! j = Some input -> carries_evidence params tx (i + j) input = false) ->
  connect_deposits params tx h i l v = Ok v.
Proof.
  induction l as [|x l IH]; intros i v H; cbn [connect_deposits]; [done|].
  rewrite <- (Nat.add_0_r i) at 1. rewrite (H 0%nat x eq_refl). cbn [mbind result_bind]. apply IH.
  intros j input Hj. rewrite Nat.add_succ_comm. by apply H.
Qed.

(** What the rest of the consensus rules guarantee of a transaction over a
    view: its identifier is new (BIP 30) and is not the reserved one, it spends no
    coin twice, its outputs are not null, the coins it spends are those of
    blocks above genesis, and its peg-ins name non-null parent transactions. *)
Record tx_fits (v : V) (tx : CTransaction) : Prop := {
  tf_fresh : forall j, cache_coin v (mkOutPoint tx.(txid) j) = None;
  tf_reserved : tx.(txid) <> CTIP_STATE_OUTPOINT.(hash);
  tf_outputs : outputs_ok tx.(vout);
  tf_inputs : NoDup (spends tx.(vin));
  tf_claims : claims_ok params tx;
  tf_restorable : restorable v tx.(vin);
  tf_typed : IsCoinBase tx = false -> forall i, input_ok tx i }.

(** The coins and peg-ins that a transaction takes; a coinbase takes none. *)
Definition taken (tx : CTransaction) : list COutPoint := if IsCoinBase tx then [] else spends tx.(vin).
Definition claimed (tx : CTransaction) : list (uint256 * COutPoint) := if IsCoinBase tx then [] else claims params tx 0 tx.(vin).

Record connected (tx : CTransaction) (h : Z) (v v' : V) (undo : list Coin) : Prop := {
  co_inv : cache_inv v';
  co_coin : forall o, o <> CTIP_STATE_OUTPOINT ->
    cache_coin v' o = match created tx h 0 tx.(vout) o with Some c => Some c | None => if decide (o ∈ taken tx) then None else cache_coin v o end;
  co_pegin : forall k, k.1 <> 0 -> cache_pegin v' k = if decide (k ∈ claimed tx) then true else cache_pegin v k;
  co_undo : IsCoinBase tx = false -> Forall2 (restores v) tx.(vin) undo;
  co_held : (IsCoinBase tx = true \/ no_evidence tx) /\ held params v' = held params v \/
    IsCoinBase tx = false /\ one_deposit tx v /\ exists before after, held params v = Ok before /\ deposit_moves params tx 0 before after /\ held params v' = Ok after }.

Lemma UpdateCoins_spec tx v h v' undo : cache_inv v -> UpdateCoins params tx v h = Ok (v', undo) -> tx_fits v tx ->
  (IsCoinBase tx = false -> forall input, input ∈ tx.(vin) -> input.(m_is_pegin) = false -> is_Some (cache_coin v input.(prevout))) ->
  cache_inv v' /\ (IsCoinBase tx = false -> Forall2 (restores v) tx.(vin) undo) /\
  (forall o, cache_coin v' o = match created tx h 0 tx.(vout) o with Some c => Some c | None => if decide (o ∈ taken tx) then None else cache_coin v o end) /\
  (forall k, k.1 <> 0 -> cache_pegin v' k = if decide (k ∈ claimed tx) then true else cache_pegin v k).
Proof.
  intros Hv H Hf Hc. unfold UpdateCoins in H. apply bind_Ok in H as ([v1 u] & H1 & H). apply bind_Ok in H as (v2 & H2 & H).
  injection H as -> ->. cbn [fst snd] in *. unfold taken, claimed.
  assert (Hs : cache_inv v1 /\ (IsCoinBase tx = false -> Forall2 (restores v) (vin tx) undo) /\
    (forall o, cache_coin v1 o = if decide (o ∈ taken tx) then None else cache_coin v o) /\
    (forall k, k.1 <> 0 -> cache_pegin v1 k = if decide (k ∈ claimed tx) then true else cache_pegin v k)).
  { unfold taken, claimed. destruct (IsCoinBase tx); [injection H1 as <- <-; by split_and!|].
    destruct (spend_inputs_spec params tx (vin tx) 0 v [] v1 undo Hv (tf_inputs _ _ Hf) (tf_claims _ _ Hf) (Hc eq_refl) H1)
      as (coins & -> & Hv1 & HF & C & P). by split_and!. }
  destruct Hs as (Hv1 & HF & C & P).
  destruct (add_outputs_spec tx h (vout tx) 0 v1 Hv1 (tf_outputs _ _ Hf)) as (v3 & E & Hv3 & C3 & P3).
  { intros j _. rewrite C. case_decide; [done|]. apply (tf_fresh _ _ Hf). }
  assert (v3 = v') as -> by congruence. split_and!; [done..| |].
  - intros o. by rewrite C3, C.
  - intros k Hk. by rewrite P3, P.
Qed.

Lemma created_not_ctip tx h i l o c : tx.(txid) <> CTIP_STATE_OUTPOINT.(hash) -> created tx h i l o = Some c -> o <> CTIP_STATE_OUTPOINT.
Proof. intros Hn Hc ->. by apply created_txid in Hc. Qed.

Lemma held_update tx h v v' : tx.(txid) <> CTIP_STATE_OUTPOINT.(hash) -> ~ (CTIP_STATE_OUTPOINT ∈ taken tx) ->
  (forall o, cache_coin v' o = match created tx h 0 tx.(vout) o with Some c => Some c | None => if decide (o ∈ taken tx) then None else cache_coin v o end) ->
  held params v' = held params v.
Proof.
  intros Hn Ht C. apply held_eq. rewrite C. destruct (created tx h 0 (vout tx) CTIP_STATE_OUTPOINT) eqn:E.
  - by apply created_not_ctip in E.
  - by rewrite decide_False.
Qed.

Lemma spends_elem l o : o ∈ spends l -> exists i, i ∈ l /\ i.(m_is_pegin) = false /\ i.(prevout) = o.
Proof.
  induction l as [|x l IH]; cbn [spends]; [by intros H%elem_of_nil|]. intros [H|H]%elem_of_app.
  - destruct (m_is_pegin x) eqn:E; [by apply elem_of_nil in H|]. apply list_elem_of_singleton in H as ->. exists x. split_and!; [by left|done..].
  - destruct (IH H) as (i & Hi & ?). exists i. split; [by right|done].
Qed.

Lemma one_deposit_legacy tx v : one_deposit tx v -> FindLegacyCheckpoint tx 0 <> None -> held params v = Ok None.
Proof.
  intros (input & stack & v' & _ & _ & _ & _ & S & Hver) Hl.
  destruct (VerifyDeterministicDeposit_inv params tx 0 v' (same_inv _ _ S) Hver) as [(c & a & _ & Hh & _)|(parsed & Hn & _)].
  - rewrite <- Hh. symmetry. by apply (alike_held params v v'), alike_same.
  - by rewrite Hn in Hl.
Qed.

Lemma one_deposit_connect tx v h : one_deposit tx v -> forall w, connect_deposits params tx h 0 tx.(vin) w = ConnectDepositState params tx 0 w h.
Proof.
  intros (input & stack & v' & E1 & E2 & Hp & He & _) w. rewrite E1. cbn [connect_deposits]. unfold carries_evidence. rewrite E2, Hp.
  cbn [lookup list_lookup andb]. change ([stack] !! 0%nat) with (Some stack). cbn iota. rewrite He. cbn [andb].
  by destruct (ConnectDepositState params tx 0 w h).
Qed.

Lemma fits_same v w tx : (forall o, o <> CTIP_STATE_OUTPOINT -> cache_coin w o = cache_coin v o) ->
  tx_fits v tx -> tx_fits w tx.
Proof.
  intros C [F R O N K T Y]. split; try done.
  - intros j. rewrite C; [apply F|]. intros E. apply R. by rewrite <- E.
  - intros input x Hin Hp Hc. rewrite C by done. by apply T.
Qed.

Lemma restores_weaken (v v1 : V) l u :
  (forall input, input ∈ l -> input.(m_is_pegin) = false -> cache_coin v1 input.(prevout) = cache_coin v input.(prevout)) ->
  Forall2 (restores v1) l u -> Forall2 (restores v) l u.
Proof.
  intros Hl F. induction F as [|x y l u Hx F IH]; constructor.
  - intros Hp. rewrite <- Hl; [by apply Hx|by left|done].
  - apply IH. intros z Hz. apply Hl. by right.
Qed.

(** The view between the checks and the update of the coins. *)
Record treasury_moved (tx : CTransaction) (v v1 : V) : Prop := {
  tm_inv : cache_inv v1;
  tm_coin : forall o, o <> CTIP_STATE_OUTPOINT -> cache_coin v1 o = cache_coin v o;
  tm_pegin : forall k, k.1 <> 0 -> cache_pegin v1 k = cache_pegin v k;
  tm_held : no_evidence tx /\ held params v1 = held params v \/
    one_deposit tx v /\ exists before after, held params v = Ok before /\ deposit_moves params tx 0 before after /\ held params v1 = Ok after }.

Lemma connect_deposits_moved tx h v pegins g v1 : inputs_checked tx h v pegins g -> (forall i, input_ok tx i) ->
  connect_deposits params tx h 0 tx.(vin) g.(g_view) = Ok v1 -> treasury_moved tx v v1.
Proof.
  intros Hi Ht Hd. pose proof (ic_same _ _ _ _ _ Hi) as [I C P]. destruct (evidence_cases _ _ _ _ _ Hi) as [He|He].
  - rewrite connect_deposits_none in Hd by exact He. injection Hd as <-.
    split; [done|by intros o _; apply C|done|]. left. split; [done|by apply held_eq].
  - rewrite (one_deposit_connect _ _ _ He) in Hd.
    destruct (ConnectDepositState_moves params Hasset tx 0 _ _ _ I (Ht 0%nat) Hd) as (b & a & Hb & Hm & [M1 M2 M3 M4]).
    { intros Hl. rewrite <- (one_deposit_legacy _ _ He Hl). by apply held_eq. }
    split; [done|intros o Ho; by rewrite M2, C|intros k Hk; by rewrite M3, P|]. right. split; [done|].
    exists b, a. split_and!; [|done|done]. rewrite <- Hb. symmetry. by apply held_eq.
Qed.

Lemma connect_tx_connected parent h tx v fees pegins fs v' fees' pegins' undo : cache_inv v -> tx_fits v tx ->
  connect_tx params deposit_status federated VerifyAmounts parent h tx v fees pegins fs = Pass (v', fees', pegins', undo) ->
  connected tx h v v' undo /\
  (IsCoinBase tx = false -> exists g, inputs_checked tx h v pegins g /\ g.(g_pegins) = pegins').
Proof.
  intros Hv Hf H. unfold connect_tx in H. destruct (IsCoinBase tx) eqn:Hcb.
  - apply bind_Pass in H as ([w u] & Hu & H). apply of_result_Pass in Hu. injection H as <- <- <- <-. cbn [fst snd].
    destruct (UpdateCoins_spec tx v h w u Hv Hu Hf) as (Hw & HF & C & P); [by rewrite Hcb|]. split; [|done].
    split; [done|intros o _; apply C|done|by rewrite Hcb|]. left. split; [by left|]. eapply held_update; [apply Hf| |exact C].
    unfold taken. rewrite Hcb. apply not_elem_of_nil.
  - destruct (check_anchors params tx parent 0 (vin tx)) as [[]|]; [|discriminate]. apply bind_Pass in H as ([g fees''] & Hg & H).
    cbn [fst snd] in H. pose proof (CheckTxInputs_spec _ _ _ _ _ _ _ _ Hv Hcb (tf_claims _ _ Hf) Hg) as Hi.
    destruct (connect_deposits params tx h 0 (vin tx) (g_view g)) as [v1|] eqn:Hd; [|discriminate].
    destruct (UpdateCoins params tx v1 h) as [[v2 u]|] eqn:Hu; [|discriminate]. injection H as -> -> <- ->.
    split; [|intros _; by exists g]. destruct (connect_deposits_moved _ _ _ _ _ _ Hi (tf_typed _ _ Hf Hcb) Hd) as [I1 C1 P1 Hh].
    assert (Hni : forall input, input ∈ vin tx -> m_is_pegin input = false -> prevout input <> CTIP_STATE_OUTPOINT).
    { intros input Hin Hp. by apply (ic_coins _ _ _ _ _ Hi). }
    assert (Hct : ~ (CTIP_STATE_OUTPOINT ∈ taken tx)).
    { unfold taken. rewrite Hcb. intros (x & Hx & Hp & E)%spends_elem. by apply (Hni x Hx Hp). }
    destruct (UpdateCoins_spec tx v1 h v' undo I1 Hu (fits_same _ _ _ C1 Hf)) as (Hv' & HF & C & P).
    { intros _ input Hin Hp. rewrite C1 by (by apply Hni). by apply (ic_coins _ _ _ _ _ Hi). }
    assert (Hh' : held params v' = held params v1) by (eapply held_update; [apply Hf|exact Hct|exact C]).
    split; [done| | | |].
    + intros o Ho. by rewrite C, C1.
    + intros k Hk. by rewrite P, P1.
    + intros _. eapply restores_weaken; [|by apply HF]. intros input Hin Hp. by apply C1, Hni.
    + rewrite Hh'. destruct Hh as [[He Hh]|(He & b & a & Hb & Hm & Ha)]; [left; split; [by right|done]|].
      right. split_and!; [done..|]. by exists b, a.
Qed.

(** ** Blocks
    What a block brings: new and distinct identifiers, well-formed transactions,
    and coins of blocks above genesis. *)
Record block_fits (v : V) (h : Z) (l : list CTransaction) : Prop := {
  bf_height : h <> 0;
  bf_txids : NoDup (map txid l);
  bf_fresh : forall tx, tx ∈ l -> (forall j, cache_coin v (mkOutPoint tx.(txid) j) = None) /\ tx.(txid) <> CTIP_STATE_OUTPOINT.(hash);
  bf_txs : forall tx, tx ∈ l -> outputs_ok tx.(vout) /\ NoDup (spends tx.(vin)) /\ claims_ok params tx /\
    (IsCoinBase tx = false -> forall i, input_ok tx i);
  bf_coins : forall o x, o <> CTIP_STATE_OUTPOINT -> cache_coin v o = Some x ->
    IsUnspendable x.(out).(Elements.scriptPubKey) = false /\ x.(nHeight) <> 0 }.

Lemma block_fits_head v h tx l : block_fits v h (tx :: l) -> tx_fits v tx.
Proof.
  intros [_ _ F T C]. destruct (F tx ltac:(left)) as [F1 F2]. destruct (T tx ltac:(left)) as (T1 & T2 & T3 & T4).
  split; try done. intros input x _ _ Ho. by apply C.
Qed.

Lemma created_good tx h l : h <> 0 -> forall i o c, created tx h i l o = Some c ->
  IsUnspendable c.(out).(Elements.scriptPubKey) = false /\ c.(nHeight) <> 0.
Proof.
  intros Hh. induction l as [|x l IH]; intros i o c H; cbn [created] in H; [done|]. case_decide; [|by eapply IH].
  destruct (IsUnspendable (Elements.scriptPubKey x)) eqn:E; [done|]. by injection H as <-.
Qed.

Lemma block_fits_tail v h tx l v' undo : block_fits v h (tx :: l) -> connected tx h v v' undo -> block_fits v' h l.
Proof.
  intros [Hh N F T C] Hco. cbn [map] in N. apply list.NoDup_cons in N as [Nx N].
  assert (Hne : forall tx', tx' ∈ l -> txid tx' <> txid tx).
  { intros tx' Hin E. apply Nx. rewrite <- E. apply list_elem_of_fmap. by exists tx'. }
  split; [done|done| | |].
  - intros tx' Hin. destruct (F tx' ltac:(by right)) as [F1 F2]. split; [|done]. intros j.
    rewrite (co_coin _ _ _ _ _ Hco) by (intros E; apply F2; by rewrite <- E).
    destruct (created tx h 0 (vout tx) _) eqn:E; [|rewrite F1; by case_decide].
    apply created_txid in E. cbn in E. by apply Hne in E.
  - intros tx' Hin. apply T. by right.
  - intros o x Ho. rewrite (co_coin _ _ _ _ _ Hco) by done. destruct (created tx h 0 (vout tx) o) eqn:E.
    + intros [= <-]. by eapply created_good.
    + case_decide; [done|]. by apply C.
Qed.

(** ** Chains of blocks *)
Abbreviation block := (result uint256 * Z * list CTransaction)%type.

Fixpoint connect_chain (fs : bool) (l : list block) (v : V) : verdict V :=
  match l with
  | [] => Pass v
  | (parent, h, txs) :: l' =>
      r ← connect_txs params deposit_status federated VerifyAmounts parent h txs v ∅ ∅ fs;
      connect_chain fs l' r.1
  end.

Fixpoint chain_fits (fs : bool) (l : list block) (v : V) : Prop :=
  match l with
  | [] => True
  | (parent, h, txs) :: l' =>
      block_fits v h txs /\
      match connect_txs params deposit_status federated VerifyAmounts parent h txs v ∅ ∅ fs with
      | Pass (v', _) => chain_fits fs l' v'
      | _ => True
      end
  end.

Definition chain_txs (l : list block) : list CTransaction := concat (map snd l).

(** A relation between views that every connected transaction has holds for chains. *)
Lemma connect_txs_ind (R : V -> list CTransaction -> V -> Prop) parent h fs :
  (forall v, cache_inv v -> R v [] v) ->
  (forall v tx v1 l v2, cache_inv v -> tx_fits v tx ->
     (exists fees pegins fees' pegins' undo, connect_tx params deposit_status federated VerifyAmounts parent h tx v fees pegins fs =
        Pass (v1, fees', pegins', undo) /\ connected tx h v v1 undo) -> R v1 l v2 -> R v (tx :: l) v2) ->
  forall l v fees pegins v' undos, cache_inv v -> block_fits v h l ->
  connect_txs params deposit_status federated VerifyAmounts parent h l v fees pegins fs = Pass (v', undos) -> cache_inv v' /\ R v l v'.
Proof.
  intros H0 HS. induction l as [|tx l IH]; intros v fees pegins v' undos Hv Hb H; cbn [connect_txs] in H.
  { injection H as <- _. split; [done|by apply H0]. }
  apply bind_Pass in H as ([[[v1 fees1] pegins1] undo] & H1 & H). apply bind_Pass in H as ([v2 undos2] & H2 & H).
  injection H as <- <-. cbn [fst snd] in *. pose proof (block_fits_head _ _ _ _ Hb) as Hf.
  destruct (connect_tx_connected _ _ _ _ _ _ _ _ _ _ _ Hv Hf H1) as [Hco _].
  destruct (IH _ _ _ _ _ (co_inv _ _ _ _ _ Hco) (block_fits_tail _ _ _ _ _ _ Hb Hco) H2) as [Hv2 HR]. split; [done|].
  eapply HS; [done|done| |exact HR]. eauto 10.
Qed.

Lemma connect_chain_ind (R : V -> list CTransaction -> V -> Prop) fs :
  (forall v, cache_inv v -> R v [] v) ->
  (forall v l1 v1 l2 v2, R v l1 v1 -> R v1 l2 v2 -> R v (l1 ++ l2) v2) ->
  (forall parent h v tx v1 l v2, cache_inv v -> tx_fits v tx ->
     (exists fees pegins fees' pegins' undo, connect_tx params deposit_status federated VerifyAmounts parent h tx v fees pegins fs =
        Pass (v1, fees', pegins', undo) /\ connected tx h v v1 undo) -> R v1 l v2 -> R v (tx :: l) v2) ->
  forall l v v', cache_inv v -> chain_fits fs l v -> connect_chain fs l v = Pass v' -> R v (chain_txs l) v'.
Proof.
  intros H0 Ha HS. induction l as [|[[parent h] txs] l IH]; intros v v' Hv Hf H; cbn [connect_chain chain_fits] in *.
  { injection H as <-. by apply H0. }
  destruct Hf as [Hb Hf]. apply bind_Pass in H as ([v1 undos] & H1 & H). rewrite H1 in Hf. cbn [fst] in H.
  destruct (connect_txs_ind R parent h fs H0 (HS parent h) txs v ∅ ∅ v1 undos Hv Hb H1) as [Hv1 HR].
  unfold chain_txs. cbn [map concat snd]. eapply Ha; [exact HR|]. by apply IH.
Qed.

(** *** No deposit is claimed twice *)
Definition claim_run (v : V) (l : list CTransaction) (v' : V) : Prop :=
  NoDup (concat (map claimed l)) /\ Forall (fun k => k.1 <> 0) (concat (map claimed l)) /\
  (forall k, k ∈ concat (map claimed l) -> cache_pegin v k = false /\ cache_pegin v' k = true) /\
  (forall k, k.1 <> 0 -> cache_pegin v k = true -> cache_pegin v' k = true).

Lemma claimed_checked tx v parent h fees pegins fs v1 fees' pegins' undo : cache_inv v -> tx_fits v tx ->
  connect_tx params deposit_status federated VerifyAmounts parent h tx v fees pegins fs = Pass (v1, fees', pegins', undo) ->
  NoDup (claimed tx) /\ Forall (fun k => k.1 <> 0) (claimed tx) /\ forall k, k ∈ claimed tx -> cache_pegin v k = false.
Proof.
  intros Hv Hf H. destruct (connect_tx_connected _ _ _ _ _ _ _ _ _ _ _ Hv Hf H) as [_ Hi]. unfold claimed.
  destruct (IsCoinBase tx).
  - split_and!; [constructor|constructor|]. by intros k Hk%elem_of_nil.
  - destruct (Hi eq_refl) as (g & Hg & _). split_and!; [apply Hg|apply Hf|]. intros k Hk. by apply Hg.
Qed.

Lemma claim_run_chain fs l v v' : cache_inv v -> chain_fits fs l v -> connect_chain fs l v = Pass v' -> claim_run v (chain_txs l) v'.
Proof.
  apply (connect_chain_ind claim_run fs).
  - intros w _. split_and!; [constructor|constructor| |done]. by intros k Hk%elem_of_nil.
  - intros w l1 w1 l2 w2 (N1 & F1 & C1 & K1) (N2 & F2 & C2 & K2). unfold claim_run. rewrite map_app, concat_app. split_and!.
    + apply list.NoDup_app. split_and!; [done| |done]. intros k Hk Hk2. destruct (C1 k Hk), (C2 k Hk2). congruence.
    + by apply Forall_app.
    + intros k [Hk|Hk]%elem_of_app.
      * destruct (C1 k Hk). split; [done|]. apply K2; [exact (proj1 (list.Forall_forall _ _) F1 k Hk)|done].
      * destruct (C2 k Hk) as [Hf Ht]. split; [|done]. destruct (cache_pegin w k) eqn:E; [|done].
        rewrite K1 in Hf; [done|exact (proj1 (list.Forall_forall _ _) F2 k Hk)|done].
    + intros k Hk Ht. by apply K2, K1.
  - intros parent h w tx w1 l2 w2 Hw Hf (fees & pegins & fees' & pegins' & undo & H & Hco) (N2 & F2 & C2 & K2).
    destruct (claimed_checked _ _ _ _ _ _ _ _ _ _ _ Hw Hf H) as (N1 & F1 & C1). pose proof (co_pegin _ _ _ _ _ Hco) as P.
    assert (T1 : forall k, k ∈ claimed tx -> cache_pegin w1 k = true).
    { intros k Hk. rewrite P by exact (proj1 (list.Forall_forall _ _) F1 k Hk). by rewrite decide_True. }
    unfold claim_run. cbn [map concat]. split_and!.
    + apply list.NoDup_app. split_and!; [done| |done]. intros k Hk Hk2. destruct (C2 k Hk2). rewrite T1 in *; done.
    + by apply Forall_app.
    + intros k [Hk|Hk]%elem_of_app.
      * split; [by apply C1|]. apply K2; [exact (proj1 (list.Forall_forall _ _) F1 k Hk)|by apply T1].
      * destruct (C2 k Hk) as [Hf2 Ht]. split; [|done]. rewrite P in Hf2 by exact (proj1 (list.Forall_forall _ _) F2 k Hk).
        by case_decide.
    + intros k Hk Ht. apply K2; [done|]. rewrite P by done. by case_decide.
Qed.

(** *** The public branch credits what its treasury output grew by *)
Definition pegin_amount (stack : list bytes) : Z :=
  match GetPeginOutputFromWitness stack with Ok o => GetAmount o.(Elements.nValue) | Err _ => 0 end.

(** What the peg-in inputs add to the coins of a transaction. *)
Fixpoint minted_from (tx : CTransaction) (i : nat) (l : list CTxIn) : Z :=
  match l with
  | [] => 0
  | input :: l' =>
      (if input.(m_is_pegin) then match tx.(pegin_witness) !! i with Some stack => pegin_amount stack | None => 0 end else 0) +
      minted_from tx (S i) l'
  end.

Definition minted (tx : CTransaction) : Z := if IsCoinBase tx then 0 else minted_from tx 0 tx.(vin).

Definition total (l : list CTransaction) : Z := foldr (fun tx t => minted tx + t) 0 l.

Lemma prefix_amount stack p : ReadPeginWitnessPrefix stack = Ok p -> pegin_amount stack = p.(p_value).
Proof.
  unfold ReadPeginWitnessPrefix, pegin_amount, GetPeginOutputFromWitness. intros H. apply bind_Ok in H as ([] & Hl & H).
  apply ensure_Ok, negb_true_iff in Hl. rewrite Hl. destruct (read_int64 (item stack 0)) as [[z t]|]; [|discriminate].
  apply bind_Ok in H as ([] & Hm & H). apply ensure_Ok in Hm. do 3 apply bind_Ok in H as ([] & _ & H). injection H as <-.
  cbn [p_value Elements.CTxOut_new Elements.nValue]. apply GetAmount_SetToAmount.
  unfold MoneyRange, MAX_MONEY, COIN in Hm. apply andb_true_iff in Hm as [H1%Z.leb_le H2%Z.leb_le]. lia.
Qed.

Lemma PeginData_amount stack o x claim id : GetDrivechainDepositPeginData params stack o = Some (x, claim, id) -> pegin_amount stack = x.
Proof.
  unfold GetDrivechainDepositPeginData. destruct (_ && _ : bool); [discriminate|].
  destruct (ReadPeginWitnessPrefix stack) as [p|] eqn:Hp; [|discriminate]. destruct (negb (pegs params p)); [discriminate|].
  match goal with |- context [match ?m with Some _ => _ | None => _ end] => destruct m; [|discriminate] end.
  destruct (negb _); [discriminate|]. intros [= <- _ _]. by apply prefix_amount.
Qed.

(** The outputs of a verified deposit: explicit, to the committed destination or as a fee, and worth the deposit. *)
Definition out_amount (o : Elements.CTxOut) : Z := GetAmount o.(Elements.nValue).

Definition pays_deposit (script : bytes) (o : Elements.CTxOut) : Prop :=
  Conf.IsExplicit ConfAsset o.(Elements.nAsset) = true /\ GetAsset o.(Elements.nAsset) = params.(pegged_asset) /\
  Conf.IsExplicit ConfValue o.(Elements.nValue) = true /\
  (o.(Elements.scriptPubKey) = [] \/ o.(Elements.scriptPubKey) = script).

Lemma tally_outputs script l : forall t t', foldM (tally_output params script) t l = Ok t' ->
  Forall (pays_deposit script) l /\ t'.(credited) + t'.(fee) = t.(credited) + t.(fee) + foldr (fun o s => out_amount o + s) 0 l.
Proof.
  induction l as [|o l IH]; intros t t' H; cbn [foldM foldr] in *; [injection H as <-; split; [constructor|lia]|].
  apply bind_Ok in H as (t1 & H1 & H). destruct (IH _ _ H) as [HF Hs]. unfold tally_output in H1.
  apply bind_Ok in H1 as ([] & Hx & H1). apply ensure_Ok in Hx. rewrite !andb_true_iff in Hx. destruct Hx as [[[X1 X2%Z.eqb_eq] X3] _].
  destruct (bytes_eqb (Elements.scriptPubKey o) []) eqn:E.
  - injection H1 as <-. cbn [credited fee] in Hs. fold (out_amount o) in Hs. apply bytes_eqb_eq in E. split; [constructor; [|done]; by split_and!; try left|lia].
  - apply bind_Ok in H1 as ([] & Hd & H1). injection H1 as <-. cbn [credited fee] in Hs. fold (out_amount o) in Hs. apply ensure_Ok, bytes_eqb_eq in Hd.
    split; [constructor; [|done]; by split_and!; try right|lia].
Qed.

Lemma VerifyDepositTransaction_pays tx i a : VerifyDepositTransaction params tx i a = Ok tt ->
  Forall (pays_deposit a.(a_destination_script)) tx.(vout) /\ foldr (fun o s => out_amount o + s) 0 tx.(vout) = a.(a_value).
Proof.
  unfold VerifyDepositTransaction. destruct (vin tx) as [|input [|]]; [done| |done]. destruct i; [|done].
  destruct (pegin_witness tx) as [|stack [|]]; [done| |done]. intros H. do 3 apply bind_Ok in H as ([] & _ & H).
  apply bind_Ok in H as (t & Ht & H). apply ensure_Ok, negb_true_iff in H. rewrite !orb_false_iff, !negb_false_iff in H.
  destruct H as [_ H%Z.eqb_eq]. destruct (tally_outputs _ _ _ _ Ht) as [HF Hs]. cbn [credited fee] in Hs. split; [done|lia].
Qed.

(** A transaction that credits a deposit with evidence. *)
Record credits (tx : CTransaction) (parsed : ParsedDeterministicDeposit) : Prop := {
  cr_evidence : exists input stack D P proof hs, tx.(vin) = [input] /\ tx.(pegin_witness) = [stack] /\
    v2_deposit params stack input.(prevout) parsed D P proof hs;
  cr_claims : claimed tx = [(parsed.(next_state).(outpoint).(hash), parsed.(next_state).(outpoint))];
  cr_minted : minted tx = parsed.(authenticated).(a_value);
  cr_outputs : Forall (pays_deposit parsed.(authenticated).(a_destination_script)) tx.(vout);
  cr_paid : foldr (fun o s => out_amount o + s) 0 tx.(vout) = minted tx }.

(** The deposits that a run of transactions credits, from one treasury output to another. *)
Inductive credited_path : CtipState -> list CTransaction -> CtipState -> Prop :=
  | path_nil s : credited_path s [] s
  | path_plain tx l s s' : minted tx = 0 -> claimed tx = [] -> credited_path s l s' -> credited_path s (tx :: l) s'
  | path_deposit tx l parsed s s' : credits tx parsed -> s = parsed.(previous_state) ->
      credited_path parsed.(next_state) l s' -> credited_path s (tx :: l) s'.

Lemma path_app s l1 s1 l2 s2 : credited_path s l1 s1 -> credited_path s1 l2 s2 -> credited_path s (l1 ++ l2) s2.
Proof. induction 1; intros H2; cbn [app]; [done|eapply path_plain; eauto|eapply path_deposit; eauto]. Qed.

Lemma credits_growth tx parsed : credits tx parsed ->
  parsed.(next_state).(value) = parsed.(previous_state).(value) + minted tx /\ 0 < minted tx /\
  parsed.(next_state).(ctip_sequence) = parsed.(previous_state).(ctip_sequence) + 1.
Proof.
  intros [(input & stack & D & P & proof & hs & _ & _ & Hd) _ Hm _ _]. pose proof (vd_value _ _ _ _ _ _ _ _ Hd) as [_ Hv].
  pose proof (vd_sequence _ _ _ _ _ _ _ _ Hd) as [_ Hs]. destruct (vd_witness _ _ _ _ _ _ _ _ Hd) as (claim & Hw).
  destruct (PeginData_inv _ _ _ _ _ _ Hw) as (Hr & _). lia.
Qed.

Lemma path_total s l s' : credited_path s l s' -> s'.(value) = s.(value) + total l /\
  s'.(ctip_sequence) = s.(ctip_sequence) + len (concat (map claimed l)).
Proof.
  induction 1 as [s|tx l s s' Hm Hn _ IH|tx l parsed s s' Hc -> _ IH].
  - split; unfold total, len; cbn; lia.
  - unfold total in *. cbn [foldr map concat]. rewrite Hn. cbn [app]. lia.
  - pose proof (credits_growth _ _ Hc). unfold total in *. cbn [foldr map concat]. rewrite (cr_claims _ _ Hc), len_app.
    unfold len at 1. cbn [length]. lia.
Qed.

Section public.
Context (Hpublic : params.(drivechain_slot) = None) (Hfederated : forall s o, federated s o true = false).

(** Without federated peg-ins a valid witness is a deposit with evidence. *)
Lemma public_claim_evidence stack o h : IsValidPeginWitness params deposit_status federated stack o true h = Pass tt ->
  IsEcxDrivechainDepositPeginWitness params stack o = true.
Proof.
  unfold IsValidPeginWitness. rewrite Hpublic. destruct (is_ecx_format stack) eqn:Hf.
  - unfold IsValidEcxPeginWitness. intros H. apply bind_Pass in H as ([] & _ & H). apply bind_Pass in H as (p & _ & H).
    destruct (_ || _ : bool); [|by rewrite Hfederated in H]. apply bind_Pass in H as ([] & Hd & _). apply require_Pass in Hd.
    apply deposit_not_native; [done|]. intros H8. unfold is_ecx_format in Hf. rewrite H8 in Hf. discriminate.
  - intros H. apply bind_Pass in H as ([] & _ & H). apply bind_Pass in H as (p & _ & H).
    destruct (_ && _ : bool); [discriminate|]. by rewrite Hfederated in H.
Qed.

Lemma public_no_pegins tx h v pegins g : inputs_checked tx h v pegins g -> no_evidence tx ->
  forall i l, (forall j input, l !! j = Some input -> tx.(vin) !! (i + j)%nat = Some input) ->
  minted_from tx i l = 0 /\ claims params tx i l = [].
Proof.
  intros Hi He i l. revert i. induction l as [|x l IH]; intros i Hl; cbn [minted_from claims]; [done|].
  destruct (IH (S i)) as [IH1 IH2]. { intros j input Hj. rewrite Nat.add_succ_comm. by apply Hl. }
  specialize (Hl 0%nat x eq_refl). rewrite Nat.add_0_r in Hl. destruct (m_is_pegin x) eqn:Ex; [|by rewrite IH1, IH2].
  destruct (ic_claims _ _ _ _ _ Hi i x Hl Ex) as (stack & Es & Hc & _). specialize (He i x Hl). unfold carries_evidence in He.
  rewrite Ex, Es in He. cbn [andb] in He. by rewrite (public_claim_evidence _ _ _ Hc) in He.
Qed.

Lemma deposit_credits tx v parsed : IsCoinBase tx = false -> one_deposit tx v -> FindLegacyCheckpoint tx 0 = None ->
  ParseV2Deposit params tx 0 = Ok parsed -> credits tx parsed.
Proof.
  intros Hcb (input & stack & v1 & E1 & E2 & Hp & He & S & Hver) Hleg Hpar.
  destruct (VerifyDeterministicDeposit_inv params tx 0 v1 (same_inv _ _ S) Hver) as [(c & a & Hc & _)|(parsed' & _ & _ & Hpar' & _ & Ht)]; [congruence|].
  assert (parsed' = parsed) as -> by congruence.
  destruct (ParseV2Deposit_inv _ _ _ _ Hpar) as (input' & stack' & D & P & proof & hs & F1 & F2 & Hd).
  rewrite E1 in F1. rewrite E2 in F2. injection F1 as <-. injection F2 as <-.
  destruct (VerifyDepositTransaction_pays _ _ _ Ht) as [HF Hs]. destruct (vd_witness _ _ _ _ _ _ _ _ Hd) as (claim & Hw).
  assert (Hm : minted tx = a_value (authenticated parsed)).
  { unfold minted. rewrite Hcb, E1. cbn [minted_from]. rewrite Hp, E2. change ([stack] !! 0%nat) with (Some stack). cbn iota.
    rewrite (PeginData_amount _ _ _ _ _ Hw). lia. }
  split; [| |done|done|by rewrite Hm].
  - exists input, stack, D, P, proof, hs. by split_and!.
  - unfold claimed. rewrite Hcb, E1. cbn [claims]. rewrite Hp, E2. change ([stack] !! 0%nat) with (Some stack). cbn iota.
    rewrite deposit_key by (by apply ecx_is_deposit). cbn [app]. by rewrite (proj1 (vd_outpoint _ _ _ _ _ _ _ _ Hd)).
Qed.

Definition treasury_run (v : V) (l : list CTransaction) (v' : V) : Prop :=
  forall s, held params v = Ok (Some s) -> exists s', held params v' = Ok (Some s') /\ credited_path s l s'.

Lemma treasury_run_chain fs l v v' : cache_inv v -> chain_fits fs l v -> connect_chain fs l v = Pass v' ->
  treasury_run v (chain_txs l) v'.
Proof.
  apply (connect_chain_ind treasury_run fs).
  - intros w _ s Hs. exists s. split; [done|constructor].
  - intros w l1 w1 l2 w2 R1 R2 s Hs. destruct (R1 s Hs) as (s1 & H1 & P1). destruct (R2 s1 H1) as (s2 & H2 & P2).
    exists s2. split; [done|by eapply path_app].
  - intros parent h w tx w1 l2 w2 Hw Hf (fees & pegins & fees' & pegins' & undo & H & Hco) R s Hs.
    destruct (connect_tx_connected _ _ _ _ _ _ _ _ _ _ _ Hw Hf H) as [_ Hi].
    destruct (co_held _ _ _ _ _ Hco) as [[He Hh]|(Hcb & He & b & a & Hb & Hm & Ha)].
    + rewrite Hs in Hh. destruct (R s Hh) as (s' & Hs' & HP). exists s'. split; [done|].
      assert (Hz : minted tx = 0 /\ claimed tx = []).
      { unfold minted, claimed. destruct (IsCoinBase tx) eqn:Hcb; [done|]. destruct He as [?|He]; [congruence|].
        destruct (Hi eq_refl) as (g & Hg & _). apply (public_no_pegins _ _ _ _ _ Hg He). by intros j input. }
      destruct Hz. by apply path_plain.
    + rewrite Hs in Hb. injection Hb as <-. destruct Hm as [(c & _ & [=] & _)|(parsed & Hleg & Hpar & [= ->] & ->)].
      destruct (R _ Ha) as (s' & Hs' & HP). exists s'. split; [done|]. eapply path_deposit; [|done|exact HP].
      by eapply deposit_credits.
Qed.
End public.

(** C11. No deposit is claimed twice: along any chain of connected blocks, on every network, the keys under which
    peg-ins are recorded are pairwise different, none of them was recorded before, and all of them are
    recorded at the end. *)
Theorem no_deposit_claimed_twice fs l v v' : cache_inv v -> chain_fits fs l v -> connect_chain fs l v = Pass v' ->
  NoDup (concat (map claimed (chain_txs l))) /\
  forall k, k ∈ concat (map claimed (chain_txs l)) -> cache_pegin v k = false /\ cache_pegin v' k = true.
Proof. intros Hv Hf H. destruct (claim_run_chain fs l v v' Hv Hf H) as (N & _ & C & _). by split. Qed.


(** C25. A claimed deposit is anchored in the parent block that the sidechain block commits to: the headers of its
    evidence are a chain with work from the block that contains the deposit up to exactly that parent block. *)
Theorem evidence_is_anchored parent h tx v fees pegins fs r j input :
  connect_tx params deposit_status federated VerifyAmounts parent h tx v fees pegins fs = Pass r -> IsCoinBase tx = false ->
  tx.(vin) !! j = Some input -> carries_evidence params tx j input = true -> FindLegacyCheckpoint tx j = None ->
  exists stack parsed D P proof hs, v2_deposit params stack input.(prevout) parsed D P proof hs /\
    header_chain params hs /\ (ExtractMatches proof.(txn)).(x_matches) = [GetHash D] /\ GetHash D = input.(prevout).(hash) /\
    header_hash (head hs) = Hash (ser_header proof.(mb_header)) /\ parent = Ok (header_hash (list.last hs)).
Proof.
  intros H Hcb Hj He Hleg. unfold connect_tx in H. rewrite Hcb in H.
  destruct (check_anchors params tx parent 0 (vin tx)) as [[]|] eqn:Ha; [|discriminate]. clear H.
  assert (G : forall l i, l !! j = Some input -> carries_evidence params tx (i + j) input = true -> check_anchors params tx parent i l = Ok tt ->
    exists expected, parent = Ok expected /\ VerifyDepositEvidenceAnchor params tx (i + j) expected = Ok tt).
  { clear. revert j. intros j l. revert j. induction l as [|x l IH]; intros j i Hl He H; [done|]. cbn [check_anchors] in H.
    apply bind_Ok in H as ([] & Hx & H). destruct j as [|j].
    - injection Hl as ->. rewrite Nat.add_0_r in *. rewrite He in Hx. by apply bind_Ok in Hx as (e & -> & Hx); exists e.
    - rewrite <- Nat.add_succ_comm in *. by apply IH. }
  destruct (G _ 0%nat Hj He Ha) as (expected & -> & Hv). cbn [Nat.add] in Hv. unfold VerifyDepositEvidenceAnchor in Hv. rewrite Hleg in Hv.
  apply bind_Ok in Hv as ([] & _ & Hv). apply bind_Ok in Hv as (parsed & Hpar & Hv). apply ensure_Ok, Z.eqb_eq in Hv.
  destruct (ParseV2Deposit_inv _ _ _ _ Hpar) as (input' & stack & D & P & proof & hs & E1 & _ & Hd).
  rewrite Hj in E1. injection E1 as <-. exists stack, parsed, D, P, proof, hs. destruct (vd_headers _ _ _ _ _ _ _ _ Hd) as (H1 & H2 & H3).
  split_and!; [exact Hd|exact H1|apply Hd|apply Hd|exact H2|]. by rewrite H3, Hv.
Qed.
(** ** Undoing it *)
Context (connect_genesis_outputs : bool) (MAX_OUTPUTS_PER_BLOCK : nat).
Lemma claim_undo tx h v pegins g j input stack : inputs_checked tx h v pegins g ->
  (forall s o', federated s o' true = true -> federated s o' false = true) ->
  tx.(vin) !! j = Some input -> input.(m_is_pegin) = true -> tx.(pegin_witness) !! j = Some stack ->
  undo_valid params deposit_status federated stack input.(prevout) = true.
Proof.
  intros Hi Hfed Hj Hp Es. destruct (ic_claims _ _ _ _ _ Hi j input Hj Hp) as (st & Es' & Hc & _).
  rewrite Es in Es'. injection Es' as <-. by eapply valid_undo.
Qed.

(** The view after the outputs are removed. *)
Lemma remove_connected tx h v v' undo w : tx_fits v tx -> connected tx h v v' undo -> alike params v' w ->
  exists w1, remove_outputs tx h 0 tx.(vout) w = (w1, true) /\ cache_inv w1 /\
    (forall o, o <> CTIP_STATE_OUTPOINT -> cache_coin w1 o = if decide (o ∈ taken tx) then None else cache_coin v o) /\
    (forall k, k.1 <> 0 -> cache_pegin w1 k = if decide (k ∈ claimed tx) then true else cache_pegin v k) /\
    held params w1 = held params v'.
Proof.
  intros Hf [I C P _ _] [Iw Cw Pw Hw]. pose proof (remove_outputs_spec tx h (vout tx) 0 w Iw) as R.
  destruct (remove_outputs tx h 0 (vout tx) w) as [w1 clean]. destruct R as (-> & I1 & C1 & P1).
  { intros o c Ho. pose proof (created_not_ctip _ _ _ _ _ _ (tf_reserved _ _ Hf) Ho). rewrite Cw, C by done. by rewrite Ho. }
  exists w1. split_and!; [done..| | |].
  - intros o Ho. rewrite C1. destruct (created tx h 0 (vout tx) o) eqn:E.
    + assert (Hn : cache_coin v o = None).
      { pose proof (created_txid _ _ _ _ _ _ E) as Ht. destruct o as [a b]. cbn in Ht. rewrite Ht. apply (tf_fresh _ _ Hf). }
      rewrite Hn. by case_decide.
    + rewrite Cw, C by done. by rewrite E.
  - intros k Hk. by rewrite P1, Pw, P.
  - rewrite <- Hw. apply held_eq. rewrite C1. destruct (created tx h 0 (vout tx) CTIP_STATE_OUTPOINT) eqn:E; [|done].
    by apply created_not_ctip in E; [|apply Hf].
Qed.

Abbreviation undo_tx := (disconnect_tx params deposit_status federated connect_genesis_outputs MAX_OUTPUTS_PER_BLOCK).

Lemma undo_plain tx h v pegins g v' undo w : (forall s o', federated s o' true = true -> federated s o' false = true) ->
  IsCoinBase tx = false -> tx_fits v tx -> inputs_checked tx h v pegins g -> connected tx h v v' undo -> alike params v' w ->
  no_evidence tx -> held params v' = held params v -> exists v2, undo_tx h tx undo w = Ok (v2, true) /\ alike params v v2.
Proof.
  intros Hfed Hcb Hf Hi Hco Hw He Hh. destruct (remove_connected _ _ _ _ _ _ Hf Hco Hw) as (w1 & E1 & I1 & C1 & P1 & H1).
  pose proof (co_undo _ _ _ _ _ Hco Hcb) as HF. unfold taken, claimed in *. rewrite Hcb in *.
  assert (Hct : ~ (CTIP_STATE_OUTPOINT ∈ spends (vin tx))).
  { intros (x & Hx & Hp & E)%spends_elem. by apply (ic_coins _ _ _ _ _ Hi x Hx Hp). }
  destruct (restore_inputs_spec params deposit_status federated connect_genesis_outputs MAX_OUTPUTS_PER_BLOCK tx h v (vin tx) undo 0 w1
    I1 (tf_inputs _ _ Hf) (ic_distinct _ _ _ _ _ Hi) (tf_claims _ _ Hf) HF (tf_restorable _ _ Hf) Hct) as (v2 & E2 & I2 & C2 & P2).
  - intros o Ho. rewrite C1 by (intros ->; done). by rewrite decide_True.
  - intros k Hk. rewrite P1 by exact (proj1 (list.Forall_forall _ _) (tf_claims _ _ Hf) k Hk). by rewrite decide_True.
  - intros j input Hj Hp. destruct (ic_claims _ _ _ _ _ Hi j input Hj Hp) as (stack & Es & _). exists stack.
    split_and!; [done|by eapply claim_undo|]. specialize (He j input Hj). unfold carries_evidence in He. by rewrite Hp, Es in He.
  - unfold disconnect_tx. rewrite E1, Hcb, ensure_bind.
    2:{ apply Z.eqb_eq. unfold len. by rewrite (list.Forall2_length _ _ _ HF). }
    rewrite E2. exists v2. split; [done|]. split; [done| | |].
    + intros o Ho. rewrite C2. case_decide as Hs; [done|]. rewrite C1, decide_False by done. done.
    + intros k Hk. rewrite P2 by done. case_decide as Hs; [symmetry; by apply (ic_unclaimed _ _ _ _ _ Hi)|]. by rewrite P1, decide_False.
    + rewrite <- Hh, <- H1. apply held_eq. by rewrite C2, decide_False.
Qed.

Lemma undo_deposit tx h v pegins g v' undo w before after :
  (forall s o', federated s o' true = true -> federated s o' false = true) ->
  IsCoinBase tx = false -> tx_fits v tx -> inputs_checked tx h v pegins g -> connected tx h v v' undo -> alike params v' w ->
  one_deposit tx v -> held params v = Ok before -> deposit_moves params tx 0 before after -> held params v' = Ok after ->
  exists v2, undo_tx h tx undo w = Ok (v2, true) /\ alike params v v2.
Proof.
  intros Hfed Hcb Hf Hi Hco Hw He Hb Hm Ha. destruct (remove_connected _ _ _ _ _ _ Hf Hco Hw) as (w1 & E1 & I1 & C1 & P1 & H1).
  pose proof (co_undo _ _ _ _ _ Hco Hcb) as HF. unfold taken, claimed in *. rewrite Hcb in *.
  destruct He as (input & stack & _ & Ei & Es & Hp & Hecx & _). assert (Hj : vin tx !! 0%nat = Some input) by (by rewrite Ei).
  assert (Hs : pegin_witness tx !! 0%nat = Some stack) by (by rewrite Es).
  assert (Hcl : claims params tx 0 (vin tx) = [GetPeginSpentKey params stack (prevout input)]).
  { rewrite Ei. cbn [claims]. by rewrite Hp, Hs. }
  assert (Hspends : spends (vin tx) = []) by (rewrite Ei; cbn; by rewrite Hp).
  rewrite Hcl, Hspends in *. assert (Hk : (GetPeginSpentKey params stack (prevout input)).1 <> 0).
  { pose proof (tf_claims _ _ Hf) as K. unfold claims_ok in K. rewrite Hcl in K. by apply list.Forall_cons_1 in K as [K _]. }
  destruct (DisconnectDepositState_moves params Hasset tx 0 w1 h before after v I1 (tf_typed _ _ Hf Hcb 0%nat) Hm Hb) as (w2 & E2 & [I2 C2 P2 H2]).
  { by rewrite H1. }
  rewrite Ei in HF. apply Forall2_cons_inv_l in HF as (x & u & _ & HF & ->). apply Forall2_nil_inv_l in HF as ->.
  destruct (undo_pegin params deposit_status federated connect_genesis_outputs MAX_OUTPUTS_PER_BLOCK w2 input x stack I2 Hp) as (v2 & E3 & I3 & C3 & P3).
  { by eapply claim_undo. }
  { done. }
  { rewrite P2, P1 by done. rewrite decide_True; [done|by left]. }
  unfold disconnect_tx. rewrite E1, Hcb, Ei. cbn [len length mbind result_bind ensure zip zip_with restore_inputs fst snd].
  rewrite Hs. change (default [] (Some stack)) with stack. rewrite Hp, Hecx. cbn [andb].
  change (len [x] =? len [input]) with true. cbn [ensure mbind result_bind fst]. rewrite E2. cbn [mbind result_bind]. rewrite E3.
  exists v2. split; [done|]. split; [done| | |].
  - intros o Ho. rewrite C3, C2, C1 by done. rewrite decide_False; [done|apply not_elem_of_nil].
  - intros k Hkk. rewrite P3 by done. case_decide as Hd.
    + subst k. symmetry. apply (ic_unclaimed _ _ _ _ _ Hi). rewrite Hcl. by left.
    + rewrite P2, P1 by done. rewrite decide_False; [done|]. by rewrite list_elem_of_singleton.
  - rewrite Hb, <- H2. apply held_eq. apply C3.
Qed.

Lemma undo_connected parent h tx v fees pegins fs v' fees' pegins' undo w :
  (forall s o', federated s o' true = true -> federated s o' false = true) -> cache_inv v -> tx_fits v tx ->
  connect_tx params deposit_status federated VerifyAmounts parent h tx v fees pegins fs = Pass (v', fees', pegins', undo) ->
  alike params v' w -> exists v2, undo_tx h tx undo w = Ok (v2, true) /\ alike params v v2.
Proof.
  intros Hfed Hv Hf H Hw. destruct (connect_tx_connected _ _ _ _ _ _ _ _ _ _ _ Hv Hf H) as [Hco Hi].
  destruct (IsCoinBase tx) eqn:Hcb.
  - destruct (remove_connected _ _ _ _ _ _ Hf Hco Hw) as (w1 & E1 & I1 & C1 & P1 & H1). unfold disconnect_tx. rewrite E1, Hcb.
    unfold taken, claimed in *. rewrite Hcb in *. exists w1. split; [done|]. split; [done| | |].
    + intros o Ho. rewrite C1 by done. rewrite decide_False; [done|apply not_elem_of_nil].
    + intros k Hk. rewrite P1 by done. rewrite decide_False; [done|apply not_elem_of_nil].
    + rewrite H1. by destruct (co_held _ _ _ _ _ Hco) as [[_ ?]|[? _]]; [|congruence].
  - destruct (Hi eq_refl) as (g & Hg & _). destruct (co_held _ _ _ _ _ Hco) as [[[?|He] Hh]|(_ & He & b & a & Hb & Hm & Ha)].
    + congruence.
    + by eapply undo_plain.
    + by eapply undo_deposit.
Qed.

Lemma disconnect_connected parent h fs l : (forall s o', federated s o' true = true -> federated s o' false = true) ->
  forall v fees pegins v' undos, cache_inv v -> block_fits v h l ->
  connect_txs params deposit_status federated VerifyAmounts parent h l v fees pegins fs = Pass (v', undos) ->
  cache_inv v' /\ forall w, alike params v' w ->
  exists v2, disconnect_txs params deposit_status federated connect_genesis_outputs MAX_OUTPUTS_PER_BLOCK h (zip l undos) w = Ok (v2, true) /\
    alike params v v2.
Proof.
  intros Hfed. induction l as [|tx l IH]; intros v fees pegins v' undos Hv Hb H; cbn [connect_txs] in H.
  { injection H as <- <-. split; [done|]. intros w Hw. by exists w. }
  apply bind_Pass in H as ([[[v1 fees1] pegins1] undo] & H1 & H). apply bind_Pass in H as ([v2 undos2] & H2 & H).
  injection H as <- <-. cbn [fst snd] in *. pose proof (block_fits_head _ _ _ _ Hb) as Hf.
  destruct (connect_tx_connected _ _ _ _ _ _ _ _ _ _ _ Hv Hf H1) as [Hco _].
  destruct (IH _ _ _ _ _ (co_inv _ _ _ _ _ Hco) (block_fits_tail _ _ _ _ _ _ Hb Hco) H2) as [Hv2 Hun]. split; [done|].
  intros w Hw. destruct (Hun w Hw) as (w1 & E1 & A1). change (zip (tx :: l) (undo :: undos2)) with ((tx, undo) :: zip l undos2).
  cbn [disconnect_txs]. rewrite E1.
  destruct (undo_connected _ _ _ _ _ _ _ _ _ _ _ _ Hfed Hv Hf H1 A1) as (w2 & E2 & A2).
  cbn [mbind result_bind fst snd]. rewrite E2. exists w2. by split.
Qed.

(** C8. Disconnecting a block undoes exactly what connecting it did.  For every block of transactions - spending
    coins, claiming native deposits, claiming deposits with evidence, claiming a historical checkpoint, or
    coinbase - the undo runs cleanly and restores every coin, every mark of a claimed peg-in and the
    treasury output of the public branch, without asking the parent chain again.  The chainstate is any cache
    that keeps its laws; what the code outside the model decides - the status of a native deposit, the balance
    of confidential amounts - does not matter. *)
Theorem disconnect_undoes_block parent h l v fees fs v' undos :
  (forall s o, federated s o true = true -> federated s o false = true) -> cache_inv v -> block_fits v h l ->
  connect_txs params deposit_status federated VerifyAmounts parent h l v fees ∅ fs = Pass (v', undos) ->
  exists v2, disconnect_txs params deposit_status federated connect_genesis_outputs MAX_OUTPUTS_PER_BLOCK h (zip l undos) v' = Ok (v2, true) /\
    alike params v v2.
Proof.
  intros Hfed Hv Hb H. destruct (disconnect_connected parent h fs l Hfed v fees ∅ v' undos Hv Hb H) as [Hv' Hun].
  apply Hun. by apply alike_refl.
Qed.

End transactions.
