(* ===== verification/MintSamples.v ===== *)
(** * Concrete claims

    A treasury transaction on the parent chain, a deposit that spends it and its
    mined block, and the sidechain transaction that claims the deposit with this
    evidence; the theorems on claims apply to it. *)

From S2P Require Import Prelude ArithUint256 Sha256 Script Transaction Confidential ParentMessage BlockMerkle PartialMerkle ParentBlock Coins SideBlock Bmm BmmFacts Pegin Peg PegFacts Mint MintFacts MintTheorems.
Import Pegin Peg Mint.

Module Claim.
Definition treasury_script : bytes := [0xb4; 1; 24; 0x51].
Definition address : bytes := [101; 114; 116; 49].
Definition destination : bytes := [0; 2; 7; 7].

#[local] Instance dest : DestinationEnv := fun a => if bytes_eqb a address then Some destination else None.

Definition params : peg_params := mkPegParams 5 6 (uint256_of (replicate 31 0xff ++ [0x7f])) None.

Definition old_tx : Transaction.CTransaction := mkTx [mkTxIn (mkOutPoint 1 0) [] 0 []] [mkTxOut 1000 treasury_script] 2 0.
Definition old_id : uint256 := Eval vm_compute in GetHash old_tx.

Definition new_tx : Transaction.CTransaction :=
  mkTx [mkTxIn (mkOutPoint old_id 0) [] 0 []] [mkTxOut 1500 treasury_script; mkTxOut 0 (OP_RETURN :: push_data address)] 2 0.
Definition new_id : uint256 := Eval vm_compute in GetHash new_tx.

Definition mined : CBlockHeader := mkHeader 2 0 new_id 1000 0x207fffff 1.
Definition mined_hash : uint256 := Eval vm_compute in Hash (ser_header mined).

Definition evidence : DrivechainDepositEvidence :=
  mkEvidence (SerializeTransaction true new_tx) (ser_merkle_block (mkMerkleBlock mined (CPartialMerkleTree_new [new_id] [true])))
    (SerializeTransaction true old_tx) 9 8 [mined].

Definition stack : list bytes := Eval vm_compute in CreateEvidenceWitness 500 5 6 [OP_TRUE] evidence.

Definition input : CTxIn := mkPeginTxIn (mkOutPoint new_id 0) [] (mkIssuance 0 0 [] []) true.

Definition tx : CTransaction :=
  mkPeginTx 77 [input] [Elements.CTxOut_new 5 490 destination; Elements.CTxOut_new 5 10 []] [stack].

Definition before : CtipState := mkCtip (mkOutPoint old_id 0) 1000 8.

(** A chainstate with nothing but the treasury output. *)
Definition base : CCoinsView :=
  mkView (fun o => if decide (o = CTIP_STATE_OUTPOINT) then Some (ctip_coin params before 3) else None) (fun _ => false).
Definition view : CCoinsViewCache := mkViewCache base ∅.

Definition status (_ : uint256) (_ : Z) (_ : COutPoint) (_ : Z) (_ : bytes) (_ : Z) : DrivechainDepositStatus := INVALID.
Definition federated (_ : list bytes) (_ : COutPoint) (_ : bool) : bool := false.
Definition amounts (_ : list Elements.CTxOut) (_ : CTransaction) : bool := true.

Definition connected_view : verdict (CCoinsViewCache * list (list Coin)) :=
  connect_txs params status federated amounts (Ok mined_hash) 4 [tx] view ∅ ∅ true.

Definition from_pass {A} (d : A) (x : verdict A) : A := match x with Pass a => a | _ => d end.
Definition passed {A} (x : verdict A) : bool := match x with Pass _ => true | _ => false end.

Definition final : CCoinsViewCache * list (list Coin) := from_pass (view, []) connected_view.
Definition final_view : CCoinsViewCache := final.1.
Definition final_undo : list (list Coin) := final.2.

Lemma evidence_connects : connected_view = Pass (final_view, final_undo).
Proof.
  assert (H : passed connected_view = true) by (vm_compute; reflexivity).
  unfold final_view, final_undo, final. revert H. generalize connected_view. intros [[v u]| |] H; [reflexivity|discriminate H|discriminate H].
Qed.

Lemma view_inv : cache_inv view.
Proof.
  split.
  - intros o x. cbn. case_decide; [|done]. intros [= <-]. reflexivity.
  - intros k e H. cbn in H. by rewrite lookup_empty in H.
Qed.

Lemma view_coins o : cache_coin view o = if decide (o = CTIP_STATE_OUTPOINT) then Some (ctip_coin params before 3) else None.
Proof.
  change (view_coin (contents base ∅) o = view_coin base o). unfold contents. cbn [view_coin]. by rewrite lookup_empty.
Qed.

Lemma before_ok : ctip_ok before.
Proof. split; [split|..]; vm_compute; split || intros ?; try discriminate; try reflexivity. Qed.

Lemma asset_ok : uint256_ok params.(pegged_asset).
Proof. split; done. Qed.

Lemma view_holds : held params view = Ok (Some before).
Proof.
  unfold held. rewrite view_coins, decide_True by done. cbn [ctip_of].
  rewrite DecodeCtipState_back; [reflexivity|split; done|exact before_ok].
Qed.

Lemma fits : block_fits params view 4 [tx].
Proof.
  split; [done|by apply list.NoDup_singleton| | |].
  - intros t ->%list_elem_of_singleton. split; [|vm_compute; discriminate]. intros j. rewrite view_coins, decide_False; [done|].
    vm_compute. congruence.
  - intros t ->%list_elem_of_singleton. split_and!.
    + repeat constructor.
    + constructor.
    + constructor; [vm_compute; discriminate|constructor].
    + intros _ i a b Ha Hb. destruct i as [|i]; [|by destruct i]. injection Ha as <-. injection Hb as <-.
      split_and!; [split; vm_compute; split; try discriminate; reflexivity|vm_compute; discriminate|].
      refine (bool_decide_unpack _ _). vm_compute. exact I.
  - intros o x Ho. by rewrite view_coins, decide_False.
Qed.
End Claim.

#[local] Existing Instance Claim.dest.
Abbreviation claim_chain := [(Ok Claim.mined_hash, 4, [Claim.tx])].

Lemma claim_connects : connect_chain Claim.params Claim.status Claim.federated Claim.amounts true claim_chain Claim.view = Pass Claim.final_view.
Proof. cbn [connect_chain]. fold Claim.connected_view. rewrite Claim.evidence_connects. reflexivity. Qed.

Lemma claim_fits : chain_fits Claim.params Claim.status Claim.federated Claim.amounts true claim_chain Claim.view.
Proof. cbn [chain_fits]. fold Claim.connected_view. rewrite Claim.evidence_connects. split; [apply Claim.fits|exact I]. Qed.

Lemma disconnect_undoes_block_witness :
  exists v2, disconnect_txs Claim.params Claim.status Claim.federated false 10 4 (zip [Claim.tx] Claim.final_undo) Claim.final_view = Ok (v2, true) /\
    alike Claim.params Claim.view v2.
Proof.
  apply (disconnect_undoes_block Claim.params Claim.asset_ok Claim.status Claim.federated Claim.amounts false 10
    (Ok Claim.mined_hash) 4 [Claim.tx] Claim.view ∅ true Claim.final_view Claim.final_undo).
  - intros s o H. exact H.
  - exact Claim.view_inv.
  - exact Claim.fits.
  - exact Claim.evidence_connects.
Defined.

Lemma no_deposit_claimed_twice_witness :
  NoDup (concat (map (claimed Claim.params) (chain_txs claim_chain))) /\
  forall k, k ∈ concat (map (claimed Claim.params) (chain_txs claim_chain)) ->
    cache_pegin Claim.view k = false /\ cache_pegin Claim.final_view k = true.
Proof.
  apply (no_deposit_claimed_twice Claim.params Claim.asset_ok Claim.status Claim.federated Claim.amounts true claim_chain).
  - exact Claim.view_inv.
  - exact claim_fits.
  - exact claim_connects.
Defined.


Lemma claim_tx_passes : exists r, connect_tx Claim.params Claim.status Claim.federated Claim.amounts (Ok Claim.mined_hash) 4 Claim.tx Claim.view ∅ ∅ true = Pass r.
Proof.
  pose proof Claim.evidence_connects as H. unfold Claim.connected_view in H. cbn [connect_txs] in H. apply bind_Pass in H as (r & H & _). by exists r.
Qed.

Lemma evidence_is_anchored_witness :
  exists stack parsed D P proof hs, v2_deposit Claim.params stack Claim.input.(prevout) parsed D P proof hs /\
    header_chain Claim.params hs /\ (ExtractMatches proof.(txn)).(x_matches) = [GetHash D] /\ GetHash D = Claim.new_id /\
    header_hash (head hs) = Hash (ser_header proof.(mb_header)) /\ Ok Claim.mined_hash = Ok (header_hash (list.last hs)).
Proof.
  destruct claim_tx_passes as [r H].
  apply (evidence_is_anchored Claim.params Claim.status Claim.federated Claim.amounts (Ok Claim.mined_hash) 4 Claim.tx Claim.view ∅ ∅ true r 0).
  - exact H.
  - reflexivity.
  - reflexivity.
  - vm_compute. reflexivity.
  - reflexivity.
Defined.
