(* ===== verification/Warm.v ===== *)
(** * Warming the parent replay (src/src/mainchainrpc.cpp, src/src/chainparams.cpp)

    [EnsurePinnedDrivechainParentStateThroughLocked] keeps a cache of the parent
    chain's drivechain state synchronised with the parent node: it loads or
    rebuilds the persistent store, detects reorganisations, replays the missing
    blocks and brackets everything with reads of the active chain.
    [GetConfirmedDrivechainDepositStatus] answers from the synchronised store.
    The functions run in a state and error monad over the node's globals.  The
    parent node is an oracle that may answer anything and may change its mind
    between any two requests: each request consumes a tick, and the answers are
    functions of the tick.  Raw blocks pass the modelled authentication. *)

From S2P Require Import Prelude ArithUint256 Sha256 Script Transaction ParentMessage BlockMerkle PartialMerkle Signet ParentBlock ParentState ParentFacts TreasuryFacts ReplayStore StoreFacts Replay Pegin.

Module Warm.
(** ** Configuration *)
Record consensus := mkWarmConsensus {
  drivechain_slot : option Z; proposal_description : bytes; proposal_hash : option uint256; manifest_hash : uint256;
  state_active_hash : option uint256; milestones : Milestones; state_chainwork : uint256;
  unused_max_age : Z; unused_threshold : Z; used_max_age : Z; used_threshold : Z; bundle_max_age : Z; bundle_threshold : Z;
  m6_withdrawal_validation : bool; replay_version : Z; PARENT_REPLAY_VERSION : Z;
  rules_opcode : TreasuryOpcode; rules_m6 : DrivechainM6ReplayRule; rules_schema : Z;
  bootstrap_domain : bytes; bootstrap_commitment : uint256; store_identity : uint256;
  pegin_min_depth : Z; one_confirmation_upgrade : bool }.

(** A slot of the bootstrap state. *)
Record Slot := mkBootSlot { b_slot : Z; b_active : uint256; b_ctip_txid : uint256; b_ctip_vout : Z; b_ctip_value : Z }.

Record DrivechainParentReplayCache := mkCache {
  initialized : bool; epoch : Z; slot_ : Z; c_proposal_hash : uint256; checkpoint_active_proposal_hash : uint256;
  checkpoint_hash : uint256; c_unused_max_age : Z; c_unused_threshold : Z; c_used_max_age : Z; c_used_threshold : Z;
  c_bundle_max_age : Z; c_bundle_threshold : Z; c_replay_version : Z; tip : DrivechainParentReplayTip }.

Definition no_state : DrivechainParentReplayState := mkState empty_slot false 0 0 ∅ ∅.
Definition empty_cache : DrivechainParentReplayCache := mkCache false 0 0 0 0 0 0 0 0 0 0 0 0 (mkTip 0 0 no_state).

(** The work budget of a validation that holds the consensus locks. *)
Record Budget := mkBudget {
  budget_active : bool; replay_steps_remaining : Z; snapshot_authenticated : bool; snapshot_explicit : bool;
  snapshot_height : Z; snapshot_hash : uint256; snapshot_epoch : Z }.

(** The globals, with the number of requests made so far. *)
Record World := mkWorld {
  w_tick : nat; w_cache : DrivechainParentReplayCache; w_store : option DrivechainParentReplayStore; w_rebuild : bool;
  w_epoch_counter : Z; w_published : Z; w_budget : Budget }.

(** What the environment answers at each tick: the parent node, the clock and the disk. *)
Record Oracle := mkOracle {
  o_hash : nat -> Z -> result uint256; o_height : nat -> result Z; o_raw : nat -> uint256 -> result (option bytes);
  o_verified : nat -> uint256 -> result (Z * uint256); o_expired : nat -> bool; o_busy : nat -> bool;
  o_opened : nat -> result DrivechainParentReplayStore; o_append : nat -> bool; o_reset : nat -> ResetIo }.

(** ** The monad *)
Definition M (A : Type) : Type := World -> result A * World.

#[global] Instance M_ret : MRet M := fun A a w => (Ok a, w).
#[global] Instance M_bind : MBind M := fun A B f m w =>
  match m w with (Ok a, w') => f a w' | (Err e, w') => (Err e, w') end.

Definition fail {A} (e : string) : M A := fun w => (Err e, w).
Definition lift {A} (r : result A) : M A := fun w => (r, w).
Definition guard_ (b : bool) (e : string) : M unit := lift (ensure b e).
Definition get : M World := fun w => (Ok w, w).
Definition modify (f : World -> World) : M unit := fun w => (Ok tt, f w).
Definition ask {A} (f : nat -> result A) : M A := fun w =>
  (f w.(w_tick), mkWorld (S w.(w_tick)) w.(w_cache) w.(w_store) w.(w_rebuild) w.(w_epoch_counter) w.(w_published) w.(w_budget)).

Definition with_cache (c : DrivechainParentReplayCache) (w : World) : World :=
  mkWorld w.(w_tick) c w.(w_store) w.(w_rebuild) w.(w_epoch_counter) w.(w_published) w.(w_budget).
Definition with_store (s : option DrivechainParentReplayStore) (w : World) : World :=
  mkWorld w.(w_tick) w.(w_cache) s w.(w_rebuild) w.(w_epoch_counter) w.(w_published) w.(w_budget).
Definition with_rebuild (b : bool) (w : World) : World :=
  mkWorld w.(w_tick) w.(w_cache) w.(w_store) b w.(w_epoch_counter) w.(w_published) w.(w_budget).
Definition with_published (z : Z) (w : World) : World :=
  mkWorld w.(w_tick) w.(w_cache) w.(w_store) w.(w_rebuild) w.(w_epoch_counter) z w.(w_budget).
Definition with_budget (b : Budget) (w : World) : World :=
  mkWorld w.(w_tick) w.(w_cache) w.(w_store) w.(w_rebuild) w.(w_epoch_counter) w.(w_published) b.
Definition next_epoch (w : World) : World :=
  mkWorld w.(w_tick) w.(w_cache) w.(w_store) w.(w_rebuild) (u64 (w.(w_epoch_counter) + 1)) w.(w_published) w.(w_budget).

Definition set_cache (c : DrivechainParentReplayCache) : M unit := modify (with_cache c).
Definition publish (z : Z) : M unit := modify (with_published z).

(** On failure, stop publishing the cache. *)
Definition or_unpublish {A} (r : result A) : M A :=
  match r with Ok a => mret a | Err e => publish 0;; fail e end.

Section warm.
Context {Env : SignatureEnv} (pp : parent_params) (c : consensus) (bootstrap : option (list Slot)) (o : Oracle).

(** ** Requests to the parent node *)
Definition ReadActiveMainchainHash (height : Z) : M uint256 := ask (fun t => o.(o_hash) t height).
Definition ReadActiveMainchainHeight : M Z := ask (fun t => o.(o_height) t).
Definition CheckDrivechainParentDeadline : M unit :=
  ask (fun t => ensure (negb (o.(o_expired) t)) "drivechain parent validation work budget exhausted").

(** The request and the deadline, which is polled once here, throw; the checks of the answer return an error. *)
Definition ReadParentBlock (hash : uint256) : M (result CBlock) :=
  raw ← ask (fun t => o.(o_raw) t hash);
  CheckDrivechainParentDeadline;;
  mret match raw with
       | None => Err "getblock returned non-hex raw block data"
       | Some b => ReadAuthenticatedRawMainchainBlock pp b hash
       end.

Definition ConsumeDrivechainReplayBudget (steps : Z) : M unit :=
  w ← get;
  if negb w.(w_budget).(budget_active) then mret tt
  else
    CheckDrivechainParentDeadline;;
    let b := w.(w_budget) in
    guard_ (negb (b.(replay_steps_remaining) <? steps)) "parent replay needs more uncached blocks than locked validation permits";;
    modify (with_budget (mkBudget true (b.(replay_steps_remaining) - steps) b.(snapshot_authenticated) b.(snapshot_explicit)
                           b.(snapshot_height) b.(snapshot_hash) b.(snapshot_epoch))).

Definition ShouldReplaceDrivechainReplaySnapshot (current_authenticated : bool) (current_height : Z)
    (current_explicit_target next_explicit_target : bool) (next_height : Z) : bool :=
  if negb current_authenticated || next_explicit_target then true
  else if current_explicit_target then false else current_height <=? next_height.

Definition RecordDrivechainReplaySnapshot (height : Z) (hash : uint256) (epoch_ : Z) (explicit_target : bool) : M unit :=
  w ← get;
  let b := w.(w_budget) in
  if negb b.(budget_active) then mret tt
  else if negb (ShouldReplaceDrivechainReplaySnapshot b.(snapshot_authenticated) b.(snapshot_height) b.(snapshot_explicit)
                  explicit_target height) then mret tt
  else modify (with_budget (mkBudget true b.(replay_steps_remaining) true explicit_target height hash epoch_)).

(** ** Identity *)
Definition HasPinnedDrivechainParentState : bool :=
  bool_decide (is_Some c.(drivechain_slot)) && bool_decide (is_Some c.(proposal_hash)) && negb (IsNull c.(milestones).(ms_state_hash)).

Definition IsCanonicalDrivechainParentCheckpointCtip (txid : uint256) (vout value : Z) : bool :=
  (IsNull txid && (vout =? UINT32_MAX) && (value =? 0)) ||
  (negb (IsNull txid) && negb (vout =? UINT32_MAX) && (0 <? value) && MoneyRange value).

Definition IsCanonicalDrivechainParentCheckpointIdentity : bool :=
  let m := c.(milestones) in
  let active_null := match c.(state_active_hash) with None => true | Some h => IsNull h end in
  IsCanonicalDrivechainParentCheckpointCtip m.(ms_ctip_txid) m.(ms_ctip_vout) m.(ms_ctip_value) &&
  (if bytes_eqb m.(ms_description) [] && active_null && (m.(ms_proposal_height) =? 0) && IsNull m.(ms_proposal_block) &&
      (m.(ms_activation_height) =? 0) && IsNull m.(ms_activation_block)
   then IsNull m.(ms_ctip_txid)
   else negb (bytes_eqb m.(ms_description) []) && negb active_null &&
        (Hash m.(ms_description) =? default 0 c.(state_active_hash)) &&
        negb (IsNull m.(ms_proposal_block)) && negb (IsNull m.(ms_activation_block)) &&
        (m.(ms_proposal_height) <? m.(ms_activation_height)) && (m.(ms_activation_height) <=? m.(ms_state_height))).

Definition DrivechainWithdrawalValidationEnabled : bool :=
  bool_decide (is_Some c.(drivechain_slot)) && c.(m6_withdrawal_validation).

(** The conditions under which a cache may be initialised. *)
Definition launch_identity_ok : bool :=
  negb (bytes_eqb c.(proposal_description) [] || IsNull (default 0 c.(proposal_hash)) ||
        negb (Hash c.(proposal_description) =? default 0 c.(proposal_hash)) || IsNull c.(manifest_hash) ||
        negb IsCanonicalDrivechainParentCheckpointIdentity || IsNull c.(state_chainwork) ||
        (c.(unused_max_age) =? 0) || (c.(unused_threshold) =? 0) || (c.(unused_max_age) <=? c.(unused_threshold)) ||
        (c.(used_max_age) =? 0) || (c.(used_threshold) =? 0) || (c.(used_max_age) <=? c.(used_threshold)) ||
        (c.(bundle_max_age) =? 0) || (c.(bundle_threshold) =? 0) || (c.(bundle_max_age) <=? c.(bundle_threshold)) ||
        negb DrivechainWithdrawalValidationEnabled || negb (c.(replay_version) =? c.(PARENT_REPLAY_VERSION))).

Definition ReplayCacheMatchesConfiguredIdentity (cache : DrivechainParentReplayCache) : bool :=
  match c.(drivechain_slot), c.(proposal_hash) with
  | Some s, Some ph =>
      cache.(initialized) && (cache.(slot_) =? s) && (cache.(c_proposal_hash) =? ph) &&
      (cache.(checkpoint_active_proposal_hash) =? default 0 c.(state_active_hash)) &&
      (cache.(checkpoint_hash) =? c.(milestones).(ms_state_hash)) &&
      (cache.(c_unused_max_age) =? c.(unused_max_age)) && (cache.(c_unused_threshold) =? c.(unused_threshold)) &&
      (cache.(c_used_max_age) =? c.(used_max_age)) && (cache.(c_used_threshold) =? c.(used_threshold)) &&
      (cache.(c_bundle_max_age) =? c.(bundle_max_age)) && (cache.(c_bundle_threshold) =? c.(bundle_threshold)) &&
      (cache.(c_replay_version) =? c.(replay_version))
  | _, _ => false
  end.

Definition ConfigureDrivechainParentReplayCacheIdentity : M unit :=
  modify next_epoch;;
  w ← get;
  set_cache (mkCache true w.(w_epoch_counter) (default 0 c.(drivechain_slot)) (default 0 c.(proposal_hash))
               (default 0 c.(state_active_hash)) c.(milestones).(ms_state_hash) c.(unused_max_age) c.(unused_threshold)
               c.(used_max_age) c.(used_threshold) c.(bundle_max_age) c.(bundle_threshold) c.(replay_version)
               (mkTip 0 0 no_state)).

Definition with_tip (cache : DrivechainParentReplayCache) (t : DrivechainParentReplayTip) : DrivechainParentReplayCache :=
  mkCache cache.(initialized) cache.(epoch) cache.(slot_) cache.(c_proposal_hash) cache.(checkpoint_active_proposal_hash)
    cache.(checkpoint_hash) cache.(c_unused_max_age) cache.(c_unused_threshold) cache.(c_used_max_age) cache.(c_used_threshold)
    cache.(c_bundle_max_age) cache.(c_bundle_threshold) cache.(c_replay_version) t.

(** The rules of the replay for a slot and proposal. *)
Definition rules (s : Z) (ph : uint256) : ReplayParams :=
  mkParams s ph c.(unused_max_age) c.(unused_threshold) c.(used_max_age) c.(used_threshold) c.(bundle_max_age)
    c.(bundle_threshold) c.(rules_opcode) c.(rules_m6).

(** ** Initialising the cache *)
Definition slot_has_ctip (s : Slot) : bool := negb (IsNull s.(b_ctip_txid)).

Definition bootstrap_payload (slots : list Slot) : bytes :=
  let m := c.(milestones) in
  ser_bytes c.(bootstrap_domain) ++ le_encode 4 m.(ms_state_height) ++ uint256_bytes m.(ms_state_hash) ++
  uint256_bytes c.(state_chainwork) ++ le_encode 4 (len slots) ++
  concat (map (fun s =>
    [s.(b_slot)] ++ uint256_bytes s.(b_active) ++ [if slot_has_ctip s then 1 else 0] ++
    (if slot_has_ctip s then uint256_bytes s.(b_ctip_txid) ++ le_encode 4 s.(b_ctip_vout) ++ le_encode 8 (u64 s.(b_ctip_value))
     else [])) slots).

Definition bootstrap_slot (own_slot : Z) (st : gmap Z DrivechainOtherSlotReplayState) (s : Slot)
    : result (gmap Z DrivechainOtherSlotReplayState) :=
  ensure (negb (s.(b_slot) =? own_slot)) "parent replay bootstrap contains an invalid global slot";;
  ensure (negb (IsNull s.(b_active))) "parent replay bootstrap contains a null active proposal";;
  ensure (slot_has_ctip s || negb (negb (s.(b_ctip_vout) =? NULL_INDEX) || negb (s.(b_ctip_value) =? 0)))
    "parent replay bootstrap has a malformed absent CTIP";;
  ensure (negb (bool_decide (is_Some (st !! s.(b_slot))))) "parent replay bootstrap repeats a global slot";;
  Ok (<[s.(b_slot) := mkSlot s.(b_active) ∅ [] (if slot_has_ctip s then Some (mkOutPoint s.(b_ctip_txid) s.(b_ctip_vout)) else None)
                       (if slot_has_ctip s then s.(b_ctip_value) else 0)]> st).

Definition bootstrap_state (own_slot : Z) (slots : list Slot) : result DrivechainParentReplayState :=
  ensure (negb (IsNull c.(bootstrap_commitment) || negb (Hash (bootstrap_payload slots) =? c.(bootstrap_commitment))))
    "parent replay bootstrap state does not match its identity commitment";;
  others ← foldM (bootstrap_slot own_slot) ∅ slots;
  Ok (mkState empty_slot false 0 0 others ∅).

(** Reset the store to a seed and adopt it; on failure the cache is emptied. *)
Definition or_empty {A} (r : result A) : M A := match r with Ok a => mret a | Err e => set_cache empty_cache;; fail e end.

Definition adopt_seed (seed : DrivechainParentReplayTip) : M unit :=
  w ← get;
  set_cache (with_tip w.(w_cache) seed);;
  match w.(w_store) with
  | None => fail "null store"
  | Some s =>
      io ← ask (fun t => Ok (o.(o_reset) t));
      let '(r, s') := Reset_ s c.(store_identity) seed io in
      modify (with_store (Some s'));;
      or_empty r;;
      modify (with_rebuild false)
  end.

Definition contradicts_checkpoint (cache : DrivechainParentReplayCache) (t : DrivechainParentReplayTip) : bool :=
  let m := c.(milestones) in let st := t.(tip_state) in
  (m.(ms_state_height) <=? t.(tip_height)) &&
  ((negb (bytes_eqb m.(ms_description) []) && IsNull st.(own).(active_proposal_hash)) ||
   (st.(required_proposal_activated) &&
    (negb (st.(own).(active_proposal_hash) =? cache.(c_proposal_hash)) || IsNull st.(required_activation_block_hash) ||
     (t.(tip_height) <? st.(required_activation_height)))) ||
   (negb (IsNull m.(ms_ctip_txid)) && negb (has_ctip st.(own)))).

(** [true] when the stored tip was adopted. *)
Definition try_load (force_rebuild : bool) : M bool :=
  w ← get;
  if negb force_rebuild && negb w.(w_rebuild) then
    match w.(w_store) with
    | None => fail "null store"
    | Some s =>
        match Load s c.(store_identity) with
        | LOADED t =>
            if negb (contradicts_checkpoint w.(w_cache) t) then set_cache (with_tip w.(w_cache) t);; mret true
            else mret false
        | _ => mret false
        end
    end
  else mret false.

Definition InitializeDrivechainParentReplayCache (force_rebuild : bool) : M unit :=
  if negb HasPinnedDrivechainParentState then mret tt
  else
    guard_ launch_identity_ok "native drivechain parent launch identity is incomplete or internally inconsistent";;
    active_genesis ← ReadActiveMainchainHash 0;
    guard_ (active_genesis =? pp.(ParentGenesisBlockHash)) "mainchain RPC does not serve the pinned parent genesis";;
    checkpoint_header ← ask (fun t => o.(o_verified) t c.(milestones).(ms_state_hash));
    guard_ ((checkpoint_header.1 =? c.(milestones).(ms_state_height)) && (checkpoint_header.2 =? c.(state_chainwork)))
      "authenticated parent launch checkpoint height or chainwork is not pinned value";;
    ConfigureDrivechainParentReplayCacheIdentity;;
    w ← get;
    (match w.(w_store) with
     | Some _ => mret tt
     | None => s ← ask (fun t => o.(o_opened) t); modify (with_store (Some s))
     end);;
    loaded ← try_load force_rebuild;
    if (loaded : bool) then mret tt
    else match bootstrap with
    | Some slots =>
        st ← or_empty (bootstrap_state (default 0 c.(drivechain_slot)) slots);
        adopt_seed (mkTip c.(milestones).(ms_state_height) c.(milestones).(ms_state_hash) st)
    | None =>
        answer ← ReadParentBlock active_genesis;
        genesis_block ← or_empty answer;
        or_empty (ensure (IsNull genesis_block.(header).(hashPrevBlock)) "authenticated parent genesis unexpectedly has a predecessor");;
        r ← or_empty (ApplyDrivechainParentBlockState (rules (default 0 c.(drivechain_slot)) (default 0 c.(proposal_hash)))
                        genesis_block 0 no_state);
        adopt_seed (mkTip 0 active_genesis r.(r_state))
    end.

(** ** Synchronising the cache with the parent node *)
Definition RequireConfiguredElementsProposalActive (cache : DrivechainParentReplayCache) (target_height : Z) : result unit :=
  let st := cache.(tip).(tip_state) in
  ensure (negb (negb st.(required_proposal_activated) || negb (st.(own).(active_proposal_hash) =? cache.(c_proposal_hash)) ||
                (target_height <? st.(required_activation_height))))
    "configured Elements slot proposal is not active at parent height %u".

(** One block of the replay. *)
Definition replay_block : M unit :=
  CheckDrivechainParentDeadline;;
  w ← get;
  let cache := w.(w_cache) in
  let t := cache.(tip) in
  let height := u32 (t.(tip_height) + 1) in
  let p := rules cache.(slot_) cache.(c_proposal_hash) in
  block_hash ← ReadActiveMainchainHash height;
  answer ← ReadParentBlock block_hash;
  block ← lift answer;
  or_unpublish (ensure (block.(header).(hashPrevBlock) =? t.(tip_hash)) "authenticated parent-state replay is not a contiguous chain");;
  r ← or_unpublish (ApplyDrivechainParentBlockState p block height t.(tip_state));
  or_unpublish (CheckDrivechainParentReplayMilestone p c.(milestones) height block r.(r_state));;
  CheckDrivechainParentDeadline;;
  io ← ask (fun k => Ok (o.(o_append) k));
  let next := mkTip height (GetBlockHash block) r.(r_state) in
  s' ← or_unpublish match w.(w_store) with
       | None => Err "null store"
       | Some s => Append s t next r.(r_deposits) (replay_edge p c.(milestones) t block height) r.(r_withdrawals) r.(r_proposals) io
       end;
  modify (with_store (Some s'));;
  set_cache (with_tip cache next).

Fixpoint replay_blocks (steps : nat) : M unit :=
  match steps with O => mret tt | S k => replay_block;; replay_blocks k end.

(** The iterations of the loop up to the target.  Its counter has 32 bits: with
    the largest target the condition always holds, and the loop ends when the
    iteration after the target fails. *)
Definition replay_steps (height target_height : Z) : nat :=
  Z.to_nat (target_height - height) + (if target_height =? UINT32_MAX then 1 else 0).

Definition require_active (height : Z) (expected : uint256) (e : string) (unpublish : bool) : M unit :=
  h ← ReadActiveMainchainHash height;
  if h =? expected then mret tt else ((if unpublish then publish 0 else mret tt);; fail e).

Definition cache_is_stale (target_height : Z) : M bool :=
  w ← get;
  let t := w.(w_cache).(tip) in
  above ← (if target_height <? t.(tip_height) then tip_height_ ← ReadActiveMainchainHeight; mret (tip_height_ <? t.(tip_height))
           else mret false);
  if (above : bool) then mret true
  else active_cache_hash ← ReadActiveMainchainHash t.(tip_height); mret (negb (active_cache_hash =? t.(tip_hash))).

Definition EnsurePinnedDrivechainParentStateThroughLocked (target_height : Z) (target_hash : uint256)
    (require_elements_active : bool) : M unit :=
  let m := c.(milestones) in
  if negb HasPinnedDrivechainParentState then mret tt
  else
    guard_ (negb (target_height <? m.(ms_state_height))) "parent height %u predates native drivechain launch checkpoint %u";;
    w ← get;
    (if ReplayCacheMatchesConfiguredIdentity w.(w_cache) then mret tt
     else
       guard_ (negb w.(w_budget).(budget_active)) "authenticated parent replay cache is not warmed";;
       publish 0;; set_cache empty_cache;; InitializeDrivechainParentReplayCache false);;
    require_active m.(ms_state_height) m.(ms_state_hash)
      "active parent chain no longer contains the pinned drivechain launch checkpoint" true;;
    stale_cache ← cache_is_stale target_height;
    (if (stale_cache : bool) then
       publish 0;;
       guard_ (negb w.(w_budget).(budget_active)) "authenticated parent replay cache is stale after a parent reorganization";;
       set_cache empty_cache;; InitializeDrivechainParentReplayCache true
     else mret tt);;
    require_active target_height target_hash "requested parent replay target is not active at its claimed height" false;;
    w1 ← get;
    let height := w1.(w_cache).(tip).(tip_height) in
    (if height <? target_height then
       ConsumeDrivechainReplayBudget (target_height - height);; replay_blocks (replay_steps height target_height)
     else mret tt);;
    require_active m.(ms_state_height) m.(ms_state_hash) "parent-chain reorg raced the pinned launch checkpoint check" true;;
    require_active target_height target_hash "parent-chain reorg raced the replay target check" true;;
    w2 ← get;
    let cache := w2.(w_cache) in
    require_active cache.(tip).(tip_height) cache.(tip).(tip_hash) "parent-chain reorg raced the replay cache tip check" true;;
    (if require_elements_active then lift (RequireConfiguredElementsProposalActive cache target_height) else mret tt);;
    CheckDrivechainParentDeadline;;
    publish cache.(epoch).

(** The lock is tried under a budget and awaited otherwise. *)
Definition lock_cache (e : string) : M unit :=
  w ← get;
  if w.(w_budget).(budget_active) then ask (fun t => ensure (negb (o.(o_busy) t)) e) else mret tt.

Definition EnsurePinnedDrivechainParentStateThrough (target_height : Z) (target_hash : uint256)
    (require_elements_active : bool) : M unit :=
  lock_cache "authenticated parent replay cache is busy warming";;
  EnsurePinnedDrivechainParentStateThroughLocked target_height target_hash require_elements_active;;
  w ← get;
  RecordDrivechainReplaySnapshot target_height target_hash w.(w_cache).(epoch) true.

(** ** The status of a deposit *)
Definition CheckConfiguredDrivechainSlot (sidechain_slot_ : Z) : bool :=
  match c.(drivechain_slot) with
  | None => false
  | Some s => negb ((sidechain_slot_ <? 0) || (255 <? sidechain_slot_) || negb (sidechain_slot_ =? s))
  end.

Definition ALPHA_PEGIN_ONE_CONFIRMATION_HEIGHT : Z := 64.

Definition GetDrivechainPeginConfirmationDepth (child_height : Z) : Z :=
  if (ALPHA_PEGIN_ONE_CONFIRMATION_HEIGHT <=? child_height) && c.(one_confirmation_upgrade) then 1 else c.(pegin_min_depth).

Definition replay_identity_ok : bool :=
  negb (negb (bool_decide (is_Some c.(proposal_hash))) || IsNull (default 0 c.(proposal_hash)) || IsNull c.(manifest_hash) ||
        IsNull c.(milestones).(ms_state_hash) || IsNull c.(state_chainwork) ||
        negb IsCanonicalDrivechainParentCheckpointIdentity || (c.(unused_max_age) =? 0) || (c.(unused_threshold) =? 0) ||
        (c.(used_max_age) =? 0) || (c.(used_threshold) =? 0) || (c.(bundle_max_age) =? 0) || (c.(bundle_threshold) =? 0) ||
        negb DrivechainWithdrawalValidationEnabled || negb (c.(replay_version) =? c.(PARENT_REPLAY_VERSION))).

(** What the record of a deposit must satisfy. *)
Definition deposit_matches (d : DrivechainMintableDeposit) (mainchain_block_hash : uint256) (value : Z) (address_ : bytes)
    (activation_height confirmed_through_height child_height : Z) : bool :=
  negb (negb (d.(d_block_hash) =? mainchain_block_hash) || negb (d.(d_value) =? value) || negb (bytes_eqb d.(address) address_)) &&
  negb (d.(d_block_height) <? activation_height) &&
  HasRequiredDrivechainDepositDepth d.(d_block_height) confirmed_through_height
    (Z.max 1 (GetDrivechainPeginConfirmationDepth child_height)).

(** Under a budget with an authenticated snapshot: its height, and whether it is
    the exact boundary of a block; otherwise the height of the cache. *)
Definition snapshot_of (w : World) : result (Z * bool * bool) :=
  let b := w.(w_budget) in
  if b.(budget_active) && b.(snapshot_authenticated) then
    ensure (b.(snapshot_epoch) =? w.(w_cache).(epoch)) "authenticated parent replay cache changed during validation";;
    Ok (b.(snapshot_height), b.(snapshot_explicit), false)
  else Ok (w.(w_cache).(tip).(tip_height), false, true).

(** Stop publishing the cache, empty it and ask for the store to be rebuilt. *)
Definition invalidate : M unit := publish 0;; set_cache empty_cache;; modify (with_rebuild true).

(** The part under the lock; an error is [UNAVAILABLE], as an exception is. *)
Definition confirmed_deposit (mainchain_block_hash : uint256) (o_ : COutPoint) (value : Z) (address_ : bytes)
    (child_height : Z) : M Pegin.DrivechainDepositStatus :=
  lock_cache "authenticated parent replay cache is busy warming";;
  w ← get;
  guard_ (ReplayCacheMatchesConfiguredIdentity w.(w_cache)) "authenticated parent replay cache is not warmed";;
  snapshot ← lift (snapshot_of w);
  let '(confirmed_through_height, explicit_target, needs_standalone_tip_auth) := snapshot in
  lift (RequireConfiguredElementsProposalActive w.(w_cache) confirmed_through_height);;
  match w.(w_store) with
  | None => fail "persistent authenticated parent replay index is not open"
  | Some s =>
      let refused : Pegin.DrivechainDepositStatus := if explicit_target : bool then Pegin.INVALID else Pegin.UNAVAILABLE in
      match ReadDeposit s o_ with
      | CORRUPT => invalidate;; mret Pegin.UNAVAILABLE
      | NOT_FOUND => mret refused
      | FOUND d =>
          if negb (deposit_matches d mainchain_block_hash value address_ w.(w_cache).(tip).(tip_state).(required_activation_height)
                     confirmed_through_height child_height)
          then mret refused
          else
            (if needs_standalone_tip_auth : bool then
               let t := w.(w_cache).(tip) in
               require_active t.(tip_height) t.(tip_hash)
                 "authenticated parent replay cache is stale after a parent reorganization" true;;
               RecordDrivechainReplaySnapshot t.(tip_height) t.(tip_hash) w.(w_cache).(epoch) false
             else mret tt);;
            CheckDrivechainParentDeadline;;
            mret Pegin.VALID
      end
  end.

Definition GetConfirmedDrivechainDepositStatus (mainchain_block_hash : uint256) (sidechain_slot_ : Z) (o_ : COutPoint)
    (value : Z) (address_ : bytes) (child_height : Z) (w : World) : Pegin.DrivechainDepositStatus * World :=
  if negb (CheckConfiguredDrivechainSlot sidechain_slot_) || (value <=? 0) || negb (MoneyRange value) ||
     (len address_ =? 0) || (128 <? len address_) then (Pegin.INVALID, w)
  else if negb replay_identity_ok then (Pegin.UNAVAILABLE, w)
  else match confirmed_deposit mainchain_block_hash o_ value address_ child_height w with
  | (Ok status, w') => (status, w')
  | (Err _, w') => (Pegin.UNAVAILABLE, w')
  end.

(** ** Queries that synchronise first *)
Definition WarmDrivechainParentState : M unit :=
  if negb (bool_decide (is_Some c.(drivechain_slot))) then mret tt
  else
    height ← ReadActiveMainchainHeight;
    tip_hash_ ← ReadActiveMainchainHash height;
    EnsurePinnedDrivechainParentStateThrough height tip_hash_ false.

Definition GetDrivechainSuccessfulWithdrawal (sidechain_slot_ : Z) (m6id_ : uint256) : M (option DrivechainSuccessfulWithdrawal) :=
  guard_ (CheckConfiguredDrivechainSlot sidechain_slot_) "drivechain slot does not match the configured network slot";;
  target_height ← ReadActiveMainchainHeight;
  target_hash ← ReadActiveMainchainHash target_height;
  EnsurePinnedDrivechainParentStateThroughLocked target_height target_hash true;;
  w ← get;
  let t := w.(w_cache).(tip) in
  match w.(w_store) with
  | None => fail "persistent authenticated parent replay index is not open"
  | Some s =>
      result_ ← (match ReadSuccessfulWithdrawal s sidechain_slot_ m6id_ with
                 | CORRUPT => invalidate;; fail "persistent authenticated parent replay successful-withdrawal index is inconsistent"
                 | NOT_FOUND => mret None
                 | FOUND x =>
                     if t.(tip_height) <? x.(s_height) then
                       (invalidate;; fail "persistent authenticated parent replay successful-withdrawal index is inconsistent")
                     else
                       active_withdrawal_hash ← ReadActiveMainchainHash x.(s_height);
                       if active_withdrawal_hash =? x.(s_block_hash) then mret (Some x)
                       else (invalidate;; fail "persistent successful-withdrawal record is not on the active parent chain")
                 end);
      active_cache_hash ← ReadActiveMainchainHash t.(tip_height);
      if active_cache_hash =? t.(tip_hash) then mret result_
      else (invalidate;; fail "parent-chain reorganization raced successful-withdrawal lookup")
  end.
End warm.
End Warm.
