(* ===== verification/WarmFacts.v ===== *)
(** * What the replay driver keeps

    The stores that replays derive: a reset to a seed followed by replayed blocks.
    A program logic for the monad of Warm, whose triples also say what holds when
    the code throws, shows that initialising, synchronising and querying the cache
    keep the invariant that ties the cache to a derived store, whatever the parent
    node and the disk answer. *)

From S2P Require Import Prelude ArithUint256 Sha256 Script Transaction ParentMessage BlockMerkle PartialMerkle Signet ParentBlock ParentState ParentFacts TreasuryFacts ReplayStore StoreFacts Replay ReplayTheorems Pegin Warm.
Import Warm.

(** ** Running a computation *)
Lemma run_bind {A B} (m : M A) (f : A -> M B) w b w' : (m ≫= f) w = (Ok b, w') ->
  exists a w1, m w = (Ok a, w1) /\ f a w1 = (Ok b, w').
Proof. unfold mbind, M_bind. destruct (m w) as [[a|e] w1] eqn:E; [|discriminate]. intros H. by exists a, w1. Qed.

Lemma run_lift {A} (r : result A) w a w' : lift r w = (Ok a, w') -> r = Ok a /\ w' = w.
Proof. by intros [= -> ->]. Qed.

Lemma run_guard b e w u w' : guard_ b e w = (Ok u, w') -> b = true /\ w' = w.
Proof. intros [H ->]%run_lift. by apply ensure_Ok in H. Qed.

Definition ticked (w : World) : World :=
  mkWorld (S w.(w_tick)) w.(w_cache) w.(w_store) w.(w_rebuild) w.(w_epoch_counter) w.(w_published) w.(w_budget).

Lemma run_ask {A} (f : nat -> result A) w a w' : ask f w = (Ok a, w') -> f w.(w_tick) = Ok a /\ w' = ticked w.
Proof. unfold ask. intros H. injection H as H1 H2. by split. Qed.

Section facts.
Context {Env : SignatureEnv} (pp : parent_params) (c : consensus) (bootstrap : option (list Slot)) (o : Oracle).

Definition required : ReplayParams := rules c (default 0 c.(drivechain_slot)) (default 0 c.(proposal_hash)).

(** ** Derived stores *)
Definition is_seed (t : DrivechainParentReplayTip) : Prop :=
  match bootstrap with
  | Some slots => exists st, bootstrap_state c (default 0 c.(drivechain_slot)) slots = Ok st /\
      t = mkTip c.(milestones).(ms_state_height) c.(milestones).(ms_state_hash) st
  | None => exists raw block r, ReadAuthenticatedRawMainchainBlock pp raw pp.(ParentGenesisBlockHash) = Ok block /\
      block.(header).(hashPrevBlock) = 0 /\
      ApplyDrivechainParentBlockState required block 0 no_state = Ok r /\ t = mkTip 0 pp.(ParentGenesisBlockHash) r.(r_state)
  end.

(** The store [s] with tip [t] was seeded and then replayed [blocks], which are
    authenticated and satisfy [B] in the state they are applied to, yielding the
    deposits [ds] and the withdrawals [ws]. *)
Inductive derived (B : DrivechainParentReplayState -> CBlock -> Prop) (t0 : DrivechainParentReplayTip)
    : DrivechainParentReplayStore -> DrivechainParentReplayTip -> list CBlock ->
      list DrivechainMintableDeposit -> list DrivechainSuccessfulWithdrawal -> Prop :=
| derived_seed s0 s : is_seed t0 -> tip_typed t0 -> Reset_ s0 c.(store_identity) t0 ResetOk = (Ok tt, s) ->
    derived B t0 s t0 [] [] []
| derived_block s t blocks ds ws raw block r io s' next : derived B t0 s t blocks ds ws -> B t.(tip_state) block ->
    ReadAuthenticatedRawMainchainBlock pp raw (GetBlockHash block) = Ok block ->
    ApplyDrivechainParentBlockState required block (u32 (t.(tip_height) + 1)) t.(tip_state) = Ok r ->
    replay_step required c.(milestones) io s t block = Ok (s', next) ->
    derived B t0 s' next (blocks ++ [block]) (ds ++ r.(r_deposits)) (ws ++ r.(r_withdrawals)).

Definition any (_ : DrivechainParentReplayState) (_ : CBlock) : Prop := True.

Lemma derived_any B t0 s t blocks ds ws : derived B t0 s t blocks ds ws -> derived any t0 s t blocks ds ws.
Proof. induction 1; [by eapply derived_seed|by eapply derived_block]. Qed.

(** What one replayed block did. *)
Lemma replay_step_elim io s t block s' next r : replay_step required c.(milestones) io s t block = Ok (s', next) ->
  ApplyDrivechainParentBlockState required block (u32 (t.(tip_height) + 1)) t.(tip_state) = Ok r ->
  block.(header).(hashPrevBlock) = t.(tip_hash) /\ next = mkTip (u32 (t.(tip_height) + 1)) (GetBlockHash block) r.(r_state) /\
  exists edge, Append s t next r.(r_deposits) edge r.(r_withdrawals) r.(r_proposals) io = Ok s'.
Proof.
  unfold replay_step. intros H Hr. rewrite Hr in H. apply bind_Ok in H as ([] & Hp & H). apply ensure_Ok, Z.eqb_eq in Hp.
  apply bind_Ok in H as (r' & [= <-] & H). apply bind_Ok in H as ([] & _ & H). apply bind_Ok in H as (s1 & Ha & H).
  injection H as <- <-. split_and!; [exact Hp|reflexivity|]. eexists. exact Ha.
Qed.

Lemma derived_run B t0 s t blocks ds ws : derived B t0 s t blocks ds ws -> store_run c.(store_identity) s t.
Proof.
  induction 1 as [s0 s _ Ht Hr|s t blocks ds ws raw block r io s' next _ IH _ _ Hr Hs]; [by eapply run_reset|].
  destruct (replay_step_elim _ _ _ _ _ _ _ Hs Hr) as (_ & _ & edge & Ha). by eapply run_append.
Qed.

Lemma derived_loads B t0 s t blocks ds ws : derived B t0 s t blocks ds ws ->
  Load s c.(store_identity) = LOADED t /\ tip_typed t.
Proof.
  intros H. destruct (store_run_inv _ _ _ (derived_run _ _ _ _ _ _ _ H)) as (db & Hi & Ht). split; [|done]. by eapply Load_inv.
Qed.

Lemma derived_height B t0 s t blocks ds ws : derived B t0 s t blocks ds ws ->
  t.(tip_height) = t0.(tip_height) + len blocks.
Proof.
  induction 1 as [|s t blocks ds ws raw block r io s' next Hd IH _ _ Hr Hs]; [unfold len; cbn [length]; lia|].
  destruct (replay_step_elim _ _ _ _ _ _ _ Hs Hr) as (_ & _ & edge & Ha). apply Append_elim in Ha as (db & _ & Ha & _).
  destruct (derived_loads _ _ _ _ _ _ _ Hd) as [_ Ht]. destruct (append_height _ _ _ _ _ _ _ Ht Ha) as [-> _].
  rewrite len_app. unfold len in *. cbn [length]. lia.
Qed.

(** The records of the store are exactly the deposits of the blocks. *)
Lemma derived_table B t0 s t blocks ds ws : derived B t0 s t blocks ds ws -> NoDup (map outpoint ds) /\
  exists db, store_inv c.(store_identity) t s db /\
    forall k d, db.(db_deposits) !! k = Some (Value d) <-> d ∈ ds /\ d.(outpoint) = k.
Proof.
  induction 1 as [s0 s Hseed Ht Hr|s t blocks ds ws raw block r io s' next Hd IH _ _ Hr Hs].
  - destruct (store_run_inv _ _ _ (run_reset _ _ _ _ Ht Hr)) as (db & Hi & _). split; [constructor|].
    exists db. split; [done|]. unfold Reset_ in Hr. destruct (IsSaneTip t0); [|discriminate]. cbn [negb] in Hr. injection Hr as <-.
    pose proof (so_open _ _ _ _ Hi) as E. cbn in E. injection E as <-. cbn [db_deposits]. intros k d.
    rewrite lookup_empty. split; [discriminate|]. by intros [H%elem_of_nil _].
  - destruct IH as (Hnd & db & Hi & Hk). destruct (derived_loads _ _ _ _ _ _ _ Hd) as [_ Htt].
    destruct (replay_step_elim _ _ _ _ _ _ _ Hs Hr) as (_ & _ & edge & Ha).
    pose proof (Append_inv _ _ _ _ _ _ _ _ _ _ _ Htt Hi Ha) as [Hi' _].
    apply Append_elim in Ha as (db1 & Hdb & Ha & _). rewrite (so_open _ _ _ _ Hi) in Hdb. injection Hdb as <-.
    destruct (proj1 (check_deposits_iff _ _ _ _) (ao_deposits _ _ _ _ _ _ _ Ha)) as [Hc Hn]. rewrite list.Forall_forall in Hc.
    split.
    { rewrite map_app. apply list.NoDup_app. split_and!; [done| |done]. intros x (d & -> & Hin)%list_elem_of_fmap (d2 & E & Hin2)%list_elem_of_fmap.
      destruct (Hc d2 Hin2) as (_ & _ & _ & _ & Hnone). rewrite <- E in Hnone.
      pose proof (proj2 (Hk (outpoint d) d) (conj Hin eq_refl)). congruence. }
    eexists. split; [exact Hi'|]. intros k d.
    destruct (write_batch_tables (m_schema_version s) db next (r_deposits r) edge (r_withdrawals r)) as [-> _].
    destruct (write_deposits_lookup (r_deposits r) (db_deposits db) k Hn) as [W1 W2]. rewrite elem_of_app.
    destruct (decide (k ∈ map outpoint (r_deposits r))) as [Hin|Hin].
    + apply list_elem_of_fmap in Hin as (d' & -> & Hd'). rewrite (W1 d' Hd' eq_refl).
      destruct (Hc d' Hd') as (_ & _ & _ & _ & Hnone). split.
      * intros [= <-]. split; [by right|done].
      * intros [[Hin|Hin] E]; [|by rewrite <- (W1 d Hin E), (W1 d' Hd' eq_refl)].
        pose proof (proj2 (Hk _ d) (conj Hin E)). congruence.
    + rewrite (W2 Hin), Hk. split; [intros [? ?]; split; [by left|done]|]. intros [[?|Hd'] E]; [done|].
      destruct Hin. apply list_elem_of_fmap. by exists d.
Qed.

Lemma derived_reads B t0 s t blocks ds ws k d : derived B t0 s t blocks ds ws ->
  ReadDeposit s k = FOUND d <-> d ∈ ds /\ d.(outpoint) = k.
Proof.
  intros H. destruct (derived_table _ _ _ _ _ _ _ H) as (_ & db & Hi & Hk). rewrite <- Hk.
  exact (ReadDeposit_iff s db _ k d (so_open _ _ _ _ Hi) (to_deposits _ _ (so_tables _ _ _ _ Hi))).
Qed.

(** The withdrawal recorded under a key is the first of the blocks with that key. *)
Definition first_success (k : Z * Z) (ws : list DrivechainSuccessfulWithdrawal) : option DrivechainSuccessfulWithdrawal :=
  head (filter (fun w => wkey w = k) ws).

Lemma first_success_app k l1 l2 :
  first_success k (l1 ++ l2) = match first_success k l1 with Some w => Some w | None => first_success k l2 end.
Proof. unfold first_success. rewrite list.filter_app. by destruct (filter _ l1). Qed.

Lemma first_success_elem k l w : first_success k l = Some w -> w ∈ l /\ wkey w = k.
Proof.
  unfold first_success. intros H. destruct (filter _ l) as [|x r] eqn:E; [done|]. injection H as <-.
  assert (Hin : x ∈ filter (fun w => wkey w = k) l) by (rewrite E; left). by apply list_elem_of_filter in Hin as [? ?].
Qed.

Lemma first_success_none k l : first_success k l = None -> k ∉ map wkey l.
Proof.
  unfold first_success. destruct (filter _ l) as [|x r] eqn:E; [|done]. intros _ (w & -> & Hw)%list_elem_of_fmap.
  assert (Hin : w ∈ filter (fun w' => wkey w' = wkey w) l) by (by apply list_elem_of_filter). rewrite E in Hin. by apply elem_of_nil in Hin.
Qed.

Lemma derived_successes B t0 s t blocks ds ws : derived B t0 s t blocks ds ws ->
  exists db, store_inv c.(store_identity) t s db /\ forall k, db.(db_successes) !! k = Value <$> first_success k ws.
Proof.
  induction 1 as [s0 s Hseed Ht Hr|s t blocks ds ws raw block r io s' next Hd IH _ _ Hr Hs].
  - destruct (store_run_inv _ _ _ (run_reset _ _ _ _ Ht Hr)) as (db & Hi & _). exists db. split; [done|].
    unfold Reset_ in Hr. destruct (IsSaneTip t0); [|discriminate]. cbn [negb] in Hr. injection Hr as <-.
    pose proof (so_open _ _ _ _ Hi) as E. cbn in E. injection E as <-. done.
  - destruct IH as (db & Hi & Hk). destruct (derived_loads _ _ _ _ _ _ _ Hd) as [_ Htt].
    destruct (replay_step_elim _ _ _ _ _ _ _ Hs Hr) as (_ & _ & edge & Ha).
    pose proof (Append_inv _ _ _ _ _ _ _ _ _ _ _ Htt Hi Ha) as [Hi' _].
    apply Append_elim in Ha as (db1 & Hdb & Ha & _). rewrite (so_open _ _ _ _ Hi) in Hdb. injection Hdb as <-.
    eexists. split; [exact Hi'|]. intros k. rewrite first_success_app.
    destruct (first_success k ws) as [w|] eqn:E1; [|destruct (first_success k (r_withdrawals r)) as [w|] eqn:E2].
    + apply (write_batch_keeps _ _ _ _ _ _ _ Ha). by rewrite Hk, E1.
    + apply first_success_elem in E2 as [Hin <-]. apply (write_batch_adds _ _ _ _ _ _ _ Ha); [done|]. by rewrite Hk, E1.
    + destruct (proj1 (check_successes_iff _ _ _ _ _) (ao_successes _ _ _ _ _ _ _ Ha)) as [_ Hn].
      unfold write_batch. cbn [db_successes]. rewrite (proj2 (write_successes_lookup _ _ _ _ k Hn)).
      * cbn [db_successes]. by rewrite Hk, E1.
      * left. by apply first_success_none.
Qed.

Lemma derived_reads_success B t0 s t blocks ds ws sl id : derived B t0 s t blocks ds ws ->
  ReadSuccessfulWithdrawal s sl id = match first_success (sl, id) ws with Some w => FOUND w | None => NOT_FOUND end.
Proof.
  intros H. destruct (derived_successes _ _ _ _ _ _ _ H) as (db & Hi & Hk). specialize (Hk (sl, id)).
  destruct (first_success (sl, id) ws) as [w|] eqn:E.
  - exact (proj2 (ReadSuccess_iff s db _ sl id w (so_open _ _ _ _ Hi) (to_successes _ _ (so_tables _ _ _ _ Hi))) Hk).
  - unfold ReadSuccessfulWithdrawal, with_db. rewrite (so_open _ _ _ _ Hi), Hk. reflexivity.
Qed.

(** Where a deposit comes from. *)
Lemma derived_origin B t0 s t blocks ds ws d : derived B t0 s t blocks ds ws -> d ∈ ds ->
  exists i block, blocks !! i = Some block /\ d.(d_block_hash) = GetBlockHash block /\
    d.(d_block_height) = t0.(tip_height) + Z.of_nat i + 1 /\ IsSaneDeposit d = true.
Proof.
  induction 1 as [|s t blocks ds ws raw block r io s' next Hd IH _ _ Hr Hs]; intros Hin; [by apply elem_of_nil in Hin|].
  apply elem_of_app in Hin as [Hin|Hin].
  - destruct (IH Hin) as (i & b & Hi & Hb). exists i, b. split; [|done]. by apply lookup_app_l_Some.
  - exists (length blocks), block. split; [by apply list_lookup_middle|].
    destruct (replay_step_elim _ _ _ _ _ _ _ Hs Hr) as (_ & E & edge & Ha). apply Append_elim in Ha as (db & _ & Ha & _).
    pose proof (derived_height _ _ _ _ _ _ _ Hd) as Hh. destruct (derived_loads _ _ _ _ _ _ _ Hd) as [_ Ht].
    destruct (append_height _ _ _ _ _ _ _ Ht Ha) as [Hn _].
    destruct (proj1 (check_deposits_iff _ _ _ _) (ao_deposits _ _ _ _ _ _ _ Ha)) as [Hc _]. rewrite list.Forall_forall in Hc.
    destruct (Hc d Hin) as (Hsane & -> & -> & _). subst next. cbn [tip_height tip_hash] in *. split_and!; [reflexivity| |exact Hsane].
    unfold len in Hh. lia.
Qed.
(** ** The invariant
    A store that loads is derived; a cache of the configured identity is blank or
    has the tip of the open store. *)
Definition good (s : DrivechainParentReplayStore) : Prop := forall t, Load s c.(store_identity) = LOADED t ->
  exists t0 blocks ds ws, derived any t0 s t blocks ds ws.

Definition stored (so : option DrivechainParentReplayStore) : Prop := forall s, so = Some s -> good s.

Definition blank : DrivechainParentReplayTip := mkTip 0 0 no_state.

Definition tied (cache : DrivechainParentReplayCache) (so : option DrivechainParentReplayStore) : Prop :=
  cache.(tip) = blank \/
  exists s t0 blocks ds ws, so = Some s /\ derived any t0 s cache.(tip) blocks ds ws.

Definition winv (cache : DrivechainParentReplayCache) (so : option DrivechainParentReplayStore) : Prop :=
  stored so /\ (ReplayCacheMatchesConfiguredIdentity c cache = true -> tied cache so).

Definition ready (cache : DrivechainParentReplayCache) (so : option DrivechainParentReplayStore) : Prop :=
  stored so /\ ReplayCacheMatchesConfiguredIdentity c cache = true /\ tied cache so.

Definition world_ok (w : World) : Prop := winv w.(w_cache) w.(w_store).

Lemma ready_winv cache so : ready cache so -> winv cache so.
Proof. by intros (? & ? & ?). Qed.

Lemma unmatched_winv cache so : stored so -> ReplayCacheMatchesConfiguredIdentity c cache = false -> winv cache so.
Proof. intros Hs E. split; [done|congruence]. Qed.

Lemma empty_unmatched : ReplayCacheMatchesConfiguredIdentity c empty_cache = false.
Proof. unfold ReplayCacheMatchesConfiguredIdentity. by destruct (drivechain_slot c), (proposal_hash c). Qed.

Lemma empty_winv so : stored so -> winv empty_cache so.
Proof. intros Hs. by apply unmatched_winv, empty_unmatched. Qed.

Lemma derived_good t0 s t blocks ds ws : derived any t0 s t blocks ds ws -> good s.
Proof.
  intros H t' Hl. destruct (derived_loads _ _ _ _ _ _ _ H) as [E _]. rewrite E in Hl. injection Hl as <-. by exists t0, blocks, ds, ws.
Qed.

Lemma matches_with_tip cache t :
  ReplayCacheMatchesConfiguredIdentity c (with_tip cache t) = ReplayCacheMatchesConfiguredIdentity c cache.
Proof. done. Qed.

Lemma derived_ready cache t0 s t blocks ds ws : ReplayCacheMatchesConfiguredIdentity c cache = true ->
  derived any t0 s t blocks ds ws -> ready (with_tip cache t) (Some s).
Proof.
  intros Hm Hd. split_and!; [intros s' [= <-]; by eapply derived_good|done|]. right. by exists s, t0, blocks, ds, ws.
Qed.

Lemma matched_rules cache : ReplayCacheMatchesConfiguredIdentity c cache = true ->
  rules c cache.(slot_) cache.(c_proposal_hash) = required.
Proof.
  unfold ReplayCacheMatchesConfiguredIdentity, required. destruct (drivechain_slot c), (proposal_hash c); try discriminate.
  intros H. rewrite !andb_true_iff in H. destruct H as [[[[[[[[[[[_ H1%Z.eqb_eq] H2%Z.eqb_eq] _] _] _] _] _] _] _] _] _].
  rewrite H1, H2. reflexivity.
Qed.

(** ** Triples: from [P], the result satisfies [Q], and the invariant holds when the code throws *)
Abbreviation assertion := (DrivechainParentReplayCache -> option DrivechainParentReplayStore -> Prop).

Definition triple {A} (P : assertion) (m : M A) (Q : A -> assertion) : Prop := forall w, P w.(w_cache) w.(w_store) ->
  match m w with (Ok a, w') => Q a w'.(w_cache) w'.(w_store) | (Err _, w') => winv w'.(w_cache) w'.(w_store) end.

Lemma triple_bind {A B} P (m : M A) Q (f : A -> M B) R :
  triple P m Q -> (forall a, triple (Q a) (f a) R) -> triple P (m ≫= f) R.
Proof.
  intros Hm Hf w Hw. specialize (Hm w Hw). unfold mbind, M_bind. destruct (m w) as [[a|e] w1]; [|done]. by apply Hf.
Qed.

Lemma triple_weaken {A} (P P' : assertion) (m : M A) (Q Q' : A -> assertion) : triple P' m Q' ->
  (forall x s, P x s -> P' x s) -> (forall a x s, Q' a x s -> Q a x s) -> triple P m Q.
Proof. intros H HP HQ w Hw. specialize (H w (HP _ _ Hw)). destruct (m w) as [[a|e] w']; [by apply HQ|done]. Qed.

Lemma triple_pure {A} (P : assertion) (F : Prop) (m : M A) (Q : A -> assertion) :
  (F -> triple P m Q) -> triple (fun x s => P x s /\ F) m Q.
Proof. intros H w [HP HF]. by apply H. Qed.

Lemma triple_ret {A} (a : A) (Q : A -> assertion) : triple (Q a) (mret a) Q.
Proof. by intros w Hw. Qed.

Lemma triple_fail {A} (P : assertion) e (Q : A -> assertion) : (forall x s, P x s -> winv x s) -> triple P (fail e) Q.
Proof. intros H w Hw. by apply H. Qed.

Lemma triple_get (P : assertion) : triple P get (fun w x s => x = w.(w_cache) /\ s = w.(w_store) /\ P x s).
Proof. by intros w Hw. Qed.

Lemma triple_store s' (Q : assertion) : triple (fun x _ => Q x s') (modify (with_store s')) (fun _ => Q).
Proof. by intros w Hw. Qed.

Lemma triple_cache x' (Q : assertion) : triple (fun _ s => Q x' s) (set_cache x') (fun _ => Q).
Proof. by intros w Hw. Qed.

Lemma triple_or_empty {A} (P : assertion) (r : result A) : (forall x s, P x s -> stored s) ->
  triple P (or_empty r) (fun a x s => P x s /\ r = Ok a).
Proof. intros H w Hw. destruct r as [a|e]; [done|]. by apply empty_winv, (H _ _ Hw). Qed.

(** Code that leaves the cache and the store alone. *)
Definition quiet {A} (m : M A) : Prop := forall w, (m w).2.(w_cache) = w.(w_cache) /\ (m w).2.(w_store) = w.(w_store).

Lemma triple_quiet {A} (P : assertion) (m : M A) : quiet m -> (forall x s, P x s -> winv x s) ->
  triple P m (fun a x s => P x s /\ exists w w', m w = (Ok a, w')).
Proof.
  intros Hq HP w Hw. destruct (Hq w) as [E1 E2]. destruct (m w) as [[a|e] w'] eqn:E; cbn [snd] in *; rewrite E1, E2;
    [|by apply HP]. split; [done|]. by exists w, w'.
Qed.

Lemma quiet_bind {A B} (m : M A) (f : A -> M B) : quiet m -> (forall a, quiet (f a)) -> quiet (m ≫= f).
Proof.
  intros Hm Hf w. unfold mbind, M_bind. destruct (Hm w) as [E1 E2]. destruct (m w) as [[a|e] w'] eqn:E; cbn [snd] in *; [|done].
  destruct (Hf a w') as [-> ->]. done.
Qed.

Lemma quiet_if {A} (b : bool) (m1 m2 : M A) : quiet m1 -> quiet m2 -> quiet (if b then m1 else m2).
Proof. by destruct b. Qed.

Lemma quiet_ret {A} (a : A) : quiet (mret a). Proof. done. Qed.
Lemma quiet_fail {A} e : quiet (fail (A:=A) e). Proof. done. Qed.
Lemma quiet_lift {A} (r : result A) : quiet (lift r). Proof. done. Qed.
Lemma quiet_guard b e : quiet (guard_ b e). Proof. done. Qed.
Lemma quiet_get : quiet get. Proof. done. Qed.
Lemma quiet_ask {A} (f : nat -> result A) : quiet (ask f). Proof. done. Qed.
Lemma quiet_publish z : quiet (publish z). Proof. done. Qed.
Lemma quiet_budget b : quiet (modify (with_budget b)). Proof. done. Qed.
Lemma quiet_rebuild b : quiet (modify (with_rebuild b)). Proof. done. Qed.
Lemma quiet_or_unpublish {A} (r : result A) : quiet (or_unpublish r). Proof. by destruct r. Qed.
End facts.

Create HintDb quiet.
#[export] Hint Resolve quiet_bind quiet_if quiet_ret quiet_fail quiet_lift quiet_guard quiet_get quiet_ask quiet_publish
  quiet_budget quiet_rebuild quiet_or_unpublish : quiet.

(** ** The driver *)
Section driver.
Context {Env : SignatureEnv} (pp : parent_params) (c : consensus) (bootstrap : option (list Slot)) (o : Oracle).
Context (Hopened : forall n s, o.(o_opened) n = Ok s -> good pp c bootstrap s).
Context (Hheight : 0 <= c.(milestones).(ms_state_height) <= UINT32_MAX).

Abbreviation triple := (triple pp c bootstrap).
Abbreviation ready := (ready pp c bootstrap).
Abbreviation winv := (winv pp c bootstrap).
Abbreviation stored := (stored pp c bootstrap).
Abbreviation matched := (ReplayCacheMatchesConfiguredIdentity c).

Lemma quiet_deadline : quiet (CheckDrivechainParentDeadline o). Proof. done. Qed.
Lemma quiet_read h : quiet (ReadActiveMainchainHash o h). Proof. done. Qed.
Lemma quiet_height : quiet (ReadActiveMainchainHeight o). Proof. done. Qed.
Hint Resolve quiet_deadline quiet_read quiet_height : quiet.

Lemma quiet_raw h : quiet (ReadParentBlock pp o h).
Proof. unfold ReadParentBlock. auto with quiet. Qed.

Lemma quiet_consume n : quiet (ConsumeDrivechainReplayBudget o n).
Proof. unfold ConsumeDrivechainReplayBudget. auto 10 with quiet. Qed.

Lemma quiet_record h x e b : quiet (RecordDrivechainReplaySnapshot h x e b).
Proof. unfold RecordDrivechainReplaySnapshot. auto 10 with quiet. Qed.

Lemma quiet_require h x e b : quiet (require_active o h x e b).
Proof. unfold require_active. auto 10 with quiet. Qed.

Lemma quiet_stale h : quiet (cache_is_stale o h).
Proof. unfold cache_is_stale. auto 10 with quiet. Qed.

Lemma quiet_lock e : quiet (lock_cache o e).
Proof. unfold lock_cache. auto 10 with quiet. Qed.
Hint Resolve quiet_raw quiet_consume quiet_record quiet_require quiet_stale quiet_lock : quiet.

(** A quiet step in front of a computation. *)
Lemma triple_step {A B} (P : DrivechainParentReplayCache -> option DrivechainParentReplayStore -> Prop) (m : M A) (f : A -> M B) R :
  quiet m -> (forall x s, P x s -> winv x s) -> (forall a w w', m w = (Ok a, w') -> triple P (f a) R) -> triple P (m ≫= f) R.
Proof.
  intros Hq HP Hf. eapply triple_bind; [by apply triple_quiet|]. intros a w [Hw (w1 & w2 & E)]. by apply (Hf a w1 w2).
Qed.

(** *** Initialising *)
Definition chosen x (so : option DrivechainParentReplayStore) : Prop := stored so /\ matched x = true /\ is_Some so.

Lemma adopt_seed_ready seed : is_seed pp c bootstrap seed -> tip_typed seed ->
  triple chosen (adopt_seed c o seed) (fun _ => ready).
Proof.
  intros Hseed Ht w (Hs & Hm & s & Es). unfold adopt_seed, mbind, M_bind, get. cbn beta iota. rewrite Es.
  unfold set_cache, modify, ask. cbn beta iota. cbn [w_tick with_cache w_cache w_store].
  destruct (Reset_ s (store_identity c) seed (o_reset o (w_tick w))) as [r s'] eqn:Er.
  assert (Hgood : good pp c bootstrap s) by exact (Hs s Es).
  unfold Reset_ in Er. destruct (IsSaneTip seed) eqn:Esane; cbn [negb] in Er.
  2: { injection Er as <- <-. cbn. apply empty_winv. intros s' [= <-]. exact Hgood. }
  destruct (o_reset o (w_tick w)); injection Er as <- <-; cbn [or_empty mret M_ret w_cache w_store with_store with_rebuild].
  - apply empty_winv. intros s' [= <-] t Hl. discriminate Hl.
  - apply empty_winv. intros s' [= <-] t Hl. discriminate Hl.
  - eapply derived_ready; [exact Hm|]. eapply (derived_seed _ _ _ any seed s); [exact Hseed|exact Ht|].
    unfold Reset_. rewrite Esane. reflexivity.
Qed.

Lemma try_load_ready b :
  triple (fun x so => chosen x so /\ tied pp c bootstrap x so) (try_load c b) (fun loaded x so => if loaded : bool then ready x so else chosen x so /\ tied pp c bootstrap x so).
Proof.
  intros w [(Hs & Hm & s & Es) Ht]. unfold try_load, mbind, M_bind, get. cbn beta iota. rewrite Es.
  assert (Hc : chosen (w_cache w) (w_store w) /\ tied pp c bootstrap (w_cache w) (w_store w)) by (rewrite Es in *; by split_and!; try exists s).
  destruct (_ && _); [|exact Hc]. destruct (Load s (store_identity c)) as [|t| |] eqn:El; try exact Hc.
  destruct (negb _); [|exact Hc]. unfold set_cache, modify, mret, M_ret. cbn [with_cache w_cache w_store]. rewrite Es.
  destruct (Hs s Es t El) as (t0 & blocks & ds & ws & Hd). by eapply derived_ready.
Qed.

Lemma configure_matched : HasPinnedDrivechainParentState c = true ->
  triple (fun _ so => stored so) (ConfigureDrivechainParentReplayCacheIdentity c)
    (fun _ x so => stored so /\ matched x = true /\ x.(tip) = blank).
Proof.
  intros Hp w Hs. unfold HasPinnedDrivechainParentState in Hp. rewrite !andb_true_iff in Hp. destruct Hp as [[Hp1 Hp2] _].
  apply bool_decide_eq_true in Hp1 as [sl E1]. apply bool_decide_eq_true in Hp2 as [ph E2].
  unfold ConfigureDrivechainParentReplayCacheIdentity, mbind, M_bind, modify, get, set_cache. cbn beta iota.
  cbn [next_epoch with_cache w_cache w_store tip]. split_and!; [exact Hs| |reflexivity].
  unfold ReplayCacheMatchesConfiguredIdentity. rewrite E1, E2, !andb_true_iff. split_and!; [reflexivity|apply Z.eqb_refl..].
Qed.
Lemma unmatched_ok x so : stored so /\ matched x = false -> winv x so.
Proof. intros [Hs Hm]. by apply unmatched_winv. Qed.

Lemma chosen_ok x so : chosen x so /\ tied pp c bootstrap x so -> winv x so.
Proof. by intros [(Hs & _) Ht]. Qed.

Lemma authenticated_hash raw hash block : ReadAuthenticatedRawMainchainBlock pp raw hash = Ok block -> GetBlockHash block = hash.
Proof.
  intros H. unfold ReadAuthenticatedRawMainchainBlock in H. destruct (read_block raw) as [[b' rest]|]; [|discriminate H].
  destruct (ComputeMerkleRoot (map GetHash (vtx b'))) as [root mutated]. inv_ok. apply Z.eqb_eq. exact Hok0.
Qed.

Lemma ReadParentBlock_run hash answer block w w' : ReadParentBlock pp o hash w = (Ok answer, w') -> answer = Ok block ->
  exists raw, ReadAuthenticatedRawMainchainBlock pp raw hash = Ok block.
Proof.
  intros H ->. unfold ReadParentBlock in H. apply run_bind in H as (raw & w1 & _ & H). apply run_bind in H as ([] & w2 & _ & H).
  injection H as H _. destruct raw as [raw|]; [|discriminate]. by exists raw.
Qed.

(** What the store is opened with. *)
Lemma open_store_ok :
  triple (fun x so => stored so /\ matched x = true /\ x.(tip) = blank)
    (w ← get; match w.(w_store) with Some _ => mret tt | None => s ← ask (fun t => o.(o_opened) t); modify (with_store (Some s)) end)
    (fun _ x so => chosen x so /\ tied pp c bootstrap x so).
Proof.
  intros w (Hs & Hm & Hb). unfold mbind, M_bind, get. cbn beta iota. destruct (w_store w) as [s|] eqn:Es.
  - cbn. rewrite Es. split; [by split_and!|by left].
  - unfold ask, modify. destruct (o_opened o (w_tick w)) as [s|e] eqn:Eo; cbn [w_cache w_store with_store].
    + split; [|by left]. split_and!; [|done|done]. intros s' [= <-]. by eapply Hopened.
    + rewrite Es. split; [done|]. intros _. by left.
Qed.

Lemma genesis_seed w1 w2 answer (Hb : bootstrap = None) block r :
  ReadParentBlock pp o (ParentGenesisBlockHash pp) w1 = (Ok answer, w2) -> answer = Ok block ->
  IsNull block.(header).(hashPrevBlock) = true -> ApplyDrivechainParentBlockState (required c) block 0 no_state = Ok r ->
  is_seed pp c bootstrap (mkTip 0 pp.(ParentGenesisBlockHash) r.(r_state)).
Proof.
  intros H1 H2 H3 H4. destruct (ReadParentBlock_run _ _ _ _ _ H1 H2) as (raw & Hraw). unfold is_seed. rewrite Hb.
  exists raw, block, r. split_and!; [exact Hraw| |exact H4|reflexivity]. by apply Z.eqb_eq.
Qed.

Lemma chosen_stored x so : chosen x so -> stored so.
Proof. by intros [? _]. Qed.

(** The seed that the configuration asks for. *)
Lemma seed_cache_ready configured : bootstrap = configured ->
  triple (fun x so => chosen x so /\ tied pp c bootstrap x so)
    (match configured with
     | Some slots =>
         st ← or_empty (bootstrap_state c (default 0 c.(drivechain_slot)) slots);
         adopt_seed c o (mkTip c.(milestones).(ms_state_height) c.(milestones).(ms_state_hash) st)
     | None =>
         answer ← ReadParentBlock pp o pp.(ParentGenesisBlockHash);
         genesis_block ← or_empty answer;
         or_empty (ensure (IsNull genesis_block.(header).(hashPrevBlock)) "authenticated parent genesis unexpectedly has a predecessor");;
         r ← or_empty (ApplyDrivechainParentBlockState (required c) genesis_block 0 no_state);
         adopt_seed c o (mkTip 0 pp.(ParentGenesisBlockHash) r.(r_state))
     end) (fun _ => ready).
Proof.
  assert (Hst : forall x so, chosen x so /\ tied pp c bootstrap x so -> stored so) by (by intros x so [[? _] _]).
  assert (Hchosen : forall x so, chosen x so /\ tied pp c bootstrap x so -> chosen x so) by (by intros x so [? _]).
  intros Eb. destruct configured as [slots|].
  - eapply triple_bind; [by apply triple_or_empty|]. intros st. apply triple_pure. intros Est.
    eapply triple_weaken; [apply adopt_seed_ready; [|exact Hheight]|exact Hchosen|done]. unfold is_seed. rewrite Eb. by exists st.
  - apply triple_step; [auto with quiet|apply chosen_ok|]. intros answer w1 w2 Ha.
    eapply triple_bind; [by apply triple_or_empty|]. intros block. apply triple_pure. intros E1.
    eapply triple_bind; [by apply triple_or_empty|]. intros []. apply triple_pure. intros E2%ensure_Ok.
    eapply triple_bind; [by apply triple_or_empty|]. intros r. apply triple_pure. intros E3.
    eapply triple_weaken; [apply adopt_seed_ready; [by eapply genesis_seed|]|exact Hchosen|done].
    unfold tip_typed, UINT32_MAX. cbn [tip_height]. lia.
Qed.

(** From an unmatched cache, initialising ties the cache to a derived store or throws. *)
Lemma Initialize_ready b : HasPinnedDrivechainParentState c = true ->
  triple (fun x so => stored so /\ matched x = false) (InitializeDrivechainParentReplayCache pp c bootstrap o b) (fun _ => ready).
Proof.
  intros Hp. unfold InitializeDrivechainParentReplayCache. rewrite Hp. cbn [negb].
  apply triple_step; [auto with quiet|apply unmatched_ok|]. intros [] _ _ _.
  apply triple_step; [auto with quiet|apply unmatched_ok|]. intros active_genesis _ _ _.
  apply triple_step; [auto with quiet|apply unmatched_ok|]. intros [] w0 w0' [Hg%Z.eqb_eq _]%run_guard.
  apply triple_step; [auto with quiet|apply unmatched_ok|]. intros header _ _ _.
  apply triple_step; [auto with quiet|apply unmatched_ok|]. intros [] _ _ _. subst active_genesis.
  eapply triple_bind.
  { eapply triple_weaken; [by apply configure_matched| |intros a x s H; exact H]. by intros x s [? _]. }
  intros []. eapply triple_bind; [apply triple_get|]. intros w.
  eapply (triple_bind _ _ _ _ _ (fun _ x so => chosen x so /\ tied pp c bootstrap x so)).
  { intros w1 (Ex & Es & H). pose proof (open_store_ok w1 H) as Ho. unfold mbind, M_bind, get in Ho |- *. cbn beta iota in Ho.
    rewrite <- Es. exact Ho. }
  intros []. eapply triple_bind; [apply try_load_ready|].
  intros [|]; [exact (triple_ret pp c bootstrap tt (fun _ => ready))|]. by apply seed_cache_ready.
Qed.

(** *** Replaying *)
Definition at_height (h : Z) x (so : option DrivechainParentReplayStore) : Prop := ready x so /\ x.(tip).(tip_height) = h.

Lemma append_blank s next ds edge ws ps io s' : Append s blank next ds edge ws ps io = Ok s' -> False.
Proof.
  unfold Append, check_tips. destruct (m_db s) as [db|]; [|discriminate]. intros H.
  apply bind_Ok in H as ([] & H & _). apply bind_Ok in H as ([] & H & _). apply ensure_Ok in H. discriminate H.
Qed.

Lemma run_or_unpublish {A} (r : result A) w a w' : or_unpublish r w = (Ok a, w') -> r = Ok a.
Proof. destruct r; [by intros [= ->]|discriminate]. Qed.

Lemma replayed_ready x s h raw block r io s' : at_height h x (Some s) ->
  ReadAuthenticatedRawMainchainBlock pp raw (GetBlockHash block) = Ok block ->
  block.(header).(hashPrevBlock) = x.(tip).(tip_hash) ->
  ApplyDrivechainParentBlockState (required c) block (u32 (h + 1)) x.(tip).(tip_state) = Ok r ->
  CheckDrivechainParentReplayMilestone (required c) c.(milestones) (u32 (h + 1)) block r.(r_state) = Ok tt ->
  let next := mkTip (u32 (h + 1)) (GetBlockHash block) r.(r_state) in
  Append s x.(tip) next r.(r_deposits) (replay_edge (required c) c.(milestones) x.(tip) block (u32 (h + 1)))
    r.(r_withdrawals) r.(r_proposals) io = Ok s' ->
  at_height (h + 1) (with_tip x next) (Some s').
Proof.
  intros [(Hs & Hm & Ht) Hh] Hraw Hprev Hr Hmile next Ha. destruct Ht as [Hb|(s0 & t0 & blocks & ds & ws & [= <-] & Hd)].
  { rewrite Hb in Ha. by apply append_blank in Ha. }
  assert (Hstep : replay_step (required c) (milestones c) io s (tip x) block = Ok (s', next)).
  { unfold replay_step. rewrite (proj2 (Z.eqb_eq _ _) Hprev), Hh. cbn [ensure mbind result_bind]. rewrite Hr.
    cbn [mbind result_bind]. rewrite Hmile. cbn [mbind result_bind]. fold next. rewrite Ha. reflexivity. }
  rewrite <- Hh in Hr. split.
  - eapply derived_ready; [exact Hm|]. eapply derived_block; [exact Hd|exact I|exact Hraw|exact Hr|exact Hstep].
  - apply Append_elim in Ha as (db & _ & Ha & _). destruct (derived_loads _ _ _ _ _ _ _ _ _ _ Hd) as [_ Htt].
    destruct (append_height _ _ _ _ _ _ _ Htt Ha) as [Hn _]. cbn [with_tip tip] in *. by rewrite Hn, Hh.
Qed.

Lemma replay_block_ready h : triple (at_height h) (replay_block pp c o) (fun _ => at_height (h + 1)).
Proof.
  assert (H0 : forall x so, at_height h x so -> winv x so) by (intros x so [? _]; by apply ready_winv).
  unfold replay_block. apply triple_step; [auto with quiet|exact H0|]. intros [] _ _ _.
  eapply triple_bind; [apply triple_get|]. intros w.
  assert (H1 : forall x so, x = w_cache w /\ so = w_store w /\ at_height h x so -> winv x so) by (intros x so (_ & _ & ?); by apply H0).
  apply triple_step; [auto with quiet|exact H1|]. intros hash _ _ _.
  apply triple_step; [auto with quiet|exact H1|]. intros answer w1 w2 Ha.
  apply triple_step; [auto with quiet|exact H1|]. intros block w3 w4 [Hb _]%run_lift.
  apply triple_step; [auto with quiet|exact H1|]. intros [] w5 w6 Hp%run_or_unpublish. apply ensure_Ok, Z.eqb_eq in Hp.
  apply triple_step; [auto with quiet|exact H1|]. intros r w7 w8 Hr%run_or_unpublish.
  apply triple_step; [auto with quiet|exact H1|]. intros [] w9 w10 Hm%run_or_unpublish.
  apply triple_step; [auto with quiet|exact H1|]. intros [] _ _ _.
  apply triple_step; [auto with quiet|exact H1|]. intros io _ _ _.
  apply triple_step; [auto with quiet|exact H1|]. intros s' w11 w12 Happ%run_or_unpublish.
  intros w' (Ex & Es & Hh). unfold mbind, M_bind, modify, set_cache, modify. cbn beta iota. cbn [with_store with_cache w_cache w_store].
  destruct (w_store w) as [s|] eqn:Ews; [|discriminate]. rewrite Es in Hh. pose proof Hh as [(_ & Hmt & _) Et]. rewrite Ex in *.
  rewrite (matched_rules c _ Hmt), Et in *. destruct (ReadParentBlock_run _ _ _ _ _ Ha Hb) as (raw & Hraw).
  pose proof (authenticated_hash _ _ _ Hraw) as <-. by eapply replayed_ready.
Qed.

Lemma replay_blocks_ready n : forall h, triple (at_height h) (replay_blocks pp c o n) (fun _ => at_height (h + Z.of_nat n)).
Proof.
  induction n as [|n IH]; intros h; cbn [replay_blocks].
  - rewrite Z.add_0_r. exact (triple_ret pp c bootstrap tt (fun _ => at_height h)).
  - eapply triple_bind; [apply replay_block_ready|]. intros []. replace (h + Z.of_nat (S n)) with (h + 1 + Z.of_nat n) by lia. apply IH.
Qed.

(** *** Synchronising *)
Lemma reinitialize_ready b : HasPinnedDrivechainParentState c = true ->
  triple winv (set_cache empty_cache;; InitializeDrivechainParentReplayCache pp c bootstrap o b) (fun _ => ready).
Proof.
  intros Hp. eapply (triple_bind _ _ _ _ _ (fun _ x so => stored so /\ matched x = false)); [|intros []; by apply Initialize_ready].
  eapply triple_weaken; [exact (triple_cache pp c bootstrap empty_cache (fun x so => stored so /\ matched x = false))| |done].
  intros x so [Hs _]. split; [done|apply empty_unmatched].
Qed.

Definition synchronized (target_height : Z) x (so : option DrivechainParentReplayStore) : Prop :=
  ready x so /\ target_height <= x.(tip).(tip_height).

Lemma synchronized_winv h x so : synchronized h x so -> winv x so.
Proof. intros [? _]. by apply ready_winv. Qed.

Lemma warm_up_ready : HasPinnedDrivechainParentState c = true -> forall w,
  triple (fun x so => x = w.(w_cache) /\ so = w.(w_store) /\ winv x so)
    (if matched w.(w_cache) then mret tt
     else
       guard_ (negb w.(w_budget).(budget_active)) "authenticated parent replay cache is not warmed";;
       publish 0;; set_cache empty_cache;; InitializeDrivechainParentReplayCache pp c bootstrap o false)
    (fun _ => ready).
Proof.
  intros Hp w. destruct (matched (w_cache w)) eqn:Hm.
  - intros w' (Ex & Es & Hs & Ht). cbn. split_and!; [done|by rewrite Ex|]. apply Ht. by rewrite Ex.
  - eapply (triple_weaken pp c bootstrap _ winv); [|by intros x so (_ & _ & ?)|intros ? ? ? HQ; exact HQ].
    apply triple_step; [auto with quiet|done|]. intros [] _ _ _.
    apply triple_step; [auto with quiet|done|]. intros [] _ _ _. by apply reinitialize_ready.
Qed.

Lemma refresh_ready (stale active : bool) : HasPinnedDrivechainParentState c = true ->
  triple ready
    (if stale then
       publish 0;;
       guard_ (negb active) "authenticated parent replay cache is stale after a parent reorganization";;
       set_cache empty_cache;; InitializeDrivechainParentReplayCache pp c bootstrap o true
     else mret tt) (fun _ => ready).
Proof.
  intros Hp. destruct stale; [|exact (triple_ret pp c bootstrap tt (fun _ => ready))].
  apply triple_step; [auto with quiet|apply ready_winv|]. intros [] _ _ _.
  apply triple_step; [auto with quiet|apply ready_winv|]. intros [] _ _ _.
  eapply triple_weaken; [by apply reinitialize_ready|apply ready_winv|done].
Qed.

Lemma catch_up_synchronized target_height w :
  let height := w.(w_cache).(tip).(tip_height) in
  triple (fun x so => x = w.(w_cache) /\ so = w.(w_store) /\ ready x so)
    (if height <? target_height then
       ConsumeDrivechainReplayBudget o (target_height - height);; replay_blocks pp c o (replay_steps height target_height)
     else mret tt) (fun _ => synchronized target_height).
Proof.
  intros height. destruct (height <? target_height) eqn:E.
  - apply Z.ltb_lt in E. eapply (triple_weaken pp c bootstrap _ (at_height height)).
    + apply triple_step; [auto with quiet|intros x so [? _]; by apply ready_winv|]. intros [] _ _ _. apply replay_blocks_ready.
    + intros x so (-> & -> & Hr). by split.
    + intros [] x so [Hr Hh]. split; [done|]. unfold replay_steps in Hh. destruct (target_height =? UINT32_MAX); lia.
  - apply Z.ltb_ge in E. intros w' (Ex & Es & Hr). cbn. split; [done|]. by rewrite Ex.
Qed.

Lemma Ensure_synchronized target_height target_hash b : HasPinnedDrivechainParentState c = true ->
  triple winv (EnsurePinnedDrivechainParentStateThroughLocked pp c bootstrap o target_height target_hash b)
    (fun _ => synchronized target_height).
Proof.
  intros Hp. unfold EnsurePinnedDrivechainParentStateThroughLocked. rewrite Hp. cbn [negb].
  apply triple_step; [auto with quiet|done|]. intros [] _ _ _. eapply triple_bind; [apply triple_get|]. intros w.
  eapply triple_bind; [by apply warm_up_ready|]. intros [].
  apply triple_step; [auto with quiet|apply ready_winv|]. intros [] _ _ _.
  apply triple_step; [auto with quiet|apply ready_winv|]. intros stale _ _ _.
  eapply triple_bind; [by apply refresh_ready|]. intros [].
  apply triple_step; [auto with quiet|apply ready_winv|]. intros [] _ _ _.
  eapply triple_bind; [apply triple_get|]. intros w1. eapply triple_bind; [apply catch_up_synchronized|]. intros [].
  apply triple_step; [auto with quiet|apply synchronized_winv|]. intros [] _ _ _.
  apply triple_step; [auto with quiet|apply synchronized_winv|]. intros [] _ _ _.
  eapply triple_bind; [apply triple_get|]. intros w2.
  set (P := fun x so => x = w_cache w2 /\ so = w_store w2 /\ synchronized target_height x so).
  assert (HP : forall x so, P x so -> winv x so) by (intros x so (_ & _ & ?); by eapply synchronized_winv).
  apply triple_step; [auto with quiet|exact HP|]. intros [] _ _ _.
  apply triple_step; [auto with quiet|exact HP|]. intros [] _ _ _.
  apply triple_step; [auto with quiet|exact HP|]. intros [] _ _ _.
  intros w' (_ & _ & H). exact H.
Qed.

Lemma Ensure_keeps target_height target_hash b :
  triple winv (EnsurePinnedDrivechainParentStateThrough pp c bootstrap o target_height target_hash b) (fun _ => winv).
Proof.
  unfold EnsurePinnedDrivechainParentStateThrough. apply triple_step; [auto with quiet|done|]. intros [] _ _ _.
  eapply (triple_bind _ _ _ _ _ (fun _ => winv)).
  - destruct (HasPinnedDrivechainParentState c) eqn:Hp.
    + eapply triple_weaken; [by apply Ensure_synchronized|done|]. intros [] x so. apply synchronized_winv.
    + unfold EnsurePinnedDrivechainParentStateThroughLocked. rewrite Hp. exact (triple_ret pp c bootstrap tt (fun _ => winv)).
  - intros []. apply triple_step; [auto with quiet|done|]. intros w _ _ _.
    eapply triple_weaken; [apply triple_quiet; [auto with quiet|done]|done|]. by intros [] x so [? _].
Qed.

(** *** The status of a deposit *)
Lemma confirmed_keeps hash k x a h : triple winv (confirmed_deposit c o hash k x a h) (fun _ => winv).
Proof.
  unfold confirmed_deposit. apply triple_step; [auto with quiet|done|]. intros [] _ _ _.
  eapply triple_bind; [apply triple_get|]. intros w.
  eapply (triple_weaken pp c bootstrap _ winv); [|by intros ? ? (_ & _ & ?)|intros ? ? ? HQ; exact HQ].
  apply triple_step; [auto with quiet|done|]. intros [] _ _ _.
  apply triple_step; [auto with quiet|done|]. intros [[height explicit] needs] _ _ _.
  apply triple_step; [auto with quiet|done|]. intros [] _ _ _.
  destruct (w_store w) as [s|]; [|by apply triple_fail].
  destruct (ReadDeposit s k) as [d| |].
  - destruct (negb _); [by intros w' Hw|].
    apply triple_step; [apply quiet_if; auto with quiet|done|]. intros [] _ _ _.
    apply triple_step; [auto with quiet|done|]. intros [] _ _ _. by intros w' Hw.
  - by intros w' Hw.
  - intros w' Hw. cbn. apply empty_winv. apply Hw.
Qed.

(** What a deposit reported as valid was checked for. *)
Lemma confirmed_valid hash k x a h w w' : confirmed_deposit c o hash k x a h w = (Ok Pegin.VALID, w') ->
  matched w.(w_cache) = true /\
  exists s d through explicit needs, w.(w_store) = Some s /\ ReadDeposit s k = FOUND d /\
    snapshot_of w = Ok (through, explicit, needs) /\
    RequireConfiguredElementsProposalActive w.(w_cache) through = Ok tt /\
    deposit_matches c d hash x a w.(w_cache).(tip).(tip_state).(required_activation_height) through h = true /\
    (needs = true -> exists n, (w.(w_tick) <= n)%nat /\ o.(o_hash) n w.(w_cache).(tip).(tip_height) = Ok w.(w_cache).(tip).(tip_hash)).
Proof.
  intros H. unfold confirmed_deposit in H. apply run_bind in H as ([] & w1 & Hl & H).
  assert (E1 : w_cache w1 = w_cache w /\ w_store w1 = w_store w /\ w_budget w1 = w_budget w /\ (w_tick w <= w_tick w1)%nat).
  { unfold lock_cache in Hl. apply run_bind in Hl as (w0 & w0' & [= <- <-] & Hl). destruct (budget_active _).
    - apply run_ask in Hl as [_ ->]. cbn. split_and!; [done..|lia].
    - injection Hl as <-. by split_and!. }
  destruct E1 as (Ec & Es & Eb & Et).
  assert (Esnap : snapshot_of w1 = snapshot_of w) by (unfold snapshot_of; by rewrite Ec, Eb).
  apply run_bind in H as (w0 & w0' & [= <- <-] & H). apply run_bind in H as ([] & w2 & [Hm ->]%run_guard & H).
  apply run_bind in H as ([[through explicit] needs] & w2' & [Hs ->]%run_lift & H).
  apply run_bind in H as ([] & w2' & [Hr ->]%run_lift & H). rewrite Ec in *. rewrite Es in H. split; [done|].
  destruct (w_store w) as [s|]; [|discriminate]. destruct (ReadDeposit s k) as [d| |] eqn:Er; [|by destruct explicit|discriminate].
  destruct (deposit_matches c d hash x a _ through h) eqn:Ed; cbn [negb] in H; [|by destruct explicit].
  exists s, d, through, explicit, needs. rewrite Esnap in Hs. split_and!; try done. intros ->.
  apply run_bind in H as ([] & w3 & H & _). apply run_bind in H as ([] & w4 & H & _). unfold require_active in H.
  apply run_bind in H as (hh & w5 & Hh & H). apply run_ask in Hh as [Hh _]. exists (w_tick w1). split; [done|].
  destruct (hh =? _) eqn:E; [apply Z.eqb_eq in E; by rewrite <- E|]. discriminate H.
Qed.
End driver.
