(* ===== verification/WarmTheorems.v ===== *)
(** * Theorems on warming the parent replay

    Whatever the parent node and the disk answer, and wherever the code throws, a
    cache that is in use is the tip of a store derived block by block from the
    configured seed.  Synchronising ends with the target and the cache on the
    active chain; a deposit that is reported valid is a deposit of a replayed
    block; and the query of a withdrawal answers exactly. *)

From S2P Require Import Prelude ArithUint256 Sha256 Script Transaction ParentMessage BlockMerkle PartialMerkle Signet ParentBlock ParentState ParentFacts TreasuryFacts ReplayStore StoreFacts Replay ReplayTheorems Pegin Warm WarmFacts.
Import Warm.

Section theorems.
Context {Env : SignatureEnv} (pp : parent_params) (c : consensus) (bootstrap : option (list Slot)) (o : Oracle).

(** ** The worlds that the entry points lead to *)
Definition booted : World := mkWorld 0 empty_cache None false 0 0 (mkBudget false 0 false false 0 0 0).

Inductive reachable : World -> Prop :=
| reach_boot : reachable booted
| reach_ensure w height hash require : reachable w ->
    reachable (EnsurePinnedDrivechainParentStateThrough pp c bootstrap o height hash require w).2
| reach_warm w : reachable w -> reachable (WarmDrivechainParentState pp c bootstrap o w).2
| reach_status w hash slot_ k x a h : reachable w -> reachable (GetConfirmedDrivechainDepositStatus c o hash slot_ k x a h w).2
| reach_withdrawal w slot_ id : reachable w -> reachable (GetDrivechainSuccessfulWithdrawal pp c bootstrap o slot_ id w).2
| reach_invalidate w : reachable w -> reachable (invalidate w).2
| reach_budget w b : reachable w -> reachable (with_budget b w).

Context (Hopened : forall n s, o.(o_opened) n = Ok s -> good pp c bootstrap s).
Context (Hheight : 0 <= c.(milestones).(ms_state_height) <= UINT32_MAX).

Abbreviation winv := (winv pp c bootstrap).

Lemma triple_keeps {A} (m : M A) w : triple pp c bootstrap winv m (fun _ => winv) -> world_ok pp c bootstrap w ->
  world_ok pp c bootstrap (m w).2.
Proof. intros H Hw. specialize (H w Hw). unfold world_ok. by destruct (m w) as [[a|e] w']. Qed.

Lemma invalidate_fails {A} (P : DrivechainParentReplayCache -> option DrivechainParentReplayStore -> Prop) e (Q : A -> _ -> _ -> Prop) :
  (forall x so, P x so -> winv x so) -> triple pp c bootstrap P (invalidate;; fail e) Q.
Proof. intros HP w Hw. cbn. apply empty_winv. by apply (HP _ _ Hw). Qed.

Lemma Locked_keeps h x b :
  triple pp c bootstrap winv (EnsurePinnedDrivechainParentStateThroughLocked pp c bootstrap o h x b) (fun _ => winv).
Proof.
  destruct (HasPinnedDrivechainParentState c) eqn:Hp.
  - eapply triple_weaken; [by apply Ensure_synchronized|done|]. intros [] y so. apply synchronized_winv.
  - unfold EnsurePinnedDrivechainParentStateThroughLocked. rewrite Hp. exact (triple_ret pp c bootstrap tt (fun _ => winv)).
Qed.

Lemma query_keeps slot_ id :
  triple pp c bootstrap winv (GetDrivechainSuccessfulWithdrawal pp c bootstrap o slot_ id) (fun _ => winv).
Proof.
  unfold GetDrivechainSuccessfulWithdrawal. do 3 (apply triple_step; [done|done|]; intros ? _ _ _).
  eapply triple_bind; [apply Locked_keeps|]. intros [].
  apply triple_step; [done|done|]. intros w _ _ _. destruct (w_store w) as [s|]; [|by apply triple_fail].
  eapply (triple_bind _ _ _ _ _ (fun _ => winv)).
  - destruct (ReadSuccessfulWithdrawal s slot_ id) as [x| |].
    + destruct (_ <? _); [by apply invalidate_fails|]. apply triple_step; [done|done|]. intros y _ _ _.
      destruct (_ =? _); [by intros w' Hw|by apply invalidate_fails].
    + by intros w' Hw.
    + by apply invalidate_fails.
  - intros r. apply triple_step; [done|done|]. intros y _ _ _. destruct (_ =? _); [by intros w' Hw|by apply invalidate_fails].
Qed.

Lemma reachable_ok w : reachable w -> world_ok pp c bootstrap w.
Proof.
  induction 1 as [|w h x b _ IH|w _ IH|w hash slot_ k x a h _ IH|w slot_ id _ IH|w _ IH|w b _ IH].
  - by apply empty_winv.
  - by apply triple_keeps; [apply Ensure_keeps|].
  - apply triple_keeps; [|done]. unfold WarmDrivechainParentState. destruct (negb _); [by intros w' Hw|].
    do 2 (apply triple_step; [done|done|]; intros ? _ _ _). by apply Ensure_keeps.
  - unfold GetConfirmedDrivechainDepositStatus. do 2 (case_match; [done|]).
    pose proof (triple_keeps _ w (confirmed_keeps pp c bootstrap o hash k x a h) IH) as Hk.
    by destruct (confirmed_deposit c o hash k x a h w) as [[st|e] w'].
  - apply triple_keeps; [apply query_keeps|done].
  - apply empty_winv. apply IH.
  - exact IH.
Qed.

Lemma active_not_blank cache h : RequireConfiguredElementsProposalActive cache h = Ok tt -> cache.(tip) <> blank.
Proof. unfold RequireConfiguredElementsProposalActive. intros H%ensure_Ok E. rewrite E in H. discriminate H. Qed.

Lemma tied_derived cache so : tied pp c bootstrap cache so -> cache.(tip) <> blank ->
  exists s t0 blocks ds ws, so = Some s /\ derived pp c bootstrap any t0 s cache.(tip) blocks ds ws.
Proof. by intros [?|?]. Qed.

(** ** What a successful synchronisation read last *)
Lemma run_require h x e b w u w' : require_active o h x e b w = (Ok u, w') -> o.(o_hash) w.(w_tick) h = Ok x /\ w' = ticked w.
Proof.
  intros H. unfold require_active in H. apply run_bind in H as (y & w1 & [Hy ->]%run_ask & H).
  destruct (y =? x) eqn:E; [apply Z.eqb_eq in E as <-; by injection H as _ <-|].
  apply run_bind in H as ([] & w2 & _ & H). discriminate H.
Qed.

(** The last four requests: the checkpoint, the target, the tip of the cache and the deadline. *)
Record read_back (n : nat) (h : Z) (x : uint256) (b : bool) (w : World) : Prop := {
  rb_checkpoint : o.(o_hash) n c.(milestones).(ms_state_height) = Ok c.(milestones).(ms_state_hash);
  rb_target : o.(o_hash) (S n) h = Ok x;
  rb_tip : o.(o_hash) (S (S n)) w.(w_cache).(tip).(tip_height) = Ok w.(w_cache).(tip).(tip_hash);
  rb_tick : w.(w_tick) = S (S (S (S n)));
  rb_published : w.(w_published) = w.(w_cache).(epoch);
  rb_active : b = true -> RequireConfiguredElementsProposalActive w.(w_cache) h = Ok tt }.

Lemma Locked_reads h x b w u w' : HasPinnedDrivechainParentState c = true ->
  EnsurePinnedDrivechainParentStateThroughLocked pp c bootstrap o h x b w = (Ok u, w') -> exists n, read_back n h x b w'.
Proof.
  intros Hp H. unfold EnsurePinnedDrivechainParentStateThroughLocked in H. rewrite Hp in H. cbn [negb] in H.
  apply run_bind in H as ([] & w1 & _ & H). apply run_bind in H as (w2 & w3 & _ & H).
  apply run_bind in H as ([] & w4 & _ & H). apply run_bind in H as ([] & w5 & _ & H). apply run_bind in H as (stale & w6 & _ & H).
  apply run_bind in H as ([] & w7 & _ & H). apply run_bind in H as ([] & w8 & _ & H). apply run_bind in H as (w9 & w10 & _ & H).
  apply run_bind in H as ([] & w11 & _ & H). apply run_bind in H as ([] & w12 & [H1 ->]%run_require & H).
  apply run_bind in H as ([] & w13 & [H2 ->]%run_require & H). apply run_bind in H as (w14 & w15 & [= <- <-] & H).
  apply run_bind in H as ([] & w16 & [H3 ->]%run_require & H). apply run_bind in H as ([] & w17 & H4 & H).
  apply run_bind in H as ([] & w18 & [_ ->]%run_ask & H). injection H as _ <-.
  exists (w_tick w11).
  assert (E : w17 = ticked (ticked (ticked w11)) /\ (b = true -> RequireConfiguredElementsProposalActive (w_cache w11) h = Ok tt)).
  { destruct b; [apply run_lift in H4 as [H4 ->]; by split|]. injection H4 as <-. by split. }
  destruct E as [-> Ha]. by split.
Qed.

Lemma synchronized_run h x b w u w' : HasPinnedDrivechainParentState c = true -> world_ok pp c bootstrap w ->
  EnsurePinnedDrivechainParentStateThroughLocked pp c bootstrap o h x b w = (Ok u, w') ->
  synchronized pp c bootstrap h w'.(w_cache) w'.(w_store).
Proof. intros Hp Hw H. pose proof (Ensure_synchronized pp c bootstrap o Hopened Hheight h x b Hp w Hw) as Ht. by rewrite H in Ht. Qed.

Lemma lock_run e w u w' : lock_cache o e w = (Ok u, w') ->
  w'.(w_cache) = w.(w_cache) /\ w'.(w_store) = w.(w_store) /\ w'.(w_published) = w.(w_published).
Proof.
  unfold lock_cache. intros H. apply run_bind in H as (w0 & w0' & [= <- <-] & H). destruct (budget_active _).
  - by apply run_ask in H as [_ ->].
  - by injection H as _ <-.
Qed.

Lemma record_run h x e b w u w' : RecordDrivechainReplaySnapshot h x e b w = (Ok u, w') -> exists budget, w' = with_budget budget w.
Proof.
  unfold RecordDrivechainReplaySnapshot. intros H. apply run_bind in H as (w0 & w0' & [= <- <-] & H).
  assert (Hw : w = with_budget (w_budget w) w) by (by destruct w).
  destruct (negb (budget_active _)); [injection H as _ <-; by eexists|]. destruct (negb _); injection H as _ <-; by eexists.
Qed.


Lemma configured_slot_eq slot_ : CheckConfiguredDrivechainSlot c slot_ = true -> c.(drivechain_slot) = Some slot_.
Proof.
  unfold CheckConfiguredDrivechainSlot. destruct (drivechain_slot c) as [sl|]; [|discriminate].
  rewrite negb_true_iff, !orb_false_iff, negb_false_iff, Z.eqb_eq. by intros [_ ->].
Qed.

Lemma valid_status_run hash slot_ k x a h w w' :
  GetConfirmedDrivechainDepositStatus c o hash slot_ k x a h w = (Pegin.VALID, w') ->
  c.(drivechain_slot) = Some slot_ /\ confirmed_deposit c o hash k x a h w = (Ok Pegin.VALID, w').
Proof.
  intros H. unfold GetConfirmedDrivechainDepositStatus in H.
  destruct (negb (CheckConfiguredDrivechainSlot c slot_) || _ || _ || _ || _) eqn:Eg; [discriminate H|].
  destruct (negb (replay_identity_ok c)); [discriminate H|].
  destruct (confirmed_deposit c o hash k x a h w) as [[st|e] w1]; [|discriminate H]. injection H as -> ->. split; [|reflexivity].
  rewrite !orb_false_iff, negb_false_iff in Eg. apply configured_slot_eq. apply Eg.
Qed.

Lemma deposit_matches_iff d hash x a ra through h : deposit_matches c d hash x a ra through h = true <->
  d.(d_block_hash) = hash /\ d.(d_value) = x /\ d.(address) = a /\ ra <= d.(d_block_height) /\
  d.(d_block_height) + Z.max 1 (GetDrivechainPeginConfirmationDepth c h) - 1 <= through.
Proof.
  unfold deposit_matches, HasRequiredDrivechainDepositDepth.
  rewrite !andb_true_iff, !negb_true_iff, !orb_false_iff, !negb_false_iff, !Z.eqb_eq, Z.ltb_ge, bytes_eqb_eq, Z.ltb_lt, !Z.leb_le.
  intuition lia.
Qed.

Lemma valid_status_recorded hash slot_ k x a h w w' : reachable w ->
  GetConfirmedDrivechainDepositStatus c o hash slot_ k x a h w = (Pegin.VALID, w') ->
  exists s d, w.(w_store) = Some s /\ ReadDeposit s k = FOUND d /\ d.(outpoint) = k /\ d.(d_value) = x /\ d.(address) = a.
Proof.
  intros Hr%reachable_ok [_ H]%valid_status_run.
  destruct (confirmed_valid _ _ _ _ _ _ _ _ _ H) as (Hm & s & d & through & explicit & needs & Es & Er & _ & Ha & Hd & _).
  destruct Hr as [_ Ht]. destruct (tied_derived _ _ (Ht Hm) (active_not_blank _ _ Ha)) as (s' & t0 & blocks & ds & ws & Es' & Hder).
  rewrite Es in Es'. injection Es' as <-. pose proof (proj1 (derived_reads _ _ _ _ _ _ _ _ _ _ _ _ Hder) Er) as [_ Ho].
  apply deposit_matches_iff in Hd as (_ & D2 & D3 & _). exists s, d. split_and!; [exact Es|exact Er|exact Ho|exact D2|exact D3].
Qed.

(** C12.  A deposit that is reported valid is recorded in the open store
    and comes from a replayed block: the block has the claimed hash and lies at
    or above the activation of the required proposal, the outpoint, value and
    address are the claimed ones, and the confirmation depth is reached at the
    height of the validation's snapshot or of the cache, whose tip was then
    read back on the active chain. *)
Theorem valid_deposit_is_confirmed hash slot_ k x a h w w' : reachable w ->
  GetConfirmedDrivechainDepositStatus c o hash slot_ k x a h w = (Pegin.VALID, w') ->
  let t := w.(w_cache).(tip) in
  exists s t0 blocks ds ws d i block through, w.(w_store) = Some s /\ derived pp c bootstrap any t0 s t blocks ds ws /\
    d ∈ ds /\ d.(outpoint) = k /\ d.(d_value) = x /\ d.(address) = a /\ c.(drivechain_slot) = Some slot_ /\
    blocks !! i = Some block /\ GetBlockHash block = hash /\ d.(d_block_height) = t0.(tip_height) + Z.of_nat i + 1 /\
    t.(tip_state).(required_proposal_activated) = true /\ t.(tip_state).(required_activation_height) <= d.(d_block_height) /\
    d.(d_block_height) + Z.max 1 (GetDrivechainPeginConfirmationDepth c h) - 1 <= through /\
    (w.(w_budget).(snapshot_authenticated) = true /\ through = w.(w_budget).(snapshot_height) \/
     through = t.(tip_height) /\ exists n, (w.(w_tick) <= n)%nat /\ o.(o_hash) n t.(tip_height) = Ok t.(tip_hash)).
Proof.
  intros Hr%reachable_ok H t. apply valid_status_run in H as [Hslot Ec].
  destruct (confirmed_valid _ _ _ _ _ _ _ _ _ Ec) as (Hm & s & d & through & explicit & needs & Es & Er & Hs & Ha & Hd & Hn).
  destruct Hr as [_ Ht]. destruct (tied_derived _ _ (Ht Hm) (active_not_blank _ _ Ha)) as (s' & t0 & blocks & ds & ws & Es' & Hder).
  rewrite Es in Es'. injection Es' as <-. apply (derived_reads _ _ _ _ _ _ _ _ _ _ _ _ Hder) in Er as [Hin Ho].
  destruct (derived_origin _ _ _ _ _ _ _ _ _ _ _ Hder Hin) as (i & block & Hi & Hh & Hheight' & _).
  apply deposit_matches_iff in Hd as (D1 & D2 & D3 & D4 & D5).
  unfold RequireConfiguredElementsProposalActive in Ha. apply ensure_Ok in Ha. rewrite negb_true_iff, !orb_false_iff, negb_false_iff in Ha.
  exists s, t0, blocks, ds, ws, d, i, block, through. split_and!; [exact Es|exact Hder|exact Hin|exact Ho|exact D2|exact D3|exact Hslot|exact Hi|congruence|exact Hheight'|apply Ha|exact D4|exact D5|].
  unfold snapshot_of in Hs. destruct (budget_active (w_budget w) && snapshot_authenticated (w_budget w)) eqn:Eb.
  - apply andb_true_iff in Eb as [_ Eb]. apply bind_Ok in Hs as ([] & _ & Hs). injection Hs as <- _ _. left. split; [exact Eb|reflexivity].
  - injection Hs as <- _ <-. right. split; [reflexivity|]. exact (Hn eq_refl).
Qed.

(** C24.  The query of a successful withdrawal answers exactly: when it
    returns, its answer is the first withdrawal with that slot and bundle among
    those of all the blocks replayed from the seed to the tip of the cache, and
    none when there is none; the tip of the cache was then on the active chain,
    and so was the block of the withdrawal. *)
Theorem withdrawal_query_exact slot_ id w r w' : HasPinnedDrivechainParentState c = true -> reachable w ->
  GetDrivechainSuccessfulWithdrawal pp c bootstrap o slot_ id w = (Ok r, w') ->
  let t := w'.(w_cache).(tip) in
  exists s t0 blocks ds ws n, w'.(w_store) = Some s /\ derived pp c bootstrap any t0 s t blocks ds ws /\
    r = first_success (slot_, id) ws /\ o.(o_hash) n t.(tip_height) = Ok t.(tip_hash) /\
    (forall x, r = Some x -> x.(s_height) <= t.(tip_height) /\ exists m, o.(o_hash) m x.(s_height) = Ok x.(s_block_hash)).
Proof.
  intros Hp Hr%reachable_ok H. unfold GetDrivechainSuccessfulWithdrawal in H. apply run_bind in H as ([] & w1 & [_ ->]%run_guard & H).
  apply run_bind in H as (h & w1 & [_ ->]%run_ask & H). apply run_bind in H as (x & w1 & [_ ->]%run_ask & H).
  apply run_bind in H as ([] & w1 & He & H).
  destruct (Locked_reads _ _ _ _ _ _ Hp He) as (n & Hn). pose proof (rb_active _ _ _ _ _ Hn eq_refl) as Ha.
  destruct (synchronized_run _ _ _ (ticked (ticked w)) _ _ Hp Hr He) as [(_ & _ & Ht) _].
  destruct (tied_derived _ _ Ht (active_not_blank _ _ Ha)) as (s & t0 & blocks & ds & ws & Es & Hd).
  apply run_bind in H as (w2 & w2' & [= <- <-] & H). rewrite Es in H.
  apply run_bind in H as (r' & w2 & Hq & H). apply run_bind in H as (y & w3 & [Hy ->]%run_ask & H).
  rewrite (derived_reads_success _ _ _ _ _ _ _ _ _ _ _ _ Hd) in Hq.
  destruct (y =? _) eqn:E; [|discriminate H]. apply Z.eqb_eq in E. injection H as <- <-. subst y.
  assert (Hw2 : w_cache w2 = w_cache w1 /\ w_store w2 = w_store w1 /\ r' = first_success (slot_, id) ws /\
    (forall x, r' = Some x -> s_height x <= tip_height (tip (w_cache w1)) /\ exists m, o_hash o m (s_height x) = Ok (s_block_hash x))).
  { destruct (first_success (slot_, id) ws) as [z|]; [|injection Hq as <- <-; split_and!; [reflexivity..|]; intros ? [=]].
    destruct (_ <? s_height z) eqn:El; [discriminate Hq|]. apply Z.ltb_ge in El.
    apply run_bind in Hq as (y & w3 & [Hz ->]%run_ask & Hq). destruct (y =? _) eqn:E; [|discriminate Hq]. apply Z.eqb_eq in E as ->.
    injection Hq as <- <-. split_and!; [reflexivity..|]. intros ? [= <-]. split; [exact El|]. eexists. exact Hz. }
  destruct Hw2 as (E1 & E2 & E3 & E4). cbn [w_cache w_store ticked]. rewrite E1, E2.
  exists s, t0, blocks, ds, ws, (w_tick w2). split_and!; [exact Es|exact Hd|exact E3|exact Hy|exact E4].
Qed.
End theorems.

(** ** A steady parent node is caught up with *)
Section progress.
Context {Env : SignatureEnv} (pp : parent_params) (c : consensus) (bootstrap : option (list Slot)) (o : Oracle).
Context (active : Z -> result uint256) (best : Z).

(** The node answers from one chain in time and the disk works. *)
Record steady : Prop := {
  st_hash : forall n h, o.(o_hash) n h = active h;
  st_height : forall n, o.(o_height) n = Ok best;
  st_deadline : forall n, o.(o_expired) n = false;
  st_append : forall n, o.(o_append) n = true }.

(** Blocks that the node serves and that replay from a store and its tip to another. *)
Inductive replays : DrivechainParentReplayStore -> DrivechainParentReplayTip -> list CBlock ->
    DrivechainParentReplayStore -> DrivechainParentReplayTip -> Prop :=
| replays_nil s t : replays s t [] s t
| replays_cons s t raw block s1 t1 blocks s2 t2 :
    active (u32 (t.(tip_height) + 1)) = Ok (GetBlockHash block) ->
    (forall n, o.(o_raw) n (GetBlockHash block) = Ok (Some raw)) ->
    ReadAuthenticatedRawMainchainBlock pp raw (GetBlockHash block) = Ok block ->
    replay_step (required c) c.(milestones) true s t block = Ok (s1, t1) ->
    replays s1 t1 blocks s2 t2 -> replays s t (block :: blocks) s2 t2.

Context (Hsteady : steady).

(** [w'] is [w] with another tick, store and tip. *)
Record moved_to (w w' : World) (s : DrivechainParentReplayStore) (t : DrivechainParentReplayTip) : Prop := {
  mt_cache : w'.(w_cache) = with_tip w.(w_cache) t;
  mt_store : w'.(w_store) = Some s;
  mt_budget : w'.(w_budget) = w.(w_budget) }.

Lemma run_ok {A B} (m : M A) (f : A -> M B) w a w1 : m w = (Ok a, w1) -> (m ≫= f) w = f a w1.
Proof. intros H. unfold mbind, M_bind. by rewrite H. Qed.

Lemma deadline_ok w : CheckDrivechainParentDeadline o w = (Ok tt, ticked w).
Proof. unfold CheckDrivechainParentDeadline, ask. by rewrite (st_deadline Hsteady). Qed.

Lemma read_ok h w x : active h = Ok x -> ReadActiveMainchainHash o h w = (Ok x, ticked w).
Proof. intros H. unfold ReadActiveMainchainHash, ask. by rewrite (st_hash Hsteady), H. Qed.

Lemma require_ok h x e b w : active h = Ok x -> require_active o h x e b w = (Ok tt, ticked w).
Proof. intros H. unfold require_active. rewrite (run_ok _ _ _ _ _ (read_ok h w x H)), Z.eqb_refl. reflexivity. Qed.

Lemma raw_ok hash raw block w : (forall n, o.(o_raw) n hash = Ok (Some raw)) ->
  ReadAuthenticatedRawMainchainBlock pp raw hash = Ok block -> ReadParentBlock pp o hash w = (Ok (Ok block), ticked (ticked w)).
Proof.
  intros H1 H2. unfold ReadParentBlock, mbind, M_bind, ask. rewrite H1. rewrite deadline_ok, H2. reflexivity.
Qed.

Lemma replay_block_runs w s t raw block s1 t1 : ReplayCacheMatchesConfiguredIdentity c w.(w_cache) = true ->
  w.(w_store) = Some s -> w.(w_cache).(tip) = t ->
  active (u32 (t.(tip_height) + 1)) = Ok (GetBlockHash block) -> (forall n, o.(o_raw) n (GetBlockHash block) = Ok (Some raw)) ->
  ReadAuthenticatedRawMainchainBlock pp raw (GetBlockHash block) = Ok block ->
  replay_step (required c) c.(milestones) true s t block = Ok (s1, t1) ->
  exists w', replay_block pp c o w = (Ok tt, w') /\ moved_to w w' s1 t1.
Proof.
  intros Hm Es <- Ha Hraw Hauth Hs. unfold replay_step in Hs. apply bind_Ok in Hs as ([] & Hp & Hs). apply bind_Ok in Hs as (r & Hr & Hs).
  apply bind_Ok in Hs as ([] & Hmi & Hs). apply bind_Ok in Hs as (s' & Happ & Hs). injection Hs as <- <-.
  unfold replay_block. rewrite (run_ok _ _ _ _ _ (deadline_ok w)). cbn [mbind M_bind get].
  rewrite (run_ok get _ (ticked w) (ticked w) (ticked w) eq_refl). cbn [w_cache w_store ticked]. rewrite (matched_rules c _ Hm).
  rewrite (run_ok _ _ _ _ _ (read_ok _ _ _ Ha)), (run_ok _ _ _ _ _ (raw_ok _ _ _ _ Hraw Hauth)).
  rewrite (run_ok (lift (Ok block)) _ _ block _ eq_refl), Hp, (run_ok (or_unpublish (Ok tt)) _ _ tt _ eq_refl).
  rewrite Hr, (run_ok (or_unpublish (Ok r)) _ _ r _ eq_refl), Hmi, (run_ok (or_unpublish (Ok tt)) _ _ tt _ eq_refl).
  rewrite (run_ok _ _ _ _ _ (deadline_ok _)). rewrite (run_ok (ask _) _ _ (o_append o _) _ eq_refl), (st_append Hsteady), Es.
  rewrite Happ, (run_ok (or_unpublish (Ok s')) _ _ s' _ eq_refl). eexists. split; [reflexivity|]. split; reflexivity.
Qed.

Lemma replay_blocks_runs s t blocks s' t' : replays s t blocks s' t' -> forall w,
  ReplayCacheMatchesConfiguredIdentity c w.(w_cache) = true -> w.(w_store) = Some s -> w.(w_cache).(tip) = t ->
  exists w', replay_blocks pp c o (length blocks) w = (Ok tt, w') /\ moved_to w w' s' t'.
Proof.
  induction 1 as [s t|s t raw block s1 t1 blocks s2 t2 Ha Hraw Hauth Hs _ IH]; intros w Hm Es Et; cbn [replay_blocks length].
  - exists w. split; [reflexivity|]. split; [|exact Es|reflexivity]. rewrite <- Et. by destruct (w_cache w).
  - destruct (replay_block_runs w s t raw block s1 t1 Hm Es Et Ha Hraw Hauth Hs) as (w1 & H1 & [M1 M2 M3]).
    destruct (IH w1) as (w2 & H2 & [N1 N2 N3]); [by rewrite M1|exact M2|by rewrite M1|].
    exists w2. rewrite (run_ok _ _ _ _ _ H1). split; [exact H2|]. split; [by rewrite N1, M1|exact N2|by rewrite N3].
Qed.

Lemma replays_end s t blocks s' t' : replays s t blocks s' t' -> 0 <= t.(tip_height) -> t.(tip_height) + len blocks <= UINT32_MAX ->
  active t.(tip_height) = Ok t.(tip_hash) ->
  t'.(tip_height) = t.(tip_height) + len blocks /\ active t'.(tip_height) = Ok t'.(tip_hash).
Proof.
  induction 1 as [s t|s t raw block s1 t1 blocks s2 t2 Ha _ _ Hs _ IH]; intros H0 Hmax Ht.
  - split; [unfold len; cbn [length]; lia|exact Ht].
  - unfold len in *. cbn [length] in *. unfold replay_step in Hs. do 4 (apply bind_Ok in Hs as (? & _ & Hs)). injection Hs as _ <-.
    cbn [tip_height tip_hash] in *. rewrite u32_mod, Z.mod_small in * by (unfold UINT32_MAX in *; lia).
    destruct IH as [E1 E2]; [lia|lia|exact Ha|]. split; [lia|exact E2].
Qed.

Lemma not_stale w target : w.(w_cache).(tip).(tip_height) <= target -> active w.(w_cache).(tip).(tip_height) = Ok w.(w_cache).(tip).(tip_hash) ->
  cache_is_stale o target w = (Ok false, ticked w).
Proof.
  intros Hle Ht. unfold cache_is_stale. rewrite (run_ok get _ w w w eq_refl), (proj2 (Z.ltb_ge _ _) Hle).
  rewrite (run_ok (mret false) _ _ false _ eq_refl). cbn iota. rewrite (run_ok _ _ _ _ _ (read_ok _ _ _ Ht)), Z.eqb_refl. reflexivity.
Qed.

Lemma catches_up w s blocks s' t' : let t := w.(w_cache).(tip) in
  ReplayCacheMatchesConfiguredIdentity c w.(w_cache) = true -> w.(w_store) = Some s -> w.(w_budget).(budget_active) = false ->
  t'.(tip_height) = t.(tip_height) + len blocks -> t'.(tip_height) < UINT32_MAX -> replays s t blocks s' t' ->
  exists w', (if t.(tip_height) <? t'.(tip_height) then
      ConsumeDrivechainReplayBudget o (t'.(tip_height) - t.(tip_height));; replay_blocks pp c o (replay_steps t.(tip_height) t'.(tip_height))
    else mret tt) w = (Ok tt, w') /\ moved_to w w' s' t'.
Proof.
  intros t Hm Es Hb Eh Hlt Hr. destruct (replay_blocks_runs _ _ _ _ _ Hr w Hm Es eq_refl) as (w4 & H4 & N).
  replace (replay_steps (tip_height t) (tip_height t')) with (length blocks)
    by (unfold replay_steps; rewrite (proj2 (Z.eqb_neq _ _)) by lia; unfold len in Eh; lia).
  destruct (tip_height t <? tip_height t') eqn:El.
  - exists w4. unfold ConsumeDrivechainReplayBudget. split; [|exact N].
    rewrite (run_ok _ _ w tt w); [exact H4|]. rewrite (run_ok get _ w w w eq_refl), Hb. reflexivity.
  - apply Z.ltb_ge in El. destruct blocks as [|x blocks]; [|unfold len in Eh; cbn [length] in Eh; lia]. injection H4 as <-. by exists w.
Qed.

(** C16.  A synchronisation succeeds when it should: if the parent node
    answers steadily from one chain that contains the checkpoint and the cached
    tip, and serves blocks that replay from the cached tip to the target, then
    whatever their number the call returns, with the store and the cache at the
    target and the cache published. *)
Theorem ensure_catches_up w s blocks s' t' b :
  let t := w.(w_cache).(tip) in
  HasPinnedDrivechainParentState c = true -> ReplayCacheMatchesConfiguredIdentity c w.(w_cache) = true ->
  w.(w_store) = Some s -> w.(w_budget).(budget_active) = false ->
  active c.(milestones).(ms_state_height) = Ok c.(milestones).(ms_state_hash) -> active t.(tip_height) = Ok t.(tip_hash) ->
  replays s t blocks s' t' -> 0 <= t.(tip_height) -> c.(milestones).(ms_state_height) <= t.(tip_height) + len blocks < UINT32_MAX ->
  (b = true -> RequireConfiguredElementsProposalActive (with_tip w.(w_cache) t') t'.(tip_height) = Ok tt) ->
  exists w', EnsurePinnedDrivechainParentStateThroughLocked pp c bootstrap o t'.(tip_height) t'.(tip_hash) b w = (Ok tt, w') /\
    w'.(w_cache) = with_tip w.(w_cache) t' /\ w'.(w_store) = Some s' /\ w'.(w_published) = w.(w_cache).(epoch).
Proof.
  intros t Hp Hm Es Hb Hcp Ht Hr H0 [Hlo Hhi] Hact. destruct (replays_end _ _ _ _ _ Hr H0 ltac:(lia) Ht) as [Eh Ha'].
  unfold EnsurePinnedDrivechainParentStateThroughLocked. rewrite Hp. cbn [negb].
  rewrite (proj2 (Z.ltb_ge (tip_height t') (ms_state_height (milestones c)))) by lia.
  rewrite (run_ok (guard_ true _) _ w tt w eq_refl), (run_ok get _ w w w eq_refl), Hm, (run_ok (mret tt) _ w tt w eq_refl).
  rewrite (run_ok _ _ _ _ _ (require_ok _ _ _ _ _ Hcp)).
  rewrite (run_ok _ _ _ _ _ (not_stale (ticked w) (tip_height t') ltac:(cbn [ticked w_cache]; fold t; unfold len in Eh; lia) Ht)). cbn iota. rewrite (run_ok (mret tt) _ _ tt _ eq_refl).
  rewrite (run_ok _ _ _ _ _ (require_ok _ _ _ _ _ Ha')). set (w3 := ticked (ticked (ticked w))).
  rewrite (run_ok get _ w3 w3 w3 eq_refl). change (tip_height (tip (w_cache w3))) with (tip_height t).
  destruct (catches_up w3 s blocks s' t' Hm Es Hb Eh ltac:(fold t in Eh; lia) Hr) as (w4 & H4 & [N1 N2 N3]). change (tip_height (tip (w_cache w3))) with (tip_height t) in H4.
  rewrite (run_ok _ _ _ _ _ H4).
  rewrite (run_ok _ _ _ _ _ (require_ok _ _ _ _ _ Hcp)), (run_ok _ _ _ _ _ (require_ok _ _ _ _ _ Ha')).
  set (w6 := ticked (ticked w4)). rewrite (run_ok get _ w6 w6 w6 eq_refl). change (w_cache w6) with (w_cache w4). rewrite N1. cbn [tip with_tip].
  rewrite (run_ok _ _ _ _ _ (require_ok _ _ _ _ _ Ha')).
  replace (if b then lift (RequireConfiguredElementsProposalActive (with_tip (w_cache w) t') (tip_height t')) else mret tt)
    with (mret tt : M unit) by (destruct b; [by rewrite Hact|reflexivity]).
  rewrite (run_ok (mret tt) _ _ tt _ eq_refl), (run_ok _ _ _ _ _ (deadline_ok _)). eexists. split; [reflexivity|]. by split_and!.
Qed.
End progress.

(** ** Work under the consensus locks *)
Section bounds.
Context {Env : SignatureEnv} (pp : parent_params) (c : consensus) (bootstrap : option (list Slot)) (o : Oracle).

(** At most [k] requests, and no new cache. *)
Definition bounded {A} (k : nat) (m : M A) : Prop := forall w,
  ((m w).2.(w_tick) <= w.(w_tick) + k)%nat /\ (m w).2.(w_epoch_counter) = w.(w_epoch_counter).

Lemma bounded_bind {A B} k1 k2 (m : M A) (f : A -> M B) : bounded k1 m -> (forall a, bounded k2 (f a)) -> bounded (k1 + k2) (m ≫= f).
Proof.
  intros Hm Hf w. unfold mbind, M_bind. destruct (Hm w) as [T E]. destruct (m w) as [[a|e] w1]; cbn [snd] in *; [|split; [lia|exact E]].
  destruct (Hf a w1) as [T2 E2]. split; [lia|congruence].
Qed.

Lemma bounded_le {A} k1 k2 (m : M A) : (k1 <= k2)%nat -> bounded k1 m -> bounded k2 m.
Proof. intros Hk Hm w. destruct (Hm w). split; [lia|done]. Qed.

(** Code that makes no request. *)
Lemma bounded_then {A B} k (m : M A) (f : A -> M B) : bounded 0 m -> (forall a, bounded k (f a)) -> bounded k (m ≫= f).
Proof. apply (bounded_bind 0 k). Qed.

Lemma bounded_if {A} k (b : bool) (m1 m2 : M A) : bounded k m1 -> bounded k m2 -> bounded k (if b then m1 else m2).
Proof. by destruct b. Qed.

Lemma bounded_ret {A} (a : A) : bounded 0 (mret a).
Proof. intros w. cbn. split; [lia|done]. Qed.
Lemma bounded_fail {A} e : bounded 0 (fail (A:=A) e).
Proof. intros w. cbn. split; [lia|done]. Qed.
Lemma bounded_lift {A} (r : result A) : bounded 0 (lift r).
Proof. intros w. cbn. split; [lia|done]. Qed.
Lemma bounded_get : bounded 0 get.
Proof. intros w. cbn. split; [lia|done]. Qed.
Lemma bounded_publish z : bounded 0 (publish z).
Proof. intros w. cbn. split; [lia|done]. Qed.
Lemma bounded_unpublish {A} (r : result A) : bounded 0 (or_unpublish r).
Proof. intros w. unfold or_unpublish, mbind, M_bind. destruct r; cbn; (split; [lia|done]). Qed.
Lemma bounded_ask {A} (f : nat -> result A) : bounded 1 (ask f).
Proof. intros w. cbn. split; [lia|done]. Qed.

Lemma bounded_require h x e b : bounded 1 (require_active o h x e b).
Proof.
  unfold require_active. apply (bounded_bind 1 0); [apply bounded_ask|]. intros y. apply bounded_if; [apply bounded_ret|].
  apply bounded_then; [destruct b; [apply bounded_publish|apply bounded_ret]|]. intros _. apply bounded_fail.
Qed.

Lemma bounded_stale h : bounded 2 (cache_is_stale o h).
Proof.
  unfold cache_is_stale. apply bounded_then; [apply bounded_get|]. intros w. apply (bounded_bind 1 1).
  - apply bounded_if; [|by apply (bounded_le 0), bounded_ret; lia]. apply (bounded_bind 1 0); [apply bounded_ask|]. intros z. apply bounded_ret.
  - intros [|]; [by apply (bounded_le 0), bounded_ret; lia|]. apply (bounded_bind 1 0); [apply bounded_ask|]. intros z. apply bounded_ret.
Qed.

Lemma bounded_replay_block : bounded 6 (replay_block pp c o).
Proof.
  unfold replay_block. apply (bounded_bind 1 5); [apply bounded_ask|]. intros []. apply bounded_then; [apply bounded_get|]. intros w.
  apply (bounded_bind 1 4); [apply bounded_ask|]. intros h. apply (bounded_bind 2 2).
  { unfold ReadParentBlock. apply (bounded_bind 1 1); [apply bounded_ask|]. intros raw. apply (bounded_bind 1 0); [apply bounded_ask|].
    intros []. apply bounded_ret. }
  intros answer. apply bounded_then; [apply bounded_lift|]. intros block. apply bounded_then; [apply bounded_unpublish|]. intros [].
  apply bounded_then; [apply bounded_unpublish|]. intros r. apply bounded_then; [apply bounded_unpublish|]. intros [].
  apply (bounded_bind 1 1); [apply bounded_ask|]. intros []. apply (bounded_bind 1 0); [apply bounded_ask|]. intros io.
  apply bounded_then; [apply bounded_unpublish|]. intros s' w'. unfold mbind, M_bind. cbn. split; [lia|done].
Qed.

Lemma bounded_replay_blocks n : bounded (6 * n) (replay_blocks pp c o n).
Proof.
  induction n as [|n IH]; cbn [replay_blocks]; [apply bounded_ret|]. replace (6 * S n)%nat with (6 + 6 * n)%nat by lia.
  apply bounded_bind; [apply bounded_replay_block|]. intros []. exact IH.
Qed.

(** The catch-up consumes the budget before it replays. *)
Lemma bounded_catch_up h target w : w.(w_budget).(budget_active) = true -> target <> UINT32_MAX ->
  let m := ConsumeDrivechainReplayBudget o (target - h);; replay_blocks pp c o (replay_steps h target) in
  ((m w).2.(w_tick) <= w.(w_tick) + 1 + 6 * Z.to_nat w.(w_budget).(replay_steps_remaining))%nat /\
  (m w).2.(w_epoch_counter) = w.(w_epoch_counter).
Proof.
  intros Hb Ht m. unfold m, replay_steps. rewrite (proj2 (Z.eqb_neq _ _) Ht), Nat.add_0_r. unfold ConsumeDrivechainReplayBudget, mbind, M_bind, get. cbn beta iota. rewrite Hb. cbn [negb].
  unfold CheckDrivechainParentDeadline, ask. destruct (ensure _ _) as [[]|]; [|cbn; split; [lia|done]].
  unfold guard_, lift, modify. destruct (replay_steps_remaining (w_budget w) <? target - h) eqn:E; cbn [negb ensure snd w_tick with_budget].
  { cbn. split; [lia|done]. }
  apply Z.ltb_ge in E. match goal with |- context [replay_blocks pp c o ?n ?w1] =>
    destruct (bounded_replay_blocks n w1) as [T C]; destruct (replay_blocks pp c o n w1) as [[]] end; cbn [snd w_tick w_epoch_counter with_budget] in *;
    (split; [lia|exact C]).
Qed.

(** The same for one run, with what the first part returned. *)
Definition fits {A} (k : nat) (m : M A) (w : World) : Prop :=
  ((m w).2.(w_tick) <= w.(w_tick) + k)%nat /\ (m w).2.(w_epoch_counter) = w.(w_epoch_counter).

Lemma fits_bind {A B} k1 k2 (m : M A) (f : A -> M B) w : fits k1 m w -> (forall a w1, m w = (Ok a, w1) -> fits k2 (f a) w1) ->
  fits (k1 + k2) (m ≫= f) w.
Proof.
  intros [T E] Hf. unfold fits, mbind, M_bind. destruct (m w) as [[a|e] w1] eqn:Em; cbn [snd] in *; [|split; [lia|exact E]].
  destruct (Hf a w1 eq_refl) as [T2 E2]. split; [lia|congruence].
Qed.

Lemma stale_budget h w r w' : cache_is_stale o h w = (Ok r, w') -> w'.(w_budget) = w.(w_budget).
Proof.
  unfold cache_is_stale. intros H. apply run_bind in H as (w0 & w0' & [= <- <-] & H). apply run_bind in H as (above & w1 & Ha & H).
  assert (E : w_budget w1 = w_budget w).
  { destruct (_ <? _); [|by injection Ha as _ <-]. apply run_bind in Ha as (z & w2 & [_ ->]%run_ask & Ha). by injection Ha as _ <-. }
  destruct above; [by injection H as _ <-|]. apply run_bind in H as (z & w2 & [_ ->]%run_ask & H). by injection H as _ <-.
Qed.

Lemma locked_tail_bounded h x b :
  bounded 4 (require_active o c.(milestones).(ms_state_height) c.(milestones).(ms_state_hash) "parent-chain reorg raced the pinned launch checkpoint check" true;;
    require_active o h x "parent-chain reorg raced the replay target check" true;;
    w2 ← get;
    let cache := w2.(w_cache) in
    require_active o cache.(tip).(tip_height) cache.(tip).(tip_hash) "parent-chain reorg raced the replay cache tip check" true;;
    (if b : bool then lift (RequireConfiguredElementsProposalActive cache h) else mret tt);;
    CheckDrivechainParentDeadline o;;
    publish cache.(epoch)).
Proof.
  apply (bounded_bind 1 3); [apply bounded_require|]. intros []. apply (bounded_bind 1 2); [apply bounded_require|]. intros [].
  apply bounded_then; [apply bounded_get|]. intros w2. apply (bounded_bind 1 1); [apply bounded_require|]. intros [].
  apply bounded_then; [apply bounded_if; [apply bounded_lift|apply bounded_ret]|]. intros [].
  apply (bounded_bind 1 0); [apply bounded_ask|]. intros []. apply bounded_publish.
Qed.

End bounds.
