(* ===== verification/NativeTheorems.v ===== *)
(** * Theorems on claims of a network with a slot

    The composition of the claims with the replay of the parent chain: on a network
    with a drivechain slot every claimed peg-in redeems one deposit that the replay
    recorded, each at most once and paid to its committed address, so that the
    coins minted are backed by the treasury of the slot. *)

From S2P Require Import Prelude ArithUint256 Sha256 Script Transaction Confidential ParentMessage BlockMerkle PartialMerkle Signet ParentBlock Coins SideBlock Bmm BmmFacts ParentState ParentFacts TreasuryFacts ReplayStore StoreFacts Replay ReplayTheorems Pegin Peg PegFacts Mint MintFacts MintTheorems Warm WarmFacts WarmTheorems.
Import Pegin Mint.

(** ** Lists of deposits *)
Lemma total_submseteq l k : Forall (fun d => 0 <= d.(d_value)) k -> l ⊆+ k -> TreasuryFacts.total l <= TreasuryFacts.total k.
Proof.
  intros Hk H. revert Hk. induction H as [|x l k H IH|x y l|x l k H IH|l k j H1 IH1 H2 IH2]; intros Hk; unfold TreasuryFacts.total in *; cbn [fold_right] in *.
  - lia.
  - apply list.Forall_cons_1 in Hk as [? Hk]. specialize (IH Hk). lia.
  - lia.
  - apply list.Forall_cons_1 in Hk as [? Hk]. specialize (IH Hk). lia.
  - specialize (IH2 Hk). etransitivity; [apply IH1|done]. rewrite list.Forall_forall in *. intros d Hd. apply Hk. by eapply elem_of_submseteq.
Qed.

Section native.
Context {Dest : DestinationEnv} (params : peg_params) (Hasset : uint256_ok params.(pegged_asset)).
Context (deposit_status : uint256 -> Z -> COutPoint -> Z -> bytes -> Z -> DrivechainDepositStatus).
Context (federated : list bytes -> COutPoint -> bool -> bool).
Context (VerifyAmounts : list Elements.CTxOut -> CTransaction -> bool).
Context {V : Type} `{!CoinsCache V, !CoinsCacheLaws V, !PeginCache V, !PeginCacheLaws V}.

(** ** A transaction redeems at most one deposit *)
Definition pegins (l : list CTxIn) : Z := foldr (fun i n => (if i.(m_is_pegin) then 1 else 0) + n) 0 l.

Lemma pegins_pos l : 0 <= pegins l.
Proof. induction l as [|x l IH]; cbn [pegins foldr]; [lia|]. fold (pegins l). destruct (m_is_pegin x); lia. Qed.

Lemma count_pegins l : forall wits n m, count_deposit_inputs params l wits n = Ok m -> n + pegins l <= m.
Proof.
  induction l as [|x l IH]; intros wits n m H; cbn [count_deposit_inputs pegins foldr] in *; [injection H as <-; lia|]. fold (pegins l).
  destruct (match wits with [] => false | w :: _ => is_deposit params w (prevout x) end).
  - specialize (IH _ _ _ H). destruct (m_is_pegin x); lia.
  - destruct (m_is_pegin x); [discriminate|]. specialize (IH _ _ _ H). lia.
Qed.

Lemma no_pegins tx l : pegins l = 0 -> forall i, claims params tx i l = [] /\ minted_from tx i l = 0.
Proof.
  induction l as [|x l IH]; intros Hp i; cbn [claims minted_from pegins foldr] in *; [done|]. fold (pegins l) in Hp. pose proof (pegins_pos l).
  destruct (m_is_pegin x); [lia|]. by destruct (IH Hp (S i)) as [-> ->].
Qed.

Lemma one_pegin tx l : pegins l <= 1 -> forall i j input stack, l !! j = Some input -> input.(m_is_pegin) = true ->
  tx.(pegin_witness) !! (i + j)%nat = Some stack ->
  claims params tx i l = [GetPeginSpentKey params stack input.(prevout)] /\ minted_from tx i l = pegin_amount stack.
Proof.
  induction l as [|x l IH]; intros Hp i j input stack Hj Hi Hs; cbn [claims minted_from pegins foldr] in *; [done|].
  fold (pegins l) in Hp. pose proof (pegins_pos l). destruct j as [|j].
  - injection Hj as ->. rewrite Nat.add_0_r in Hs. rewrite Hi, Hs in *. destruct (no_pegins tx l ltac:(lia) (S i)) as [-> ->]. split; [done|lia].
  - rewrite <- Nat.add_succ_comm in Hs. destruct (m_is_pegin x).
    + assert (Hz : pegins l = 0) by lia. exfalso. clear - Hz Hj Hi. revert j Hj. induction l as [|y l IH]; intros j Hj; [done|].
      cbn [pegins foldr] in Hz. fold (pegins l) in Hz. pose proof (pegins_pos l). destruct j as [|j].
      * injection Hj as ->. rewrite Hi in Hz. lia.
      * apply (IH ltac:(destruct (m_is_pegin y); lia) j Hj).
    + destruct (IH ltac:(lia) (S i) j input stack Hj Hi Hs) as [-> ->]. done.
Qed.

(** The outputs that pay a script. *)
Lemma recipient_outputs script x l : forall n m, foldM (count_recipient params script x) n l = Ok m ->
  m = n + len (filter (fun o => o.(Elements.scriptPubKey) = script) l) /\
  Forall (fun o => pays_exactly params x o = true) (filter (fun o => o.(Elements.scriptPubKey) = script) l).
Proof.
  induction l as [|o l IH]; intros n m H; cbn [foldM] in H.
  { injection H as <-. unfold len. cbn. split; [lia|constructor]. }
  apply bind_Ok in H as (k & Hk & H). destruct (IH _ _ H) as [-> HF]. unfold count_recipient in Hk.
  destruct (bytes_eqb (Elements.scriptPubKey o) script) eqn:E; cbn [negb] in Hk.
  - apply bytes_eqb_eq in E. apply bind_Ok in Hk as ([] & Hp & Hk). apply ensure_Ok in Hp. injection Hk as <-.
    rewrite filter_cons_True by done. split; [unfold len; cbn [length]; lia|by constructor].
  - injection Hk as <-. rewrite filter_cons_False; [done|]. intros E'. apply bytes_eqb_eq in E'. congruence.
Qed.

(** ** What a claim was checked for *)
Context (slot_ : Z) (Hslot : params.(drivechain_slot) = Some slot_).

Lemma native_witness stack o h : IsValidPeginWitness params deposit_status federated stack o true h = Pass tt ->
  exists x claim hash_ address_, IsDrivechainDepositPeginWitness params true stack o = Some (mkFields x claim (Some (hash_, address_))) /\
    pegin_amount stack = x /\ deposit_status hash_ slot_ o x address_ h = VALID.
Proof.
  unfold IsValidPeginWitness. rewrite Hslot. destruct (is_ecx_format stack); [discriminate|].
  intros H. apply bind_Pass in H as ([] & Hl & H). apply bind_Pass in H as (p & Hp & H). apply of_result_Pass in Hp.
  destruct (_ && _ : bool) eqn:Em; [|discriminate].
  destruct (IsDrivechainDepositPeginWitness params true stack o) as [[x claim [[hash_ address_]|]]|] eqn:Ed; [|discriminate|discriminate].
  do 3 apply bind_Pass in H as ([] & _ & H). apply require_Pass, Z.eqb_eq in Hl.
  assert (Hx : x = p_value p).
  { unfold IsDrivechainDepositPeginWitness in Ed. rewrite Hl, Hp in Ed. repeat match type of Ed with
      | (if ?b then _ else _) = Some _ => destruct b; try discriminate
      end. by injection Ed as <-. }
  exists x, claim, hash_, address_. split_and!; [done| |].
  - rewrite Hx. by apply prefix_amount.
  - rewrite Hx. by destruct (deposit_status hash_ slot_ o (p_value p) address_ h).
Qed.

Lemma native_outputs tx j input stack x claim hash_ address_ : tx.(vin) !! j = Some input -> tx.(pegin_witness) !! j = Some stack ->
  IsDrivechainDepositPeginWitness params true stack input.(prevout) = Some (mkFields x claim (Some (hash_, address_))) ->
  CheckDrivechainDepositOutputs params tx j = Ok tt ->
  pegins tx.(vin) <= 1 /\ exists script o, GetScriptForAddress address_ = Some script /\
    filter (fun o => o.(Elements.scriptPubKey) = script) tx.(vout) = [o] /\ pays_exactly params x o = true.
Proof.
  intros Hj Hs Hd H. unfold CheckDrivechainDepositOutputs in H. rewrite Hj, Hs in H. apply bind_Ok in H as (n & Hn & H).
  apply count_pegins in Hn. apply bind_Ok in H as ([] & Hone%ensure_Ok%Z.eqb_eq & H). apply bind_Ok in H as ([] & _ & H).
  rewrite Hd in H. apply bind_Ok in H as ([] & _ & H). destruct (GetScriptForAddress address_) as [script|]; [|discriminate].
  apply bind_Ok in H as (m & Hm & H). apply ensure_Ok, Z.eqb_eq in H. destruct (recipient_outputs _ _ _ _ _ Hm) as [E HF].
  split; [lia|]. exists script. destruct (filter _ (vout tx)) as [|o [|o' l]]; unfold len in E; cbn [length] in E; [lia| |lia].
  exists o. split_and!; [done..|]. by apply list.Forall_cons_1 in HF as [? _].
Qed.

(** ** Redemptions *)
Definition key_of (d : DrivechainMintableDeposit) : uint256 * COutPoint := (d.(ParentState.outpoint).(hash), d.(ParentState.outpoint)).

(** The transaction claims the deposit and nothing else, mints its value, and has
    exactly one output to its address, explicit and of exactly its value. *)
Record redeems (tx : CTransaction) (d : DrivechainMintableDeposit) : Prop := {
  rd_claimed : claimed params tx = [key_of d];
  rd_minted : minted tx = d.(d_value);
  rd_paid : exists script o, GetScriptForAddress d.(ParentState.address) = Some script /\
    filter (fun o => o.(Elements.scriptPubKey) = script) tx.(vout) = [o] /\ pays_exactly params d.(d_value) o = true }.

(** The deposits a list of transactions redeems, in order; the others claim nothing. *)
Inductive redemptions : list CTransaction -> list DrivechainMintableDeposit -> Prop :=
| redeem_none : redemptions [] []
| redeem_plain tx l ds : claimed params tx = [] -> minted tx = 0 -> redemptions l ds -> redemptions (tx :: l) ds
| redeem_deposit tx l d ds : redeems tx d -> redemptions l ds -> redemptions (tx :: l) (d :: ds).

Lemma redemptions_app l1 ds1 l2 ds2 : redemptions l1 ds1 -> redemptions l2 ds2 -> redemptions (l1 ++ l2) (ds1 ++ ds2).
Proof. intros H1 H2. induction H1; cbn [app]; [done|by apply redeem_plain|by apply redeem_deposit]. Qed.

Lemma redemptions_total l ds : redemptions l ds ->
  MintTheorems.total l = TreasuryFacts.total ds /\ concat (map (claimed params) l) = map key_of ds.
Proof.
  induction 1 as [|tx l ds Hc Hm _ [IH1 IH2]|tx l d ds Hr _ [IH1 IH2]]; [done| |];
    unfold MintTheorems.total, TreasuryFacts.total in *; cbn [foldr fold_right map concat] in *.
  - rewrite Hc, Hm, IH1, IH2. done.
  - rewrite (rd_claimed _ _ Hr), (rd_minted _ _ Hr), IH1, IH2. done.
Qed.

(** Deposits of the list [DS] are the only ones that the parent node's state vouches for. *)
Context (DS : list DrivechainMintableDeposit).
Context (Hvouched : forall hash_ k x a h, deposit_status hash_ slot_ k x a h = VALID ->
  exists d, d ∈ DS /\ d.(ParentState.outpoint) = k /\ d.(d_value) = x /\ d.(ParentState.address) = a).

Lemma tx_redemptions tx h v pegins_ g : IsCoinBase tx = false -> inputs_checked params deposit_status federated tx h v pegins_ g ->
  (claimed params tx = [] /\ minted tx = 0) \/ exists d, d ∈ DS /\ redeems tx d.
Proof.
  intros Hcb Hi. unfold claimed, minted. rewrite Hcb. destruct (decide (pegins (vin tx) = 0)) as [Hz|Hz].
  { left. by apply no_pegins. }
  right. assert (Hex : exists j input, vin tx !! j = Some input /\ m_is_pegin input = true).
  { clear - Hz. induction (vin tx) as [|x l IH]; [done|]. cbn [pegins foldr] in Hz. fold (pegins l) in Hz.
    destruct (m_is_pegin x) eqn:E; [by exists 0%nat, x|]. destruct (IH ltac:(lia)) as (j & input & Hj). by exists (S j), input. }
  destruct Hex as (j & input & Hj & Hp). destruct (ic_claims _ _ _ _ _ _ _ _ Hi j input Hj Hp) as (stack & Hs & Hw & Ho).
  destruct (native_witness _ _ _ Hw) as (x & claim & hash_ & address_ & Hd & Hx & Hv).
  destruct (native_is_deposit _ _ _ _ Hd) as [Hdep H8]. specialize (Ho Hdep). rewrite H8 in Ho. cbn [Z.eqb] in Ho.
  destruct (native_outputs _ _ _ _ _ _ _ _ Hj Hs Hd Ho) as [H1 Hpaid].
  destruct (one_pegin tx (vin tx) H1 0 j input stack Hj Hp Hs) as [Ec Em]. destruct (Hvouched _ _ _ _ _ Hv) as (d & Hin & E1 & E2 & E3).
  exists d. split; [done|]. split; unfold claimed, minted; rewrite ?Hcb.
  - rewrite Ec, deposit_key by done. unfold key_of. by rewrite E1.
  - by rewrite Em, Hx, E2.
  - by rewrite E2, E3.
Qed.

Lemma chain_redemptions fs l v v' : cache_inv v -> chain_fits params deposit_status federated VerifyAmounts fs l v ->
  connect_chain params deposit_status federated VerifyAmounts fs l v = Pass v' ->
  exists ds, Forall (fun d => d ∈ DS) ds /\ redemptions (chain_txs l) ds.
Proof.
  apply (connect_chain_ind params Hasset deposit_status federated VerifyAmounts
    (fun _ l _ => exists ds, Forall (fun d => d ∈ DS) ds /\ redemptions l ds) fs).
  - intros w _. exists []. split; constructor.
  - intros w l1 w1 l2 w2 (ds1 & F1 & R1) (ds2 & F2 & R2). exists (ds1 ++ ds2). split; [by apply Forall_app|by apply redemptions_app].
  - intros parent h w tx w1 l2 w2 Hw Hf (fees & pegins_ & fees' & pegins' & undo & H & _) (ds & HF & HR).
    destruct (connect_tx_connected params Hasset deposit_status federated VerifyAmounts _ _ _ _ _ _ _ _ _ _ _ Hw Hf H) as [_ Hi].
    destruct (IsCoinBase tx) eqn:Hcb.
    + exists ds. split; [done|]. apply redeem_plain; [| |done]; unfold claimed, minted; by rewrite Hcb.
    + destruct (Hi eq_refl) as (g & Hg & _). destruct (tx_redemptions _ _ _ _ _ Hcb Hg) as [[Hc Hm]|(d & Hd & Hr)].
      * exists ds. split; [done|]. by apply redeem_plain.
      * exists (d :: ds). split; [by constructor|]. by apply redeem_deposit.
Qed.

(** Different deposits of the list, each at most once. *)
Lemma redeemed_once fs l v v' : cache_inv v -> chain_fits params deposit_status federated VerifyAmounts fs l v ->
  connect_chain params deposit_status federated VerifyAmounts fs l v = Pass v' ->
  exists ds, ds ⊆+ DS /\ redemptions (chain_txs l) ds.
Proof.
  intros Hv Hf H. destruct (chain_redemptions fs l v v' Hv Hf H) as (ds & HF & HR). exists ds. split; [|done].
  destruct (claim_run_chain params Hasset deposit_status federated VerifyAmounts fs l v v' Hv Hf H) as (Hn & _).
  destruct (redemptions_total _ _ HR) as [_ E]. rewrite E in Hn. apply NoDup_submseteq; [by apply NoDup_fmap_1 in Hn|].
  intros d Hd. exact (proj1 (list.Forall_forall _ _) HF d Hd).
Qed.
End native.

(** ** The treasury behind a derived store *)
Section treasury.
Context {Env : SignatureEnv} (pp : parent_params) (c : Warm.consensus) (bootstrap : option (list Warm.Slot)).
Abbreviation required := (required c).

Lemma derived_backed t0 s t blocks DS WS : tip_ok required t0 ->
  derived pp c bootstrap (block_ok required) t0 s t blocks DS WS ->
  tip_ok required t /\
  (Forall (fun w => w.(s_slot) <> configured_slot required) WS ->
   TreasuryFacts.total DS <= t.(tip_state).(own).(ctip_value) - t0.(tip_state).(own).(ctip_value)).
Proof.
  intros H0. induction 1 as [|s t blocks ds ws raw block r io s' next Hd IH Hb _ Hr Hs].
  - split; [done|]. intros _. unfold TreasuryFacts.total. cbn [fold_right]. lia.
  - destruct (replay_step_elim _ _ _ _ _ _ _ _ Hs Hr) as (_ & -> & edge & Ha). apply Append_elim in Ha as (db & _ & Ha & _).
    destruct (derived_loads _ _ _ _ _ _ _ _ _ _ Hd) as [_ Htt]. destruct (append_height _ _ _ _ _ _ _ Htt Ha) as [Hn _].
    cbn [tip_height] in Hn. rewrite Hn in Hr |- *. destruct IH as [Hok IH]. destruct (Apply_tip_ok _ _ _ _ Hok Hb Hr) as [_ Hok'].
    split; [exact Hok'|]. intros [F1 F2]%Forall_app. pose proof (Apply_backed _ _ _ _ Hok Hb Hr F2). specialize (IH F1).
    rewrite total_app. cbn [tip_state]. lia.
Qed.

Lemma derived_positive B t0 s t blocks DS WS : derived pp c bootstrap B t0 s t blocks DS WS -> Forall (fun d => 0 <= d.(d_value)) DS.
Proof.
  intros H. apply list.Forall_forall. intros d Hd. destruct (derived_origin _ _ _ _ _ _ _ _ _ _ _ H Hd) as (_ & _ & _ & _ & _ & Hs).
  unfold IsSaneDeposit in Hs. rewrite !andb_true_iff, Z.ltb_lt in Hs. lia.
Qed.
End treasury.

(** ** The composition *)
Section composition.
Context {Env : SignatureEnv} (pp : parent_params) (c : Warm.consensus) (bootstrap : option (list Warm.Slot)) (o : Warm.Oracle).
Context {Dest : DestinationEnv} (params : peg_params).
Context (deposit_status : uint256 -> Z -> COutPoint -> Z -> bytes -> Z -> DrivechainDepositStatus).
Context (federated : list bytes -> COutPoint -> bool -> bool).
Context (VerifyAmounts : list Elements.CTxOut -> CTransaction -> bool).
Context {V : Type} `{!CoinsCache V, !CoinsCacheLaws V, !PeginCache V, !PeginCacheLaws V}.

(** Each valid status was answered by the node in a state it can reach, with a
    store that records deposits of [DS] only: its parent chain was extended to the
    one of [DS], not reorganised. *)
Definition vouched (DS : list DrivechainMintableDeposit) : Prop := forall hash_ slot_ k x a h,
  deposit_status hash_ slot_ k x a h = VALID ->
  exists w w', reachable pp c bootstrap o w /\ Warm.GetConfirmedDrivechainDepositStatus c o hash_ slot_ k x a h w = (VALID, w') /\
    forall s k' d, w.(Warm.w_store) = Some s -> ReadDeposit s k' = FOUND d -> d ∈ DS.

(** C1.  On a network with a slot the coins that claims mint are backed by
    the treasury of the slot on the parent chain.  Along any chain of connected
    blocks the claims redeem pairwise different deposits of replayed parent
    blocks; each transaction redeems at most one, mints exactly its value and pays
    exactly this value to its committed address; and unless withdrawals of the
    slot succeeded, the total minted is at most the growth of the treasury output
    between the seed and the tip of the replay. *)
Theorem native_credit_is_backed slot_ t0 s t blocks DS WS fs l v v' :
  uint256_ok params.(pegged_asset) -> params.(drivechain_slot) = Some slot_ ->
  (forall n s, o.(Warm.o_opened) n = Ok s -> good pp c bootstrap s) ->
  0 <= c.(Warm.milestones).(ms_state_height) <= UINT32_MAX ->
  tip_ok (required c) t0 -> derived pp c bootstrap (block_ok (required c)) t0 s t blocks DS WS -> vouched DS ->
  cache_inv v -> chain_fits params deposit_status federated VerifyAmounts fs l v ->
  connect_chain params deposit_status federated VerifyAmounts fs l v = Pass v' ->
  exists ds, ds ⊆+ DS /\ redemptions params (chain_txs l) ds /\
    MintTheorems.total (chain_txs l) = TreasuryFacts.total ds /\ TreasuryFacts.total ds <= TreasuryFacts.total DS /\
    (Forall (fun w => w.(s_slot) <> configured_slot (required c)) WS ->
     MintTheorems.total (chain_txs l) <= t.(tip_state).(own).(ctip_value) - t0.(tip_state).(own).(ctip_value)).
Proof.
  intros Hasset Hslot Hopen Hheight Htip Hd Hvouch Hv Hf H.
  assert (Hall : forall hash_ k x a h, deposit_status hash_ slot_ k x a h = VALID ->
    exists d, d ∈ DS /\ d.(ParentState.outpoint) = k /\ d.(d_value) = x /\ d.(ParentState.address) = a).
  { intros hash_ k x a h Hs. destruct (Hvouch _ _ _ _ _ _ Hs) as (w & w' & Hr & Hst & Hsub).
    destruct (valid_status_recorded pp c bootstrap o Hopen Hheight _ _ _ _ _ _ _ _ Hr Hst) as (s1 & d & Es & Er & E1 & E2 & E3).
    exists d. split; [exact (Hsub s1 k d Es Er)|]. split_and!; [exact E1|exact E2|exact E3]. }
  destruct (redeemed_once params Hasset deposit_status federated VerifyAmounts slot_ Hslot DS Hall fs l v v' Hv Hf H) as (ds & Hsub & HR).
  destruct (redemptions_total _ _ _ HR) as [Ht _]. pose proof (total_submseteq ds DS (derived_positive _ _ _ _ _ _ _ _ _ _ Hd) Hsub) as Hle.
  exists ds. split_and!; [exact Hsub|exact HR|exact Ht|exact Hle|]. intros Hw. rewrite Ht.
  etransitivity; [exact Hle|]. by apply (derived_backed pp c bootstrap _ _ _ _ _ _ Htip Hd).
Qed.
End composition.
