(* ===== verification/WarmSamples.v ===== *)
(** * A concrete warm-up

    A parent chain of three blocks above the pinned checkpoint: the proposal of the
    slot, a vote, and a second vote that activates it together with a first deposit.
    The driver replays it, reports the deposit valid and answers queries; the
    theorems on the driver and on native claims apply to it. *)

From S2P Require Import Prelude ArithUint256 Sha256 Script Transaction Confidential ParentMessage BlockMerkle PartialMerkle Signet ParentBlock Coins SideBlock Bmm BmmFacts ParentState ParentFacts TreasuryFacts ReplayStore StoreFacts Replay ReplayTheorems Pegin Peg PegFacts Mint MintFacts MintTheorems MintSamples Warm WarmFacts WarmTheorems NativeTheorems.
Import Warm.

Module Chain.
#[local] Existing Instance sample_env.

Definition genesis : uint256 := 12345.
Definition pp : parent_params := mkParentParams (uint256_of (replicate 31 0xff ++ [0x7f])) [] genesis.
Definition description : bytes := [0; 7; 7].
Definition proposal : uint256 := Eval vm_compute in Hash description.

Definition coinbase (tag : Z) (outs : list CTxOut) : CTransaction := mkTx [mkTxIn null_prevout [1; tag] 0 []] outs 2 0.
Definition op_return (payload : bytes) : CTxOut := mkTxOut 0 (BuildSinglePushScript payload).
Definition ack : CTxOut := op_return (M2_TAG ++ [24] ++ uint256_bytes proposal).
Definition address : bytes := [101; 114; 116; 49].
Definition deposit_tx : CTransaction :=
  mkTx [mkTxIn (mkOutPoint 9 0) [] 0 []] [mkTxOut 1500 [0xb7; 1; 24; 0x51]; op_return address] 2 0.

Definition header_of (prev : uint256) (txs : list CTransaction) (nonce : Z) : CBlockHeader :=
  mkHeader 2 prev (ComputeMerkleRoot (map GetHash txs)).1 1000 0x207fffff nonce.

Definition txs1 : list CTransaction := [coinbase 1 [op_return (M1_TAG ++ [24] ++ description)]].
Definition txs2 : list CTransaction := [coinbase 2 [ack]].
Definition txs3 : list CTransaction := [coinbase 3 [ack]; deposit_tx].
Definition header1 : CBlockHeader := Eval vm_compute in header_of genesis txs1 1.
Definition hash1 : uint256 := Eval vm_compute in Hash (ser_header header1).
Definition header2 : CBlockHeader := Eval vm_compute in header_of hash1 txs2 1.
Definition hash2 : uint256 := Eval vm_compute in Hash (ser_header header2).
Definition header3 : CBlockHeader := Eval vm_compute in header_of hash2 txs3 0.
Definition hash3 : uint256 := Eval vm_compute in Hash (ser_header header3).

Definition raw_of (h : CBlockHeader) (txs : list CTransaction) : bytes := ser_header h ++ ser_vector (SerializeTransaction true) txs.

Definition raw1 : bytes := Eval vm_compute in raw_of header1 txs1.
Definition raw2 : bytes := Eval vm_compute in raw_of header2 txs2.
Definition raw3 : bytes := Eval vm_compute in raw_of header3 txs3.

Definition milestones_ : Milestones := mkMilestones [] 0 0 0 0 0 0 genesis 0 UINT32_MAX 0.

Definition unsigned_config (commitment : uint256) : consensus :=
  mkWarmConsensus (Some 24) description (Some proposal) 5 None milestones_ 77 3 1 3 1 3 1 true 9 9 NOP8 SEQUENTIAL_M6
    SCHEMA_VERSION [66] commitment 44 1 false.
Definition config : consensus := Eval vm_compute in unsigned_config (Hash (bootstrap_payload (unsigned_config 0) [])).

Definition active_hash (h : Z) : result uint256 :=
  if h =? 0 then Ok genesis else if h =? 1 then Ok hash1 else if h =? 2 then Ok hash2 else if h =? 3 then Ok hash3 else Err "height".

Definition raw_block (h : uint256) : result (option bytes) :=
  if h =? hash1 then Ok (Some raw1) else if h =? hash2 then Ok (Some raw2) else if h =? hash3 then Ok (Some raw3) else Err "hash".

Definition oracle : Oracle :=
  mkOracle (fun _ => active_hash) (fun _ => Ok 3) (fun _ => raw_block) (fun _ _ => Ok (0, 77)) (fun _ => false) (fun _ => false)
    (fun _ => Ok (mkStore (Some empty_db) SCHEMA_VERSION)) (fun _ => true) (fun _ => ResetOk).

Abbreviation seed := (Some []).
Definition warmed : World := Eval vm_compute in (EnsurePinnedDrivechainParentStateThrough pp config seed oracle 3 hash3 true booted).2.

Lemma warms : EnsurePinnedDrivechainParentStateThrough pp config seed oracle 3 hash3 true booted = (Ok tt, warmed).
Proof. vm_compute. reflexivity. Qed.

Lemma warmed_reachable : reachable pp config seed oracle warmed.
Proof.
  replace warmed with (EnsurePinnedDrivechainParentStateThrough pp config seed oracle 3 hash3 true booted).2 by (rewrite warms; reflexivity).
  apply reach_ensure, reach_boot.
Qed.

Lemma opened_good n s : oracle.(o_opened) n = Ok s -> good pp config seed s.
Proof. intros [= <-] t Hl. discriminate Hl. Qed.

Lemma heights : 0 <= config.(milestones).(ms_state_height) <= UINT32_MAX.
Proof. split; [done|]. unfold UINT32_MAX. cbn. lia. Qed.

Lemma hashes n k y : oracle.(o_hash) n k = Ok y -> y <> 0.
Proof.
  cbn [o_hash oracle]. unfold active_hash. repeat (destruct (_ =? _); [intros [= <-]; discriminate|]). discriminate.
Qed.

(** The deposit of the third block. *)
Definition deposit_id : uint256 := Eval vm_compute in GetHash deposit_tx.
Definition deposit : DrivechainMintableDeposit := mkDeposit (mkOutPoint deposit_id 0) hash3 3 1500 address.

Definition status_world : World :=
  Eval vm_compute in (GetConfirmedDrivechainDepositStatus config oracle hash3 24 (mkOutPoint deposit_id 0) 1500 address 5 warmed).2.

Lemma status_valid : GetConfirmedDrivechainDepositStatus config oracle hash3 24 (mkOutPoint deposit_id 0) 1500 address 5 warmed = (Pegin.VALID, status_world).
Proof. vm_compute. reflexivity. Qed.

Definition query_world : World := Eval vm_compute in (GetDrivechainSuccessfulWithdrawal pp config seed oracle 24 6 warmed).2.

Lemma query_answers : GetDrivechainSuccessfulWithdrawal pp config seed oracle 24 6 warmed = (Ok None, query_world).
Proof. vm_compute. reflexivity. Qed.

(** *** The derivation of the store, block by block *)
Abbreviation rules := (required config).
Definition block1 : CBlock := mkBlock header1 txs1.
Definition block2 : CBlock := mkBlock header2 txs2.
Definition block3 : CBlock := mkBlock header3 txs3.

Definition from_ok {A} (d : A) (x : result A) : A := match x with Ok a => a | Err _ => d end.
Definition no_result : BlockResult := mkBlockResult no_state [] [] [].

Definition tip0 : DrivechainParentReplayTip := mkTip 0 genesis no_state.
Definition store0 : DrivechainParentReplayStore := (Reset_ (mkStore None SCHEMA_VERSION) 44 tip0 ResetOk).2.
Definition step_of (s : DrivechainParentReplayStore) (t : DrivechainParentReplayTip) (b : CBlock) : DrivechainParentReplayStore * DrivechainParentReplayTip :=
  from_ok (s, t) (replay_step rules milestones_ true s t b).
Definition after1 : DrivechainParentReplayStore * DrivechainParentReplayTip := Eval vm_compute in step_of store0 tip0 block1.
Definition after2 : DrivechainParentReplayStore * DrivechainParentReplayTip := Eval vm_compute in step_of after1.1 after1.2 block2.
Definition after3 : DrivechainParentReplayStore * DrivechainParentReplayTip := Eval vm_compute in step_of after2.1 after2.2 block3.

Definition result_of (t : DrivechainParentReplayTip) (b : CBlock) : BlockResult :=
  from_ok no_result (ApplyDrivechainParentBlockState rules b (u32 (t.(tip_height) + 1)) t.(tip_state)).
Definition result1 : BlockResult := Eval vm_compute in result_of tip0 block1.
Definition result2 : BlockResult := Eval vm_compute in result_of after1.2 block2.
Definition result3 : BlockResult := Eval vm_compute in result_of after2.2 block3.

(** One block of the derivation, from what it evaluates to. *)
Lemma derive_block s t blocks ds ws raw hash_ block r s' next :
  derived pp config seed (block_ok rules) tip0 s t blocks ds ws -> block_okb t.(tip_state) block = true ->
  GetBlockHash block = hash_ -> ReadAuthenticatedRawMainchainBlock pp raw hash_ = Ok block ->
  ApplyDrivechainParentBlockState rules block (u32 (t.(tip_height) + 1)) t.(tip_state) = Ok r ->
  (ApplyDrivechainParentBlockState rules block (u32 (t.(tip_height) + 1)) t.(tip_state) = Ok r ->
   replay_step rules milestones_ true s t block = Ok (s', next)) ->
  derived pp config seed (block_ok rules) tip0 s' next (blocks ++ [block]) (ds ++ r.(r_deposits)) (ws ++ r.(r_withdrawals)).
Proof.
  intros Hd Hb <- Ha Hr Hs. eapply derived_block; [exact Hd|by apply block_okb_sound|exact Ha|exact Hr|exact (Hs Hr)].
Qed.

Lemma derived0 : derived pp config seed (block_ok rules) tip0 store0 tip0 [] [] [].
Proof. eapply derived_seed; [|split; done|reflexivity]. exists no_state. split; [vm_compute; reflexivity|reflexivity]. Qed.

Lemma derived1 : derived pp config seed (block_ok rules) tip0 after1.1 after1.2 [block1] [] [].
Proof.
  apply (derive_block _ _ _ _ _ raw1 hash1 block1 result1 _ _ derived0); [vm_compute; reflexivity..|].
  intros H. unfold replay_step. rewrite H. clear H. vm_compute. reflexivity.
Qed.

Lemma derived2 : derived pp config seed (block_ok rules) tip0 after2.1 after2.2 [block1; block2] [] [].
Proof.
  apply (derive_block _ _ _ _ _ raw2 hash2 block2 result2 _ _ derived1); [vm_compute; reflexivity..|].
  intros H. unfold replay_step. rewrite H. clear H. vm_compute. reflexivity.
Qed.

Lemma step3 : replay_step rules milestones_ true after2.1 after2.2 block3 = Ok (after3.1, after3.2).
Proof. vm_compute. reflexivity. Qed.

Lemma block3_hash : GetBlockHash block3 = hash3.
Proof. vm_compute. reflexivity. Qed.

Lemma block3_authentic : ReadAuthenticatedRawMainchainBlock pp raw3 hash3 = Ok block3.
Proof. vm_compute. reflexivity. Qed.

Lemma derived3 : derived pp config seed (block_ok rules) tip0 after3.1 after3.2 [block1; block2; block3] [deposit] [].
Proof.
  apply (derive_block _ _ _ _ _ raw3 hash3 block3 result3 _ _ derived2);
    [vm_compute; reflexivity|exact block3_hash|exact block3_authentic|vm_compute; reflexivity|]. intros _. exact step3.
Qed.

Lemma warmed_store : warmed.(w_store) = Some after3.1.
Proof. reflexivity. Qed.

(** The node one block behind the parent chain. *)
Definition behind : World := with_store (Some after2.1) (with_cache (with_tip warmed.(w_cache) after2.2) warmed).

(** The same with a budget of two blocks. *)
Definition budgeted : World := with_budget (mkBudget true 2 false false 0 0 0) behind.

Lemma oracle_steady : steady oracle active_hash 3.
Proof. by split. Qed.

Lemma behind_replays : replays pp config oracle active_hash after2.1 after2.2 [block3] after3.1 after3.2.
Proof.
  eapply (replays_cons _ _ _ _ _ _ raw3 block3); [| | |exact step3|constructor]; rewrite block3_hash.
  - reflexivity.
  - reflexivity.
  - exact block3_authentic.
Qed.

(** *** The claim of the deposit *)
Definition destination : bytes := [0; 2; 7; 7].
#[local] Instance dest : DestinationEnv := fun a => if bytes_eqb a address then Some destination else None.

Definition params : Pegin.peg_params := Pegin.mkPegParams 5 genesis pp.(parentChainPowLimit) (Some 24).
Definition stack : list bytes :=
  Eval vm_compute in from_ok [] (Pegin.CreateNativeWitness 1500 5 genesis [OP_TRUE] (mkOutPoint deposit_id 0) hash3 address).
Definition claim : Pegin.CTransaction :=
  Pegin.mkPeginTx 77 [Pegin.mkPeginTxIn (mkOutPoint deposit_id 0) [] (Pegin.mkIssuance 0 0 [] []) true]
    [Elements.CTxOut_new 5 1500 destination] [stack].
Definition status (hash_ : uint256) (slot_ : Z) (k : COutPoint) (x : Z) (a : bytes) (h : Z) : Pegin.DrivechainDepositStatus :=
  (GetConfirmedDrivechainDepositStatus config oracle hash_ slot_ k x a h warmed).1.
Definition federated (_ : list bytes) (_ : COutPoint) (_ : bool) : bool := false.
Definition amounts (_ : list Elements.CTxOut) (_ : Pegin.CTransaction) : bool := true.
Definition view : CCoinsViewCache := mkViewCache (mkView (fun _ => None) (fun _ => false)) ∅.

Definition claimed_view : Mint.verdict (CCoinsViewCache * list (list Coin)) :=
  Mint.connect_txs params status federated amounts (Err "no commitment") 5 [claim] view ∅ ∅ true.

Definition final_view : CCoinsViewCache := (Claim.from_pass (view, []) claimed_view).1.

Lemma native_connects : exists undo, claimed_view = Mint.Pass (final_view, undo).
Proof.
  assert (H : Claim.passed claimed_view = true) by (vm_compute; reflexivity).
  unfold final_view. revert H. generalize claimed_view. intros [[v u]| |] H; [by exists u|discriminate H|discriminate H].
Qed.

Lemma native_view_inv : cache_inv view.
Proof. split; [done|]. intros k e H. cbn in H. by rewrite lookup_empty in H. Qed.

Lemma native_view_coins k : cache_coin view k = None.
Proof.
  change (view_coin (contents (mkView (fun _ => None) (fun _ => false)) ∅) k = None). unfold contents. cbn [view_coin]. by rewrite lookup_empty.
Qed.

Lemma native_fits : block_fits params view 5 [claim].
Proof.
  split; [done|by apply list.NoDup_singleton| | |].
  - intros t ->%list_elem_of_singleton. split; [intros j; apply native_view_coins|vm_compute; discriminate].
  - intros t ->%list_elem_of_singleton. split_and!.
    + repeat constructor.
    + constructor.
    + constructor; [vm_compute; discriminate|constructor].
    + intros _ i a b Ha Hb. destruct i as [|i]; [|by destruct i]. injection Ha as <-. injection Hb as <-.
      split_and!; [split; vm_compute; split; try discriminate; reflexivity|vm_compute; discriminate|].
      refine (bool_decide_unpack _ _). vm_compute. exact I.
  - intros k x Hk. by rewrite native_view_coins.
Qed.

Abbreviation chain := [(Err "no commitment", 5, [claim])].

Lemma chain_connects : connect_chain params status federated amounts true chain view = Mint.Pass final_view.
Proof. cbn [connect_chain]. fold claimed_view. destruct native_connects as (undo & ->). reflexivity. Qed.

Lemma chain_fits_ : chain_fits params status federated amounts true chain view.
Proof. cbn [chain_fits]. fold claimed_view. destruct native_connects as (undo & ->). split; [exact native_fits|exact I]. Qed.

Lemma seed_ok : tip_ok rules tip0.
Proof. apply tip_okb_sound; vm_compute; reflexivity. Qed.

Lemma status_vouched : vouched pp config seed oracle status [deposit].
Proof.
  intros hash_ slot_ k x a h Hs. exists warmed, (GetConfirmedDrivechainDepositStatus config oracle hash_ slot_ k x a h warmed).2.
  split; [exact warmed_reachable|]. split.
  - unfold status in Hs. rewrite <- Hs. apply surjective_pairing.
  - intros s k' d Es Hr. rewrite warmed_store in Es. apply (inj Some) in Es as <-.
    exact (proj1 (proj1 (derived_reads _ _ _ _ _ _ _ _ _ _ _ _ derived3) Hr)).
Qed.
End Chain.

#[local] Existing Instance sample_env.


Lemma ensure_catches_up_witness :
  exists w', EnsurePinnedDrivechainParentStateThroughLocked Chain.pp Chain.config Chain.seed Chain.oracle
      Chain.after3.2.(tip_height) Chain.after3.2.(tip_hash) true Chain.behind = (Ok tt, w') /\
    w'.(w_cache) = with_tip Chain.behind.(w_cache) Chain.after3.2 /\ w'.(w_store) = Some Chain.after3.1 /\
    w'.(w_published) = Chain.behind.(w_cache).(epoch).
Proof.
  apply (ensure_catches_up Chain.pp Chain.config Chain.seed Chain.oracle Chain.active_hash 3 Chain.oracle_steady
    Chain.behind Chain.after2.1 [Chain.block3] Chain.after3.1 Chain.after3.2 true).
  - reflexivity.
  - reflexivity.
  - reflexivity.
  - reflexivity.
  - reflexivity.
  - reflexivity.
  - exact Chain.behind_replays.
  - discriminate.
  - split; [discriminate|reflexivity].
  - reflexivity.
Defined.

Lemma valid_deposit_is_confirmed_witness :
  let t := Chain.warmed.(w_cache).(tip) in
  exists s t0 blocks ds ws d i block through, Chain.warmed.(w_store) = Some s /\ derived Chain.pp Chain.config Chain.seed any t0 s t blocks ds ws /\
    d ∈ ds /\ d.(outpoint) = mkOutPoint Chain.deposit_id 0 /\ d.(d_value) = 1500 /\ d.(address) = Chain.address /\
    Chain.config.(drivechain_slot) = Some 24 /\
    blocks !! i = Some block /\ GetBlockHash block = Chain.hash3 /\ d.(d_block_height) = t0.(tip_height) + Z.of_nat i + 1 /\
    t.(tip_state).(required_proposal_activated) = true /\ t.(tip_state).(required_activation_height) <= d.(d_block_height) /\
    d.(d_block_height) + Z.max 1 (GetDrivechainPeginConfirmationDepth Chain.config 5) - 1 <= through /\
    (Chain.warmed.(w_budget).(snapshot_authenticated) = true /\ through = Chain.warmed.(w_budget).(snapshot_height) \/
     through = t.(tip_height) /\ exists n, (Chain.warmed.(w_tick) <= n)%nat /\ Chain.oracle.(o_hash) n t.(tip_height) = Ok t.(tip_hash)).
Proof.
  apply (valid_deposit_is_confirmed Chain.pp Chain.config Chain.seed Chain.oracle Chain.opened_good Chain.heights
    Chain.hash3 24 (mkOutPoint Chain.deposit_id 0) 1500 Chain.address 5 Chain.warmed Chain.status_world).
  - exact Chain.warmed_reachable.
  - exact Chain.status_valid.
Defined.

Lemma withdrawal_query_exact_witness :
  let t := Chain.query_world.(w_cache).(tip) in
  exists s t0 blocks ds ws n, Chain.query_world.(w_store) = Some s /\ derived Chain.pp Chain.config Chain.seed any t0 s t blocks ds ws /\
    None = first_success (24, 6) ws /\ Chain.oracle.(o_hash) n t.(tip_height) = Ok t.(tip_hash) /\
    (forall x, None = Some x -> x.(s_height) <= t.(tip_height) /\ exists m, Chain.oracle.(o_hash) m x.(s_height) = Ok x.(s_block_hash)).
Proof.
  apply (withdrawal_query_exact Chain.pp Chain.config Chain.seed Chain.oracle Chain.opened_good Chain.heights
    24 6 Chain.warmed None Chain.query_world).
  - reflexivity.
  - exact Chain.warmed_reachable.
  - exact Chain.query_answers.
Defined.

#[local] Existing Instance Chain.dest.

Lemma native_credit_is_backed_witness :
  exists ds, ds ⊆+ [Chain.deposit] /\ redemptions Chain.params (chain_txs Chain.chain) ds /\
    MintTheorems.total (chain_txs Chain.chain) = TreasuryFacts.total ds /\ TreasuryFacts.total ds <= TreasuryFacts.total [Chain.deposit] /\
    (Forall (fun w => w.(s_slot) <> configured_slot Chain.rules) [] ->
     MintTheorems.total (chain_txs Chain.chain) <= Chain.after3.2.(tip_state).(own).(ctip_value) - Chain.tip0.(tip_state).(own).(ctip_value)).
Proof.
  apply (native_credit_is_backed Chain.pp Chain.config Chain.seed Chain.oracle Chain.params Chain.status Chain.federated Chain.amounts
    24 Chain.tip0 Chain.after3.1 Chain.after3.2 [Chain.block1; Chain.block2; Chain.block3] [Chain.deposit] [] true Chain.chain Chain.view Chain.final_view).
  - split; done.
  - reflexivity.
  - exact Chain.opened_good.
  - exact Chain.heights.
  - exact Chain.seed_ok.
  - exact Chain.derived3.
  - exact Chain.status_vouched.
  - exact Chain.native_view_inv.
  - exact Chain.chain_fits_.
  - exact Chain.chain_connects.
Defined.

