(* ===== verification/RecoveryTheorems.v ===== *)
(** * Theorems on the recovery of pruned parent blocks

    The requests of a recovery are counted by the predicate [costs], which
    composes along the monad; what a successful run was told by the parent node
    is read off the code by inverting its binds.  The samples replay the
    conversation of src/src/test/validation_tests.cpp. *)
From S2P Require Import Prelude Recovery.
Import Recovery.

(** ** Inverting a run *)

Lemma run_bind_ok {A B} (m : R A) (f : A -> R B) st b st2 :
  (m ≫= f) st = (Ok b, st2) -> exists a st1, m st = (Ok a, st1) /\ f a st1 = (Ok b, st2).
Proof. unfold mbind, R_bind. destruct (m st) as [[a|e] st1]; [eauto|discriminate]. Qed.

Lemma run_require_ok (b : bool) e st u st' : require b e st = (Ok u, st') -> b = true /\ st' = st.
Proof. unfold require, lift, ensure. destruct b; [|discriminate]. intros [= _ <-]. done. Qed.

Lemma run_lift_ok {A} (r : result A) st a st' : lift r st = (Ok a, st') -> r = Ok a /\ st' = st.
Proof. unfold lift. intros [= -> <-]. done. Qed.

Lemma run_check_ok env st u st' : check env st = (Ok u, st') -> st' = after env 0 [] st.
Proof. unfold check. intros [= _ <-]. done. Qed.

Lemma run_rpc_ok env method params st reply st' :
  rpc env method params st = (Ok reply, st') ->
  env.(e_rpc) st.(tick) method params = Ok reply /\ st' = after env 0 [(method, params)] st.
Proof. unfold rpc. intros [= -> <-]. done. Qed.

Lemma run_wait_ok env st u st' : wait env st = (Ok u, st') -> st' = after env 250 [] st.
Proof. unfold wait. intros [= _ <-]. done. Qed.

Ltac run_inv :=
  repeat match goal with
  | H : (_ ≫= _) _ = (Ok _, _) |- _ => apply run_bind_ok in H as (?&?&?&H)
  | H : require _ _ _ = (Ok _, _) |- _ => apply run_require_ok in H as [??]; subst
  | H : lift _ _ = (Ok _, _) |- _ => apply run_lift_ok in H as [??]; subst
  | H : check _ _ = (Ok _, _) |- _ => apply run_check_ok in H; subst
  | H : rpc _ _ _ _ = (Ok _, _) |- _ => apply run_rpc_ok in H as [??]; subst
  | H : wait _ _ = (Ok _, _) |- _ => apply run_wait_ok in H; subst
  | H : now _ = (Ok _, _) |- _ => injection H as ??; subst
  | H : mret _ _ = (Ok _, _) |- _ => injection H as ??; subst
  end.

(** ** Counting requests *)

(** [m] makes at most [n] requests, and time does not go back. *)
Definition costs {A} (n : nat) (m : R A) : Prop := forall st,
  (length (snd (m st)).(requests) <= n + length st.(requests))%nat /\ st.(clock) <= (snd (m st)).(clock).

Create HintDb costs.

Lemma costs_bind {A B} n k (m : R A) (f : A -> R B) :
  costs n m -> (forall a, costs k (f a)) -> costs (n + k) (m ≫= f).
Proof.
  intros Hm Hf st. specialize (Hm st). unfold mbind, R_bind.
  destruct (m st) as [[a|e] st1]; cbn in *; [specialize (Hf a st1)|]; lia.
Qed.

Lemma costs_weaken {A} n k (m : R A) : costs n m -> (n <= k)%nat -> costs k m.
Proof. intros Hm Hn st. specialize (Hm st). lia. Qed.

Lemma costs_lift {A} (r : result A) : costs 0 (lift r).
Proof. intros st. cbn. lia. Qed.

Lemma costs_mret {A} (a : A) : costs 0 (mret a : R A).
Proof. intros st. cbn. lia. Qed.

Lemma costs_now : costs 0 now.
Proof. intros st. cbn. lia. Qed.

Lemma costs_require b e : costs 0 (require b e).
Proof. apply costs_lift. Qed.

#[export] Hint Resolve costs_lift costs_mret costs_now costs_require : costs.

(** Follows the binds of a program and leaves a sum of costs. *)
Ltac cost := eapply costs_weaken; [repeat (first [eapply costs_bind; [eauto with costs|intros] | solve [eauto with costs]])|].

Section recovery.
Context (env : Env) (hash : string).

Lemma costs_check : costs 0 (check env).
Proof. intros st. cbn. lia. Qed.

Lemma costs_rpc method params : costs 1 (rpc env method params).
Proof. intros st. cbn. lia. Qed.

Lemma costs_wait : costs 0 (wait env).
Proof. intros st. cbn. lia. Qed.

#[local] Hint Resolve costs_check costs_rpc costs_wait : costs.

Lemma costs_checked method params : costs 1 (checked env method params).
Proof. unfold checked. cost. lia. Qed.

#[local] Hint Resolve costs_checked : costs.

Lemma costs_active_height : costs 2 (active_height env hash).
Proof. unfold active_height. cost. lia. Qed.

#[local] Hint Resolve costs_active_height : costs.

Lemma costs_request_block peers : costs 1 (request_block env hash peers).
Proof.
  induction peers as [|p ps IH]; cbn; [cost; lia|].
  destruct (offers_blocks p); [cost; lia|exact IH].
Qed.

Lemma costs_poll rounds deadline height : costs (rounds + 2) (poll env hash rounds deadline height).
Proof.
  induction rounds as [|n IH]; cbn; [cost; lia|].
  apply (costs_weaken (0 + (0 + (0 + (1 + (0 + (n + 2))))))); [|lia].
  repeat (apply costs_bind; [eauto with costs|intros]).
  case_match; [cost; lia|]. apply (costs_bind 0); [eauto with costs|intros; exact IH].
Qed.

#[local] Hint Resolve costs_request_block costs_poll : costs.

Lemma costs_recover rounds : costs (rounds + 6) (recover env hash rounds).
Proof. unfold recover. cost. lia. Qed.

Lemma costs_fetch (allow : bool) : costs (if allow then 128 else 1) (fetch env hash poll_rounds allow).
Proof.
  unfold fetch. apply (costs_weaken (0 + (1 + (0 + if allow then 127 else 0)))%nat); [|destruct allow; lia].
  repeat (apply costs_bind; [eauto with costs|intros]). destruct (negb _); [destruct allow; cost; lia|].
  destruct allow; [|intros st; unfold mbind, R_bind; cbn; lia].
  apply (costs_bind 0); [eauto with costs|intros; apply (costs_recover 121)].
Qed.

(** ** The loop ends *)

Lemma poll_S rounds deadline height : poll env hash (S rounds) deadline height =
  (check env;; time ← now; require (time <? deadline) "parent block recovery timed out";;
   reply ← rpc env "getblock" (block_params hash); pruned ← lift (IsPrunedBlockReply reply);
   if negb pruned then
     require (negb (failed reply)) "getblock failed during parent block recovery";;
     again ← active_height env hash;
     require (again =? height) "parent block height changed during recovery";; mret (Some (field reply "result"))
   else wait env;; poll env hash rounds deadline height).
Proof. reflexivity. Qed.

Lemma poll_ends rounds deadline height st :
  deadline <= st.(clock) + 250 * Z.of_nat rounds ->
  fst (poll env hash (S rounds) deadline height st) <> Ok None.
Proof.
  revert st. induction rounds as [|n IH]; intros st Hd E;
    destruct (poll env hash _ deadline height st) as [r st'] eqn:Ep; cbn in E; subst r;
    rewrite poll_S in Ep; run_inv; bool_simp; [cbn in *; lia|].
  case_match; run_inv; [discriminate|].
  refine (IH _ _ (f_equal fst Ep)). cbn. lia.
Qed.

(** ** What a body was vouched for *)

(** The parent node answered the request of tick [t] with the result [v]. *)
Definition answers (t : nat) (method : string) (params : list UniValue) (v : UniValue) : Prop :=
  exists reply, env.(e_rpc) t method params = Ok reply /\ field reply "error" = VNULL /\ field reply "result" = v /\ v <> VNULL.

(** From tick [t] on, the parent node gave [hash] a height [h] and confirmations, and listed it at that height. *)
Definition vouches (t : nat) (h : Z) : Prop :=
  exists header c, answers (t + 1) "getblockheader" (header_params hash) header /\ field header "hash" = VSTR hash
    /\ field header "height" = VNUM h /\ field header "confirmations" = VNUM c /\ 0 <= h < 2 ^ 31 /\ 0 < c
    /\ answers (t + 3) "getblockhash" [VNUM h] (VSTR hash).

Lemma failed_false reply : failed reply = false -> field reply "error" = VNULL /\ field reply "result" <> VNULL.
Proof. unfold failed, isNull. repeat case_match; done. Qed.

Lemma checked_ok method params st v st' :
  checked env method params st = (Ok v, st') -> answers (st.(tick) + 1) method params v /\ st'.(tick) = (st.(tick) + 2)%nat.
Proof.
  unfold checked. intros H. run_inv. bool_simp. cbn in *. split; [|lia].
  edestruct failed_false; [eassumption|]. eexists. rewrite Nat.add_1_r. eauto.
Qed.

Lemma getInt_ok v n : getInt v = Ok n -> v = VNUM n /\ -2 ^ 31 <= n < 2 ^ 31.
Proof. unfold getInt. repeat case_match; intros [= <-]. bool_simp. done. Qed.

Lemma is_str_eq s v : is_str s v = true -> v = VSTR s.
Proof. destruct v; cbn; try discriminate. intros ->%String.eqb_eq. done. Qed.

Lemma header_active_ok header h : header_active hash header = Ok true -> getInt (field header "height") = Ok h ->
  field header "hash" = VSTR hash /\ field header "height" = VNUM h /\ 0 <= h < 2 ^ 31 /\
  exists c, field header "confirmations" = VNUM c /\ 0 < c.
Proof.
  unfold header_active. intros H Eh. rewrite Eh in H. case_match eqn:E0; [discriminate|].
  cbn in H. case_match; [discriminate|]. destruct (getInt (field header "confirmations")) eqn:Ec; [|discriminate].
  injection H as Hc. apply getInt_ok in Eh as [-> ?], Ec as [-> ?]. bool_simp.
  repeat split; eauto using is_str_eq; lia.
Qed.

Lemma active_height_ok st h st' :
  active_height env hash st = (Ok h, st') -> vouches st.(tick) h /\ st'.(tick) = (st.(tick) + 4)%nat.
Proof.
  unfold active_height. intros H. run_inv. subst.
  repeat match goal with Hc : checked _ _ _ _ = _ |- _ => apply checked_ok in Hc as [??] end.
  match goal with Ha : header_active _ _ = _, Hg : getInt _ = _ |- _ =>
    destruct (header_active_ok _ _ Ha Hg) as (?&?&?&?&?&?) end.
  match goal with Hs : is_str hash ?v = true |- _ => apply is_str_eq in Hs; subst end.
  split; [|lia]. do 2 eexists. repeat split; try eassumption; try lia.
  replace (tick st + 3)%nat with (tick st + 2 + 1)%nat by lia. congruence.
Qed.

Lemma poll_ok rounds deadline height st v st' :
  poll env hash rounds deadline height st = (Ok (Some v), st') ->
  exists t, (st.(tick) < t)%nat /\ answers t "getblock" (block_params hash) v /\ vouches (t + 1) height
    /\ st'.(tick) = (t + 5)%nat.
Proof.
  revert st. induction rounds as [|n IH]; intros st H; [discriminate|]. rewrite poll_S in H. run_inv.
  case_match; run_inv.
  - simplify_eq. bool_simp. edestruct failed_false; [eassumption|].
    match goal with Ha : active_height _ _ _ = _ |- _ => apply active_height_ok in Ha as [Hv Ht] end.
    match goal with Hz : _ = height |- _ => rewrite Hz in Hv end.
    exists (S (tick st)). cbn in *. repeat split; [lia|by eexists| |lia].
    rewrite Nat.add_1_r. exact Hv.
  - apply IH in H as (t & Ht & H). exists t. split; [cbn in Ht; lia|exact H].
Qed.

Lemma request_block_tick peers st b st' :
  request_block env hash peers st = (Ok b, st') -> (st.(tick) <= st'.(tick))%nat.
Proof.
  induction peers as [|p ps IH]; cbn; [intros [= _ <-]; done|].
  destruct (offers_blocks p); [|exact IH]. intros H. run_inv.
  match goal with Hc : checked _ _ _ _ = _ |- _ => apply checked_ok in Hc as [_ ?] end. lia.
Qed.

Lemma recover_ok rounds st v st' :
  recover env hash rounds st = (Ok (Some v), st') ->
  exists h t, vouches st.(tick) h /\ (st.(tick) + 4 < t)%nat /\ answers t "getblock" (block_params hash) v
    /\ vouches (t + 1) h /\ st'.(tick) = (t + 5)%nat.
Proof.
  unfold recover. intros H. run_inv.
  repeat match goal with
  | Ha : active_height _ _ _ = _ |- _ => apply active_height_ok in Ha as [??]
  | Hc : checked _ _ _ _ = _ |- _ => apply checked_ok in Hc as [??]
  | Hr : request_block _ _ _ _ = _ |- _ => apply request_block_tick in Hr
  end.
  apply poll_ok in H as (t & Ht & Hb & Hv & E). eexists _, t. repeat split; eauto. lia.
Qed.

Lemma recover_ends st : fst (recover env hash poll_rounds st) <> Ok None.
Proof.
  intros E. destruct (recover env hash poll_rounds st) as [r st'] eqn:H. cbn in E. subst r. unfold recover in H.
  apply run_bind_ok in H as (start & st0 & [= <- <-] & H).
  apply run_bind_ok in H as (h & st1 & H1 & H). apply run_bind_ok in H as (peers & st2 & H2 & H). run_inv.
  match goal with Hr : request_block _ _ ?p ?s = _ |- _ => pose proof (costs_request_block p s) as C3; rewrite Hr in C3 end.
  pose proof (costs_active_height st) as C1. rewrite H1 in C1. cbn in *.
  match goal with Hc : checked _ ?m ?q ?s = _ |- _ => pose proof (costs_checked m q s) as C2; rewrite Hc in C2 end.
  refine (poll_ends 120 _ _ _ _ (f_equal fst H)). cbn in *. lia.
Qed.


End recovery.

(** ** A recovered block *)
Module Sample.

Definition reply (result : UniValue) : UniValue := VOBJ [("error", VNULL); ("result", result)].
Definition pruned : UniValue :=
  VOBJ [("error", VOBJ [("code", VNUM (-1)); ("message", VSTR "Block not available (pruned data)")]); ("result", VNULL)].
Definition header : UniValue :=
  VOBJ [("hash", VSTR "requested"); ("height", VNUM 12); ("confirmations", VNUM 1)].
Definition peers : UniValue :=
  VARR [VOBJ [("id", VNUM 2); ("servicesnames", VARR [VSTR "NETWORK_LIMITED"])];
        VOBJ [("id", VNUM 3); ("servicesnames", VARR [VSTR "NETWORK_LIMITED"; VSTR "NETWORK"])]].

(** A parent node that has the block again from tick [t0] on. *)
Definition parent (t0 : nat) : Env := mkEnv
  (fun t method _ =>
     if String.eqb method "getblock" then Ok (if (t <? t0)%nat then pruned else reply (VSTR "00"))
     else if String.eqb method "getblockheader" then Ok (reply header)
     else if String.eqb method "getblockhash" then Ok (reply (VSTR "requested"))
     else if String.eqb method "getpeerinfo" then Ok (reply peers)
     else Ok (reply (VOBJ [])))
  (fun _ => Ok tt) (fun _ => 1%N).

Definition start : St := mkSt 0 0 [].

(** The requests of the conversation with one wait in between. *)
Example recovered_conversation :
  fst (FetchParentBlockBody (parent 14) "requested" true start) = Ok (Some (VSTR "00"))
  /\ rev (map fst (snd (FetchParentBlockBody (parent 14) "requested" true start)).(requests))
     = ["getblock"; "getblockheader"; "getblockhash"; "getpeerinfo"; "getblockfrompeer"; "getblock"; "getblock";
        "getblockheader"; "getblockhash"].
Proof. vm_compute. split; reflexivity. Qed.

(** A parent node that never delivers makes the loop time out. *)
Example recovery_times_out :
  fst (FetchParentBlockBody (parent 1000) "requested" true start) = Err "parent block recovery timed out".
Proof. vm_compute. reflexivity. Qed.

End Sample.

