(* ===== verification/Merkle.v ===== *)
(** * Sparse Merkle trees of fixed depth

    The mathematics behind the withdrawal accumulator of
    src/src/validation.cpp, over any hash with an interface [MerkleHash]: the
    root of a list of leaves padded with empty subtrees, inclusion paths, and
    the frontier of an append-only tree (a binary counter of complete
    subtrees). *)

From S2P Require Import Prelude.

(** What the trees need of the node hash: the root of an empty subtree of each
    height is the node of two smaller ones. *)
Class MerkleHash (H : Type) := {
  mnode : H -> H -> H;
  mempty : nat -> H;
  mempty_S i : mempty (S i) = mnode (mempty i) (mempty i) }.

Section merkle.
Context {H : Type} `{!MerkleHash H}.
Implicit Types (l c : list H) (x y : H).

(** One level up: neighbours are joined, a last one without a neighbour is
    joined with the empty subtree of the level. *)
Fixpoint next_layer (lv : nat) l : list H :=
  match l with
  | a :: b :: t => mnode a b :: next_layer lv t
  | [a] => [mnode a (mempty lv)]
  | [] => []
  end.

(** Only the complete pairs. *)
Fixpoint pairs l : list H :=
  match l with a :: b :: t => mnode a b :: pairs t | _ => [] end.

(** The root of the tree of height [h] over the nodes [l] of level [lv]. *)
Fixpoint troot (lv h : nat) l : H :=
  match h with
  | O => match l with a :: _ => a | [] => mempty lv end
  | S h' => troot (S lv) h' (next_layer lv l)
  end.

(** The siblings on the way up from position [i], and the root they give. *)
Fixpoint siblings (lv h : nat) l (i : nat) : list H :=
  match h with
  | O => []
  | S h' => nth (if Nat.even i then S i else pred i) l (mempty lv)
            :: siblings (S lv) h' (next_layer lv l) (i / 2)
  end.

Fixpoint path_root (i : nat) x (sibs : list H) : H :=
  match sibs with
  | [] => x
  | s :: t => path_root (i / 2) (if Nat.even i then mnode x s else mnode s x) t
  end.

(** The pair of nodes a path hashes at its first step, and the one the tree has there. *)
Definition path_pair (i : nat) x s : H * H := if Nat.even i then (x, s) else (s, x).

Definition tree_pair (lv : nat) l (i : nat) : H * H :=
  path_pair i (nth i l (mempty lv)) (nth (if Nat.even i then S i else pred i) l (mempty lv)).

(** Walks a path beside the tree, up to the first node they agree on: the two
    different pairs behind that node, if the pairs differ. *)
Fixpoint path_collision `{!EqDecision H} (lv h : nat) l (i : nat) x (sibs : list H)
    : option ((H * H) * (H * H)) :=
  match h, sibs with
  | S h', s :: t =>
      let v := path_pair i x s in
      let w := tree_pair lv l i in
      if bool_decide (mnode v.1 v.2 = mnode w.1 w.2)
      then if bool_decide (v = w) then None else Some (v, w)
      else path_collision (S lv) h' (next_layer lv l) (i / 2) (mnode v.1 v.2) t
  | _, _ => None
  end.

(** ** Layers *)
(** Lists two elements at a time. *)
Lemma pairs_ind (P : list H -> Prop) : P [] -> (forall a, P [a]) ->
  (forall a b t, P t -> P (a :: b :: t)) -> forall l, P l.
Proof.
  intros H0 H1 H2 l. enough (P l /\ forall a, P (a :: l)) by tauto.
  induction l as [|b l [IH1 IH2]]; split; auto.
Qed.

Lemma length_next_layer lv l : length (next_layer lv l) = ((length l + 1) / 2)%nat.
Proof.
  induction l as [|a|a b t IH] using pairs_ind; [done|done|]. cbn [next_layer length]. rewrite IH.
  replace (S (S (length t)) + 1)%nat with (1 * 2 + (length t + 1))%nat by lia.
  by rewrite Nat.div_add_l.
Qed.

Lemma next_layer_lt lv l i : (i < length l)%nat -> (i / 2 < length (next_layer lv l))%nat.
Proof.
  intros Hi. rewrite length_next_layer. apply Nat.Div0.div_lt_upper_bound.
  pose proof (Nat.div_mod_eq (length l + 1) 2) as E.
  pose proof (Nat.mod_upper_bound (length l + 1) 2 ltac:(lia)). lia.
Qed.

Lemma next_layer_le lv l h : (length l <= 2 ^ S h)%nat -> (length (next_layer lv l) <= 2 ^ h)%nat.
Proof.
  intros Hl. rewrite length_next_layer. cbn in Hl. apply Nat.lt_succ_r, Nat.Div0.div_lt_upper_bound. lia.
Qed.

Lemma next_layer_Forall (P : H -> Prop) lv l : (forall a b, P (mnode a b)) -> Forall P (next_layer lv l).
Proof. intros Pn. induction l as [|a|a b t IH] using pairs_ind; cbn [next_layer]; auto. Qed.

Lemma length_pairs l : length (pairs l) = (length l / 2)%nat.
Proof.
  induction l as [|a|a b t IH] using pairs_ind; [done|done|]. cbn [pairs length]. rewrite IH.
  replace (S (S (length t))) with (1 * 2 + length t)%nat by lia. by rewrite Nat.div_add_l.
Qed.

Lemma div2_SS i : (S (S i) / 2)%nat = S (i / 2).
Proof. replace (S (S i)) with (1 * 2 + i)%nat by lia. by rewrite Nat.div_add_l. Qed.

Lemma nth_nil k x : nth k [] x = x.
Proof. by destruct k. Qed.

Lemma nth_next_layer lv l i :
  nth (i / 2) (next_layer lv l) (mempty (S lv)) =
  if Nat.even i then mnode (nth i l (mempty lv)) (nth (S i) l (mempty lv))
  else mnode (nth (pred i) l (mempty lv)) (nth i l (mempty lv)).
Proof.
  revert i. induction l as [|a|a b t IH] using pairs_ind; intros i.
  - cbn [next_layer]. rewrite !nth_nil, mempty_S. by destruct (Nat.even i).
  - destruct i as [|[|i]]; [done|done|]. rewrite div2_SS. cbn [next_layer].
    destruct (Nat.even _); rewrite !nth_overflow by (cbn; lia); apply mempty_S.
  - destruct i as [|[|i]]; [done|done|]. rewrite div2_SS.
    cbn [next_layer nth]. rewrite IH. change (Nat.even (S (S i))) with (Nat.even i).
    destruct i; [done|]. done.
Qed.

Lemma troot_nil lv h : troot lv h [] = mempty (lv + h).
Proof.
  revert lv. induction h as [|h IH]; intros lv; cbn [troot next_layer]; [by rewrite Nat.add_0_r|].
  by rewrite IH, Nat.add_succ_comm.
Qed.

(** ** Inclusion *)
(** The siblings of a position lead from its node to the root. *)
Lemma path_siblings lv h l i : (i < length l)%nat -> (length l <= 2 ^ h)%nat ->
  path_root i (nth i l (mempty lv)) (siblings lv h l i) = troot lv h l.
Proof.
  revert lv l i. induction h as [|h IH]; intros lv l i Hi Hl; cbn [siblings path_root troot].
  - cbn in Hl. destruct l as [|a [|b l]]; cbn in Hi, Hl; [lia|by replace i with 0%nat by lia|lia].
  - rewrite <- (IH (S lv) (next_layer lv l) (i / 2)%nat).
    + f_equal. rewrite nth_next_layer. by destruct (Nat.even i).
    + by apply next_layer_lt.
    + by apply next_layer_le.
Qed.

Lemma length_siblings lv h l i : length (siblings lv h l i) = h.
Proof. revert lv l i. induction h as [|h IH]; intros lv l i; cbn; [done|]. by rewrite IH. Qed.

(** A path that leads to the root starts at the node of its position, or the
    walk beside the tree finds two pairs with the same node. *)
Lemma path_sound `{!EqDecision H} (P : H -> Prop) lv h l i x sibs :
  (forall a b, P (mnode a b)) -> (forall k, P (mempty k)) -> Forall P l -> P x -> Forall P sibs ->
  (i < 2 ^ h)%nat -> (length l <= 2 ^ h)%nat -> length sibs = h ->
  path_root i x sibs = troot lv h l ->
  x = nth i l (mempty lv) \/
  exists v w, path_collision lv h l i x sibs = Some (v, w) /\ v <> w /\ mnode v.1 v.2 = mnode w.1 w.2 /\
    P v.1 /\ P v.2 /\ P w.1 /\ P w.2.
Proof.
  intros Pn Pe. revert lv l i x sibs. induction h as [|h IH]; intros lv l i x sibs Pl Px Ps Hi Hl Hs Hp.
  - destruct sibs; [|done]. cbn in *. left.
    destruct l as [|a [|b l]]; cbn in Hi, Hl; [|by replace i with 0%nat by lia|lia].
    by replace i with 0%nat by lia.
  - destruct sibs as [|s sibs]; [done|]. cbn [path_root troot path_collision] in *.
    inversion_clear Ps as [|? ? Ps0 Ps1]. set (v := path_pair i x s). set (w := tree_pair lv l i).
    assert (Ev : (if Nat.even i then mnode x s else mnode s x) = mnode v.1 v.2)
      by (unfold v, path_pair; by destruct (Nat.even i)).
    assert (Ew : nth (i / 2) (next_layer lv l) (mempty (S lv)) = mnode w.1 w.2)
      by (rewrite nth_next_layer; unfold w, tree_pair, path_pair; by destruct (Nat.even i)).
    assert (Pw : forall k, P (nth k l (mempty lv))).
    { intros k. destruct (nth_in_or_default k l (mempty lv)) as [Hin| ->]; [|apply Pe].
      by apply (proj1 (List.Forall_forall P l) Pl). }
    rewrite Ev in Hp. case_bool_decide as En.
    + case_bool_decide as Evw.
      * left. clear -Evw. unfold v, w, tree_pair, path_pair in Evw. by destruct (Nat.even i); injection Evw.
      * right. exists v, w. refine (conj eq_refl (conj Evw (conj En _))).
        unfold v, w, tree_pair, path_pair. destruct (Nat.even i); cbn; auto.
    + apply IH in Hp as [Hp|Hc]; [by rewrite Ew in Hp|by right|by apply next_layer_Forall|done|done
        |apply Nat.Div0.div_lt_upper_bound; by cbn in Hi; lia|by apply next_layer_le|by injection Hs].
Qed.

(** ** The frontier *)
(** Lists of even and of odd length. *)
Lemma odd_snoc l : Nat.odd (length l) = true -> exists l' y, l = l' ++ [y] /\ Nat.even (length l') = true.
Proof.
  destruct l as [|y l' _] using rev_ind; [done|]. intros Ho. exists l', y. split; [done|].
  rewrite length_app in Ho. cbn in Ho. by rewrite Nat.add_1_r, Nat.odd_succ in Ho.
Qed.

Lemma next_layer_app lv l t : Nat.even (length l) = true -> next_layer lv (l ++ t) = pairs l ++ next_layer lv t.
Proof.
  induction l as [|a|a b l IH] using pairs_ind; intros He; [done|done|]. cbn [next_layer pairs app]. by rewrite IH.
Qed.

Lemma pairs_app l t : Nat.even (length l) = true -> pairs (l ++ t) = pairs l ++ pairs t.
Proof.
  induction l as [|a|a b l IH] using pairs_ind; intros He; [done|done|]. cbn [pairs app]. by rewrite IH.
Qed.

Lemma pairs_lt l h : (length l < 2 ^ S h)%nat -> (length (pairs l) < 2 ^ h)%nat.
Proof. intros Hl. rewrite length_pairs. apply Nat.Div0.div_lt_upper_bound. cbn in Hl. lia. Qed.

(** An empty subtree may be listed or left out. *)
Lemma troot_empty lv h l : (length l < 2 ^ h)%nat -> troot lv h (l ++ [mempty lv]) = troot lv h l.
Proof.
  revert lv l. induction h as [|h IH]; intros lv l Hl; cbn [troot].
  - destruct l; [done|cbn in Hl; lia].
  - destruct (Nat.even (length l)) eqn:E.
    + rewrite next_layer_app by done. cbn [next_layer]. rewrite <- mempty_S, IH by (by apply pairs_lt).
      pose proof (next_layer_app lv l [] E) as E'. rewrite !app_nil_r in E'. by rewrite E'.
    + apply (f_equal negb) in E. rewrite Nat.negb_even in E. apply odd_snoc in E as (l' & y & -> & He).
      rewrite <- app_assoc, (next_layer_app lv l' _ He), (next_layer_app lv l' _ He). done.
Qed.

(** The root from the complete subtrees [c] of level [lv] and the root [p] of
    the rest. *)
Fixpoint frontier_root (lv h : nat) c (p : H) : H :=
  match h with
  | O => p
  | S h' => frontier_root (S lv) h' (pairs c)
              (if Nat.odd (length c) then mnode (List.last c p) p else mnode p (mempty lv))
  end.

Lemma frontier_root_spec lv h c p : (length c < 2 ^ h)%nat -> frontier_root lv h c p = troot lv h (c ++ [p]).
Proof.
  revert lv c p. induction h as [|h IH]; intros lv c p Hc; cbn [frontier_root troot].
  - destruct c; [done|cbn in Hc; lia].
  - rewrite IH by (by apply pairs_lt). destruct (Nat.odd (length c)) eqn:E.
    + apply odd_snoc in E as (c' & y & -> & He). rewrite List.last_last, (pairs_app c' _ He).
      rewrite <- (app_assoc c'), (next_layer_app lv c' _ He). cbn. by rewrite app_nil_r.
    + rewrite next_layer_app; [done|]. by rewrite <- Nat.negb_odd, E.
Qed.

(** [fs] is the frontier of the complete subtrees [c]: at each level the last
    one without a neighbour, and [z] where there is none. *)
Fixpoint frontier_ok (z : H) c (fs : list H) : Prop :=
  match fs with
  | [] => c = []
  | f :: fs' => f = (if Nat.odd (length c) then List.last c z else z) /\ frontier_ok z (pairs c) fs'
  end.

(** Adding a subtree, carrying as in a binary counter. *)
Fixpoint frontier_add (z : H) (n : nat) x (fs : list H) : list H :=
  match fs with
  | [] => []
  | f :: fs' => if Nat.odd n then z :: frontier_add z (n / 2) (mnode f x) fs' else x :: fs'
  end.

Lemma frontier_add_length z n x fs : length (frontier_add z n x fs) = length fs.
Proof. revert n x. induction fs as [|f fs IH]; intros n x; cbn; [done|]. destruct (Nat.odd n); cbn; [by rewrite IH|done]. Qed.

Lemma frontier_add_ok z c x fs : frontier_ok z c fs -> (S (length c) < 2 ^ length fs)%nat ->
  frontier_ok z (c ++ [x]) (frontier_add z (length c) x fs).
Proof.
  revert c x. induction fs as [|f fs IH]; intros c x; cbn [frontier_ok frontier_add].
  - intros -> Hl. cbn in Hl. lia.
  - intros [Hf Hfs] Hl. destruct (Nat.odd (length c)) eqn:E; cbn [frontier_ok]; rewrite length_app, Nat.add_1_r;
      cbn [length]; rewrite Nat.odd_succ.
    + pose proof E as E'. apply odd_snoc in E' as (c' & y & -> & He). rewrite List.last_last in Hf. subst f.
      rewrite <- Nat.negb_odd, E. split; [done|]. rewrite <- (app_assoc c'), (pairs_app c' _ He). cbn [pairs app].
      rewrite (pairs_app c' _ He) in Hfs. cbn [pairs] in Hfs. rewrite app_nil_r in Hfs.
      rewrite <- (length_pairs (c' ++ [y])), (pairs_app c' _ He). cbn [pairs]. rewrite app_nil_r.
      apply IH; [done|]. rewrite length_pairs. rewrite length_app in Hl. cbn in Hl.
      pose proof (Nat.div_mod_eq (length c') 2). lia.
    + assert (He : Nat.even (length c) = true) by (by rewrite <- Nat.negb_odd, E). rewrite He.
      rewrite (pairs_app c _ He). cbn [pairs]. rewrite app_nil_r, List.last_last. done.
Qed.
End merkle.
