(* ===== verification/Accumulator.v ===== *)
(** * The USDD withdrawal accumulator (src/src/validation.cpp, namespace usdd)

    Burn outputs destined for Ethereum are numbered in block order and hashed
    into an append-only sparse Merkle tree of depth 64, of which a node keeps
    the count, the root and the frontier.  The BIP301 critical hash of a block
    commits to the accumulator before and after it.

    An Elements transaction is its cached id and its outputs, an Elements block
    its hash and its transactions: how those hashes are computed is not part of
    this file.  Transaction pointers are never null. *)

From S2P Require Import Prelude Sha256 Script Transaction Confidential Merkle.

(** ** Constants (elements_drivechain_identity.h) *)
Definition WITHDRAWAL_MAGIC : bytes := [85; 83; 68; 68].
Definition WITHDRAWAL_SCRIPT_PUSH_SIZE : Z := 65.
Definition WITHDRAWAL_PROTOCOL_VERSION : Z := 1.
Definition WITHDRAWAL_ACCUMULATOR_VERSION : Z := 1.
Definition WITHDRAWAL_LEAF_PREFIX : Z := 0.
Definition WITHDRAWAL_NODE_PREFIX : Z := 1.
Definition WITHDRAWAL_ACCUMULATOR_DEPTH : nat := 64.
Definition USDD_UNITS_PER_USDT_MICRO : Z := 100.
Definition MAX_WITHDRAWAL_USDT_MICRO : Z := 20000000 * 1000000.
Definition WITHDRAWAL_SCRIPT_SIZE : Z := 2 + WITHDRAWAL_SCRIPT_PUSH_SIZE.
Definition WITHDRAWAL_BURN_ID_DOMAIN : bytes := [
  0x58; 0x11; 0xf3; 0xff; 0x8b; 0x8f; 0x31; 0xfb; 0x49; 0xff; 0xb9; 0x1a; 0xfa; 0xb1; 0x31; 0x97;
  0xc3; 0xd7; 0x2e; 0x92; 0x65; 0x49; 0xae; 0x29; 0xdb; 0xda; 0x46; 0xc6; 0x99; 0x8a; 0x3e; 0x45 ].
Definition WITHDRAWAL_LEAF_DOMAIN : bytes := [
  0xa2; 0x04; 0x23; 0x80; 0x92; 0x68; 0x79; 0x09; 0x8c; 0x0f; 0x42; 0x3f; 0x49; 0xe3; 0xa0; 0x7a;
  0x12; 0x48; 0xed; 0x08; 0x53; 0x57; 0x93; 0xa4; 0xa1; 0xc4; 0xaf; 0xe6; 0x2d; 0x99; 0x88; 0x69 ].
(** "Elements/USDD/BIP301-checkpoint/v1" without the trailing NUL. *)
Definition WITHDRAWAL_BIP301_CHECKPOINT_DOMAIN : bytes := [
  69; 108; 101; 109; 101; 110; 116; 115; 47; 85; 83; 68; 68; 47; 66; 73; 80; 51; 48; 49; 45; 99; 104;
  101; 99; 107; 112; 111; 105; 110; 116; 47; 118; 49 ].
Definition WITHDRAWAL_BIP301_CHECKPOINT_VERSION : Z := 1.

(** ** Hashes *)
(** One hasher, one [Write] per part, then [Finalize]. *)
Definition hash_parts (parts : list bytes) : bytes :=
  CSHA256_Finalize (fold_left CSHA256_Write parts CSHA256_new).

Definition IsZero (value : bytes) : bool := forallb (fun b => b =? 0) value.
Definition zero_hash : bytes := replicate 32 0.
Definition DisplayBytes (value : uint256) : bytes := uint256_display value.
Definition U32BE (value : Z) : bytes := be_encode 4 value.
Definition U64BE (value : Z) : bytes := be_encode 8 value.
Definition ReadU64BE (b : bytes) : Z := be_decode b.

Definition WithdrawalNode (left right : bytes) : bytes :=
  hash_parts [[WITHDRAWAL_NODE_PREFIX]; left; right].

#[global] Arguments hash_parts : simpl never.
#[global] Arguments WithdrawalNode : simpl never.
#[global] Strategy 1000 [hash_parts WithdrawalNode].

(** The memoised array: each entry is the node of two copies of the previous. *)
Fixpoint empty_roots_from (root : bytes) (n : nat) : list bytes :=
  match n with O => [root] | S m => root :: empty_roots_from (WithdrawalNode root root) m end.

Definition EmptyRoots : list bytes :=
  empty_roots_from (hash_parts [[WITHDRAWAL_LEAF_PREFIX]]) WITHDRAWAL_ACCUMULATOR_DEPTH.

Definition WithdrawalEmptyRoot (height : nat) : bytes := nth height EmptyRoots [].

(** ** The accumulator *)
Record WithdrawalAccumulatorState := mkAcc { count : Z; root : bytes; frontier : list bytes }.

Definition occupied_at (c : Z) (level : nat) : bool :=
  negb (Z.land (Z.shiftr c (Z.of_nat level)) 1 =? 0).

Definition ComputeWithdrawalAccumulatorRoot (st : WithdrawalAccumulatorState) : bytes :=
  fold_left (fun node level =>
      if occupied_at st.(count) level then WithdrawalNode (nth level st.(frontier) []) node
      else WithdrawalNode node (WithdrawalEmptyRoot level))
    (seq 0 WITHDRAWAL_ACCUMULATOR_DEPTH) (WithdrawalEmptyRoot 0).

Definition Acc_Empty : WithdrawalAccumulatorState :=
  mkAcc 0 (WithdrawalEmptyRoot WITHDRAWAL_ACCUMULATOR_DEPTH)
    (replicate WITHDRAWAL_ACCUMULATOR_DEPTH zero_hash).

Definition Acc_IsSane (st : WithdrawalAccumulatorState) : bool :=
  forallb (fun level => negb (negb (occupied_at st.(count) level) &&
                              negb (IsZero (nth level st.(frontier) []))))
    (seq 0 WITHDRAWAL_ACCUMULATOR_DEPTH) &&
  bytes_eqb st.(root) (ComputeWithdrawalAccumulatorRoot st).

(** The carry loop.  [occupied] is positive: its low bit is set in [xI] and
    [xH], and what remains after the shift is the argument of [xI], or zero. *)
Fixpoint carry (occupied : positive) (node : bytes) (level : nat) (fs : list bytes)
    : bytes * nat * list bytes :=
  match occupied with
  | xO _ => (node, level, fs)
  | xH => (WithdrawalNode (nth level fs []) node, S level, <[level := zero_hash]> fs)
  | xI rest => carry rest (WithdrawalNode (nth level fs []) node) (S level) (<[level := zero_hash]> fs)
  end.

Definition Acc_Append (st : WithdrawalAccumulatorState) (leaf : bytes) : result WithdrawalAccumulatorState :=
  ensure (negb (st.(count) =? UINT64_MAX)) "USDD withdrawal accumulator count overflow";;
  let '(node, level, fs) :=
    match st.(count) with
    | Zpos occupied => carry occupied leaf 0 st.(frontier)
    | _ => (leaf, O, st.(frontier))
    end in
  let st1 := mkAcc (st.(count) + 1) st.(root) (<[level := node]> fs) in
  Ok (mkAcc st1.(count) (ComputeWithdrawalAccumulatorRoot st1) st1.(frontier)).

(** ** Claims *)
Record EthereumWithdrawalClaim := mkClaim {
  elements_genesis : bytes;
  asset_id : bytes;
  vault_id : bytes;
  burn_txid_display : bytes;
  burn_vout : Z;
  burn_id : bytes;
  claim_index : Z;
  amount_usdt_micro : Z;
  recipient : bytes;
  leaf : bytes }.

Record ElementsTx := mkElementsTx { txid : uint256; tx_vout : list Elements.CTxOut }.
Record ElementsBlock := mkElementsBlock { block_hash : uint256; block_vtx : list ElementsTx }.

Definition ComputeWithdrawalBurnId (genesis txid_display : bytes) (vout : Z) : bytes :=
  hash_parts [WITHDRAWAL_BURN_ID_DOMAIN; genesis; txid_display; U32BE vout].

Definition leaf_hash (genesis asset vault burn : bytes) (index amount : Z) (to : bytes) : bytes :=
  hash_parts [[WITHDRAWAL_LEAF_PREFIX]; WITHDRAWAL_LEAF_DOMAIN; U32BE WITHDRAWAL_PROTOCOL_VERSION;
    genesis; asset; vault; burn; U64BE index; U64BE amount; to].

Definition ComputeWithdrawalLeaf (c : EthereumWithdrawalClaim) : bytes :=
  leaf_hash c.(elements_genesis) c.(asset_id) c.(vault_id) c.(burn_id) c.(claim_index)
    c.(amount_usdt_micro) c.(recipient).

Definition withdrawal_script (script : bytes) : bool :=
  (len script =? WITHDRAWAL_SCRIPT_SIZE) && (at_ script 0 =? OP_RETURN) &&
  (at_ script 1 =? WITHDRAWAL_SCRIPT_PUSH_SIZE) && bytes_eqb (slice script 2 4) WITHDRAWAL_MAGIC &&
  (at_ script 6 =? WITHDRAWAL_PROTOCOL_VERSION).

(** The fields of a burn output that is not passed over: asset, vault,
    recipient and amount. *)
Definition burn_amount_of (o : Elements.CTxOut) : option (uint256 * Z) :=
  if negb (withdrawal_script o.(Elements.scriptPubKey)) then None
  else if negb (Conf.IsExplicit ConfAsset o.(Elements.nAsset)) ||
          negb (Conf.IsExplicit ConfValue o.(Elements.nValue)) ||
          negb (Conf.IsNull o.(Elements.nNonce)) then None
  else
    let asset := GetAsset o.(Elements.nAsset) in
    let explicit_value := GetAmount o.(Elements.nValue) in
    let amount := ReadU64BE (slice o.(Elements.scriptPubKey) 59 8) in
    if IsNull asset then None
    else if explicit_value <=? 0 then None
    else if (amount =? 0) || (MAX_WITHDRAWAL_USDT_MICRO <? amount) ||
            (UINT64_MAX / USDD_UNITS_PER_USDT_MICRO <? amount) ||
            negb (u64 (amount * USDD_UNITS_PER_USDT_MICRO) =? u64 explicit_value) then None
    else Some (asset, amount).

Definition extract_output (genesis_display txid_display : bytes) (first_index : Z)
    (claims : list EthereumWithdrawalClaim) (io : nat * Elements.CTxOut)
    : result (list EthereumWithdrawalClaim) :=
  let '(i, o) := io in
  let vout := Z.of_nat i in
  match burn_amount_of o with
  | None => Ok claims
  | Some (asset, amount) =>
      ensure (negb (UINT64_MAX - first_index <? len claims)) "USDD withdrawal claim index overflow";;
      let vault := slice o.(Elements.scriptPubKey) 7 32 in
      let to := slice o.(Elements.scriptPubKey) 39 20 in
      if IsZero vault then Ok claims
      else if IsZero to then Ok claims
      else
        let burn := ComputeWithdrawalBurnId genesis_display txid_display vout in
        let index := u64 (first_index + len claims) in
        Ok (claims ++ [mkClaim genesis_display (DisplayBytes asset) vault txid_display vout burn index amount to
                         (leaf_hash genesis_display (DisplayBytes asset) vault burn index amount to)])
  end.

Definition extract_tx (genesis_display : bytes) (first_index : Z)
    (claims : list EthereumWithdrawalClaim) (tx : ElementsTx) : result (list EthereumWithdrawalClaim) :=
  foldM (extract_output genesis_display (DisplayBytes tx.(txid)) first_index) claims
    (imap (fun i o => (i, o)) tx.(tx_vout)).

Definition ExtractEthereumWithdrawals (block : ElementsBlock) (genesis : uint256) (first_index : Z)
    : result (list EthereumWithdrawalClaim) :=
  ensure (negb (IsNull genesis)) "zero Elements genesis in withdrawal accumulator";;
  foldM (extract_tx (DisplayBytes genesis) first_index) [] block.(block_vtx).

Definition ApplyEthereumWithdrawals (block : ElementsBlock) (genesis : uint256)
    (previous : WithdrawalAccumulatorState)
    : result (WithdrawalAccumulatorState * list EthereumWithdrawalClaim) :=
  ensure (Acc_IsSane previous) "malformed prior USDD withdrawal accumulator state";;
  extracted ← ExtractEthereumWithdrawals block genesis previous.(count);
  next ← foldM (fun st c => Acc_Append st c.(leaf)) previous extracted;
  Ok (next, extracted).

(** ** The BIP301 critical hash *)
Definition checkpoint_parts (genesis : uint256) (sidechain_slot : Z) (hash : uint256)
    (previous next : WithdrawalAccumulatorState) : list bytes :=
  [WITHDRAWAL_BIP301_CHECKPOINT_DOMAIN; U32BE WITHDRAWAL_BIP301_CHECKPOINT_VERSION; DisplayBytes genesis;
   [sidechain_slot]; DisplayBytes hash; U64BE previous.(count); previous.(root); U64BE next.(count); next.(root)].

Definition ComputeWithdrawalBip301CriticalHash (genesis : uint256) (sidechain_slot : Z) (hash : uint256)
    (previous next : WithdrawalAccumulatorState) : result uint256 :=
  ensure (negb (IsNull genesis || IsNull hash)) "USDD BIP301 checkpoint has a null network or block hash";;
  let count_unchanged := next.(count) =? previous.(count) in
  let root_unchanged := bytes_eqb next.(root) previous.(root) in
  ensure (negb (negb (Acc_IsSane previous) || negb (Acc_IsSane next) || (next.(count) <? previous.(count)) ||
                negb (Bool.eqb count_unchanged root_unchanged)))
    "USDD BIP301 checkpoint has a malformed accumulator transition";;
  let critical_hash := uint256_of_display (hash_parts (checkpoint_parts genesis sidechain_slot hash previous next)) in
  ensure (negb (IsNull critical_hash)) "USDD BIP301 checkpoint unexpectedly produced a null hash";;
  Ok critical_hash.

Definition DeriveWithdrawalBip301CriticalHash (block : ElementsBlock) (genesis : uint256) (sidechain_slot : Z)
    (previous : WithdrawalAccumulatorState) : result (WithdrawalAccumulatorState * uint256) :=
  '(next, _) ← ApplyEthereumWithdrawals block genesis previous;
  h ← ComputeWithdrawalBip301CriticalHash genesis sidechain_slot block.(block_hash) previous next;
  Ok (next, h).

(** ** Inclusion proofs *)
Record WithdrawalInclusionProof := mkProof {
  proof_claim : EthereumWithdrawalClaim; proof_siblings : list bytes }.

(** [next_layer] of the loop body, joining neighbours. *)
Fixpoint join_layer (level : nat) (layer : list bytes) : list bytes :=
  match layer with
  | [] => []
  | [a] => [WithdrawalNode a (WithdrawalEmptyRoot level)]
  | a :: b :: t => WithdrawalNode a b :: join_layer level t
  end.

Fixpoint proof_loop (levels : list nat) (layer : list bytes) (position : Z) : list bytes * list bytes :=
  match levels with
  | [] => ([], layer)
  | level :: rest =>
      let sibling := Z.lxor position 1 in
      let s := if sibling <? len layer then nth (Z.to_nat sibling) layer []
               else WithdrawalEmptyRoot level in
      let '(siblings, final) := proof_loop rest (join_layer level layer) (Z.shiftr position 1) in
      (s :: siblings, final)
  end.

Fixpoint verify_loop (siblings : list bytes) (proof_index : Z) (verified : bytes) : bytes :=
  match siblings with
  | [] => verified
  | s :: rest =>
      verify_loop rest (Z.shiftr proof_index 1)
        (if Z.land proof_index 1 =? 0 then WithdrawalNode verified s else WithdrawalNode s verified)
  end.

Definition canonical_claims (claims : list EthereumWithdrawalClaim) : bool :=
  forallb (fun '(i, c) => (c.(claim_index) =? Z.of_nat i) && bytes_eqb c.(leaf) (ComputeWithdrawalLeaf c))
    (imap (fun i c => (i, c)) claims).

Definition BuildWithdrawalInclusionProof (claims : list EthereumWithdrawalClaim) (index : Z)
    : result (WithdrawalInclusionProof * bytes) :=
  match (if index <? len claims then claims !! Z.to_nat index else None) with
  | None => Err "USDD withdrawal proof index is outside the claim prefix"
  | Some claim =>
      ensure (canonical_claims claims) "noncanonical USDD withdrawal claim prefix";;
      let '(siblings, final) :=
        proof_loop (seq 0 WITHDRAWAL_ACCUMULATOR_DEPTH) (map leaf claims) index in
      let root := hd [] final in
      ensure (bytes_eqb (verify_loop siblings index claim.(leaf)) root)
        "internally inconsistent USDD withdrawal proof";;
      Ok (mkProof claim siblings, root)
  end.

(** ** Serialization of the state *)
Definition Acc_Serialize (st : WithdrawalAccumulatorState) : bytes :=
  le_encode 1 WITHDRAWAL_ACCUMULATOR_VERSION ++ le_encode 8 st.(count) ++ st.(root) ++
  concat (map (fun level => if occupied_at st.(count) level then nth level st.(frontier) [] else [])
            (seq 0 WITHDRAWAL_ACCUMULATOR_DEPTH)).

Fixpoint read_frontier (c : Z) (levels : list nat) : reader (list bytes) :=
  match levels with
  | [] => rret []
  | level :: rest =>
      let* f := (if occupied_at c level then read_bytes 32 else rret zero_hash) in
      let* fs := read_frontier c rest in rret (f :: fs)
  end.

Definition Acc_Unserialize : reader WithdrawalAccumulatorState :=
  let* version := read_le 1 in
  if negb (version =? WITHDRAWAL_ACCUMULATOR_VERSION) then rfail
  else
    let* c := read_le 8 in
    let* r := read_bytes 32 in
    let* fs := read_frontier c (seq 0 WITHDRAWAL_ACCUMULATOR_DEPTH) in
    let st := mkAcc c r fs in
    if Acc_IsSane st then rret st else rfail.

(** ** The node hash as an interface *)
Lemma empty_roots_nth r n i d : (i <= n)%nat -> nth i (empty_roots_from r n) d = Nat.iter i (fun x => WithdrawalNode x x) r.
Proof.
  revert r i. induction n as [|n IH]; intros r i Hi.
  - by replace i with 0%nat by lia.
  - destruct i as [|i]; [done|]. cbn [empty_roots_from nth]. rewrite IH by lia.
    exact (eq_sym (Nat.iter_succ_r i _ (fun x => WithdrawalNode x x) r)).
Qed.

(** Beyond the depth the array has no entry; the tree never looks there. *)
Definition acc_empty (level : nat) : bytes :=
  Nat.iter level (fun x => WithdrawalNode x x) (hash_parts [[WITHDRAWAL_LEAF_PREFIX]]).

Lemma WithdrawalEmptyRoot_spec level : (level <= WITHDRAWAL_ACCUMULATOR_DEPTH)%nat ->
  WithdrawalEmptyRoot level = acc_empty level.
Proof. apply empty_roots_nth. Qed.

#[global] Instance withdrawal_merkle : MerkleHash bytes :=
  { mnode := WithdrawalNode; mempty := acc_empty; mempty_S i := eq_refl }.

(** The root of the depth-64 sparse Merkle tree over a list of leaves. *)
Definition merkle_root (leaves : list bytes) : bytes := troot 0 WITHDRAWAL_ACCUMULATOR_DEPTH leaves.

#[global] Arguments merkle_root : simpl never.
#[global] Strategy 1000 [merkle_root acc_empty].

(** ** The counter and the frontier *)
Lemma occupied_at_odd n level : occupied_at (Z.of_nat n) level = Nat.odd (n / 2 ^ level).
Proof.
  unfold occupied_at. rewrite Z.shiftr_div_pow2 by lia. change 1 with (Z.ones 1). rewrite Z.land_ones by lia.
  change (2 ^ 1) with 2. replace (Z.of_nat n / 2 ^ Z.of_nat level) with (Z.of_nat (n / 2 ^ level))
    by (rewrite Nat2Z.inj_div, Nat2Z.inj_pow; done).
  generalize (n / 2 ^ level)%nat. intros k. rewrite Zmod_odd, <- (Nat2Z.id k) at 1.
  rewrite Nat2Z.id. destruct (Nat.odd k) eqn:E.
  - apply Nat.odd_spec in E as [m ->]. replace (Z.of_nat (2 * m + 1)) with (1 + 2 * Z.of_nat m) by lia.
    by rewrite Z.odd_add_mul_2.
  - assert (Ev : Nat.even k = true) by (by rewrite <- Nat.negb_odd, E). apply Nat.even_spec in Ev as [m ->].
    replace (Z.of_nat (2 * m)) with (0 + 2 * Z.of_nat m) by lia. by rewrite Z.odd_add_mul_2.
Qed.

Lemma depth_bound {A} (l : list A) :
  len l < 2 ^ 64 <-> (length l < 2 ^ WITHDRAWAL_ACCUMULATOR_DEPTH)%nat.
Proof. rewrite Nat2Z.inj_lt, Nat2Z.inj_pow. done. Qed.

(** The loop over the levels is the recursion over the frontier. *)
Lemma compute_root_frontier fs n lv h c p : (lv + h <= WITHDRAWAL_ACCUMULATOR_DEPTH)%nat ->
  length c = (n / 2 ^ lv)%nat -> frontier_ok zero_hash c (drop lv fs) -> length fs = (lv + h)%nat ->
  fold_left (fun node level =>
      if occupied_at (Z.of_nat n) level then WithdrawalNode (nth level fs []) node
      else WithdrawalNode node (WithdrawalEmptyRoot level)) (seq lv h) p
  = frontier_root lv h c p.
Proof.
  revert lv c p. induction h as [|h IH]; intros lv c p Hd Hc Hf Hl; [done|].
  destruct (drop lv fs) as [|f rest] eqn:Ed.
  { apply (f_equal length) in Ed. rewrite length_drop in Ed. cbn in Ed. lia. }
  cbn [seq fold_left frontier_root]. destruct Hf as [Hf Hrest].
  assert (Hn : nth lv fs [] = f).
  { rewrite <- (take_drop lv fs), Ed, app_nth2; rewrite length_take; [|lia].
    by replace (lv - lv `min` length fs)%nat with 0%nat by lia. }
  assert (Hr : drop (S lv) fs = rest) by (rewrite <- Nat.add_1_r, <- drop_drop, Ed; done).
  rewrite (IH (S lv) (pairs c)); [|lia| |by rewrite Hr|lia].
  - f_equal. rewrite occupied_at_odd, <- Hc, Hn, Hf. destruct (Nat.odd (length c)) eqn:E.
    + apply odd_snoc in E as (c' & y & -> & _). by rewrite !List.last_last.
    + by rewrite WithdrawalEmptyRoot_spec by lia.
  - rewrite length_pairs, Hc, Nat.Div0.div_div. f_equal. cbn. lia.
Qed.

Lemma insert_split lv (fs : list bytes) y : (lv < length fs)%nat ->
  take (S lv) (<[lv:=y]> fs) = take lv fs ++ [y] /\ drop (S lv) (<[lv:=y]> fs) = drop (S lv) fs /\
  drop lv fs = nth lv fs [] :: drop (S lv) fs.
Proof.
  intros Hlt. split_and!.
  - rewrite (take_S_r _ _ y) by (by apply list_lookup_insert_eq). by rewrite take_insert_ge by lia.
  - by rewrite drop_insert_lt by lia.
  - destruct (nth_lookup_or_length fs lv []) as [Hn|]; [|lia]. by rewrite (drop_S _ _ _ Hn).
Qed.

(** The carry loop is the recursion over the frontier. *)
Lemma carry_add q x lv fs : (S (Pos.to_nat q) < 2 ^ (length fs - lv))%nat ->
  let '(node, level, fs') := carry q x lv fs in
  <[level := node]> fs' = take lv fs ++ frontier_add zero_hash (Pos.to_nat q) x (drop lv fs).
Proof.
  revert x lv fs. induction q as [q IH|q IH|]; intros x lv fs Hq;
    (assert (Hlt : (lv < length fs)%nat) by
      (destruct (decide (lv < length fs)%nat); [done|]; replace (length fs - lv)%nat with 0%nat in Hq by lia;
       cbn in Hq; lia));
    destruct (insert_split lv fs zero_hash Hlt) as (E1 & E2 & E3); cbn [carry]; rewrite E3; cbn [frontier_add].
  - assert (Hodd : Nat.odd (Pos.to_nat q~1) = true).
    { rewrite Pos2Nat.inj_xI, Nat.odd_succ. apply Nat.even_spec. by exists (Pos.to_nat q). }
    assert (Hdiv : (Pos.to_nat q~1 / 2)%nat = Pos.to_nat q).
    { rewrite Pos2Nat.inj_xI. symmetry. apply (Nat.div_unique _ _ _ 1); lia. }
    rewrite Hodd, Hdiv. specialize (IH (WithdrawalNode (nth lv fs []) x) (S lv) (<[lv:=zero_hash]> fs)).
    destruct (carry _ _ _ _) as [[node level] fs']. rewrite IH, E1, E2, <- app_assoc; [done|].
    rewrite length_insert. replace (length fs - lv)%nat with (S (length fs - S lv)) in Hq by lia.
    rewrite Pos2Nat.inj_xI in Hq. cbn in Hq. lia.
  - assert (Hev : Nat.odd (Pos.to_nat q~0) = false).
    { rewrite Pos2Nat.inj_xO, <- Nat.negb_even. apply negb_false_iff, Nat.even_spec. by exists (Pos.to_nat q). }
    rewrite Hev. by apply insert_take_drop.
  - assert (Hlt2 : (S lv < length fs)%nat).
    { destruct (decide (S lv < length fs)%nat); [done|]. replace (length fs - lv)%nat with 1%nat in Hq by lia.
      cbn in Hq. lia. }
    destruct (insert_split (S lv) fs zero_hash Hlt2) as (_ & _ & E4). rewrite E4.
    change (Nat.odd (Pos.to_nat 1)) with true. change (Pos.to_nat 1 / 2)%nat with 0%nat.
    cbn [frontier_add]. change (Nat.odd 0) with false. cbv beta iota.
    rewrite insert_take_drop by (by rewrite length_insert). rewrite E1, <- app_assoc.
    by rewrite drop_insert_lt by lia.
Qed.

(** ** What the accumulator represents *)
(** The state after the leaves [l] were appended. *)
Record acc_repr (l : list bytes) (st : WithdrawalAccumulatorState) : Prop := {
  ar_count : st.(count) = len l;
  ar_bound : len l < 2 ^ 64;
  ar_depth : length st.(frontier) = WITHDRAWAL_ACCUMULATOR_DEPTH;
  ar_frontier : frontier_ok zero_hash l st.(frontier);
  ar_root : st.(root) = merkle_root l }.

Lemma compute_root_spec l st : st.(count) = len l -> len l < 2 ^ 64 ->
  length st.(frontier) = WITHDRAWAL_ACCUMULATOR_DEPTH -> frontier_ok zero_hash l st.(frontier) ->
  ComputeWithdrawalAccumulatorRoot st = merkle_root l.
Proof.
  intros Hc Hb Hd Hf. unfold ComputeWithdrawalAccumulatorRoot. rewrite Hc. unfold len.
  rewrite (compute_root_frontier _ _ 0 _ l); [|done|by rewrite Nat.div_1_r|by rewrite drop_0|done].
  apply depth_bound in Hb. rewrite frontier_root_spec by done. unfold merkle_root.
  rewrite WithdrawalEmptyRoot_spec by lia. change (acc_empty 0) with (mempty 0). by apply troot_empty.
Qed.

Lemma frontier_ok_zero n : frontier_ok zero_hash [] (replicate n zero_hash).
Proof. induction n as [|n IH]; cbn; auto. Qed.

Lemma acc_repr_empty : acc_repr [] Acc_Empty.
Proof.
  split; [done|done|apply length_replicate|apply frontier_ok_zero|].
  unfold merkle_root. rewrite troot_nil. cbn [Acc_Empty root]. by rewrite WithdrawalEmptyRoot_spec by done.
Qed.

Lemma acc_repr_append l st x : acc_repr l st -> len l < UINT64_MAX ->
  exists st', Acc_Append st x = Ok st' /\ acc_repr (l ++ [x]) st'.
Proof.
  intros [Hc Hb Hd Hf Hr] Hm. unfold Acc_Append. rewrite Hc, ensure_bind by lia.
  assert (Hlt : (S (length l) < 2 ^ length st.(frontier))%nat).
  { rewrite Hd. pose proof (proj1 (depth_bound (x :: l))) as Hx. apply Hx. rewrite len_cons.
    unfold UINT64_MAX in Hm. lia. }
  set (app := match len l with Zpos q => carry q x 0 st.(frontier) | _ => (x, O, st.(frontier)) end).
  assert (Happ : let '(node, level, fs) := app in
    <[level := node]> fs = frontier_add zero_hash (length l) x st.(frontier)).
  { unfold app, len. destruct (length l) as [|k] eqn:El.
    - cbn [Z.of_nat]. destruct st.(frontier) as [|f fs]; [cbn in Hlt; lia|done].
    - pose proof (carry_add (Pos.of_succ_nat k) x 0 st.(frontier)) as Hca.
      rewrite SuccNat2Pos.id_succ, Nat.sub_0_r in Hca. specialize (Hca Hlt).
      change (Z.of_nat (S k)) with (Zpos (Pos.of_succ_nat k)). cbv iota.
      destruct (carry (Pos.of_succ_nat k) x 0 st.(frontier)) as [[node level] fs]. exact Hca. }
  destruct app as [[node level] fs]. eexists. split; [reflexivity|].
  pose proof (frontier_add_ok zero_hash l x st.(frontier) Hf Hlt) as Hf'. rewrite <- Happ in Hf'.
  assert (Hlen : length (<[level:=node]> fs) = WITHDRAWAL_ACCUMULATOR_DEPTH).
  { rewrite Happ, <- Hd. apply frontier_add_length. }
  assert (Hb' : len (l ++ [x]) < 2 ^ 64) by (rewrite len_app; change (len [x]) with 1; unfold UINT64_MAX in Hm; lia).
  split; cbn [count root frontier]; [by rewrite len_app|done|done|done|].
  apply compute_root_spec; cbn [count frontier]; [by rewrite len_app|done|done|done].
Qed.

Lemma frontier_ok_unoccupied c fs lv d : frontier_ok zero_hash c fs -> (lv < length fs)%nat ->
  Nat.odd (length c / 2 ^ lv) = false -> nth lv fs d = zero_hash.
Proof.
  revert c lv. induction fs as [|f fs IH]; intros c lv; [cbn; lia|]. intros [Hf Hfs] Hl Ho.
  destruct lv as [|lv].
  - rewrite Nat.div_1_r in Ho. rewrite Ho in Hf. done.
  - cbn [nth]. apply (IH (pairs c)); [done|cbn in Hl; lia|].
    by rewrite length_pairs, Nat.Div0.div_div, <- Nat.pow_succ_r'.
Qed.

Lemma acc_repr_sane l st : acc_repr l st -> Acc_IsSane st = true.
Proof.
  intros [Hc Hb Hd Hf Hr]. unfold Acc_IsSane. apply andb_true_iff. split.
  - apply forallb_forall. intros lv [_ Hlv]%in_seq. rewrite Hc. unfold len. rewrite occupied_at_odd.
    destruct (Nat.odd _) eqn:E; [done|]. cbn [negb andb].
    by rewrite (frontier_ok_unoccupied l _ lv) by (done || lia).
  - apply bytes_eqb_eq. rewrite Hr. symmetry. by apply compute_root_spec.
Qed.

Lemma acc_repr_appends l st cs : acc_repr l st -> len l + len cs <= UINT64_MAX ->
  exists st', foldM (fun st c => Acc_Append st c.(leaf)) st cs = Ok st' /\ acc_repr (l ++ map leaf cs) st'.
Proof.
  revert l st. induction cs as [|c cs IH]; intros l st Hr Hb.
  { exists st. by rewrite app_nil_r. }
  rewrite len_cons in Hb. pose proof (len_nonneg cs) as Hn.
  destruct (acc_repr_append l st c.(leaf) Hr) as (st1 & Ha & Hr1); [lia|].
  cbn [foldM map]. rewrite Ha. destruct (IH _ st1 Hr1) as (st' & Hf & Hr').
  { rewrite len_app. change (len [leaf c]) with 1. lia. }
  exists st'. by rewrite <- app_assoc in Hr'.
Qed.

(** A 32-byte hash. *)
Definition hash_ok (h : bytes) : Prop := bytes_ok h /\ length h = 32%nat.

(** ** Hashes as SHA-256 *)
Lemma hash_parts_spec parts : hash_parts parts = sha256 (concat parts).
Proof.
  unfold hash_parts. apply Finalize_absorbed.
  apply (Writes_absorbed CSHA256_new [] parts). apply absorbed_new. done.
Qed.

Lemma hash_parts_ok parts : hash_ok (hash_parts parts).
Proof. rewrite hash_parts_spec. split; [apply sha256_ok|apply sha256_length]. Qed.

Lemma acc_empty_ok k : hash_ok (acc_empty k).
Proof. destruct k; apply hash_parts_ok. Qed.

Lemma DisplayBytes_ok h : hash_ok (DisplayBytes h).
Proof.
  unfold DisplayBytes, uint256_display. split; [|rewrite length_reverse; apply uint256_bytes_length].
  apply bytes_ok_rev, uint256_bytes_ok.
Qed.

(** ** Extracted claims *)
(** The fixed-size arrays and integers of the claim struct. *)
Definition claim_sized (c : EthereumWithdrawalClaim) : Prop :=
  hash_ok c.(elements_genesis) /\ hash_ok c.(asset_id) /\ hash_ok c.(vault_id) /\ hash_ok c.(burn_id) /\
  bytes_ok c.(recipient) /\ length c.(recipient) = 20%nat /\
  0 <= c.(claim_index) <= UINT64_MAX /\ 0 <= c.(amount_usdt_micro) <= UINT64_MAX.

(** The bytes of a block are bytes. *)
Definition elements_block_ok (block : ElementsBlock) : Prop :=
  forall tx o, tx ∈ block.(block_vtx) -> o ∈ tx.(tx_vout) ->
    bytes_ok o.(Elements.scriptPubKey) /\ bytes_ok o.(Elements.nValue).

(** The burn output a claim is for: it burns 100 units per claimed micro. *)
Definition claim_from (block : ElementsBlock) (c : EthereumWithdrawalClaim) : Prop :=
  exists tx o, tx ∈ block.(block_vtx) /\ tx.(tx_vout) !! Z.to_nat c.(burn_vout) = Some o /\
    c.(burn_txid_display) = DisplayBytes tx.(txid) /\
    c.(amount_usdt_micro) * USDD_UNITS_PER_USDT_MICRO = GetAmount o.(Elements.nValue) /\
    c.(asset_id) = DisplayBytes (GetAsset o.(Elements.nAsset)) /\
    c.(burn_id) = ComputeWithdrawalBurnId c.(elements_genesis) c.(burn_txid_display) c.(burn_vout).

(** Claim number [i] of a list that starts at index [first]. *)
Definition claim_ok (genesis : uint256) (first : Z) (i : nat) (c : EthereumWithdrawalClaim) : Prop :=
  c.(claim_index) = first + Z.of_nat i /\ c.(leaf) = ComputeWithdrawalLeaf c /\ claim_sized c /\
  0 < c.(amount_usdt_micro) <= MAX_WITHDRAWAL_USDT_MICRO /\ c.(elements_genesis) = DisplayBytes genesis.

Definition claims_ok block genesis first (cs : list EthereumWithdrawalClaim) : Prop :=
  first + len cs <= UINT64_MAX + 1 /\
  forall i c, cs !! i = Some c -> claim_ok genesis first i c /\ claim_from block c.

Lemma burn_amount_of_spec o a v : burn_amount_of o = Some (a, v) ->
  bytes_ok o.(Elements.scriptPubKey) -> bytes_ok o.(Elements.nValue) ->
  0 < v <= MAX_WITHDRAWAL_USDT_MICRO /\ a = GetAsset o.(Elements.nAsset) /\
  v * USDD_UNITS_PER_USDT_MICRO = GetAmount o.(Elements.nValue).
Proof.
  intros Hb Hs Hv. unfold burn_amount_of in Hb.
  destruct (withdrawal_script _); [|done]. destruct (_ || _ || _) eqn:Ec; [done|]. cbn [negb] in Hb.
  destruct (IsNull _); [done|]. destruct (_ <=? 0) eqn:Ep; [done|].
  destruct (_ || _ || _ || _) eqn:Ea; [done|]. injection Hb as <- <-.
  set (v := ReadU64BE _) in *. set (e := GetAmount _) in *.
  assert (Hv0 : 0 <= v).
  { unfold v, ReadU64BE. apply be_decode_bound. auto with bytes_db. }
  assert (He : e < 2 ^ 63).
  { unfold e, GetAmount, to_int64. rewrite !orb_false_iff, !negb_false_iff in Ec. destruct Ec as [[_ Hex] _].
    unfold Conf.IsExplicit in Hex. apply andb_true_iff in Hex as [Hl _].
    pose proof (be_decode_bound (drop 1 (Elements.nValue o)) ltac:(auto with bytes_db)) as Hbd.
    assert (Hl8 : len (drop 1 (Elements.nValue o)) = 8).
    { unfold len in *. rewrite length_drop. cbn in Hl. lia. }
    rewrite Hl8 in Hbd. clear - Hbd. destruct (Z.ltb_spec (be_decode (drop 1 (Elements.nValue o))) (2 ^ 63)); lia. }
  unfold MAX_WITHDRAWAL_USDT_MICRO, USDD_UNITS_PER_USDT_MICRO in *. rewrite !orb_false_iff in Ea.
  destruct Ea as [[[E1 E2] _] E4]. apply negb_false_iff, Z.eqb_eq in E4. unfold u64 in E4.
  split_and!; [lia|lia|done|]. rewrite !Z.mod_small in E4 by lia. done.
Qed.

Lemma burn_amount_of_size o a v : burn_amount_of o = Some (a, v) -> length o.(Elements.scriptPubKey) = 67%nat.
Proof.
  unfold burn_amount_of, withdrawal_script, len. destruct (_ =? WITHDRAWAL_SCRIPT_SIZE) eqn:E; [|done].
  intros _. apply Z.eqb_eq in E. change WITHDRAWAL_SCRIPT_SIZE with 67 in E. lia.
Qed.

Lemma extract_output_ok block genesis first tx cs io cs' : 0 <= first -> elements_block_ok block ->
  tx ∈ block.(block_vtx) -> tx.(tx_vout) !! io.1 = Some io.2 -> claims_ok block genesis first cs ->
  extract_output (DisplayBytes genesis) (DisplayBytes tx.(txid)) first cs io = Ok cs' ->
  claims_ok block genesis first cs'.
Proof.
  destruct io as [k o]. cbn [fst snd]. intros Hf Hbok Htx Ho [Hb Hcs] He. unfold extract_output in He.
  destruct (burn_amount_of o) as [[a v]|] eqn:Eb; [|by injection He as <-]. inv_ok.
  destruct (Hbok tx o Htx ltac:(by eapply list_elem_of_lookup_2)) as [Hok1 Hok2].
  destruct (burn_amount_of_spec o a v Eb Hok1 Hok2) as (Hv & -> & Hval).
  destruct (IsZero _); [by injection He as <-|]. destruct (IsZero _); [by injection He as <-|]. injection He as <-.
  bool_simp. pose proof (len_nonneg cs) as Hn. unfold UINT64_MAX in *. split.
  - rewrite len_app. change (len [_]) with 1. unfold UINT64_MAX. lia.
  - intros i c [Hc|[Hi Hc]]%lookup_app_Some; [by apply Hcs|].
    apply list_lookup_singleton_Some in Hc as [Hi0 <-]. split.
    + assert (Ei : i = length cs) by lia. subst i.
      assert (Hidx : u64 (first + len cs) = first + Z.of_nat (length cs)) by (unfold u64, len in *; rewrite Z.mod_small; lia).
      pose proof (burn_amount_of_size o _ v Eb) as H67. unfold MAX_WITHDRAWAL_USDT_MICRO in Hv.
      refine (conj Hidx (conj eq_refl (conj _ (conj Hv eq_refl)))).
      unfold claim_sized. cbn [elements_genesis asset_id vault_id burn_id recipient claim_index amount_usdt_micro].
      rewrite Hidx. unfold UINT64_MAX, len in *.
      refine (conj (DisplayBytes_ok _) (conj (DisplayBytes_ok _) (conj _ (conj (hash_parts_ok _) _)))).
      * split; [by apply slice_ok|apply slice_length; lia].
      * split_and!; [by apply slice_ok|apply slice_length|..]; lia.
    + exists tx, o. cbn. rewrite Nat2Z.id. done.
Qed.

Lemma ExtractEthereumWithdrawals_ok block genesis first cs : 0 <= first <= UINT64_MAX + 1 -> elements_block_ok block ->
  ExtractEthereumWithdrawals block genesis first = Ok cs -> claims_ok block genesis first cs.
Proof.
  intros Hf Hbok He. unfold ExtractEthereumWithdrawals in He. inv_ok.
  refine (foldM_inv (claims_ok block genesis first) _ _ _ _ _ _ He).
  - intros cs1 tx cs2 Htx Hi. unfold extract_tx.
    apply (foldM_inv (claims_ok block genesis first)); [|done].
    intros cs3 io cs4 Hio Hi3. apply list_elem_of_lookup_1 in Hio as [k Hk].
    rewrite list_lookup_imap in Hk. apply fmap_Some in Hk as (o & Ho & ->).
    apply extract_output_ok; [lia|done|done|done|done].
  - split; [change (len []) with 0; lia|done].
Qed.

(** ** A block's claims are appended *)
Lemma acc_append_inv l st x st' : acc_repr l st -> Acc_Append st x = Ok st' -> acc_repr (l ++ [x]) st'.
Proof.
  intros Hr Ha. assert (Hm : len l < UINT64_MAX).
  { pose proof (ar_bound _ _ Hr) as Hb. unfold Acc_Append in Ha. rewrite (ar_count _ _ Hr) in Ha.
    destruct (len l =? UINT64_MAX) eqn:E; [done|]. unfold UINT64_MAX in *. lia. }
  destruct (acc_repr_append l st x Hr Hm) as (st1 & Ha1 & Hr1). rewrite Ha in Ha1. by injection Ha1 as <-.
Qed.

Lemma acc_appends_inv l st cs st' : acc_repr l st ->
  foldM (fun st c => Acc_Append st c.(leaf)) st cs = Ok st' -> acc_repr (l ++ map leaf cs) st'.
Proof.
  revert l st. induction cs as [|c cs IH]; intros l st Hr Hf; cbn [foldM map] in *.
  { injection Hf as <-. by rewrite app_nil_r. }
  destruct (Acc_Append st c.(leaf)) as [st1|] eqn:E; [|done].
  apply (IH (l ++ [c.(leaf)])) in Hf; [by rewrite <- app_assoc in Hf|]. by eapply acc_append_inv.
Qed.

Lemma ApplyEthereumWithdrawals_repr block genesis l prev next cs : acc_repr l prev ->
  ApplyEthereumWithdrawals block genesis prev = Ok (next, cs) ->
  ExtractEthereumWithdrawals block genesis (len l) = Ok cs /\ acc_repr (l ++ map leaf cs) next.
Proof.
  intros Hr Ha. unfold ApplyEthereumWithdrawals in Ha. rewrite (ar_count _ _ Hr) in Ha. inv_ok.
  split; [done|]. by eapply acc_appends_inv.
Qed.
