(* ===== verification/WithdrawalProof.v ===== *)
(** * Withdrawal proofs over a connected chain

    The accumulator as block connection maintains it (ConnectBlock of
    src/src/validation.cpp) and the getusddwithdrawalproof RPC of
    src/src/rpc/blockchain.cpp, which rebuilds the claims from the blocks and
    answers with a Merkle path.  Reading a block from disk is an argument; the
    lock, the time budget and the interruption points of the RPC are left out.
    The theorems: the accumulator is the Merkle root of every claim so far, the
    RPC serves each claim, and a path that verifies is for the recorded claim. *)

From S2P Require Import Prelude Sha256 Script Transaction Confidential Merkle Accumulator.

(** ** Connecting a block *)
Definition acc_eqb (a b : WithdrawalAccumulatorState) : bool :=
  (a.(count) =? b.(count)) && bytes_eqb a.(root) b.(root) &&
  forallb (fun '(x, y) => bytes_eqb x y) (zip a.(frontier) b.(frontier)).

(** An index entry is the accumulator persisted for its block, if any. *)
(** The part of ConnectBlock on the genesis block. *)
Definition ConnectBlock_genesis (persisted : option WithdrawalAccumulatorState) : result WithdrawalAccumulatorState :=
  match persisted with
  | Some p => ensure (acc_eqb p Acc_Empty) "genesis has a nonempty USDD withdrawal accumulator";; Ok Acc_Empty
  | None => Ok Acc_Empty
  end.

(** The part of ConnectBlock on every other block; [pprev] is the entry of the
    predecessor. *)
Definition ConnectBlock_accumulator (genesis : uint256) (pprev persisted : option WithdrawalAccumulatorState)
    (block : ElementsBlock) : result WithdrawalAccumulatorState :=
  match pprev with
  | None => Err "missing prior USDD withdrawal accumulator; reindex required"
  | Some previous =>
      '(next, _) ← ApplyEthereumWithdrawals block genesis previous;
      match persisted with
      | Some p => ensure (acc_eqb p next) "persisted USDD withdrawal accumulator disagrees with validated block";; Ok next
      | None => Ok next
      end
  end.

(** ** The RPC *)
Definition MAX_RECONSTRUCTION_LEAVES : Z := 10000.

(** One turn of the loop over the heights: the count so far and the heights at
    which it changed. *)
Definition scan_height (active : list (option WithdrawalAccumulatorState)) (acc : Z * list nat) (height : nat)
    : result (Z * list nat) :=
  let '(prior_count, blocks_with_withdrawals) := acc in
  match active !! height with
  | Some (Some cursor) =>
      ensure (negb (cursor.(count) <? prior_count)) "Nonmonotonic withdrawal accumulator; reindex required";;
      Ok (cursor.(count),
          if cursor.(count) =? prior_count then blocks_with_withdrawals
          else blocks_with_withdrawals ++ [height])
  | _ => Err "Discontinuous withdrawal accumulator; reindex required"
  end.

Definition read_claims (ReadBlock : nat -> option ElementsBlock) (genesis : uint256)
    (claims : list EthereumWithdrawalClaim) (height : nat) : result (list EthereumWithdrawalClaim) :=
  match ReadBlock height with
  | None => Err "A withdrawal-containing block is pruned or unreadable; use an archival node or indexer"
  | Some block =>
      appended ← ExtractEthereumWithdrawals block genesis (len claims);
      Ok (claims ++ appended)
  end.

(** [target] is the height of the requested block in the active chain. *)
Definition getusddwithdrawalproof (ReadBlock : nat -> option ElementsBlock) (genesis : uint256)
    (active : list (option WithdrawalAccumulatorState)) (requested_index : Z) (target : nat)
    : result (WithdrawalInclusionProof * WithdrawalAccumulatorState) :=
  ensure (negb (requested_index <? 0)) "Withdrawal index must not be negative";;
  match active !! target with
  | None => Err "Block is not in the active chain"
  | Some None => Err "Withdrawal accumulator unavailable; reindex required"
  | Some (Some accumulator) =>
      ensure (negb (accumulator.(count) <=? requested_index)) "Withdrawal index is outside this accumulator";;
      ensure (negb (MAX_RECONSTRUCTION_LEAVES <? accumulator.(count)))
        "Proof reconstruction exceeds the safe RPC limit; use a dedicated permissionless indexer";;
      '(_, blocks_with_withdrawals) ← foldM (scan_height active) (0, []) (seq 1 target);
      claims ← foldM (read_claims ReadBlock genesis) [] blocks_with_withdrawals;
      ensure (len claims =? accumulator.(count))
        "Reconstructed withdrawal count disagrees with the persisted accumulator";;
      '(proof, reconstructed_root) ← BuildWithdrawalInclusionProof claims requested_index;
      ensure (bytes_eqb reconstructed_root accumulator.(root)) "Reconstructed withdrawal root mismatch";;
      Ok (proof, accumulator)
  end.

(** ** The loops of the proof builder *)
Lemma join_layer_spec lv layer : (lv <= WITHDRAWAL_ACCUMULATOR_DEPTH)%nat ->
  join_layer lv layer = next_layer lv layer.
Proof.
  intros Hlv. induction layer as [|a|a b t IH] using pairs_ind; [done| |].
  - cbn [join_layer next_layer]. by rewrite WithdrawalEmptyRoot_spec.
  - cbn [join_layer next_layer]. by rewrite IH.
Qed.

Lemma shiftr_nat i : Z.shiftr (Z.of_nat i) 1 = Z.of_nat (i / 2).
Proof. rewrite Z.shiftr_div_pow2 by lia. by rewrite Nat2Z.inj_div. Qed.

Lemma lxor_nat i : Z.lxor (Z.of_nat i) 1 = Z.of_nat (if Nat.even i then S i else pred i).
Proof.
  destruct (Nat.even i) eqn:E.
  - apply Nat.even_spec in E as [m ->]. replace (Z.of_nat (2 * m)) with (2 * Z.of_nat m) by lia.
    replace (Z.of_nat (S (2 * m))) with (2 * Z.of_nat m + 1) by lia. by destruct m.
  - assert (Eo : Nat.odd i = true) by (by rewrite <- Nat.negb_even, E). apply Nat.odd_spec in Eo as [m ->].
    replace (Z.of_nat (2 * m + 1)) with (2 * Z.of_nat m + 1) by lia.
    replace (Z.of_nat (pred (2 * m + 1))) with (2 * Z.of_nat m) by lia.
    destruct m as [|m]; [done|]. by cbn.
Qed.

Lemma land_nat i : (Z.land (Z.of_nat i) 1 =? 0) = Nat.even i.
Proof.
  pose proof (occupied_at_odd i 0) as Ho. unfold occupied_at in Ho. rewrite Nat.div_1_r, <- Nat.negb_even in Ho.
  apply (f_equal negb) in Ho. rewrite !negb_involutive in Ho. exact Ho.
Qed.

Lemma verify_loop_spec sibs i x : verify_loop sibs (Z.of_nat i) x = path_root i x sibs.
Proof.
  revert i x. induction sibs as [|s sibs IH]; intros i x; [done|]. cbn [verify_loop path_root].
  by rewrite shiftr_nat, land_nat, IH.
Qed.

Lemma proof_loop_spec lv h layer i : (lv + h <= WITHDRAWAL_ACCUMULATOR_DEPTH)%nat -> layer <> [] ->
  let '(sibs, final) := proof_loop (seq lv h) layer (Z.of_nat i) in
  sibs = siblings lv h layer i /\ hd [] final = troot lv h layer.
Proof.
  revert lv layer i. induction h as [|h IH]; intros lv layer i Hd Hl; [by destruct layer|].
  cbn [seq proof_loop siblings troot]. rewrite shiftr_nat, join_layer_spec by lia.
  specialize (IH (S lv) (next_layer lv layer) (i / 2)%nat ltac:(lia)).
  destruct (proof_loop _ _ _) as [sibs final]. destruct IH as [-> ->].
  { destruct layer as [|a [|b t]]; done. }
  split; [|done]. f_equal. rewrite lxor_nat, Nat2Z.id. set (k := if Nat.even i then S i else pred i).
  destruct (Z.ltb_spec (Z.of_nat k) (len layer)) as [Hk|Hk]; unfold len in Hk.
  - apply nth_indep. lia.
  - rewrite WithdrawalEmptyRoot_spec by lia. symmetry. apply nth_overflow. lia.
Qed.

(** Claims numbered from 0, each with its own leaf. *)
Definition numbered (cs : list EthereumWithdrawalClaim) : Prop :=
  forall i c, cs !! i = Some c -> c.(claim_index) = Z.of_nat i /\ c.(leaf) = ComputeWithdrawalLeaf c.

Lemma numbered_canonical cs : numbered cs -> canonical_claims cs = true.
Proof.
  intros Hn. apply forallb_forall. intros [i c] Hin%list_elem_of_In.
  apply list_elem_of_lookup_1 in Hin as [k Hk]. rewrite list_lookup_imap in Hk.
  apply fmap_Some in Hk as (c' & Hc & [= -> ->]). destruct (Hn _ _ Hc) as [-> <-].
  by rewrite Z.eqb_refl, (proj2 (bytes_eqb_eq _ _) eq_refl).
Qed.

Lemma recorded_path cs i c : len cs < 2 ^ 64 -> cs !! i = Some c ->
  verify_loop (siblings 0 WITHDRAWAL_ACCUMULATOR_DEPTH (map leaf cs) i) (Z.of_nat i) c.(leaf)
  = merkle_root (map leaf cs).
Proof.
  intros Hb Hc. rewrite verify_loop_spec.
  assert (E : c.(leaf) = nth i (map leaf cs) (mempty 0)).
  { symmetry. apply nth_lookup_Some. by rewrite list_lookup_fmap, Hc. }
  rewrite E. apply path_siblings; rewrite length_map; [by eapply lookup_lt_Some|].
  apply Nat.lt_le_incl. by apply depth_bound.
Qed.

Lemma BuildWithdrawalInclusionProof_spec cs i c : numbered cs -> len cs < 2 ^ 64 -> cs !! i = Some c ->
  BuildWithdrawalInclusionProof cs (Z.of_nat i) =
  Ok (mkProof c (siblings 0 WITHDRAWAL_ACCUMULATOR_DEPTH (map leaf cs) i), merkle_root (map leaf cs)).
Proof.
  intros Hn Hb Hc. pose proof (lookup_lt_Some _ _ _ Hc) as Hi. unfold BuildWithdrawalInclusionProof.
  rewrite (proj2 (Z.ltb_lt _ _)) by (unfold len; lia). rewrite Nat2Z.id, Hc, numbered_canonical by done.
  pose proof (proof_loop_spec 0 WITHDRAWAL_ACCUMULATOR_DEPTH (map leaf cs) i ltac:(done)) as Hp.
  cbn [ensure mbind result_bind].
  destruct (proof_loop _ _ _) as [sibs final]. destruct Hp as [-> ->]; [by destruct cs|].
  rewrite recorded_path by done. fold (merkle_root (map leaf cs)).
  by rewrite (proj2 (bytes_eqb_eq _ _) eq_refl).
Qed.

(** ** Connected chains *)
(** The chains a node connects from genesis: its blocks and the accumulators of
    their index entries, by height. *)
Inductive connected (genesis : uint256) : list ElementsBlock -> list (option WithdrawalAccumulatorState) -> Prop :=
| connected_genesis g persisted st : ConnectBlock_genesis persisted = Ok st -> connected genesis [g] [Some st]
| connected_block bs active b pprev persisted next : connected genesis bs active ->
    list.last active = Some pprev -> ConnectBlock_accumulator genesis pprev persisted b = Ok next ->
    connected genesis (bs ++ [b]) (active ++ [Some next]).

(** All claims of the blocks at heights 1 to [height]. *)
Definition chain_claims (genesis : uint256) (bs : list ElementsBlock) (height : nat)
    : result (list EthereumWithdrawalClaim) :=
  foldM (read_claims (fun h => bs !! h) genesis) [] (seq 1 height).

Lemma chain_claims_S genesis bs h : chain_claims genesis bs (S h) =
  (cs ← chain_claims genesis bs h; read_claims (fun h => bs !! h) genesis cs (S h)).
Proof.
  unfold chain_claims. rewrite seq_S, foldM_app. cbn [foldM]. destruct (foldM _ _ _) as [cs|]; [|done].
  cbn [mbind result_bind]. by destruct (read_claims _ _ _ _).
Qed.

Lemma chain_claims_app genesis bs b h : (h < length bs)%nat ->
  chain_claims genesis (bs ++ [b]) h = chain_claims genesis bs h.
Proof.
  induction h as [|h IH]; intros Hh; [done|]. rewrite !chain_claims_S, IH by lia.
  destruct (chain_claims genesis bs h) as [cs|]; [|reflexivity]. cbn [mbind result_bind]. unfold read_claims.
  by rewrite lookup_app_l by lia.
Qed.

Lemma ConnectBlock_accumulator_inv genesis pprev persisted b next :
  ConnectBlock_accumulator genesis pprev persisted b = Ok next ->
  exists prev cs, pprev = Some prev /\ ApplyEthereumWithdrawals b genesis prev = Ok (next, cs).
Proof.
  unfold ConnectBlock_accumulator. destruct pprev as [prev|]; [|done].
  destruct (ApplyEthereumWithdrawals b genesis prev) as [[n cs]|] eqn:E; [|done]. cbn [mbind result_bind].
  intros Hp. exists prev, cs. split; [done|]. destruct persisted; [destruct (acc_eqb _ _); [|done]|];
    cbn [ensure mbind result_bind] in Hp; congruence.
Qed.

(** At each height of a connected chain the accumulator represents all the
    claims so far. *)
Lemma connected_acc genesis bs active : connected genesis bs active ->
  length active = length bs /\ bs <> [] /\ forall h, (h < length bs)%nat -> exists cs st,
    chain_claims genesis bs h = Ok cs /\ active !! h = Some (Some st) /\ acc_repr (map leaf cs) st.
Proof.
  induction 1 as [g p st Hg|bs active b pprev p next Hc (Hl & Hne & IH) Hlast Hn].
  - split_and!; [done|done|]. intros h Hh. cbn in Hh. replace h with 0%nat by lia. exists [], st.
    split_and!; [done|done|]. unfold ConnectBlock_genesis in Hg.
    destruct p; [destruct (acc_eqb _ _); [|done]|]; cbn [ensure mbind result_bind] in Hg;
      injection Hg as <-; apply acc_repr_empty.
  - rewrite !length_app, Hl. split_and!; [done|by destruct bs|]. intros h Hh. cbn in Hh.
    destruct (decide (h < length bs)%nat) as [Hlt|Hge].
    { destruct (IH h Hlt) as (cs & st & Hcs & Ha & Hr). exists cs, st.
      rewrite chain_claims_app by done. by rewrite lookup_app_l by (by rewrite Hl). }
    destruct bs as [|g bs']; [done|]. cbn [length] in Hh, Hge, Hl. assert (Eh : h = S (length bs')) by lia. subst h.
    destruct (IH (length bs') ltac:(cbn; lia)) as (cs & st & Hcs & Ha & Hr).
    assert (Hp : pprev = Some st).
    { rewrite last_lookup, Hl in Hlast. cbn in Hlast. rewrite Ha in Hlast. by injection Hlast. }
    destruct (ConnectBlock_accumulator_inv _ _ _ _ _ Hn) as (prev & app & Hp' & Happ).
    rewrite Hp in Hp'. injection Hp' as <-.
    destruct (ApplyEthereumWithdrawals_repr _ _ _ _ _ _ Hr Happ) as [Hx Hr'].
    exists (cs ++ app), next. rewrite map_app. split_and!; [|by rewrite lookup_app_r, Hl, Nat.sub_diag by lia|done].
    rewrite chain_claims_S, chain_claims_app, Hcs by (cbn; lia). cbn [mbind result_bind]. unfold read_claims.
    rewrite lookup_app_r by (cbn; lia). cbn [length]. rewrite Nat.sub_diag. cbn [lookup list_lookup].
    unfold len in Hx. rewrite length_map in Hx. unfold len. rewrite Hx. done.
Qed.

(** Where the claims of a chain come from. *)
Definition recorded (genesis : uint256) (bs : list ElementsBlock) (cs : list EthereumWithdrawalClaim) : Prop :=
  len cs <= UINT64_MAX + 1 /\
  forall i c, cs !! i = Some c -> claim_ok genesis 0 i c /\ exists b, b ∈ bs /\ claim_from b c.

Lemma chain_claims_recorded genesis bs h cs : (forall b, b ∈ bs -> elements_block_ok b) ->
  chain_claims genesis bs h = Ok cs -> recorded genesis bs cs.
Proof.
  intros Hbs. apply foldM_inv; [|by split; [unfold len; cbn|]].
  intros cs1 k cs2 _ [Hb Hcs] Hr. unfold read_claims in Hr. destruct (bs !! k) as [b|] eqn:Eb; [|done].
  apply list_elem_of_lookup_2 in Eb.
  destruct (ExtractEthereumWithdrawals _ _ _) as [x|] eqn:Ex; [|done]. injection Hr as <-. pose proof (len_nonneg cs1) as Hn.
  destruct (ExtractEthereumWithdrawals_ok b genesis (len cs1) x ltac:(lia) (Hbs b Eb)) as [Hb' Hx]; [done|].
  split; [rewrite len_app; lia|]. intros i c [Hi|[Hi Hc]]%lookup_app_Some; [by apply Hcs|].
  destruct (Hx _ _ Hc) as [(Hci & Hrest) Hfrom]. split; [|by exists b].
  split; [|done]. rewrite Hci. unfold len. lia.
Qed.

Lemma recorded_numbered genesis bs cs : recorded genesis bs cs -> numbered cs.
Proof. intros [_ Hr] i c Hc. destruct (Hr _ _ Hc) as [(-> & -> & _) _]. done. Qed.

(** The RPC skips the blocks that add no claim. *)
Lemma scan_heights genesis bs active (read : nat -> option ElementsBlock) t : connected genesis bs active ->
  (t < length bs)%nat -> (forall h, (h <= t)%nat -> read h = bs !! h) ->
  exists cs hs, chain_claims genesis bs t = Ok cs /\
    foldM (scan_height active) (0, []) (seq 1 t) = Ok (len cs, hs) /\
    foldM (read_claims read genesis) [] hs = Ok cs.
Proof.
  intros Hc. destruct (connected_acc _ _ _ Hc) as (_ & _ & Hacc).
  induction t as [|t IH]; intros Ht Hread; [by exists [], []|].
  destruct IH as (cs & hs & Hcs & Hscan & Hrd); [lia|intros h Hh; apply Hread; lia|].
  destruct (Hacc (S t) Ht) as (cs' & st & Hcs' & Ha & Hr). rewrite chain_claims_S, Hcs in Hcs'.
  cbn [mbind result_bind] in Hcs'. assert (Hrc : read_claims read genesis cs (S t) = Ok cs')
    by (unfold read_claims in *; by rewrite Hread by lia).
  unfold read_claims in Hcs'. destruct (bs !! S t) as [b|] eqn:Eb; [|done].
  destruct (ExtractEthereumWithdrawals _ _ _) as [x|] eqn:Ex; [|done]. injection Hcs' as <-.
  pose proof (ar_count _ _ Hr) as Hct. unfold len in Hct. rewrite length_map in Hct. fold (len (cs ++ x)) in Hct.
  rewrite len_app in Hct. pose proof (len_nonneg x) as Hx.
  assert (Hs : scan_height active (len cs, hs) (S t) =
    Ok (len (cs ++ x), if len cs + len x =? len cs then hs else hs ++ [S t])).
  { unfold scan_height. rewrite Ha, Hct, len_app. rewrite (proj2 (Z.ltb_ge _ _)) by lia. done. }
  exists (cs ++ x), (if len cs + len x =? len cs then hs else hs ++ [S t]). split_and!.
  - rewrite chain_claims_S, Hcs. cbn [mbind result_bind].
    unfold read_claims in Hrc |- *. rewrite Hread in Hrc by lia. exact Hrc.
  - rewrite seq_S, foldM_app, Hscan. cbn [mbind result_bind foldM].
    change (1 + t)%nat with (S t). by rewrite Hs.
  - destruct (Z.eqb_spec (len cs + len x) (len cs)) as [E|E].
    + destruct x; [by rewrite app_nil_r|rewrite len_cons in E; pose proof (len_nonneg x); lia].
    + rewrite foldM_app, Hrd. cbn [mbind result_bind foldM]. by rewrite Hrc.
Qed.

(** ** Messages determine claims *)
Lemma concat_inj (ps qs : list bytes) : Forall2 (fun a b => length a = length b) ps qs ->
  concat ps = concat qs -> ps = qs.
Proof.
  induction 1 as [|p q ps qs Hl _ IH]; [done|]. cbn [concat]. intros He.
  apply app_inj_1 in He as [-> He]; [|done]. by rewrite IH.
Qed.

Lemma U64BE_inj a b : 0 <= a <= UINT64_MAX -> 0 <= b <= UINT64_MAX -> U64BE a = U64BE b -> a = b.
Proof.
  intros Ha Hb He. unfold UINT64_MAX in *. rewrite <- (be_decode_encode 8 a), <- (be_decode_encode 8 b) by (cbn; lia).
  by f_equal.
Qed.

Lemma DisplayBytes_inj a b : uint256_ok a -> uint256_ok b -> DisplayBytes a = DisplayBytes b -> a = b.
Proof.
  intros Ha Hb He. unfold DisplayBytes, uint256_display in He. apply (inj reverse) in He.
  rewrite <- (uint256_of_bytes a), <- (uint256_of_bytes b) by done. by f_equal.
Qed.

(** What the leaf hash of a claim is taken of. *)
Definition claim_message (c : EthereumWithdrawalClaim) : bytes :=
  concat [[WITHDRAWAL_LEAF_PREFIX]; WITHDRAWAL_LEAF_DOMAIN; U32BE WITHDRAWAL_PROTOCOL_VERSION;
    c.(elements_genesis); c.(asset_id); c.(vault_id); c.(burn_id); U64BE c.(claim_index);
    U64BE c.(amount_usdt_micro); c.(recipient)].

(** The fields a withdrawal is paid by. *)
Definition same_payout (c d : EthereumWithdrawalClaim) : Prop :=
  c.(elements_genesis) = d.(elements_genesis) /\ c.(asset_id) = d.(asset_id) /\ c.(vault_id) = d.(vault_id) /\
  c.(burn_id) = d.(burn_id) /\ c.(claim_index) = d.(claim_index) /\
  c.(amount_usdt_micro) = d.(amount_usdt_micro) /\ c.(recipient) = d.(recipient).

Lemma claim_message_inj c d : claim_sized c -> claim_sized d -> claim_message c = claim_message d -> same_payout c d.
Proof.
  intros ([_ ?] & [_ ?] & [_ ?] & [_ ?] & _ & ? & Hi & Ha) ([_ ?] & [_ ?] & [_ ?] & [_ ?] & _ & ? & Hi' & Ha') He.
  apply concat_inj in He.
  - pose proof (fun k => f_equal (fun l => nth k l []) He) as Hn. cbv beta in Hn.
    exact (conj (Hn 3%nat) (conj (Hn 4%nat) (conj (Hn 5%nat) (conj (Hn 6%nat)
      (conj (U64BE_inj _ _ Hi Hi' (Hn 7%nat)) (conj (U64BE_inj _ _ Ha Ha' (Hn 8%nat)) (Hn 9%nat))))))).
  - unfold U64BE, U32BE. repeat constructor; rewrite ?be_encode_length; congruence.
Qed.

Lemma leaf_message c : ComputeWithdrawalLeaf c = sha256 (claim_message c).
Proof. apply hash_parts_spec. Qed.

(** What the leaf at a position hashes: the claim recorded there, or nothing. *)
Definition slot_message (cs : list EthereumWithdrawalClaim) (i : nat) : bytes :=
  match cs !! i with Some c => claim_message c | None => [WITHDRAWAL_LEAF_PREFIX] end.

Lemma slot_leaf cs i : numbered cs -> nth i (map leaf cs) (mempty 0) = sha256 (slot_message cs i).
Proof.
  intros Hn. unfold slot_message. destruct (cs !! i) as [c|] eqn:E.
  - rewrite <- leaf_message, <- (proj2 (Hn _ _ E)). apply nth_lookup_Some. by rewrite list_lookup_fmap, E.
  - rewrite nth_overflow by (rewrite length_map; by apply lookup_ge_None). apply hash_parts_spec.
Qed.

Lemma leaves_ok cs : numbered cs -> Forall hash_ok (map leaf cs).
Proof.
  intros Hn. apply Forall_lookup. intros i x Hx. rewrite list_lookup_fmap in Hx.
  apply fmap_Some in Hx as (c & Hc & ->). rewrite (proj2 (Hn _ _ Hc)). apply hash_parts_ok.
Qed.

Lemma slot_message_inj cs i c : (forall c0, cs !! i = Some c0 -> claim_sized c0) -> claim_sized c ->
  claim_message c = slot_message cs i -> exists c0, cs !! i = Some c0 /\ same_payout c c0.
Proof.
  intros Hs Hc He. unfold slot_message in He. destruct (cs !! i) as [c0|] eqn:E.
  - exists c0. split; [done|]. apply claim_message_inj; auto.
  - by apply (f_equal length) in He.
Qed.

(** ** Theorems *)
(** C7.  On every chain a node connects from genesis, the accumulator kept
    with each block is the one of all withdrawal claims up to it: its count is
    their number, its root is the root of the depth-64 Merkle tree over their
    leaves, and it passes its own sanity check. *)
Theorem accumulator_is_claim_root genesis bs active h st :
  connected genesis bs active -> active !! h = Some (Some st) ->
  exists cs, chain_claims genesis bs h = Ok cs /\ st.(count) = len cs /\
    st.(root) = merkle_root (map leaf cs) /\ Acc_IsSane st = true.
Proof.
  intros Hc Ha. destruct (connected_acc _ _ _ Hc) as (Hl & _ & Hacc).
  destruct (Hacc h) as (cs & st' & Hcs & Ha' & Hr); [rewrite <- Hl; by eapply lookup_lt_Some|].
  rewrite Ha in Ha'. injection Ha' as <-. exists cs. split; [done|].
  split; [rewrite (ar_count _ _ Hr); unfold len; by rewrite length_map|].
  split; [apply Hr|by eapply acc_repr_sane].
Qed.


(** C28.  A claim that verifies was recorded: if 64 sibling hashes lead
    from the leaf of a claim, at any position, to the root kept with a block of
    a connected chain, then the chain recorded a claim at that position with
    the same network, asset, vault, burn, index, amount and recipient; or the
    claim's message and what is stored there are two messages with one SHA-256
    digest; or the walk along the path returns two pairs of hashes with one
    node.  The collisions are computed from the forged proof, not assumed. *)
Theorem verified_claim_recorded genesis bs active h st c sibs i :
  connected genesis bs active -> (forall b, b ∈ bs -> elements_block_ok b) ->
  active !! h = Some (Some st) -> claim_sized c ->
  length sibs = WITHDRAWAL_ACCUMULATOR_DEPTH -> Forall hash_ok sibs -> 0 <= i <= UINT64_MAX ->
  verify_loop sibs i (ComputeWithdrawalLeaf c) = st.(root) ->
  exists cs, chain_claims genesis bs h = Ok cs /\
    ((exists c0, cs !! Z.to_nat i = Some c0 /\ same_payout c c0) \/
     (claim_message c <> slot_message cs (Z.to_nat i) /\
      sha256 (claim_message c) = sha256 (slot_message cs (Z.to_nat i))) \/
     exists v w, path_collision 0 WITHDRAWAL_ACCUMULATOR_DEPTH (map leaf cs) (Z.to_nat i)
                   (ComputeWithdrawalLeaf c) sibs = Some (v, w) /\ v <> w /\
       WithdrawalNode v.1 v.2 = WithdrawalNode w.1 w.2 /\
       hash_ok v.1 /\ hash_ok v.2 /\ hash_ok w.1 /\ hash_ok w.2).
Proof.
  intros Hc Hbs Ha Hsz Hsl Hso Hi Hv. destruct (connected_acc _ _ _ Hc) as (Hl & _ & Hacc).
  destruct (Hacc h) as (cs & st' & Hcs & Ha' & Hr); [rewrite <- Hl; by eapply lookup_lt_Some|].
  rewrite Ha in Ha'. injection Ha' as <-. exists cs. split; [done|].
  destruct (Z_of_nat_complete i) as [k ->]; [lia|]. rewrite Nat2Z.id in *.
  pose proof (chain_claims_recorded _ _ _ _ Hbs Hcs) as Hrec. pose proof (recorded_numbered _ _ _ Hrec) as Hnum.
  rewrite verify_loop_spec, (ar_root _ _ Hr) in Hv.
  assert (Hk : (k < 2 ^ WITHDRAWAL_ACCUMULATOR_DEPTH)%nat).
  { rewrite Nat2Z.inj_lt, Nat2Z.inj_pow. unfold UINT64_MAX in Hi. change (Z.of_nat 2 ^ Z.of_nat _) with (2 ^ 64). lia. }
  destruct (path_sound hash_ok 0 WITHDRAWAL_ACCUMULATOR_DEPTH (map leaf cs) k (ComputeWithdrawalLeaf c) sibs)
    as [Hx|Hx]; [intros; apply hash_parts_ok|apply acc_empty_ok|by apply leaves_ok|apply hash_parts_ok|done|done| |done|done| |].
  - apply Nat.lt_le_incl, depth_bound, Hr.
  - rewrite slot_leaf, leaf_message in Hx by done.
    destruct (decide (claim_message c = slot_message cs k)) as [E|E]; [|by right; left].
    left. apply slot_message_inj; [|done|done]. intros c0 Hc0. apply (proj2 Hrec _ _ Hc0).
  - right. right. exact Hx.
Qed.

(** ** Persisted states *)
(** The shape of the C++ struct. *)
Definition acc_typed (st : WithdrawalAccumulatorState) : Prop :=
  0 <= st.(count) <= UINT64_MAX /\ length st.(root) = 32%nat /\
  length st.(frontier) = WITHDRAWAL_ACCUMULATOR_DEPTH /\ Forall (fun f => length f = 32%nat) st.(frontier).

(** The frontier as it is written and as it is read back. *)
Definition written_frontier (c : Z) (fs : list bytes) (levels : list nat) : bytes :=
  concat (map (fun level => if occupied_at c level then nth level fs [] else []) levels).

Definition stored_frontier (c : Z) (fs : list bytes) (levels : list nat) : list bytes :=
  map (fun level => if occupied_at c level then nth level fs [] else zero_hash) levels.

Lemma reads_frontier c fs levels : Forall (fun f => length f = 32%nat) fs ->
  Forall (fun level => level < length fs)%nat levels ->
  reads (read_frontier c levels) (stored_frontier c fs levels) (written_frontier c fs levels).
Proof.
  intros Hf. induction 1 as [|level levels Hl _ IH]; [apply reads_ret|].
  cbn [read_frontier]. change (written_frontier c fs (level :: levels)) with
    ((if occupied_at c level then nth level fs [] else []) ++ written_frontier c fs levels).
  apply (reads_bind _ _ (if occupied_at c level then nth level fs [] else zero_hash)).
  - destruct (occupied_at c level); [|apply reads_ret]. apply reads_bytes.
    symmetry. apply (proj1 (List.Forall_forall _ _) Hf). by apply nth_In.
  - eapply reads_bind_nil; [exact IH|apply reads_ret].
Qed.

Lemma IsZero_zero_hash f : length f = 32%nat -> IsZero f = true -> f = zero_hash.
Proof.
  unfold zero_hash. intros <-. induction f as [|b f IH]; [done|]. cbn [IsZero forallb length replicate].
  intros [Hb Hf]%andb_true_iff. apply Z.eqb_eq in Hb as ->. f_equal. by apply IH.
Qed.

Lemma stored_frontier_sane st : acc_typed st -> Acc_IsSane st = true ->
  stored_frontier st.(count) st.(frontier) (seq 0 WITHDRAWAL_ACCUMULATOR_DEPTH) = st.(frontier).
Proof.
  intros (_ & _ & Hl & Hf) Hs. apply andb_true_iff in Hs as [Hs _].
  apply (nth_ext _ _ [] []); unfold stored_frontier; rewrite length_map, length_seq; [done|].
  intros lv Hlv. set (g := fun level => if occupied_at st.(count) level then nth level st.(frontier) [] else zero_hash).
  rewrite (nth_indep _ [] (g 0%nat)) by (by rewrite length_map, length_seq). rewrite map_nth, seq_nth by done.
  unfold g. cbn [Nat.add]. apply (proj1 (forallb_forall _ _)) with (x := lv) in Hs; [|apply in_seq; lia].
  destruct (occupied_at _ lv); [done|]. symmetry. apply IsZero_zero_hash; [|by destruct (IsZero _)].
  apply (proj1 (List.Forall_forall _ _) Hf), nth_In. by rewrite Hl.
Qed.

Lemma canon_frontier c levels s fs t : bytes_ok s -> read_frontier c levels s = Some (fs, t) ->
  s = concat (zip_with (fun level f => if occupied_at c level then f else []) levels fs) ++ t /\
  length fs = length levels /\ bytes_ok t.
Proof.
  revert s fs. induction levels as [|level levels IH]; intros s fs Hs Hr; cbn [read_frontier] in Hr; rinv; [done|].
  assert (Hx : s = (if occupied_at c level then x else []) ++ s0 /\ bytes_ok s0).
  { destruct (occupied_at c level); [|by rinv].
    by apply (canon_step (read_bytes 32) id); [apply canon_bytes|..]. }
  destruct Hx as [-> Hs0]. destruct (IH _ _ Hs0 Hr1) as (-> & Hl & Ht). cbn [zip_with concat length].
  by rewrite Hl, <- app_assoc.
Qed.

Lemma zip_written c fs n : length fs = n ->
  concat (zip_with (fun level f => if occupied_at c level then f else []) (seq 0 n) fs)
  = written_frontier c fs (seq 0 n).
Proof.
  intros Hn. unfold written_frontier. f_equal. apply list_eq. intros i.
  rewrite lookup_zip_with, list_lookup_fmap. destruct (decide (i < n)%nat) as [Hi|Hi].
  - rewrite lookup_seq_lt by done. cbn. destruct (lookup_lt_is_Some_2 fs i) as [f Hf]; [lia|].
    rewrite Hf. cbn. by rewrite (nth_lookup_Some _ _ _ _ Hf).
  - by rewrite lookup_seq_ge by lia.
Qed.

(**  The persisted form of the accumulator: the bytes [s] are read as
    the state [st] with rest [t] exactly when [st] passes the sanity check and
    [s] is its serialization followed by [t].  Only the occupied levels of the
    frontier are stored, and no corrupt or redundant encoding is accepted. *)
Theorem Acc_codec (st : WithdrawalAccumulatorState) (s t : bytes) : acc_typed st -> bytes_ok s ->
  Acc_Unserialize s = Some (st, t) <-> Acc_IsSane st = true /\ s = Acc_Serialize st ++ t.
Proof.
  intros Hty Hs. split.
  - intros Hr. unfold Acc_Unserialize in Hr. apply rbind_Some in Hr as (v & s1 & H1 & Hr).
    apply (canon_step (read_le 1) (le_encode 1)) in H1 as [-> Hs1]; [|apply canon_le|done].
    destruct (Z.eqb_spec v WITHDRAWAL_ACCUMULATOR_VERSION) as [->|]; [|done]. cbn [negb] in Hr.
    apply rbind_Some in Hr as (c & s2 & H2 & Hr).
    apply (canon_step (read_le 8) (le_encode 8)) in H2 as [-> Hs2]; [|apply canon_le|done].
    apply rbind_Some in Hr as (r & s3 & H3 & Hr).
    apply (canon_step (read_bytes 32) id) in H3 as [-> Hs3]; [|apply canon_bytes|done].
    apply rbind_Some in Hr as (fs & s4 & H4 & Hr).
    destruct (canon_frontier _ _ _ _ _ Hs3 H4) as (-> & Hl & _).
    destruct (Acc_IsSane (mkAcc c r fs)) eqn:E; [|done]. injection Hr as <- <-. split; [done|].
    rewrite zip_written by (by rewrite Hl, length_seq). unfold Acc_Serialize. cbn [count root frontier].
    by rewrite <- !app_assoc.
  - intros [Hsane ->]. revert t Hs. intros t _. revert t.
    change (reads Acc_Unserialize st (Acc_Serialize st)).
    pose proof Hty as (Hc & Hr & Hl & Hf). unfold UINT64_MAX in Hc.
    eapply reads_bind; [apply reads_le; unfold WITHDRAWAL_ACCUMULATOR_VERSION; lia|]. cbn [negb Z.eqb].
    change (WITHDRAWAL_ACCUMULATOR_VERSION =? WITHDRAWAL_ACCUMULATOR_VERSION) with true. cbn [negb].
    eapply reads_bind; [apply reads_le; change (256 ^ Z.of_nat 8) with (2 ^ 64); lia|].
    eapply reads_bind; [by apply reads_bytes|]. eapply reads_bind_nil.
    + apply reads_frontier; [done|]. apply Forall_seq. rewrite Hl. lia.
    + rewrite stored_frontier_sane by done. destruct st as [c r fs]. cbn [count root frontier] in *.
      rewrite Hsane. apply reads_ret.
Qed.

(** ** The critical hash *)
Definition checkpoint_message (genesis : uint256) (slot : Z) (hash : uint256)
    (previous next : WithdrawalAccumulatorState) : bytes :=
  concat (checkpoint_parts genesis slot hash previous next).

Lemma merkle_root_ok l : hash_ok (merkle_root l).
Proof.
  unfold merkle_root. generalize 0%nat. change WITHDRAWAL_ACCUMULATOR_DEPTH with (S 63). revert l.
  generalize 63%nat. intros h. induction h as [|h IH]; intros l lv.
  - cbn [troot]. destruct l as [|a [|b l]]; cbn [next_layer]; [apply acc_empty_ok|apply hash_parts_ok|apply hash_parts_ok].
  - change (troot lv (S (S h)) l) with (troot (S lv) (S h) (next_layer lv l)). apply IH.
Qed.

(** The states at both ends of a checkpoint, as far as it shows them. *)
Definition same_accumulator (a b : WithdrawalAccumulatorState) : Prop :=
  a.(count) = b.(count) /\ a.(root) = b.(root).

Lemma checkpoint_message_inj g slot h p n g' slot' h' p' n' l1 l2 l3 l4 :
  uint256_ok g -> uint256_ok g' -> uint256_ok h -> uint256_ok h' ->
  acc_repr l1 p -> acc_repr l2 n -> acc_repr l3 p' -> acc_repr l4 n' ->
  checkpoint_message g slot h p n = checkpoint_message g' slot' h' p' n' ->
  g = g' /\ slot = slot' /\ h = h' /\ same_accumulator p p' /\ same_accumulator n n'.
Proof.
  intros Hg Hg' Hh Hh' R1 R2 R3 R4 He. apply concat_inj in He.
  - assert (Hc : forall l st, acc_repr l st -> 0 <= st.(count) <= UINT64_MAX).
    { intros l st R. rewrite (ar_count _ _ R). pose proof (ar_bound _ _ R). pose proof (len_nonneg l).
      unfold UINT64_MAX. lia. }
    pose proof (fun k => f_equal (fun l => nth k l []) He) as Hn. cbv beta in Hn.
    refine (conj (DisplayBytes_inj _ _ Hg Hg' (Hn 2%nat)) (conj _ (conj (DisplayBytes_inj _ _ Hh Hh' (Hn 4%nat))
      (conj (conj _ (Hn 6%nat)) (conj _ (Hn 8%nat)))))).
    + pose proof (Hn 3%nat) as E. cbn [checkpoint_parts nth] in E. by injection E.
    + apply U64BE_inj; [by eapply Hc|by eapply Hc|exact (Hn 5%nat)].
    + apply U64BE_inj; [by eapply Hc|by eapply Hc|exact (Hn 7%nat)].
  - assert (Hr : forall l st, acc_repr l st -> length st.(root) = 32%nat)
      by (intros l st R; rewrite (ar_root _ _ R); apply merkle_root_ok).
    repeat constructor; rewrite ?(proj2 (DisplayBytes_ok _)), ?be_encode_length;
      try done; erewrite !Hr by done; done.
Qed.

Lemma DeriveWithdrawalBip301CriticalHash_inv block g slot l p n crit : acc_repr l p ->
  DeriveWithdrawalBip301CriticalHash block g slot p = Ok (n, crit) ->
  crit = uint256_of_display (sha256 (checkpoint_message g slot block.(block_hash) p n)) /\
  exists cs, acc_repr (l ++ map leaf cs) n.
Proof.
  intros Hr Hd. unfold DeriveWithdrawalBip301CriticalHash in Hd.
  destruct (ApplyEthereumWithdrawals block g p) as [[next cs]|] eqn:Ea; [|done]. cbn [mbind result_bind] in Hd.
  destruct (ComputeWithdrawalBip301CriticalHash _ _ _ _ _) as [h|] eqn:Ec; [|done]. injection Hd as <- <-.
  split.
  - unfold ComputeWithdrawalBip301CriticalHash in Ec. unfold checkpoint_message. rewrite <- hash_parts_spec.
    do 3 (cbv beta zeta in Ec; apply bind_Ok in Ec as (? & _ & Ec)). cbv beta in Ec. congruence.
  - exists cs. by apply (ApplyEthereumWithdrawals_repr _ _ _ _ _ _ Hr Ea).
Qed.

Lemma uint256_of_display_inj a b : hash_ok a -> hash_ok b -> uint256_of_display a = uint256_of_display b -> a = b.
Proof.
  intros [Ha Hla] [Hb Hlb] He. unfold uint256_of_display in He. apply (inj reverse).
  rewrite <- (uint256_bytes_of (reverse a)), <- (uint256_bytes_of (reverse b)), He; [done|..];
    rewrite ?length_reverse; auto with bytes_db.
Qed.

(**  The BIP301 critical hash binds the withdrawals: two blocks, on top
    of accumulators of any two histories, that derive the same critical hash
    have the same network, sidechain slot and block hash, and the same counts
    and roots before and after; otherwise their two messages collide. *)
Theorem critical_hash_binds b g slot l p n b' g' slot' l' p' n' crit :
  uint256_ok g -> uint256_ok g' -> uint256_ok b.(block_hash) -> uint256_ok b'.(block_hash) ->
  acc_repr l p -> acc_repr l' p' ->
  DeriveWithdrawalBip301CriticalHash b g slot p = Ok (n, crit) ->
  DeriveWithdrawalBip301CriticalHash b' g' slot' p' = Ok (n', crit) ->
  (g = g' /\ slot = slot' /\ b.(block_hash) = b'.(block_hash) /\ same_accumulator p p' /\ same_accumulator n n') \/
  (let m := checkpoint_message g slot b.(block_hash) p n in
   let m' := checkpoint_message g' slot' b'.(block_hash) p' n' in
   m <> m' /\ sha256 m = sha256 m').
Proof.
  intros Hg Hg' Hb Hb' R R' D D'.
  destruct (DeriveWithdrawalBip301CriticalHash_inv _ _ _ _ _ _ _ R D) as (E & cs & Rn).
  destruct (DeriveWithdrawalBip301CriticalHash_inv _ _ _ _ _ _ _ R' D') as (E' & cs' & Rn').
  destruct (decide (checkpoint_message g slot b.(block_hash) p n
                    = checkpoint_message g' slot' b'.(block_hash) p' n')) as [Em|Em].
  - left. by eapply checkpoint_message_inj.
  - right. cbv zeta. split; [done|]. apply uint256_of_display_inj; [..|congruence];
      (split; [apply sha256_ok|apply sha256_length]).
Qed.

(** ** Witnesses *)
Module WithdrawalSample.
(** A burn of 700 units, for 7 micro to recipient 9 of vault 3, twice. *)
Definition burn_script : bytes :=
  [OP_RETURN; WITHDRAWAL_SCRIPT_PUSH_SIZE] ++ WITHDRAWAL_MAGIC ++ [WITHDRAWAL_PROTOCOL_VERSION] ++
  be_encode 32 3 ++ be_encode 20 9 ++ be_encode 8 7.
Definition burn : Elements.CTxOut := Elements.mkTxOut (SetToAsset 11) (SetToAmount 700) [] burn_script.
Definition genesis : uint256 := 5.
Definition block0 : ElementsBlock := mkElementsBlock 5 [].
Definition block1 : ElementsBlock := mkElementsBlock 6 [mkElementsTx 21 [burn; burn]].
Definition blocks : list ElementsBlock := [block0; block1].
Definition claims : list EthereumWithdrawalClaim :=
  match ExtractEthereumWithdrawals block1 genesis 0 with Ok cs => cs | Err _ => [] end.
End WithdrawalSample.

Lemma sample_claims :
  ExtractEthereumWithdrawals WithdrawalSample.block1 WithdrawalSample.genesis 0 = Ok WithdrawalSample.claims.
Proof. reflexivity. Qed.

Lemma sample_len : len WithdrawalSample.claims = 2.
Proof. reflexivity. Qed.

Lemma sample_ok b : b ∈ WithdrawalSample.blocks -> elements_block_ok b.
Proof.
  intros Hb tx o Htx Ho. unfold WithdrawalSample.blocks in Hb. set_unfold in Hb.
  destruct Hb as [-> |[-> |[]]]; cbn [WithdrawalSample.block0 WithdrawalSample.block1 block_vtx] in Htx;
    set_unfold in Htx; [done|]. destruct Htx as [-> |[]]. cbn [tx_vout] in Ho. set_unfold in Ho.
  assert (Ho' : o = WithdrawalSample.burn) by tauto. subst o.
  split; apply (bool_decide_unpack _); vm_compute; done.
Qed.

Lemma sample_connected : exists st, connected WithdrawalSample.genesis WithdrawalSample.blocks
    [Some Acc_Empty; Some st] /\ acc_repr (map leaf WithdrawalSample.claims) st.
Proof.
  destruct (acc_repr_appends [] Acc_Empty WithdrawalSample.claims acc_repr_empty) as (st & Hst & Hr);
    [by rewrite sample_len|].
  exists st. split; [|done]. eapply (connected_block _ [WithdrawalSample.block0] [Some Acc_Empty] _ _ None).
  - by apply (connected_genesis _ _ None).
  - reflexivity.
  - unfold ConnectBlock_accumulator, ApplyEthereumWithdrawals. rewrite (acc_repr_sane _ _ acc_repr_empty).
    cbn [ensure mbind result_bind]. change (count Acc_Empty) with 0. rewrite sample_claims.
    cbn [mbind result_bind]. by rewrite Hst.
Qed.

Lemma accumulator_is_claim_root_witness : exists st cs,
  chain_claims WithdrawalSample.genesis WithdrawalSample.blocks 1 = Ok cs /\ st.(count) = len cs /\
  st.(root) = merkle_root (map leaf cs) /\ Acc_IsSane st = true.
Proof.
  destruct sample_connected as (st & Hc & _). exists st.
  exact (accumulator_is_claim_root _ _ _ 1 st Hc eq_refl).
Defined.


Lemma siblings_ok lv h l i : Forall hash_ok l -> Forall hash_ok (siblings lv h l i).
Proof.
  revert lv l i. induction h as [|h IH]; intros lv l i Hl; constructor.
  - destruct (nth_in_or_default (if Nat.even i then S i else pred i) l (mempty lv)) as [Hin| ->];
      [by apply (proj1 (List.Forall_forall _ _) Hl)|apply acc_empty_ok].
  - apply IH, next_layer_Forall. intros a b. apply hash_parts_ok.
Qed.

Definition sample_claim : EthereumWithdrawalClaim :=
  nth 1 WithdrawalSample.claims (mkClaim [] [] [] [] 0 [] 0 0 [] []).

Lemma sample_recorded : recorded WithdrawalSample.genesis WithdrawalSample.blocks WithdrawalSample.claims.
Proof.
  apply (chain_claims_recorded _ _ 1); [apply sample_ok|]. unfold chain_claims. cbn [seq foldM]. unfold read_claims.
  change (WithdrawalSample.blocks !! 1%nat) with (Some WithdrawalSample.block1). cbv iota.
  change (len []) with 0. by rewrite sample_claims.
Qed.

Lemma sample_lookup : WithdrawalSample.claims !! 1%nat = Some sample_claim.
Proof. reflexivity. Qed.

Lemma verified_claim_recorded_witness : exists sibs cs,
  chain_claims WithdrawalSample.genesis WithdrawalSample.blocks 1 = Ok cs /\
  ((exists c0, cs !! Z.to_nat 1 = Some c0 /\ same_payout sample_claim c0) \/
   (claim_message sample_claim <> slot_message cs (Z.to_nat 1) /\
    sha256 (claim_message sample_claim) = sha256 (slot_message cs (Z.to_nat 1))) \/
   exists v w, path_collision 0 WITHDRAWAL_ACCUMULATOR_DEPTH (map leaf cs) (Z.to_nat 1)
                 (ComputeWithdrawalLeaf sample_claim) sibs = Some (v, w) /\ v <> w /\
     WithdrawalNode v.1 v.2 = WithdrawalNode w.1 w.2 /\
     hash_ok v.1 /\ hash_ok v.2 /\ hash_ok w.1 /\ hash_ok w.2).
Proof.
  destruct sample_connected as (st & Hc & Hr).
  destruct (proj2 sample_recorded _ _ sample_lookup) as [(_ & Hleaf & Hsz & _) _].
  exists (siblings 0 WITHDRAWAL_ACCUMULATOR_DEPTH (map leaf WithdrawalSample.claims) 1).
  apply (verified_claim_recorded _ _ _ 1 st sample_claim _ 1 Hc sample_ok eq_refl Hsz).
  - apply length_siblings.
  - apply siblings_ok, leaves_ok. eapply recorded_numbered, sample_recorded.
  - unfold UINT64_MAX. lia.
  - rewrite <- Hleaf, (ar_root _ _ Hr). change 1 with (Z.of_nat 1).
    apply recorded_path; [by rewrite sample_len|apply sample_lookup].
Defined.

Lemma Acc_Empty_typed : acc_typed Acc_Empty.
Proof.
  split; [unfold UINT64_MAX; cbn; lia|]. split; [|split; [apply length_replicate|by apply Forall_replicate]].
  rewrite (ar_root _ _ acc_repr_empty). apply merkle_root_ok.
Qed.

Lemma Acc_Empty_bytes : bytes_ok (Acc_Serialize Acc_Empty).
Proof.
  unfold Acc_Serialize. apply bytes_ok_app; [apply le_encode_ok|]. apply bytes_ok_app; [apply le_encode_ok|].
  apply bytes_ok_app; [rewrite (ar_root _ _ acc_repr_empty); apply merkle_root_ok|]. constructor.
Qed.

Lemma Acc_codec_witness : Acc_Unserialize (Acc_Serialize Acc_Empty ++ [1]) = Some (Acc_Empty, [1]).
Proof.
  refine (proj2 (Acc_codec Acc_Empty _ [1] Acc_Empty_typed _) (conj (acc_repr_sane _ _ acc_repr_empty) eq_refl)).
  apply bytes_ok_app; [apply Acc_Empty_bytes|]. apply (bool_decide_unpack _). reflexivity.
Defined.

Lemma sample_checkpoint :
  IsNull (uint256_of_display (hash_parts
    (checkpoint_parts WithdrawalSample.genesis 1 5 Acc_Empty Acc_Empty))) = false.
Proof. vm_compute. reflexivity. Qed.

Lemma sample_apply :
  ApplyEthereumWithdrawals WithdrawalSample.block0 WithdrawalSample.genesis Acc_Empty = Ok (Acc_Empty, []).
Proof. unfold ApplyEthereumWithdrawals. by rewrite ensure_bind by apply (acc_repr_sane _ _ acc_repr_empty). Qed.

Lemma sample_compute : is_ok (ComputeWithdrawalBip301CriticalHash WithdrawalSample.genesis 1 5 Acc_Empty Acc_Empty) = true.
Proof.
  unfold ComputeWithdrawalBip301CriticalHash. rewrite (acc_repr_sane _ _ acc_repr_empty).
  rewrite (proj2 (bytes_eqb_eq (root Acc_Empty) _) eq_refl), sample_checkpoint.
  by rewrite !ensure_bind by reflexivity.
Qed.

Lemma sample_derive : exists crit,
  DeriveWithdrawalBip301CriticalHash WithdrawalSample.block0 WithdrawalSample.genesis 1 Acc_Empty = Ok (Acc_Empty, crit).
Proof.
  pose proof sample_compute as Hc.
  destruct (ComputeWithdrawalBip301CriticalHash _ _ _ _ _) as [crit|] eqn:E; [exists crit|done].
  apply bind_Ok. exists (Acc_Empty, []). split; [exact sample_apply|]. apply bind_Ok. exists crit.
  exact (conj E eq_refl).
Qed.

Lemma critical_hash_binds_witness :
  let b := WithdrawalSample.block0 in let g := WithdrawalSample.genesis in
  (g = g /\ 1 = 1 /\ block_hash b = block_hash b /\
   same_accumulator Acc_Empty Acc_Empty /\ same_accumulator Acc_Empty Acc_Empty) \/
  (let m := checkpoint_message g 1 (block_hash b) Acc_Empty Acc_Empty in
   let m' := checkpoint_message g 1 (block_hash b) Acc_Empty Acc_Empty in
   m <> m' /\ sha256 m = sha256 m').
Proof.
  assert (Hok : uint256_ok 5) by (unfold uint256_ok; lia).
  destruct sample_derive as [crit Hd]. intros b g.
  exact (critical_hash_binds b g 1 [] Acc_Empty Acc_Empty b g 1 [] Acc_Empty Acc_Empty crit
    Hok Hok Hok Hok acc_repr_empty acc_repr_empty Hd Hd).
Defined.
