(* ===== verification/Js.v ===== *)
(** * JavaScript values as the receipt monitor sees them

    What src/contrib/devtools/preconf-user-bond/client/monitor.mjs uses of the
    language: the values JSON.parse returns, strict equality, the conversion
    to a string that RegExp.prototype.test performs on its argument, property
    access, and the checks built from them at the top of the file.

    A text is its UTF-8 bytes.  A number is its value when that is an integer
    below 10^21 in magnitude (minus zero is zero), and its printed form
    otherwise; numbers are the same exactly when those are.  [None] where a
    value is expected is [undefined]. *)

From S2P Require Import Prelude.
From stdpp Require Import pretty sorting.

#[local] Open Scope Z_scope.

#[warnings="-register-all"]
Inductive json :=
| JNull
| JBool (b : bool)
| JInt (z : Z)
| JNumText (s : string)
| JStr (s : string)
| JArr (l : list json)
| JObj (fs : list (string * json)).

(** [===].  Arrays and objects are compared by identity; no two values that
    the monitor compares are the same object, since each comes from its own
    place in its own message. *)
Definition strict_eqb (a b : json) : bool :=
  match a, b with
  | JNull, JNull => true
  | JBool x, JBool y => Bool.eqb x y
  | JInt x, JInt y => x =? y
  | JNumText x, JNumText y => String.eqb x y
  | JStr x, JStr y => String.eqb x y
  | _, _ => false
  end.

Definition join (sep : string) (l : list string) : string := String.concat sep l.

(** ToString; [None] is a TypeError: an object whose own toString property
    hides the inherited method has no string form. *)
Fixpoint to_string (v : json) : option string :=
  match v with
  | JNull => Some "null"
  | JBool b => Some (if b then "true" else "false")
  | JInt z => Some (pretty z)
  | JNumText s => Some s
  | JStr s => Some s
  | JArr l =>
      (fix elements (l : list json) (first : bool) : option string :=
         match l with
         | [] => Some EmptyString
         | x :: t =>
             match (match x with JNull => Some EmptyString | _ => to_string x end), elements t false with
             | Some s, Some rest => Some ((if first then EmptyString else ",") +:+ s +:+ rest)
             | _, _ => None
             end
         end) l true
  | JObj fs => if existsb (fun f => String.eqb f.1 "toString") fs then None else Some "[object Object]"
  end.

(** [re.test(v)].  A conversion that throws counts as no match: every test is
    inside an assertion, which throws as well. *)
Definition test (re : string -> bool) (v : option json) : bool :=
  match v with
  | None => re "undefined"
  | Some v => match to_string v with Some s => re s | None => false end
  end.

(** ** Patterns *)
Definition in_range (lo hi : Z) (c : Ascii.ascii) : bool :=
  (lo <=? Z.of_nat (Ascii.nat_of_ascii c)) && (Z.of_nat (Ascii.nat_of_ascii c) <=? hi).
Definition is_digit : Ascii.ascii -> bool := in_range 48 57.
Definition is_lower_hex (c : Ascii.ascii) : bool := is_digit c || in_range 97 102 c.

(** [0-9a-f]{n} between anchors. *)
Definition hex_pattern (n : nat) (s : string) : bool :=
  (String.length s =? n)%nat && forallb is_lower_hex (String.list_ascii_of_string s).
Definition HASH : string -> bool := hex_pattern 64.
Definition SIGNATURE : string -> bool := hex_pattern 128.

Definition OUTPOINT (s : string) : bool :=
  let l := String.list_ascii_of_string s in
  (64 <=? length l)%nat && forallb is_lower_hex (take 64 l) &&
  match drop 64 l with
  | c :: n => Ascii.eqb c (Ascii.ascii_of_nat 58) &&
      match n with
      | [d] => is_digit d
      | d :: t => in_range 49 57 d && forallb is_digit t && (length t <=? 9)%nat
      | [] => false
      end
  | [] => false
  end.

(** ** Objects *)
Fixpoint field (fs : list (string * json)) (k : string) : option json :=
  match fs with
  | [] => None
  | (k', v) :: t => if String.eqb k' k then Some v else field t k
  end.

(** [v.k] and [v?.k] for the names the monitor uses, none of which is
    inherited. *)
Definition get (v : json) (k : string) : option json :=
  match v with JObj fs => field fs k | _ => None end.

(** [Array.prototype.sort] on strings. *)
Definition sorted_keys (l : list string) : list string := merge_sort (fun a b => Is_true (String.leb a b)) l.

Definition exact (value : option json) (keys : list string) : bool :=
  match value with
  | Some (JObj fs) => String.eqb (join "," (sorted_keys (map fst fs))) (join "," (sorted_keys keys))
  | _ => false
  end.

(** [sequence(n, max)], with the number when it holds. *)
Definition sequence (n : option json) (max : Z) : option Z :=
  match n with
  | Some (JInt z) => if (z <=? 2^53 - 1) && (0 <=? z) && (z <=? max) then Some z else None
  | _ => None
  end.

(** [v === s] for a string [s]. *)
Definition is_str (v : option json) (s : string) : bool :=
  match v with Some v => strict_eqb v (JStr s) | None => false end.

(** ** Maps and sets
    In insertion order, keyed by strict equality (SameValueZero on these
    values). *)
Fixpoint map_set {A} (k : json) (x : A) (m : list (json * A)) : list (json * A) :=
  match m with
  | [] => [(k, x)]
  | (k', y) :: t => if strict_eqb k' k then (k', x) :: t else (k', y) :: map_set k x t
  end.

Definition set_has (k : json) (m : list json) : bool := existsb (fun k' => strict_eqb k' k) m.
Definition set_add (k : json) (m : list json) : list json := if set_has k m then m else m ++ [k].

(** ** Lemmas *)
Lemma strict_eqb_eq a b : strict_eqb a b = true -> a = b.
Proof.
  destruct a, b; cbn; try done.
  - by intros ->%Bool.eqb_prop.
  - by intros ->%Z.eqb_eq.
  - by intros ->%String.eqb_eq.
  - by intros ->%String.eqb_eq.
Qed.

Lemma strict_eqb_str s t : strict_eqb (JStr s) (JStr t) = true <-> s = t.
Proof. apply String.eqb_eq. Qed.

Lemma sequence_spec n max z : sequence n max = Some z -> n = Some (JInt z) /\ 0 <= z <= max.
Proof.
  destruct n as [[]|]; cbn; try done. intros H.
  destruct (_ && _) eqn:E; [|done]. injection H as <-. bool_simp. done.
Qed.

Lemma sequence_int z max : 0 <= z <= max -> max <= 2^53 - 1 -> sequence (Some (JInt z)) max = Some z.
Proof.
  intros Hz Hm. cbn. rewrite !(proj2 (Z.leb_le _ _)) by lia. done.
Qed.

Lemma map_set_length {A} k (x : A) m : (length m <= length (map_set k x m) <= S (length m))%nat.
Proof. induction m as [|[k' y] m IH]; cbn; [lia|]. destruct (strict_eqb _ _); cbn; lia. Qed.

Lemma set_add_length k m : (length m <= length (set_add k m) <= S (length m))%nat.
Proof. unfold set_add. destruct (set_has k m); [lia|]. rewrite length_app. cbn. lia. Qed.

Lemma set_has_str s m : set_has (JStr s) m = true <-> JStr s ∈ m.
Proof.
  unfold set_has. rewrite existsb_exists. split.
  - intros (k & Hin & He). apply strict_eqb_eq in He as ->. by apply list_elem_of_In.
  - intros Hin. exists (JStr s). split; [by apply list_elem_of_In|]. by apply strict_eqb_str.
Qed.

Lemma elem_of_map_set {A} k (x : A) m p : p ∈ map_set k x m -> p = (k, x) \/ p ∈ m.
Proof.
  induction m as [|[k' y] m IH]; cbn; [set_solver|]. destruct (strict_eqb k' k) eqn:E.
  - apply strict_eqb_eq in E as ->. set_solver.
  - set_solver.
Qed.

Lemma keys_map_set {A} k (x : A) m k' : k' ∈ (map_set k x m).*1 <-> k' = k \/ k' ∈ m.*1.
Proof.
  induction m as [|[k1 y] m IH]; cbn; [set_solver|]. destruct (strict_eqb k1 k) eqn:E.
  - apply strict_eqb_eq in E as ->. set_solver.
  - cbn. rewrite !elem_of_cons, IH. tauto.
Qed.

Lemma elem_of_set_add k m k' : k' ∈ set_add k m -> k' = k \/ k' ∈ m.
Proof. unfold set_add. destruct (set_has k m); set_solver. Qed.
