(* ===== verification/Monitor.v ===== *)
(** * The receipt monitor (src/contrib/devtools/preconf-user-bond/client/monitor.mjs)

    The class ReceiptMonitor as a state machine.  Its state is the private
    fields; a step is one run of a handler, a timer or a continuation to its
    next suspension point: JavaScript runs each of them to completion.  The
    promise chain [relay.queue] is the list of unfinished jobs of a relay; jobs
    of one connection run one after another, and those of a lost connection
    may still run.

    The wallet's receipt verifier, JSON.parse and the URL class are arguments.
    The verifier answers at any later time, or never.  WebSocket, timers and
    clock are the environment: the labels of the steps.  Listeners of the
    'change' event are assumed not to call back into the monitor. *)

From S2P Require Import Prelude Js.

Definition MAX_FRAME : nat := 4096.
Definition MAX_PENDING : Z := 32.

Record receipt := mkReceipt { bond : string; txid : json; signature : json }.
Record url := mkUrl {
  username : string; password : string; hash : string; protocol : string; hostname : string; href : string }.

Class MonitorEnv := {
  JSON_parse : string -> option json;
  verifyReceipt : receipt -> bool;
  URL : string -> option url }.

(** ** State *)
Record cursor_t := mkCursor { stream : json; seq : Z }.

(** How far the function queued for a frame has run: not at all; suspended on
    the verifier for the receipt, or for the receipt it conflicts with; past
    [#process]; or thrown, before the catch handler. *)
Inductive phase :=
| PQueued
| PVerify (n : Z) (r : receipt) (conflict_with : option json)
| PVerifyOther (n : Z) (r other : receipt)
| PProcessed
| PFailed.

(** [job_generation] is the generation its socket's handlers captured. *)
Record job := mkJob { job_generation : Z; data : string; receivedAt : Z; at_phase : phase }.

(** An absent time is -Infinity.  The socket is its readyState, [retry] whether
    a reconnection timer is set, [sent] the cursors of the subscriptions sent. *)
Record relay := mkRelay {
  relay_url : string; cursor : option cursor_t; through : option Z; caughtUp : bool;
  lastMessage : option Z; opened : option Z; generation : Z; pending : Z; jobs : list job;
  socket : option Z; retry : bool; error : option string; seen : gmap string (list json);
  sent : list (option cursor_t) }.

Record config := mkConfig { profile : string; bonds : list string; staleMs : Z; reconnectMs : Z }.

Record monitor := mkMonitor {
  cfg : config; running : bool; now : Z; relays : list relay;
  evidence : gmap string (list (json * receipt)) }.

(** ** Field updates *)
Definition set_sync (c : option cursor_t) (t : option Z) (b : bool) (r : relay) : relay :=
  mkRelay r.(relay_url) c t b r.(lastMessage) r.(opened) r.(generation) r.(pending) r.(jobs)
    r.(socket) r.(retry) r.(error) r.(seen) r.(sent).
Definition set_jobs (js : list job) (r : relay) : relay :=
  mkRelay r.(relay_url) r.(cursor) r.(through) r.(caughtUp) r.(lastMessage) r.(opened) r.(generation)
    r.(pending) js r.(socket) r.(retry) r.(error) r.(seen) r.(sent).
Definition set_pending (n : Z) (r : relay) : relay :=
  mkRelay r.(relay_url) r.(cursor) r.(through) r.(caughtUp) r.(lastMessage) r.(opened) r.(generation)
    n r.(jobs) r.(socket) r.(retry) r.(error) r.(seen) r.(sent).
Definition set_seen (s : gmap string (list json)) (r : relay) : relay :=
  mkRelay r.(relay_url) r.(cursor) r.(through) r.(caughtUp) r.(lastMessage) r.(opened) r.(generation)
    r.(pending) r.(jobs) r.(socket) r.(retry) r.(error) s r.(sent).
Definition set_socket (s : option Z) (r : relay) : relay :=
  mkRelay r.(relay_url) r.(cursor) r.(through) r.(caughtUp) r.(lastMessage) r.(opened) r.(generation)
    r.(pending) r.(jobs) s r.(retry) r.(error) r.(seen) r.(sent).
Definition set_sent (l : list (option cursor_t)) (r : relay) : relay :=
  mkRelay r.(relay_url) r.(cursor) r.(through) r.(caughtUp) r.(lastMessage) r.(opened) r.(generation)
    r.(pending) r.(jobs) r.(socket) r.(retry) r.(error) r.(seen) l.
Definition with_relays (rs : list relay) (m : monitor) : monitor :=
  mkMonitor m.(cfg) m.(running) m.(now) rs m.(evidence).

Section monitor.
Context {Env : MonitorEnv}.

(** ** Construction *)
Definition endpoint (value : string) : result string :=
  match URL value with
  | None => Err "Invalid URL"
  | Some u =>
      ensure (String.eqb u.(username) EmptyString && String.eqb u.(password) EmptyString &&
              String.eqb u.(hash) EmptyString) "URL credentials/fragments are not allowed";;
      ensure (String.eqb u.(protocol) "wss:" ||
              (String.eqb u.(protocol) "ws:" &&
               (String.eqb u.(hostname) "127.0.0.1" || String.eqb u.(hostname) "[::1]")))
        "use wss or loopback ws";;
      Ok u.(href)
  end.

(** [Number(b.split(':')[1])] of a string that matches OUTPOINT. *)
Definition outpoint_index (b : string) : Z :=
  fold_left (fun acc c => 10 * acc + (Z.of_nat (Ascii.nat_of_ascii c) - 48))
    (drop 65 (String.list_ascii_of_string b)) 0.

Definition new_relay (u : string) : relay :=
  mkRelay u None None false None None 0 0 [] None false (Some "not started") ∅ [].

Fixpoint mapM_result {A B} (f : A -> result B) (l : list A) : result (list B) :=
  match l with
  | [] => Ok []
  | x :: t => y ← f x; ys ← mapM_result f t; Ok (y :: ys)
  end.

(** The verifier and WebSocketImpl are functions; [now_] is the clock. *)
Definition constructor (profile : string) (bonds relays : list string) (staleMs reconnectMs now_ : Z)
    : result monitor :=
  ensure (HASH profile) "pin the authenticated profile ID";;
  ensure ((1 <=? len bonds) && (len bonds <=? 128) && bool_decide (NoDup bonds) &&
          forallb (fun b => OUTPOINT b && (outpoint_index b <=? 0xffffffff)) bonds)
    "pin 1..128 distinct bonds";;
  ensure ((2 <=? len relays) && (len relays <=? 8)) "configure 2..8 relays";;
  ensure ((100 <=? staleMs) && (10 <=? reconnectMs)) "invalid timeouts";;
  urls ← mapM_result endpoint relays;
  ensure (bool_decide (NoDup urls)) "relay URLs must be distinct";;
  Ok (mkMonitor (mkConfig profile bonds staleMs reconnectMs) false now_ (map new_relay urls) ∅).

(** ** Queries *)
Definition healthy (m : monitor) (r : relay) : bool :=
  m.(running) && bool_decide (r.(socket) = Some 1) && r.(caughtUp) && (r.(pending) =? 0) &&
  match r.(lastMessage) with
  | None => false
  | Some t => let age := m.(now) - t in (0 <=? age) && (age <? m.(cfg).(staleMs))
  end.

Definition monitoringReady (m : monitor) : bool := forallb (healthy m) m.(relays).

Record relay_health := mkHealth {
  h_url : string; synchronized : bool; h_cursor : option cursor_t; h_error : option string }.

Definition health (m : monitor) : bool * list relay_health :=
  (monitoringReady m,
   map (fun r => mkHealth r.(relay_url) (healthy m r) r.(cursor) r.(error)) m.(relays)).

Record observation_t := mkObservation {
  o_ready : bool; conflicted : bool; observedOn : list string; observedEverywhere : bool;
  o_evidence : list receipt }.

Definition receipts_of (m : monitor) (b : string) : list (json * receipt) := default [] (m.(evidence) !! b).
Definition seen_of (r : relay) (b : string) : list json := default [] (r.(seen) !! b).

Definition observation (m : monitor) (b tx : string) : result observation_t :=
  ensure (bool_decide (b ∈ m.(cfg).(bonds)) && HASH tx) "unknown bond/invalid transaction ID";;
  let receipts := map snd (receipts_of m b) in
  let on := map relay_url (filter (fun r => healthy m r && set_has (JStr tx) (seen_of r b)) m.(relays)) in
  Ok (mkObservation (monitoringReady m) (1 <? len receipts) on (len on =? len m.(relays)) receipts).

(** ** Losing and opening connections *)
Definition lose (running_ : bool) (reason : string) (retry_ : bool) (r : relay) : relay :=
  mkRelay r.(relay_url) r.(cursor) None false r.(lastMessage) r.(opened) (r.(generation) + 1) 0 r.(jobs)
    None (retry_ && running_) (Some reason) r.(seen) r.(sent).

(** [throws]: the WebSocket constructor throws. *)
Definition connect (m : monitor) (throws : bool) (r : relay) : relay :=
  if negb m.(running) then r
  else
    let r1 := mkRelay r.(relay_url) r.(cursor) r.(through) r.(caughtUp) None (Some m.(now)) (r.(generation) + 1)
                r.(pending) r.(jobs) r.(socket) r.(retry) (Some "synchronizing") r.(seen) r.(sent) in
    if throws then lose m.(running) "connection failed" true r1
    else set_socket (Some 0) r1.

Definition start (throws : list bool) (m : monitor) : monitor :=
  if m.(running) then m
  else
    let m1 := mkMonitor m.(cfg) true m.(now) m.(relays) m.(evidence) in
    with_relays (imap (fun i r => connect m1 (nth i throws false) r) m1.(relays)) m1.

Definition stop (m : monitor) : monitor :=
  let m1 := mkMonitor m.(cfg) false m.(now) m.(relays) m.(evidence) in
  with_relays (map (lose false "stopped" false) m1.(relays)) m1.

(** [Math.max(relay.opened, relay.lastMessage)]. *)
Definition last_activity (r : relay) : option Z :=
  match r.(opened), r.(lastMessage) with
  | Some a, Some b => Some (Z.max a b)
  | Some a, None => Some a
  | None, b => b
  end.

Definition stale (m : monitor) (r : relay) : bool :=
  match last_activity r with
  | None => true
  | Some t => let age := m.(now) - t in (age <? 0) || (m.(cfg).(staleMs) <=? age)
  end.

Definition checkStaleness (m : monitor) : monitor :=
  with_relays (map (fun r =>
      match r.(socket) with
      | None => r
      | Some _ => if stale m r then lose m.(running) "stale or stalled connection" (r.(pending) =? 0) r else r
      end) m.(relays)) m.

(** ** Messages *)
Definition max_seq (c : config) : Z := len c.(bonds) * 2.

(** [#cursor(cursor)], with the cursor it accepted. *)
Definition cursor_of (c : config) (v : option json) : result cursor_t :=
  ensure (exact v ["stream"; "seq"]) "invalid message fields";;
  match v with
  | None => Err "invalid message fields"
  | Some v =>
      match get v "stream", sequence (get v "seq") (max_seq c) with
      | Some s, Some n => ensure (test HASH (Some s)) "invalid cursor";; Ok (mkCursor s n)
      | _, _ => Err "invalid cursor"
      end
  end.

Definition sameCursor (a : option cursor_t) (b : cursor_t) : bool :=
  match a with
  | None => false
  | Some a => strict_eqb a.(stream) b.(stream) && (a.(seq) =? b.(seq))
  end.

(** [#receipt(value)] up to the call of the verifier. *)
Definition receipt_of (c : config) (v : option json) : result receipt :=
  ensure (exact v ["bond"; "txid"; "signature"]) "invalid message fields";;
  match v with
  | None => Err "invalid message fields"
  | Some v =>
      match get v "bond", get v "txid", get v "signature" with
      | Some (JStr b), Some t, Some s =>
          ensure (bool_decide (b ∈ c.(bonds)) && test HASH (Some t) && test SIGNATURE (Some s)) "invalid receipt";;
          Ok (mkReceipt b t s)
      | _, _, _ => Err "invalid receipt"
      end
  end.

(** [#remember(relay, receipt)] on the evidence and on what the relay showed. *)
Definition remember_evidence (r : receipt) (e : gmap string (list (json * receipt)))
    : gmap string (list (json * receipt)) :=
  let l := default [] (e !! r.(bond)) in
  <[r.(bond) := if (length l <? 2)%nat then map_set r.(txid) r l else l]> e.

Definition remember_seen (r : receipt) (s : gmap string (list json)) : gmap string (list json) :=
  let l := default [] (s !! r.(bond)) in
  <[r.(bond) := if (length l <? 2)%nat then set_add r.(txid) l else l]> s.

(** [#process] up to its end or its first suspension. *)
Definition process_begin (c : config) (r : relay) (message : json) : result relay :=
  ensure (exact (Some message) ["type"; "profile"; "stream"; "from"; "through"]) "invalid message fields";;
  match r.(through), get message "stream", sequence (get message "from") (max_seq c),
        sequence (get message "through") (max_seq c) with
  | None, Some s, Some from, Some thr =>
      ensure (is_str (get message "profile") c.(profile) && test HASH (Some s) && (from <=? thr))
        "invalid synchronization header";;
      let cur := mkCursor s from in
      ensure (match r.(cursor) with Some _ => sameCursor r.(cursor) cur | None => from =? 0 end)
        "stream/cursor changed";;
      Ok (set_sync (Some cur) (Some thr) false r)
  | _, _, _, _ => Err "invalid synchronization header"
  end.

Definition process_event (c : config) (r : relay) (message : json) : result phase :=
  ensure (exact (Some message) ["type"; "event"]) "invalid message fields";;
  let event := get message "event" in
  ensure (exact event ["seq"; "receipt"; "conflict_with"]) "invalid message fields";;
  match event with
  | None => Err "invalid message fields"
  | Some event =>
      match r.(through), sequence (get event "seq") (max_seq c), r.(cursor) with
      | Some thr, Some n, Some cur =>
          ensure ((n =? cur.(seq) + 1) && (r.(caughtUp) || (n <=? thr))) "event gap";;
          rc ← receipt_of c (get event "receipt");
          Ok (PVerify n rc (get event "conflict_with"))
      | _, _, _ => Err "event gap"
      end
  end.

Definition process_caught_up (c : config) (r : relay) (message : json) : result relay :=
  ensure (exact (Some message) ["type"; "cursor"]) "invalid message fields";;
  cur ← cursor_of c (get message "cursor");
  ensure (negb r.(caughtUp) && sameCursor r.(cursor) cur && bool_decide (r.(through) = Some cur.(seq)))
    "incomplete replay";;
  Ok (set_sync r.(cursor) r.(through) true r).

Definition process_heartbeat (c : config) (r : relay) (message : json) : result relay :=
  ensure (exact (Some message) ["type"; "cursor"]) "invalid message fields";;
  cur ← cursor_of c (get message "cursor");
  ensure (r.(caughtUp) && sameCursor r.(cursor) cur) "heartbeat gap";;
  Ok r.

Definition process (c : config) (r : relay) (message : json) : result (relay * phase) :=
  let type := get message "type" in
  if is_str type "begin" then r1 ← process_begin c r message; Ok (r1, PProcessed)
  else if is_str type "event" then p ← process_event c r message; Ok (r, p)
  else if is_str type "caught_up" then r1 ← process_caught_up c r message; Ok (r1, PProcessed)
  else if is_str type "heartbeat" then r1 ← process_heartbeat c r message; Ok (r1, PProcessed)
  else Err "relay error/unknown message".

(** ** Queued functions *)
(** [current()] of a handler that captured [g]. *)
Definition current (m : monitor) (r : relay) (g : Z) : bool := m.(running) && (g =? r.(generation)).

Definition to_phase (k : nat) (j : job) (p : phase) (r : relay) : relay :=
  set_jobs (<[k := mkJob j.(job_generation) j.(data) j.(receivedAt) p]> r.(jobs)) r.

Definition drop_job (k : nat) (r : relay) : relay := set_jobs (delete k r.(jobs)) r.

(** The end of an event whose receipts have been verified. *)
Definition finish_event (m : monitor) (k : nat) (j : job) (n : Z) (rc : receipt) (other : option receipt) (r : relay)
    : relay * gmap string (list (json * receipt)) :=
  if negb (current m r j.(job_generation)) then (to_phase k j PProcessed r, m.(evidence))
  else
    let rcs := rc :: option_list other in
    let e := foldl (fun e x => remember_evidence x e) m.(evidence) rcs in
    let r1 := set_seen (foldl (fun s x => remember_seen x s) r.(seen) rcs) r in
    match r.(cursor) with
    | None => (to_phase k j PFailed r1, e)
    | Some cur => (to_phase k j PProcessed (set_sync (Some (mkCursor cur.(stream) n)) r.(through) r.(caughtUp) r1), e)
    end.

(** The age limit of a queued frame. *)
Definition in_time (m : monitor) (j : job) : bool := m.(now) - j.(receivedAt) <? m.(cfg).(staleMs).

(** The queued function up to the first [await] of [#process]. *)
Definition start_job (m : monitor) (k : nat) (j : job) (r : relay) : relay * gmap string (list (json * receipt)) :=
  if negb (current m r j.(job_generation)) then (drop_job k r, m.(evidence))
  else if negb (in_time m j) then (to_phase k j PFailed r, m.(evidence))
  else match JSON_parse j.(data) with
       | None => (to_phase k j PFailed r, m.(evidence))
       | Some message =>
           match process m.(cfg) r message with
           | Err _ => (to_phase k j PFailed r, m.(evidence))
           | Ok (r1, p) => (to_phase k j p r1, m.(evidence))
           end
       end.

(** The verifier has answered for the receipt of an event. *)
Definition resume_receipt (m : monitor) (k : nat) (j : job) (n : Z) (rc : receipt) (conflict_with : option json) (r : relay)
    : relay * gmap string (list (json * receipt)) :=
  if negb (verifyReceipt rc) then (to_phase k j PFailed r, m.(evidence))
  else match conflict_with with
       | Some JNull => finish_event m k j n rc None r
       | _ => match receipt_of m.(cfg) conflict_with with
              | Err _ => (to_phase k j PFailed r, m.(evidence))
              | Ok other => (to_phase k j (PVerifyOther n rc other) r, m.(evidence))
              end
       end.

(** The verifier has answered for the conflicting receipt. *)
Definition resume_other (m : monitor) (k : nat) (j : job) (n : Z) (rc other : receipt) (r : relay)
    : relay * gmap string (list (json * receipt)) :=
  if negb (verifyReceipt other) ||
     negb (String.eqb other.(bond) rc.(bond) && negb (strict_eqb other.(txid) rc.(txid)))
  then (to_phase k j PFailed r, m.(evidence))
  else finish_event m k j n rc (Some other) r.

(** The queued function behind [#process]. *)
Definition end_job (m : monitor) (k : nat) (j : job) (r : relay) : relay * gmap string (list (json * receipt)) :=
  if negb (current m r j.(job_generation)) then (drop_job k r, m.(evidence))
  else if negb (in_time m j) then (to_phase k j PFailed r, m.(evidence))
  else
    (mkRelay r.(relay_url) r.(cursor) r.(through) r.(caughtUp) (Some j.(receivedAt)) r.(opened) r.(generation)
       (r.(pending) - 1) (delete k r.(jobs)) r.(socket) r.(retry)
       (if r.(caughtUp) then None else Some "synchronizing") r.(seen) r.(sent), m.(evidence)).

(** Its [catch]. *)
Definition fail_job (m : monitor) (k : nat) (j : job) (r : relay) : relay * gmap string (list (json * receipt)) :=
  let r1 := drop_job k r in
  (if current m r j.(job_generation)
   then lose m.(running) "invalid protocol/evidence; revalidation required" false r1 else r1, m.(evidence)).

(** The next continuation of job [k]. *)
Definition job_step (m : monitor) (k : nat) (j : job) (r : relay) : relay * gmap string (list (json * receipt)) :=
  match j.(at_phase) with
  | PQueued => start_job m k j r
  | PVerify n rc conflict_with => resume_receipt m k j n rc conflict_with r
  | PVerifyOther n rc other => resume_other m k j n rc other r
  | PProcessed => end_job m k j r
  | PFailed => fail_job m k j r
  end.

(** ** Steps *)
(** [LReady]: the browser moves the socket to another readyState; [LMessage]
    carries no text for a binary frame; socket events name the generation of
    the socket that fires them. *)
Inductive label :=
| LStart (throws : list bool)
| LStop
| LClock (t : Z)
| LCheck
| LRetry (i : nat) (throws : bool)
| LOpen (i : nat) (g : Z) (throws : bool)
| LClose (i : nat) (g : Z)
| LError (i : nat) (g : Z)
| LReady (i : nat) (state : Z)
| LMessage (i : nat) (g : Z) (text : option string)
| LJob (i k : nat).

Definition on_relay (i : nat) (f : relay -> option relay) (m : monitor) : option monitor :=
  r ← m.(relays) !! i; r1 ← f r; Some (with_relays (<[i := r1]> m.(relays)) m).

(** A handler of the socket of generation [g]: nothing for an old socket. *)
Definition handler (m : monitor) (i : nat) (g : Z) (f : relay -> relay) : option monitor :=
  on_relay i (fun r =>
    if g <? r.(generation) then Some r
    else if negb (g =? r.(generation)) || bool_decide (r.(socket) = None) then None
    else Some (if current m r g then f r else r)) m.

Definition on_open (m : monitor) (throws : bool) (r : relay) : relay :=
  if throws then lose m.(running) "subscribe failed" true r else set_sent (r.(sent) ++ [r.(cursor)]) r.

Definition on_message (m : monitor) (g : Z) (text : option string) (r : relay) : relay :=
  match text with
  | None => lose m.(running) "frame/queue limit exceeded" false r
  | Some s =>
      if (MAX_FRAME <? String.length s)%nat then lose m.(running) "frame/queue limit exceeded" false r
      else if MAX_PENDING <? r.(pending) + 1 then lose m.(running) "frame/queue limit exceeded" false r
      else set_pending (r.(pending) + 1) (set_jobs (r.(jobs) ++ [mkJob g s m.(now) PQueued]) r)
  end.

(** A job runs when the earlier ones of its connection have finished. *)
Definition first_of_chain (k : nat) (g : Z) (js : list job) : bool :=
  forallb (fun j => negb (j.(job_generation) =? g)) (take k js).

Definition step (l : label) (m : monitor) : option monitor :=
  match l with
  | LStart throws => Some (start throws m)
  | LStop => Some (stop m)
  | LClock t => Some (mkMonitor m.(cfg) m.(running) t m.(relays) m.(evidence))
  | LCheck => Some (checkStaleness m)
  | LRetry i throws =>
      on_relay i (fun r =>
        if r.(retry) then
          Some (connect m throws
            (mkRelay r.(relay_url) r.(cursor) r.(through) r.(caughtUp) r.(lastMessage) r.(opened) r.(generation)
               r.(pending) r.(jobs) r.(socket) false r.(error) r.(seen) r.(sent)))
        else None) m
  | LOpen i g throws => handler m i g (on_open m throws)
  | LClose i g => handler m i g (lose m.(running) "disconnected" true)
  | LError i g => handler m i g (lose m.(running) "connection failed" true)
  | LReady i state => on_relay i (fun r => match r.(socket) with Some _ => Some (set_socket (Some state) r) | None => None end) m
  | LMessage i g text => handler m i g (on_message m g text)
  | LJob i k =>
      match m.(relays) !! i with
      | None => None
      | Some r =>
          match r.(jobs) !! k with
          | None => None
          | Some j =>
              if first_of_chain k j.(job_generation) r.(jobs) then
                let '(r1, e) := job_step m k j r in
                Some (mkMonitor m.(cfg) m.(running) m.(now) (<[i := r1]> m.(relays)) e)
              else None
          end
      end
  end.

Fixpoint run (ls : list label) (m : monitor) : option monitor :=
  match ls with
  | [] => Some m
  | l :: t => match step l m with Some m1 => run t m1 | None => None end
  end.
End monitor.
