(* ===== verification/MonitorFacts.v ===== *)
(** * Invariants of the receipt monitor

    What every reachable state of Monitor.v satisfies, clause by clause: the
    synchronization state of a relay, its queue, its connection, the evidence,
    and what each relay has shown; with the lemma that every step keeps it. *)

From S2P Require Import Prelude Js Monitor.

(** ** Evidence *)
Definition distinct (l : list json) : Prop :=
  match l with [a; b] => strict_eqb a b = false | _ => True end.

Definition evidence_of (e : gmap string (list (json * receipt))) (b : string) : list (json * receipt) :=
  default [] (e !! b).

(** The evidence of every bond grows, and is final once it holds a conflict. *)
Definition evidence_le (e e' : gmap string (list (json * receipt))) : Prop :=
  forall b, (evidence_of e b).*1 ⊆ (evidence_of e' b).*1 /\
    (length (evidence_of e b) = 2%nat -> evidence_of e' b = evidence_of e b).

#[global] Instance evidence_le_preorder : PreOrder evidence_le.
Proof.
  split; [done|]. intros e1 e2 e3 H1 H2 b. destruct (H1 b) as [S1 F1], (H2 b) as [S2 F2].
  split; [by etrans|]. intros Hl. rewrite F2; rewrite F1; done.
Qed.

Section invariant.
Context {Env : MonitorEnv}.

(** A receipt the wallet's verifier accepted, for a configured bond. *)
Definition verified (c : config) (b : string) (r : receipt) : Prop :=
  b ∈ c.(bonds) /\ r.(bond) = b /\ verifyReceipt r = true.

Record evidence_entry_ok (c : config) (b : string) (l : list (json * receipt)) : Prop := {
  ee_size : (length l <= 2)%nat;
  ee_verified : forall k r, (k, r) ∈ l -> r.(txid) = k /\ verified c b r;
  ee_distinct : distinct l.*1 }.

Definition evidence_ok (c : config) (e : gmap string (list (json * receipt))) : Prop :=
  forall b, evidence_entry_ok c b (evidence_of e b).

(** What a relay showed for a bond, against the evidence for it. *)
Record seen_entry_ok (c : config) (e : gmap string (list (json * receipt))) (b : string) (l : list json) : Prop := {
  se_size : (length l <= 2)%nat;
  se_verified : forall k, k ∈ l -> exists r, r.(txid) = k /\ verified c b r;
  se_distinct : distinct l;
  se_kept : l ⊆ (evidence_of e b).*1 \/ length (evidence_of e b) = 2%nat }.

Definition seen_ok (c : config) (e : gmap string (list (json * receipt))) (s : gmap string (list json)) : Prop :=
  forall b, seen_entry_ok c e b (default [] (s !! b)).

Lemma seen_ok_mono c e e' s : evidence_le e e' -> seen_ok c e s -> seen_ok c e' s.
Proof.
  intros Hle Hs b. destruct (Hs b) as [H1 H2 H3 H4], (Hle b) as [Hk Hf]. split; [done|done|done|].
  destruct H4 as [H4|H4]; [left; by etrans|right]. by rewrite Hf.
Qed.

(** ** One remembered receipt *)
Lemma evidence_of_remember x e b : evidence_of (remember_evidence x e) b =
  if decide (x.(bond) = b) then
    (let l := evidence_of e b in if (length l <? 2)%nat then map_set x.(txid) x l else l)
  else evidence_of e b.
Proof.
  unfold evidence_of, remember_evidence. rewrite lookup_insert. case_decide as E; [|done]. by rewrite E.
Qed.

Lemma remember_evidence_le x e : evidence_le e (remember_evidence x e).
Proof.
  intros b. rewrite evidence_of_remember. case_decide; [|done]. cbv zeta.
  destruct (Nat.ltb_spec (length (evidence_of e b)) 2); [|done]. split; [|lia].
  intros k Hk. apply keys_map_set. by right.
Qed.

Lemma distinct_set {A} k (x : A) (l : list (json * A)) : (length l < 2)%nat -> distinct (map_set k x l).*1.
Proof.
  destruct l as [|[k1 y1] [|]]; cbn; [done| |lia]. intros _.
  destruct (strict_eqb k1 k) eqn:E; cbn; done.
Qed.

Lemma remember_evidence_ok c x e : verified c x.(bond) x -> evidence_ok c e -> evidence_ok c (remember_evidence x e).
Proof.
  intros Hx He b. rewrite evidence_of_remember. case_decide as E; [|done]. cbv zeta. subst b.
  destruct (He x.(bond)) as [H1 H2 H3]. destruct (Nat.ltb_spec (length (evidence_of e (bond x))) 2); [|done].
  split.
  - pose proof (map_set_length x.(txid) x (evidence_of e (bond x))). lia.
  - intros k r [[= -> ->]|Hin]%elem_of_map_set; [done|by apply H2].
  - by apply distinct_set.
Qed.

Lemma seen_of_remember x r b : default [] (remember_seen x r !! b) =
  if decide (x.(bond) = b) then
    (let l := default [] (r !! b) in if (length l <? 2)%nat then set_add x.(txid) l else l)
  else default [] (r !! b).
Proof. unfold remember_seen. rewrite lookup_insert. case_decide as E; [|done]. by rewrite E. Qed.

Lemma distinct_add k l : (length l < 2)%nat -> distinct (set_add k l).
Proof.
  destruct l as [|k1 [|]]; cbn; [done| |lia]. intros _. unfold set_add, set_has. cbn.
  destruct (strict_eqb k1 k) eqn:E; cbn; [done|]. exact E.
Qed.

Lemma remembered_kept x e : x.(txid) ∈ (evidence_of (remember_evidence x e) x.(bond)).*1 \/
  (2 <= length (evidence_of (remember_evidence x e) x.(bond)))%nat.
Proof.
  rewrite evidence_of_remember, decide_True by done. cbv zeta.
  destruct (Nat.ltb_spec (length (evidence_of e (bond x))) 2); [left|by right].
  apply keys_map_set. by left.
Qed.

Lemma remember_seen_ok c x e s : verified c x.(bond) x -> evidence_ok c e -> seen_ok c e s ->
  seen_ok c (remember_evidence x e) (remember_seen x s).
Proof.
  intros Hx He Hs. pose proof (remember_evidence_ok c x e Hx He) as He'.
  apply (seen_ok_mono c e _ s (remember_evidence_le x e)) in Hs. intros b. rewrite seen_of_remember.
  case_decide as E; [|done]. cbv zeta. subst b. destruct (Hs x.(bond)) as [H1 H2 H3 H4].
  destruct (Nat.ltb_spec (length (default [] (s !! bond x))) 2); [|done]. split.
  - pose proof (set_add_length x.(txid) (default [] (s !! bond x))). lia.
  - intros k [-> |Hin]%elem_of_set_add; [by exists x|by apply H2].
  - by apply distinct_add.
  - destruct H4 as [H4|H4]; [|by right]. destruct (remembered_kept x e) as [Hk|Hk].
    + left. intros k [-> |Hin]%elem_of_set_add; [done|by apply H4].
    + right. pose proof (ee_size _ _ _ (He' x.(bond))). lia.
Qed.

(** ** Queues *)
Definition unfinished (g : Z) (js : list job) : Z := len (filter (fun g' => g' = g) (job_generation <$> js)).

(** A job has started only if it is the first of its connection. *)
Definition chain_ok (js : list job) : Prop :=
  forall i k a b, (i < k)%nat -> js !! i = Some a -> js !! k = Some b -> b.(at_phase) <> PQueued ->
    a.(job_generation) <> b.(job_generation).

Lemma unfinished_insert g k j p js : js !! k = Some j ->
  unfinished g (<[k := mkJob j.(job_generation) j.(data) j.(receivedAt) p]> js) = unfinished g js.
Proof.
  intros Hk. unfold unfinished. rewrite list_fmap_insert, list_insert_id; [done|].
  cbn. by rewrite list_lookup_fmap, Hk.
Qed.

Lemma unfinished_delete g k j js : js !! k = Some j ->
  unfinished g (delete k js) = unfinished g js - (if decide (j.(job_generation) = g) then 1 else 0).
Proof.
  intros Hk. unfold unfinished, len. rewrite (delete_Permutation _ _ _ Hk) at 2.
  rewrite fmap_cons, filter_cons. case_decide; cbn; lia.
Qed.

Lemma unfinished_app g js j : unfinished g (js ++ [j]) =
  unfinished g js + (if decide (j.(job_generation) = g) then 1 else 0).
Proof.
  unfold unfinished, len. rewrite fmap_app, list.filter_app, length_app, fmap_cons, filter_cons.
  case_decide; cbn; lia.
Qed.

Lemma unfinished_none g js : (forall j, j ∈ js -> j.(job_generation) <> g) -> unfinished g js = 0.
Proof.
  unfold unfinished. induction js as [|j js IH]; intros Hj; [done|].
  rewrite fmap_cons, filter_cons, decide_False by (apply Hj; left). apply IH. intros j' Hin. apply Hj. by right.
Qed.

Lemma chain_ok_insert k j p js : chain_ok js -> js !! k = Some j ->
  first_of_chain k j.(job_generation) js = true ->
  chain_ok (<[k := mkJob j.(job_generation) j.(data) j.(receivedAt) p]> js).
Proof.
  intros Hc Hk Hf i n a b Hin Ha Hb Hp. pose proof (lookup_lt_Some _ _ _ Hk) as Hlt.
  assert (Hga : exists a', js !! i = Some a' /\ a'.(job_generation) = a.(job_generation)).
  { destruct (decide (k = i)) as [<-|Hne]; [|rewrite list_lookup_insert_ne in Ha by done; by exists a].
    rewrite list_lookup_insert_eq in Ha by done. injection Ha as <-. by exists j. }
  destruct Hga as (a' & Ha' & <-). destruct (decide (k = n)) as [<-|Hne].
  - rewrite list_lookup_insert_eq in Hb by done. injection Hb as <-. cbn. unfold first_of_chain in Hf. rewrite forallb_forall in Hf.
    assert (Hin' : In a' (take k js)).
    { apply list_elem_of_In, (list_elem_of_lookup_2 _ i). by rewrite lookup_take_lt. }
    apply Hf in Hin'. lia.
  - rewrite list_lookup_insert_ne in Hb by done. exact (Hc i n a' b Hin Ha' Hb Hp).
Qed.

Lemma chain_ok_delete k js : chain_ok js -> chain_ok (delete k js).
Proof.
  intros Hc i n a b Hin Ha Hb. rewrite list_lookup_delete in Ha, Hb.
  destruct (decide (i < k)%nat), (decide (n < k)%nat); try lia;
    refine (Hc _ _ a b _ Ha Hb); lia.
Qed.

Lemma chain_ok_app js j : chain_ok js -> j.(at_phase) = PQueued -> chain_ok (js ++ [j]).
Proof.
  intros Hc Hj i n a b Hin Ha Hb Hp.
  apply lookup_app_Some in Hb as [Hb|[Hn Hb]].
  - rewrite lookup_app_l in Ha by (apply lookup_lt_Some in Hb; lia). exact (Hc i n a b Hin Ha Hb Hp).
  - apply list_lookup_singleton_Some in Hb as [_ <-]. done.
Qed.

(** ** One relay *)
(** The cursor is in range; between [begin] and the loss of the connection it
    is at most the high-water mark until caught up, and at least it afterwards. *)
Record sync_ok (c : config) (r : relay) : Prop := {
  s_cursor : forall cur, r.(cursor) = Some cur -> 0 <= cur.(seq) <= max_seq c;
  s_through : match r.(through) with
              | None => r.(caughtUp) = false
              | Some t => exists cur, r.(cursor) = Some cur /\ t <= max_seq c /\
                            if r.(caughtUp) then t <= cur.(seq) else cur.(seq) <= t
              end }.

(** The event of number [n] is the next one. *)
Definition expected (c : config) (r : relay) (n : Z) : Prop :=
  exists t cur, r.(through) = Some t /\ r.(cursor) = Some cur /\ n = cur.(seq) + 1 /\ n <= max_seq c /\
    (r.(caughtUp) = true \/ n <= t).

Definition phase_ok (c : config) (r : relay) (j : job) : Prop :=
  match j.(at_phase) with
  | PVerify n rc _ => rc.(bond) ∈ c.(bonds) /\ (j.(job_generation) = r.(generation) -> expected c r n)
  | PVerifyOther n rc other =>
      verified c rc.(bond) rc /\ other.(bond) ∈ c.(bonds) /\
      (j.(job_generation) = r.(generation) -> expected c r n)
  | _ => True
  end.

Record queue_ok (c : config) (r : relay) : Prop := {
  q_gen : forall j, j ∈ r.(jobs) -> j.(job_generation) <= r.(generation);
  q_pending : r.(pending) = unfinished r.(generation) r.(jobs);
  q_limit : r.(pending) <= MAX_PENDING;
  q_chain : chain_ok r.(jobs);
  q_phase : forall j, j ∈ r.(jobs) -> phase_ok c r j }.

Record conn_ok (run : bool) (r : relay) : Prop := {
  c_running : r.(socket) <> None -> run = true;
  c_none : r.(socket) = None -> r.(through) = None /\ r.(pending) = 0;
  c_retry : r.(retry) = true -> run = true /\ r.(socket) = None }.

Record relay_ok (c : config) (run : bool) (e : gmap string (list (json * receipt))) (r : relay) : Prop := {
  r_sync : sync_ok c r;
  r_queue : queue_ok c r;
  r_conn : conn_ok run r;
  r_seen : seen_ok c e r.(seen) }.

Lemma relay_ok_mono c run e e' r : evidence_le e e' -> relay_ok c run e r -> relay_ok c run e' r.
Proof. intros Hle [H1 H2 H3 H4]. split; [done|done|done|by eapply seen_ok_mono]. Qed.

Lemma unfinished_pos g js j : j ∈ js -> j.(job_generation) = g -> 1 <= unfinished g js.
Proof.
  intros [k Hk]%list_elem_of_lookup_1 Hg. pose proof (unfinished_delete g k j js Hk) as Hd.
  rewrite decide_True in Hd by done. unfold unfinished in *. pose proof (len_nonneg (filter (fun g' => g' = g) (job_generation <$> delete k js))). lia.
Qed.

(** A job that is not current belongs to an older connection. *)
Lemma not_current c m e r j : relay_ok c m.(running) e r -> j ∈ r.(jobs) ->
  current m r j.(job_generation) = false -> j.(job_generation) <> r.(generation).
Proof.
  intros [_ Hq Hc _] Hj Hcur Hg. unfold current in Hcur. rewrite Hg, Z.eqb_refl, andb_true_r in Hcur.
  destruct (r.(socket)) as [s|] eqn:Es.
  - rewrite (c_running _ _ Hc) in Hcur; [done|by rewrite Es].
  - pose proof (unfinished_pos _ _ _ Hj Hg) as Hp. rewrite <- (q_pending _ _ Hq) in Hp.
    destruct (c_none _ _ Hc Es). lia.
Qed.

Lemma current_spec m r g : current m r g = true -> m.(running) = true /\ g = r.(generation).
Proof. unfold current. intros [? ?%Z.eqb_eq]%andb_true_iff. done. Qed.

(** The other jobs of the connection wait while its first one runs. *)
Lemma others_queued k js j n j' : chain_ok js -> js !! k = Some j ->
  first_of_chain k j.(job_generation) js = true -> js !! n = Some j' -> n <> k ->
  j'.(job_generation) = j.(job_generation) -> j'.(at_phase) = PQueued.
Proof.
  intros Hc Hk Hf Hn Hne Hg. destruct (decide (n < k)%nat) as [Hlt|Hge].
  - unfold first_of_chain in Hf. rewrite forallb_forall in Hf.
    assert (Hin : In j' (take k js)) by (apply list_elem_of_In, (list_elem_of_lookup_2 _ n); by rewrite lookup_take_lt).
    apply Hf in Hin. lia.
  - destruct (j'.(at_phase)) eqn:Ep; [done|..];
      (exfalso; refine (Hc k n j j' _ Hk Hn _ _); [lia|by rewrite Ep|done]).
Qed.

(** ** Handlers keep the clauses *)
Lemma phase_ok_older c r r' j : r'.(generation) <> j.(job_generation) -> phase_ok c r j -> phase_ok c r' j.
Proof.
  unfold phase_ok. intros Hne. destruct (at_phase j); [done| | |done|done].
  - intros [? _]. split; [done|]. intros E. by rewrite E in Hne.
  - intros (? & ? & _). refine (conj _ (conj _ _)); [done|done|]. intros E. by rewrite E in Hne.
Qed.

Lemma lose_ok c run run' e r reason b : relay_ok c run e r -> relay_ok c run' e (lose run' reason b r).
Proof.
  intros [[Hs1 Hs2] [Hq1 Hq2 Hq3 Hq4 Hq5] _ Hseen]. split; [by split| |split|done]; cbn; try done.
  2:{ by intros [_ ?]%andb_true_iff. }
  split; cbn; try done.
  - intros j Hj. apply Hq1 in Hj. lia.
  - rewrite unfinished_none; [done|]. intros j Hj. apply Hq1 in Hj. lia.
  - intros j Hj. apply (phase_ok_older c r); [|by apply Hq5]. apply Hq1 in Hj. cbn. lia.
Qed.

(** A new connection: the generation of a relay without a socket advances. *)
Lemma opening_ok c run e r l o er : relay_ok c run e r -> r.(socket) = None ->
  relay_ok c run e (mkRelay r.(relay_url) r.(cursor) r.(through) r.(caughtUp) l o (r.(generation) + 1)
    r.(pending) r.(jobs) r.(socket) r.(retry) er r.(seen) r.(sent)).
Proof.
  intros [[Hs1 Hs2] [Hq1 Hq2 Hq3 Hq4 Hq5] [Hc1 Hc2 Hc3] Hseen] Hn. destruct (Hc2 Hn) as [Ht Hp].
  split; [by split| |split|]; cbn; try done. split; cbn; try done.
  - intros j Hj. apply Hq1 in Hj. lia.
  - rewrite unfinished_none; [done|]. intros j Hj. apply Hq1 in Hj. lia.
  - intros j Hj. apply (phase_ok_older c r); [|by apply Hq5]. apply Hq1 in Hj. cbn. lia.
Qed.

Lemma set_socket_ok c e r st : relay_ok c true e r -> r.(retry) = false ->
  relay_ok c true e (set_socket (Some st) r).
Proof. intros [[] [] [] ?] Hr. split; [by split|by split|split|done]; cbn; [done|done|]. by rewrite Hr. Qed.

Lemma connect_ok c m e r throws : relay_ok c m.(running) e r -> r.(socket) = None -> r.(retry) = false ->
  relay_ok c m.(running) e (connect m throws r).
Proof.
  intros Hr Hn Hre. unfold connect. destruct (m.(running)) eqn:Erun; cbn [negb]; [|done].
  pose proof (opening_ok c true e r None (Some m.(now)) (Some "synchronizing") Hr Hn) as Ho.
  destruct throws; [by apply (lose_ok c true)|by apply set_socket_ok].
Qed.

(** The invariant does not depend on these fields. *)
Lemma cosmetic_ok c run e r b s er l : relay_ok c run e r -> (b = true -> r.(retry) = true) ->
  relay_ok c run e (mkRelay r.(relay_url) r.(cursor) r.(through) r.(caughtUp) l r.(opened) r.(generation)
    r.(pending) r.(jobs) r.(socket) b er r.(seen) s).
Proof. intros [[] [] [] ?] Hb. split; [by split|by split|split|done]; cbn; auto. Qed.

Lemma on_open_ok c m e throws r : relay_ok c m.(running) e r -> relay_ok c m.(running) e (on_open m throws r).
Proof. intros Hr. unfold on_open. destruct throws; [by apply (lose_ok c m.(running))|by apply cosmetic_ok]. Qed.

Lemma on_message_ok c m e text r : relay_ok c m.(running) e r -> r.(socket) <> None ->
  relay_ok c m.(running) e (on_message m r.(generation) text r).
Proof.
  intros Hr Hs. assert (Hl : relay_ok c m.(running) e (lose m.(running) "frame/queue limit exceeded" false r))
    by (by apply (lose_ok c m.(running))).
  unfold on_message. destruct text as [t|]; [|done]. destruct (_ <? _)%nat; [done|].
  destruct (Z.ltb_spec MAX_PENDING (r.(pending) + 1)) as [|Hlim]; [done|].
  destruct Hr as [[] [Hq1 Hq2 Hq3 Hq4 Hq5] [Hc1 Hc2 Hc3] Hseen]. split; [by split| |by split|done]. split; cbn.
  - intros j [Hj|Hj%list_elem_of_singleton]%elem_of_app; [by apply Hq1|]. by rewrite Hj.
  - rewrite unfinished_app. cbn. rewrite decide_True by done. lia.
  - lia.
  - by apply chain_ok_app.
  - intros j [Hj|Hj%list_elem_of_singleton]%elem_of_app; [by apply Hq5|]. by rewrite Hj.
Qed.

(** ** Messages *)
(** A cursor only moves forward, on one stream. *)
Definition cursor_le (a b : option cursor_t) : Prop :=
  match a with
  | None => True
  | Some c => exists c', b = Some c' /\ c'.(stream) = c.(stream) /\ c.(seq) <= c'.(seq)
  end.

#[global] Instance cursor_le_preorder : PreOrder cursor_le.
Proof.
  split.
  - intros [c|]; [|done]. by exists c.
  - intros [a|] b c Hab Hbc; [|done]. destruct Hab as (b' & -> & Hs & Hn).
    destruct Hbc as (c' & -> & Hs' & Hn'). exists c'. split; [done|]. split; [congruence|lia].
Qed.

Lemma sameCursor_eq a b : sameCursor a b = true -> a = Some b.
Proof.
  destruct a as [[s n]|], b as [s' n']; [|done]. cbn. intros [Hs%strict_eqb_eq ?%Z.eqb_eq]%andb_true_iff.
  by subst.
Qed.

Lemma process_begin_spec c r msg r1 : process_begin c r msg = Ok r1 ->
  exists cur thr, r1 = set_sync (Some cur) (Some thr) false r /\ r.(through) = None /\
    0 <= cur.(seq) <= thr /\ thr <= max_seq c /\ cursor_le r.(cursor) (Some cur).
Proof.
  intros H. unfold process_begin in H. inv_ok. destruct (r.(through)) as [t|]; [done|].
  destruct (get msg "stream") as [s|]; [|done].
  destruct (sequence (get msg "from") _) as [from|] eqn:Ef; [|done].
  destruct (sequence (get msg "through") _) as [thr|] eqn:Et; [|done]. inv_ok. bool_simp.
  apply sequence_spec in Ef as [_ Ef], Et as [_ Et].
  exists (mkCursor s from), thr. cbn. split_and!; try done; try lia.
  destruct (r.(cursor)) as [c0|] eqn:Ec; [|done].
  match goal with H : sameCursor _ _ = true |- _ => apply sameCursor_eq in H as [= ->] end. by exists (mkCursor s from).
Qed.

Lemma process_caught_up_spec c r msg r1 : process_caught_up c r msg = Ok r1 ->
  exists cur, r1 = set_sync r.(cursor) r.(through) true r /\ r.(caughtUp) = false /\
    r.(cursor) = Some cur /\ r.(through) = Some cur.(seq).
Proof.
  intros H. unfold process_caught_up in H. inv_ok. bool_simp.
  match goal with H : sameCursor _ _ = true |- _ => apply sameCursor_eq in H end. by eexists.
Qed.

Lemma process_heartbeat_spec c r msg r1 : process_heartbeat c r msg = Ok r1 -> r1 = r.
Proof. intros H. unfold process_heartbeat in H. by inv_ok. Qed.

Lemma receipt_of_bond c v rc : receipt_of c v = Ok rc -> rc.(bond) ∈ c.(bonds).
Proof.
  intros H. unfold receipt_of in H. inv_ok. destruct v as [v|]; [|done].
  destruct (get v "bond") as [[]|]; try done. destruct (get v "txid"); [|done]. destruct (get v "signature"); [|done].
  inv_ok. bool_simp. done.
Qed.

Lemma process_event_spec c r msg p : process_event c r msg = Ok p ->
  exists n rc conf, p = PVerify n rc conf /\ rc.(bond) ∈ c.(bonds) /\ expected c r n.
Proof.
  intros H. unfold process_event in H. inv_ok. destruct (get msg "event") as [ev|]; [|done].
  destruct (r.(through)) as [t|] eqn:Et; [|done]. destruct (sequence _ _) as [n|] eqn:En; [|done].
  destruct (r.(cursor)) as [cur|] eqn:Ec; [|done]. inv_ok. apply sequence_spec in En as [_ En].
  match goal with H : receipt_of _ _ = Ok ?x |- _ => apply receipt_of_bond in H; exists n, x, (get ev "conflict_with") end.
  split_and!; [done|done|]. bool_simp. exists t, cur. split_and!; try done; try lia.
  match goal with H : _ || _ = true |- _ => apply orb_true_iff in H as [?|?%Z.leb_le] end; auto.
Qed.

(** [#process] up to its suspension: a new synchronization state, or an event
    that waits for the verifier. *)
Lemma process_spec c r msg r1 p : sync_ok c r -> process c r msg = Ok (r1, p) ->
  (exists cur thr b, r1 = set_sync cur thr b r /\ sync_ok c r1 /\ cursor_le r.(cursor) cur /\ p = PProcessed) \/
  (r1 = r /\ exists n rc conf, p = PVerify n rc conf /\ rc.(bond) ∈ c.(bonds) /\ expected c r n).
Proof.
  intros [Hs1 Hs2] H. unfold process in H. destruct (is_str _ "begin"); [inv_ok|].
  { match goal with H : process_begin _ _ _ = _ |- _ => apply process_begin_spec in H as (cur & thr & -> & Ht & Hc & Hm & Hle) end.
    left. exists (Some cur), (Some thr), false. split_and!; try done. split; cbn.
    - intros cur' [= <-]. lia.
    - exists cur. split_and!; [done|done|lia]. }
  destruct (is_str _ "event"); [inv_ok|].
  { right. split; [done|]. by eapply process_event_spec. }
  destruct (is_str _ "caught_up"); [inv_ok|].
  { match goal with H : process_caught_up _ _ _ = _ |- _ => apply process_caught_up_spec in H as (cur & -> & Hcu & Hc & Ht) end.
    left. exists r.(cursor), r.(through), true. split_and!; try done. split; cbn; [done|].
    rewrite Ht in *. destruct Hs2 as (cur' & Hc' & Hm & _). rewrite Hc in Hc'. injection Hc' as <-.
    exists cur. split_and!; [done|done|lia]. }
  destruct (is_str _ "heartbeat"); [inv_ok|done].
  match goal with H : process_heartbeat _ _ _ = _ |- _ => apply process_heartbeat_spec in H as -> end.
  left. exists r.(cursor), r.(through), r.(caughtUp). split_and!; try done. by destruct r.
Qed.

(** ** Continuations keep the clauses *)
Lemma elem_of_delete_job k (js : list job) x : x ∈ delete k js -> x ∈ js.
Proof.
  intros [i Hi]%list_elem_of_lookup_1. rewrite list_lookup_delete in Hi.
  case_decide; by eapply list_elem_of_lookup_2.
Qed.

Lemma drop_job_ok c run e r k j : relay_ok c run e r -> r.(jobs) !! k = Some j ->
  j.(job_generation) <> r.(generation) -> relay_ok c run e (drop_job k r).
Proof.
  intros [[] [Hq1 Hq2 Hq3 Hq4 Hq5] [] Hseen] Hk Hg.
  split; [by split| |by split|done]. split; cbn; [| |done|by apply chain_ok_delete|].
  { intros x Hx%elem_of_delete_job. auto. }
  2:{ intros x Hx. exact (Hq5 x (elem_of_delete_job _ _ _ Hx)). }
  rewrite (unfinished_delete _ _ _ _ Hk), decide_False by done. lia.
Qed.

(** The elements of an updated queue. *)
Lemma elem_of_insert_job k x (js : list job) j' : j' ∈ <[k := x]> js ->
  j' = x \/ exists n, n <> k /\ js !! n = Some j'.
Proof.
  intros [n Hn]%list_elem_of_lookup_1. apply list_lookup_insert_Some in Hn as [(-> & -> & _)|[Hne Hn]]; [by left|].
  right. by exists n.
Qed.

Lemma to_phase_ok c run e r k j p : relay_ok c run e r -> r.(jobs) !! k = Some j ->
  first_of_chain k j.(job_generation) r.(jobs) = true ->
  phase_ok c r (mkJob j.(job_generation) j.(data) j.(receivedAt) p) -> relay_ok c run e (to_phase k j p r).
Proof.
  intros [[] [Hq1 Hq2 Hq3 Hq4 Hq5] [] Hseen] Hk Hf Hp. split; [by split| |by split|done].
  pose proof (list_elem_of_lookup_2 _ _ _ Hk) as Hj. split; cbn; [| |done|by apply chain_ok_insert|].
  - intros x [-> |(n & _ & Hn)]%elem_of_insert_job; [by apply (Hq1 j)|by eapply Hq1, list_elem_of_lookup_2].
  - by rewrite unfinished_insert.
  - intros x [-> |(n & _ & Hn)]%elem_of_insert_job; [done|by eapply Hq5, list_elem_of_lookup_2].
Qed.

Lemma current_socket c run e r j : relay_ok c run e r -> j ∈ r.(jobs) -> j.(job_generation) = r.(generation) ->
  r.(socket) <> None.
Proof.
  intros [_ Hq Hc _] Hj Hg Hn. pose proof (unfinished_pos _ _ _ Hj Hg) as Hp. rewrite <- (q_pending _ _ Hq) in Hp.
  destruct (c_none _ _ Hc Hn). lia.
Qed.

(** The running job of the connection changes the synchronization state. *)
Lemma advance_ok c run e e' r k j p cur thr b s : relay_ok c run e r -> r.(jobs) !! k = Some j ->
  first_of_chain k j.(job_generation) r.(jobs) = true -> j.(job_generation) = r.(generation) ->
  p = PProcessed \/ p = PFailed -> seen_ok c e' s ->
  sync_ok c (set_sync cur thr b r) -> relay_ok c run e' (to_phase k j p (set_sync cur thr b (set_seen s r))).
Proof.
  intros Hr Hk Hf Hg Hp Hs [Hy1 Hy2]. pose proof (list_elem_of_lookup_2 _ _ _ Hk) as Hj.
  pose proof (current_socket _ _ _ _ _ Hr Hj Hg) as Hso. destruct Hr as [_ [Hq1 Hq2 Hq3 Hq4 Hq5] [Hc1 Hc2 Hc3] _].
  split; [by split| |by split|done]. split; cbn; [| |done|by apply chain_ok_insert|].
  - intros x [-> |(n & _ & Hn)]%elem_of_insert_job; [by apply (Hq1 j)|by eapply Hq1, list_elem_of_lookup_2].
  - by rewrite unfinished_insert.
  - intros x [-> |(n & Hne & Hn)]%elem_of_insert_job; [by destruct Hp as [-> | ->]|].
    destruct (decide (x.(job_generation) = r.(generation))) as [Hx|Hx].
    + unfold phase_ok. rewrite (others_queued k r.(jobs) j n x); [done|done|done|done|done|done|by rewrite Hg].
    + apply (phase_ok_older c r); [cbn; congruence|]. by eapply Hq5, list_elem_of_lookup_2.
Qed.

(** The end of a job: one pending frame less. *)
Lemma finish_job_ok c run e r k j er t : relay_ok c run e r -> r.(jobs) !! k = Some j ->
  j.(job_generation) = r.(generation) ->
  relay_ok c run e (mkRelay r.(relay_url) r.(cursor) r.(through) r.(caughtUp) t r.(opened) r.(generation)
    (r.(pending) - 1) (delete k r.(jobs)) r.(socket) r.(retry) er r.(seen) r.(sent)).
Proof.
  intros Hr Hk Hg. pose proof (list_elem_of_lookup_2 _ _ _ Hk) as Hj.
  pose proof (current_socket _ _ _ _ _ Hr Hj Hg) as Hso.
  destruct Hr as [[] [Hq1 Hq2 Hq3 Hq4 Hq5] [] Hseen].
  split; [by split| |by split|done]. split; cbn; [| |lia|by apply chain_ok_delete|].
  - intros x Hx. apply Hq1. by eapply elem_of_delete_job.
  - rewrite (unfinished_delete _ _ _ _ Hk), decide_True by done. lia.
  - intros x Hx. exact (Hq5 x (elem_of_delete_job _ _ _ Hx)).
Qed.

(** A failed job: whatever remains of its connection is void. *)
Lemma drop_lose_ok c run e r k reason b : relay_ok c run e r -> relay_ok c run e (lose run reason b (drop_job k r)).
Proof.
  intros [[] [Hq1 Hq2 Hq3 Hq4 Hq5] _ Hseen]. split; [by split| |split; cbn; try done|done].
  2:{ by intros [_ ?]%andb_true_iff. }
  split; cbn; [| |done|by apply chain_ok_delete|].
  - intros x Hx%elem_of_delete_job. apply Hq1 in Hx. lia.
  - rewrite unfinished_none; [done|]. intros x Hx%elem_of_delete_job. apply Hq1 in Hx. lia.
  - intros x Hx%elem_of_delete_job. apply (phase_ok_older c r); [|by apply Hq5]. apply Hq1 in Hx. cbn. lia.
Qed.

Lemma remember_all_ok c rcs : (forall x, x ∈ rcs -> verified c x.(bond) x) ->
  forall e s, evidence_ok c e -> seen_ok c e s ->
  let e' := foldl (fun e x => remember_evidence x e) e rcs in
  evidence_ok c e' /\ seen_ok c e' (foldl (fun s x => remember_seen x s) s rcs) /\ evidence_le e e'.
Proof.
  induction rcs as [|x rcs IH]; intros Hv e s He Hs; [done|]. cbn [foldl].
  assert (Hx : verified c x.(bond) x) by (apply Hv; left).
  destruct (IH (fun y Hy => Hv y (list_elem_of_further _ _ _ Hy)) (remember_evidence x e) (remember_seen x s))
    as (H1 & H2 & H3).
  - by apply remember_evidence_ok.
  - by apply remember_seen_ok.
  - refine (conj H1 (conj H2 _)). etrans; [apply remember_evidence_le|exact H3].
Qed.

(** What a step of one relay guarantees to the rest of the monitor. *)
Definition step_ok (c : config) (run : bool) (e : gmap string (list (json * receipt))) (r : relay)
    (res : relay * gmap string (list (json * receipt))) : Prop :=
  relay_ok c run res.2 res.1 /\ evidence_ok c res.2 /\ evidence_le e res.2 /\ cursor_le r.(cursor) res.1.(cursor).

Lemma finish_event_ok m k j n rc other r : relay_ok m.(cfg) m.(running) m.(evidence) r ->
  evidence_ok m.(cfg) m.(evidence) -> r.(jobs) !! k = Some j ->
  first_of_chain k j.(job_generation) r.(jobs) = true ->
  (forall x, x ∈ rc :: option_list other -> verified m.(cfg) x.(bond) x) ->
  (j.(job_generation) = r.(generation) -> expected m.(cfg) r n) ->
  step_ok m.(cfg) m.(running) m.(evidence) r (finish_event m k j n rc other r).
Proof.
  intros Hr He Hk Hf Hv Hx. unfold finish_event. destruct (current m r (job_generation j)) eqn:Ecur; cbn [negb].
  2:{ unfold step_ok. cbn [fst snd]. refine (conj _ (conj He (conj _ _))); [|done|done]. by apply to_phase_ok. }
  apply current_spec in Ecur as [_ Hg]. destruct (Hx Hg) as (t & cur & Ht & Hc & Hn & Hmax & Hcond).
  destruct (remember_all_ok m.(cfg) (rc :: option_list other) Hv m.(evidence) r.(seen) He (r_seen _ _ _ _ Hr))
    as (H1 & H2 & H3).
  rewrite Hc. unfold step_ok. cbn [fst snd]. refine (conj _ (conj H1 (conj H3 _))).
  - apply (advance_ok m.(cfg) m.(running) m.(evidence)); try done; [by left|].
    destruct (r_sync _ _ _ _ Hr) as [Hs1 Hs2]. specialize (Hs1 cur Hc). split; cbn.
    + intros cur' [= <-]. cbn. lia.
    + rewrite Ht in Hs2 |- *. destruct Hs2 as (cur' & Hc' & Hm & Hle). rewrite Hc in Hc'. injection Hc' as <-.
      exists (mkCursor (stream cur) n). split_and!; [done|done|]. cbn. destruct (r.(caughtUp)); [lia|].
      destruct Hcond; [done|lia].
  - cbn. rewrite Hc. exists (mkCursor (stream cur) n). cbn. split_and!; [done|done|lia].
Qed.

Lemma job_step_ok m k j r : relay_ok m.(cfg) m.(running) m.(evidence) r -> evidence_ok m.(cfg) m.(evidence) ->
  r.(jobs) !! k = Some j -> first_of_chain k j.(job_generation) r.(jobs) = true ->
  step_ok m.(cfg) m.(running) m.(evidence) r (job_step m k j r).
Proof.
  intros Hr He Hk Hf. pose proof (list_elem_of_lookup_2 _ _ _ Hk) as Hj.
  assert (Hkeep : forall r1, relay_ok m.(cfg) m.(running) m.(evidence) r1 -> cursor_le r.(cursor) r1.(cursor) ->
    step_ok m.(cfg) m.(running) m.(evidence) r (r1, m.(evidence))) by (intros r1 H1 H2; by split).
  assert (Hto : forall p, phase_ok m.(cfg) r (mkJob j.(job_generation) j.(data) j.(receivedAt) p) ->
    step_ok m.(cfg) m.(running) m.(evidence) r (to_phase k j p r, m.(evidence)))
    by (intros p Hp; apply Hkeep; [by apply to_phase_ok|done]).
  assert (Hfail : step_ok m.(cfg) m.(running) m.(evidence) r (to_phase k j PFailed r, m.(evidence))) by (by apply Hto).
  pose proof (q_phase _ _ (r_queue _ _ _ _ Hr) j Hj) as Hph. unfold phase_ok in Hph.
  unfold job_step, start_job, resume_receipt, resume_other, end_job, fail_job, in_time. destruct (at_phase j) as [|n rc conf|n rc other| |] eqn:Eph.
  - destruct (current m r _) eqn:Ecur; cbn [negb].
    2:{ apply Hkeep; [|done]. eapply drop_job_ok; [done|done|]. by eapply not_current. }
    destruct (_ <? _); [|done]. cbn [negb]. destruct (JSON_parse _) as [msg|]; [|done].
    destruct (process _ _ _) as [[r1 p]|] eqn:Ep; [|done].
    apply process_spec in Ep as [(cur & thr & b & -> & Hs & Hle & ->)|(-> & n & rc & conf & -> & Hb & Hx)];
      [| |apply Hr].
    + apply Hkeep; [|done]. apply current_spec in Ecur as [_ Hg].
      replace (set_sync cur thr b r) with (set_sync cur thr b (set_seen r.(seen) r)) by (by destruct r).
      eapply advance_ok; try done; [by left|apply Hr].
    + apply Hto. split; [done|]. by intros _.
  - destruct Hph as [Hb Hx]. destruct (verifyReceipt rc) eqn:Ev; [|done]. cbn [negb].
    assert (Hv : verified m.(cfg) rc.(bond) rc) by done.
    assert (Hfin : step_ok m.(cfg) m.(running) m.(evidence) r (finish_event m k j n rc None r)).
    { apply finish_event_ok; try done. by intros x ->%list_elem_of_singleton. }
    assert (Hoth : step_ok m.(cfg) m.(running) m.(evidence) r
      (match receipt_of m.(cfg) conf with
       | Err _ => (to_phase k j PFailed r, m.(evidence))
       | Ok other => (to_phase k j (PVerifyOther n rc other) r, m.(evidence)) end)).
    { destruct (receipt_of _ _) as [o|] eqn:Eo; [|done]. apply Hto. apply receipt_of_bond in Eo.
      exact (conj Hv (conj Eo Hx)). }
    destruct conf as [[]|]; done.
  - destruct Hph as (Hv & Hb & Hx). destruct (verifyReceipt other) eqn:Ev; [|done].
    destruct (String.eqb _ _) eqn:Eb; [|done]. destruct (strict_eqb _ _) eqn:Et; [done|]. cbn [negb orb andb].
    apply finish_event_ok; try done. intros x Hin. cbn in Hin. apply elem_of_cons in Hin as [-> |Hin]; [done|].
    by apply list_elem_of_singleton in Hin as ->.
  - destruct (current m r _) eqn:Ecur; cbn [negb].
    2:{ apply Hkeep; [|done]. eapply drop_job_ok; [done|done|]. by eapply not_current. }
    destruct (_ <? _); [|done]. cbn [negb]. apply Hkeep; [|done]. apply current_spec in Ecur as [_ Hg].
    by apply (finish_job_ok m.(cfg) m.(running) m.(evidence) r k j).
  - apply Hkeep; [|by destruct (current _ _ _)]. destruct (current m r _) eqn:Ecur.
    + by apply (drop_lose_ok m.(cfg) m.(running) m.(evidence) r k).
    + eapply drop_job_ok; [done|done|]. by eapply not_current.
Qed.

(** ** The whole monitor *)
Record monitor_ok (m : monitor) : Prop := {
  m_evidence : evidence_ok m.(cfg) m.(evidence);
  m_relays : forall r, r ∈ m.(relays) -> relay_ok m.(cfg) m.(running) m.(evidence) r }.

(** What never goes back: the configuration stays, evidence and cursors grow. *)
Record monitor_le (m m' : monitor) : Prop := {
  l_cfg : m'.(cfg) = m.(cfg);
  l_evidence : evidence_le m.(evidence) m'.(evidence);
  l_length : length m'.(relays) = length m.(relays);
  l_relays : forall i r, m.(relays) !! i = Some r ->
    exists r', m'.(relays) !! i = Some r' /\ r'.(relay_url) = r.(relay_url) /\ cursor_le r.(cursor) r'.(cursor) }.

#[global] Instance monitor_le_preorder : PreOrder monitor_le.
Proof.
  split.
  - intros m. split; try done. intros i r Hr. by exists r.
  - intros m1 m2 m3 [A1 A2 A3 A4] [B1 B2 B3 B4]. split; [congruence|by etrans|congruence|].
    intros i r Hr. destruct (A4 i r Hr) as (r2 & H2 & U2 & C2), (B4 i r2 H2) as (r3 & H3 & U3 & C3).
    exists r3. split; [done|]. split; [congruence|by etrans].
Qed.

(** One relay is replaced. *)
Lemma replace_ok m i r r1 e1 : monitor_ok m -> m.(relays) !! i = Some r ->
  step_ok m.(cfg) m.(running) m.(evidence) r (r1, e1) -> r1.(relay_url) = r.(relay_url) ->
  let m1 := mkMonitor m.(cfg) m.(running) m.(now) (<[i := r1]> m.(relays)) e1 in
  monitor_ok m1 /\ monitor_le m m1.
Proof.
  intros [He Hrs] Hi (H1 & H2 & H3 & H4) Hu m1. cbn in H1, H2, H3, H4. split; split; cbn; try done.
  - intros x [k Hk]%list_elem_of_lookup_1. apply list_lookup_insert_Some in Hk as [(_ & -> & _)|[_ Hk]]; [done|].
    apply (relay_ok_mono _ _ m.(evidence)); [done|]. by eapply Hrs, list_elem_of_lookup_2.
  - apply length_insert.
  - intros k x Hk. destruct (decide (i = k)) as [<-|Hne].
    + rewrite Hi in Hk. injection Hk as <-. exists r1. split_and!; [|done|done].
      apply list_lookup_insert_eq. by eapply lookup_lt_Some.
    + exists x. by rewrite list_lookup_insert_ne.
Qed.

(** All relays are updated, each by itself. *)
Lemma map_relays_ok m run' (f : nat -> relay -> relay) : monitor_ok m ->
  (forall i r, r ∈ m.(relays) -> relay_ok m.(cfg) run' m.(evidence) (f i r) /\ (f i r).(relay_url) = r.(relay_url) /\
    cursor_le r.(cursor) (f i r).(cursor)) ->
  let m1 := mkMonitor m.(cfg) run' m.(now) (imap f m.(relays)) m.(evidence) in
  monitor_ok m1 /\ monitor_le m m1.
Proof.
  intros [He Hrs] Hf m1. split; split; cbn; try done.
  - intros x [k Hk]%list_elem_of_lookup_1. rewrite list_lookup_imap in Hk. apply fmap_Some in Hk as (r & Hr & ->).
    by eapply Hf, list_elem_of_lookup_2.
  - apply length_imap.
  - intros k r Hk. exists (f k r). rewrite list_lookup_imap, Hk. split; [done|]. by eapply Hf, list_elem_of_lookup_2.
Qed.

Lemma lose_keeps run reason b r : (lose run reason b r).(relay_url) = r.(relay_url) /\
  cursor_le r.(cursor) (lose run reason b r).(cursor).
Proof. by split. Qed.

Lemma connect_keeps m throws r : (connect m throws r).(relay_url) = r.(relay_url) /\
  (connect m throws r).(cursor) = r.(cursor).
Proof. unfold connect. by destruct (running m), throws. Qed.

Lemma map_imap (f : relay -> relay) l : map f l = imap (fun _ => f) l.
Proof. symmetry. apply imap_const. Qed.

Lemma job_step_url m k j r : sync_ok m.(cfg) r -> (job_step m k j r).1.(relay_url) = r.(relay_url).
Proof.
  intros Hs. unfold job_step, start_job, resume_receipt, resume_other, end_job, fail_job, in_time, finish_event.
  destruct (at_phase j); repeat case_match; try done.
  match goal with H : process _ _ _ = Ok _ |- _ => apply process_spec in H as [(? & ? & ? & -> & _)|[-> _]] end; done.
Qed.

Lemma on_relay_ok m i f m1 : monitor_ok m -> on_relay i f m = Some m1 ->
  (forall r r1, m.(relays) !! i = Some r -> f r = Some r1 ->
    relay_ok m.(cfg) m.(running) m.(evidence) r -> relay_ok m.(cfg) m.(running) m.(evidence) r1 /\
    r1.(relay_url) = r.(relay_url) /\ cursor_le r.(cursor) r1.(cursor)) ->
  monitor_ok m1 /\ monitor_le m m1.
Proof.
  intros Hm Ho Hf. unfold on_relay in Ho. destruct (m.(relays) !! i) as [r|] eqn:Ei; [|done]. cbn in Ho.
  destruct (f r) as [r1|] eqn:Er; [|done]. cbn in Ho. injection Ho as <-.
  pose proof (m_relays _ Hm r (list_elem_of_lookup_2 _ _ _ Ei)) as Hr.
  destruct (Hf r r1 eq_refl Er Hr) as (H1 & H2 & H3).
  apply (replace_ok m i r r1 m.(evidence) Hm Ei); [|done]. split; [done|]. split; [apply Hm|]. by split.
Qed.

Lemma handler_ok m i g f m1 : monitor_ok m -> handler m i g f = Some m1 ->
  (forall r, relay_ok m.(cfg) m.(running) m.(evidence) r -> g = r.(generation) -> r.(socket) <> None ->
    relay_ok m.(cfg) m.(running) m.(evidence) (f r) /\ (f r).(relay_url) = r.(relay_url) /\
    cursor_le r.(cursor) (f r).(cursor)) ->
  monitor_ok m1 /\ monitor_le m m1.
Proof.
  intros Hm Hh Hf. eapply on_relay_ok; [done|exact Hh|]. intros r r1 _ Hr Hok. cbv beta in Hr.
  destruct (_ <? _); [by injection Hr as <-|]. destruct (Z.eqb_spec g r.(generation)) as [E|]; [|done].
  case_bool_decide as Es; [done|]. cbn in Hr. destruct (current m r g); injection Hr as <-; [|done]. by apply Hf.
Qed.

Lemma on_message_keeps m g text r : (on_message m g text r).(relay_url) = r.(relay_url) /\
  (on_message m g text r).(cursor) = r.(cursor).
Proof. unfold on_message. by repeat case_match. Qed.

Lemma start_ok m throws : monitor_ok m -> monitor_ok (start throws m) /\ monitor_le m (start throws m).
Proof.
  intros Hm. unfold start. destruct (m.(running)) eqn:Er; [done|].
  apply (map_relays_ok m true (fun i r => connect (mkMonitor m.(cfg) true m.(now) m.(relays) m.(evidence)) (nth i throws false) r) Hm).
  intros i r Hin. destruct (connect_keeps (mkMonitor m.(cfg) true m.(now) m.(relays) m.(evidence)) (nth i throws false) r) as [-> ->].
  split; [|done]. pose proof (m_relays _ Hm r Hin) as [H1 H2 [C1 C2 C3] H4]. rewrite Er in *.
  assert (Hs : r.(socket) = None) by (destruct (r.(socket)); [by discriminate C1|done]).
  apply (connect_ok m.(cfg) (mkMonitor m.(cfg) true m.(now) m.(relays) m.(evidence))); cbn; [|done|].
  - split; [done|done| |done]. split; [done|done|]. intros Hre. by destruct (C3 Hre).
  - destruct (r.(retry)); [by destruct C3|done].
Qed.

Lemma step_invariant l m m1 : monitor_ok m -> step l m = Some m1 -> monitor_ok m1 /\ monitor_le m m1.
Proof.
  intros Hm Hs. destruct l as [throws| |t| |i throws|i g throws|i g|i g|i st|i g text|i k]; cbn [step] in Hs.
  - injection Hs as <-. by apply start_ok.
  - injection Hs as <-. unfold stop. cbn [relays]. rewrite (map_imap _ m.(relays)).
    apply (map_relays_ok m false (fun _ => lose false "stopped" false) Hm). intros i r Hin. split; [|apply lose_keeps].
    eapply lose_ok. by apply Hm.
  - injection Hs as <-. destruct Hm as [He Hrs]. split; [by split|]. split; try done. intros i r Hr. by exists r.
  - injection Hs as <-. unfold checkStaleness. rewrite (map_imap _ m.(relays)). apply (map_relays_ok m m.(running) _ Hm).
    intros i r Hin. pose proof (m_relays _ Hm r Hin) as Hr. destruct (r.(socket)); [|done].
    destruct (stale m r); [|done]. split; [by eapply lose_ok|apply lose_keeps].
  - eapply on_relay_ok; [done|exact Hs|]. intros r r1 _ Hr Hok. cbv beta in Hr. destruct (r.(retry)) eqn:Er; [|done].
    injection Hr as <-. destruct (connect_keeps m throws (mkRelay r.(relay_url) r.(cursor) r.(through) r.(caughtUp)
      r.(lastMessage) r.(opened) r.(generation) r.(pending) r.(jobs) r.(socket) false r.(error) r.(seen) r.(sent)))
      as [-> ->]. split; [|done]. apply connect_ok; [by apply cosmetic_ok| |done]. by apply (c_retry _ _ (r_conn _ _ _ _ Hok)).
  - eapply handler_ok; [done|exact Hs|]. intros r Hr _ _. split; [by apply on_open_ok|]. unfold on_open. by destruct throws.
  - eapply handler_ok; [done|exact Hs|]. intros r Hr _ _. split; [by eapply lose_ok|apply lose_keeps].
  - eapply handler_ok; [done|exact Hs|]. intros r Hr _ _. split; [by eapply lose_ok|apply lose_keeps].
  - eapply on_relay_ok; [done|exact Hs|]. intros r r1 _ Hr Hok. cbv beta in Hr.
    destruct (r.(socket)) eqn:Es; [|done]. injection Hr as <-. split; [|done].
    pose proof (r_conn _ _ _ _ Hok) as [C1 C2 C3]. rewrite C1 in * by (by rewrite Es).
    apply set_socket_ok; [done|]. destruct (r.(retry)); [|done]. rewrite Es in C3. by destruct C3.
  - eapply handler_ok; [done|exact Hs|]. intros r Hr -> Hso. destruct (on_message_keeps m r.(generation) text r) as [-> ->].
    split; [by apply on_message_ok|done].
  - destruct (m.(relays) !! i) as [r|] eqn:Ei; [|done]. destruct (r.(jobs) !! k) as [j|] eqn:Ej; [|done].
    destruct (first_of_chain _ _ _) eqn:Ef; [|done].
    pose proof (m_relays _ Hm r (list_elem_of_lookup_2 _ _ _ Ei)) as Hr.
    pose proof (job_step_ok m k j r Hr (m_evidence _ Hm) Ej Ef) as Hj.
    pose proof (job_step_url m k j r (r_sync _ _ _ _ Hr)) as Hu.
    destruct (job_step m k j r) as [r1 e1]. injection Hs as <-. by apply replace_ok with (r := r).
Qed.

Lemma run_app ls ls' m : run (ls ++ ls') m = (m1 ← run ls m; run ls' m1).
Proof. revert m. induction ls as [|l ls IH]; intros m; [done|]. cbn [run app]. by destruct (step l m). Qed.

Lemma run_invariant ls m m1 : monitor_ok m -> run ls m = Some m1 -> monitor_ok m1 /\ monitor_le m m1.
Proof.
  revert m. induction ls as [|l ls IH]; intros m Hm Hr; cbn [run] in Hr; [by injection Hr as <-|].
  destruct (step l m) as [m2|] eqn:Es; [|done]. destruct (step_invariant _ _ _ Hm Es) as [H2 L2].
  destruct (IH _ H2 Hr) as [H1 L1]. split; [done|]. by etrans.
Qed.
End invariant.
