(* ===== verification/Relay.v ===== *)
(** * The evidence relay (src/contrib/devtools/preconf-user-bond/src, Rust)

    The profile, the journalled store of signed promises and the cursor tracker
    of relay/mod.rs, the receipt check of operator.rs, and the hub and
    subscriptions of relay/server.rs as a system of one store and its
    subscribers.  Schnorr verification, the Simplicity compiler's scripts and
    serde's JSON text are arguments; a lock makes each operation on the store
    one step. *)

From S2P Require Import Prelude Sha256 Transaction Js.
From stdpp Require Import pretty.

#[local] Open Scope Z_scope.

(** ** Texts *)
Definition hex_digit (d : Z) : Ascii.ascii := Ascii.ascii_of_N (Z.to_N (if d <? 10 then 48 + d else 87 + d)).

Fixpoint hex_encode (l : bytes) : string :=
  match l with
  | [] => EmptyString
  | b :: t => String (hex_digit (b / 16)) (String (hex_digit (b mod 16)) (hex_encode t))
  end.

(** [Display] of a transaction id, and the wire form of an outpoint. *)
Definition txid_text (h : uint256) : string := hex_encode (uint256_display h).
Definition outpoint_text (o : COutPoint) : string := txid_text o.(hash) +:+ ":" +:+ pretty o.(n).

(** ** Receipts (operator.rs) *)
Record Config := mkConfig {
  genesis : uint256; fee_asset : uint256; preconfer : bytes; protected_output : COutPoint;
  epoch : Z; collateral : Z; active_until : Z; refund_height : Z }.

Record Bond := mkBond { bond_config : Config; script : bytes }.

Record Receipt := mkReceipt { rbond : COutPoint; rtxid : uint256; rsignature : bytes }.

(** b"ECX/PreconfOperatorBond/Promise/v1" *)
Definition DOMAIN : bytes :=
  [69; 67; 88; 47; 80; 114; 101; 99; 111; 110; 102; 79; 112; 101; 114; 97; 116; 111; 114; 66; 111; 110; 100; 47;
   80; 114; 111; 109; 105; 115; 101; 47; 118; 49].

Definition is_null (o : COutPoint) : bool := (o.(hash) =? 0) && (o.(n) =? UINT32_MAX).

Definition digest_parts (b : Bond) (collateral : COutPoint) (spend : uint256) : list bytes :=
  let c := b.(bond_config) in
  [sha256 DOMAIN; uint256_bytes c.(genesis); uint256_bytes collateral.(hash); be_encode 4 collateral.(n);
   sha256 b.(script); uint256_bytes c.(protected_output).(hash); be_encode 4 c.(protected_output).(n);
   be_encode 8 c.(epoch); be_encode 4 c.(active_until); be_encode 4 c.(refund_height); uint256_bytes spend].

Definition digest (b : Bond) (collateral : COutPoint) (spend : uint256) : bytes :=
  sha256 (concat (digest_parts b collateral spend)).

(** ** Profile *)
Record ValidatedProfile := mkProfile { id : string; bonds : gmap COutPoint Bond }.

(** ** Messages *)
Record Event := mkEvent { seq : Z; receipt : Receipt; conflict_with : option Receipt }.
Record Cursor := mkCursor { stream : string; cseq : Z }.
Record Header := mkHeader { version : Z; hprofile : string; hstream : string }.

#[global] Instance Receipt_eq_dec : EqDecision Receipt.
Proof. solve_decision. Defined.
#[global] Instance Event_eq_dec : EqDecision Event.
Proof. solve_decision. Defined.
#[global] Instance Cursor_eq_dec : EqDecision Cursor.
Proof. solve_decision. Defined.

Inductive ServerMessage :=
| Begin (profile : string) (stream : string) (from through : Z)
| EventMessage (event : Event)
| CaughtUp (cursor : Cursor)
| Heartbeat (cursor : Cursor)
| Published (seq : Z) (status : string)
| ErrorMessage (reason : string).

Class RelayEnv := {
  (** Signature, digest and public key; false also for a malformed signature. *)
  verify_schnorr : bytes -> bytes -> bytes -> bool;
  event_to_vec : Event -> bytes;
  event_from_slice : bytes -> option Event;
  header_to_vec : Header -> bytes;
  header_from_slice : bytes -> option Header }.

Definition MAX_SESSIONS : Z := 128.
Definition MAX_FRAME : Z := 4096.
Definition MAX_JOURNAL : Z := 1024 * 1024.
Definition NEWLINE : Z := 10.

(** The journal file holds bytes; [failed] is set by a write that did not
    reach the disk. *)
Record Store := mkStore {
  profile : ValidatedProfile; store_stream : string; events : list Event; journal : bytes; failed : bool }.

(** [hex::decode(s).is_ok()] for a string of even length. *)
Definition is_hex (s : string) : bool :=
  forallb (fun c => is_lower_hex c || in_range 65 70 c) (String.list_ascii_of_string s).
Definition valid_stream (s : string) : bool := (String.length s =? 64)%nat && is_hex s.

Section relay.
Context {Env : RelayEnv}.

Definition Bond_verify (b : Bond) (r : Receipt) : result unit :=
  ensure (negb (is_null r.(rbond) || bool_decide (r.(rbond) = b.(bond_config).(protected_output))))
    "bond must be separate from principal";;
  ensure (verify_schnorr r.(rsignature) (digest b r.(rbond) r.(rtxid)) b.(bond_config).(preconfer))
    "invalid preconfer promise".

Definition verify (p : ValidatedProfile) (r : Receipt) : result unit :=
  match p.(bonds) !! r.(rbond) with
  | None => Err "unknown bond/session"
  | Some b => Bond_verify b r
  end.

(** ** The store *)
Definition head (s : Store) : Z := len s.(events).

Definition replay (s : Store) (cursor : option Cursor) : result (list Event) :=
  ensure (negb s.(failed)) "journal unavailable";;
  match cursor with
  | Some c =>
      ensure (negb (negb (String.eqb c.(stream) s.(store_stream)) || (head s <? c.(cseq))))
        "cursor gap or stream changed; full revalidation required";;
      Ok (drop (Z.to_nat c.(cseq)) s.(events))
  | None => Ok s.(events)
  end.

Definition prepare (s : Store) (r : Receipt) : result (option Event * (string * Z)) :=
  ensure (negb s.(failed)) "journal unavailable";;
  _ ← verify s.(profile) r;
  let previous := filter (fun e => e.(receipt).(rbond) = r.(rbond)) s.(events) in
  match list_find (fun e => e.(receipt).(rtxid) = r.(rtxid)) previous with
  | Some (_, duplicate) => Ok (None, ("duplicate", duplicate.(seq)))
  | None =>
      match previous with
      | [_; second] => Ok (None, ("already_conflicted", second.(seq)))
      | _ =>
          let event := mkEvent (head s + 1) r (receipt <$> List.hd_error previous) in
          Ok (Some event, ("stored", event.(seq)))
      end
  end.

(** How writing a line ends: all of it on disk, or an error after [n] bytes. *)
Inductive io := IoOk | IoError (n : nat).

Definition append (file : bytes) (line : bytes) (o : io) : result unit * bytes :=
  if MAX_FRAME <? len line then (Err "oversized journal record", file)
  else match o with
       | IoOk => (Ok tt, file ++ line ++ [NEWLINE])
       | IoError n => (Err "journal write failed; monitoring disabled", file ++ take n (line ++ [NEWLINE]))
       end.

Definition publish (s : Store) (r : Receipt) (o : io) : result (option Event * (string * Z)) * Store :=
  match prepare s r with
  | Err e => (Err e, s)
  | Ok (None, status) => (Ok (None, status), s)
  | Ok (Some event, status) =>
      match append s.(journal) (event_to_vec event) o with
      | (Err e, file) => (Err e, mkStore s.(profile) s.(store_stream) s.(events) file true)
      | (Ok _, file) =>
          (Ok (Some event, status),
           mkStore s.(profile) s.(store_stream) (s.(events) ++ [event]) file s.(failed))
      end
  end.

(** [bytes.split(|b| b == '\n')]. *)
Fixpoint split_lines (l : bytes) : list bytes :=
  match l with
  | [] => [[]]
  | b :: t =>
      if b =? NEWLINE then [] :: split_lines t
      else match split_lines t with
           | h :: rest => (b :: h) :: rest
           | [] => [[b]]
           end
  end.

Definition read_record (line : bytes) : result Event :=
  ensure (negb (bytes_eqb line [])) "empty journal record";;
  ensure (negb (MAX_FRAME <? len line)) "oversized journal record";;
  match event_from_slice line with None => Err "bad journal event" | Some e => Ok e end.

Fixpoint read_records (lines : list bytes) : result (list Event) :=
  match lines with
  | [] => Ok []
  | l :: t => e ← read_record l; es ← read_records t; Ok (e :: es)
  end.

(** A record is accepted back if it is what [prepare] would have stored. *)
Definition recover (s : Store) (record : Event) : result Store :=
  '(expected, _) ← prepare s record.(receipt);
  ensure (bool_decide (expected = Some record)) "noncanonical or duplicate journal event";;
  Ok (mkStore s.(profile) s.(store_stream) (s.(events) ++ [record]) s.(journal) s.(failed)).

(** [file] is the content of the locked regular file, [fresh] the random
    stream ID for an empty one and [o] how writing its header ends. *)
Definition open (p : ValidatedProfile) (file : bytes) (fresh : bytes) (o : io) : result Store * bytes :=
  if MAX_JOURNAL <? len file then (Err "oversized journal", file)
  else
    let finish (h : Header) (records : list Event) (file : bytes) : result Store :=
      ensure (negb (negb (h.(version) =? 1) || negb (String.eqb h.(hprofile) p.(id)) ||
                    negb (valid_stream h.(hstream)))) "journal/profile mismatch";;
      foldM recover (mkStore p h.(hstream) [] file false) records in
    match file with
    | [] =>
        let h := mkHeader 1 p.(id) (hex_encode fresh) in
        match append [] (header_to_vec h) o with
        | (Err e, file') => (Err e, file')
        | (Ok _, file') => (finish h [] file', file')
        end
    | _ =>
        if negb (List.last file 0 =? NEWLINE) then
          (Err "torn journal: preserve it and restore from verified evidence", file)
        else
          match split_lines (removelast file) with
          | [] => (Err "missing journal header", file)
          | first :: lines =>
              match header_from_slice first with
              | None => (Err "bad journal header", file)
              | Some h => (records ← read_records lines; finish h records file, file)
              end
          end
    end.

(** ** The tracker *)
Record Tracker := mkTracker { cursor : option Cursor; caught_up : bool; through : option Z }.
Definition Tracker_default : Tracker := mkTracker None false None.
Definition disconnected (t : Tracker) : Tracker := mkTracker t.(cursor) false None.

Definition process_inner (t : Tracker) (m : ServerMessage) (p : ValidatedProfile) : result (Tracker * option Receipt) :=
  let max_events := Z.of_nat (size p.(bonds)) * 2 in
  match m with
  | Begin profile stream_ from through_ =>
      ensure (negb (bool_decide (t.(through) <> None) || negb (String.eqb profile p.(id)) || (through_ <? from) ||
                    (max_events <? through_) || negb (valid_stream stream_))) "invalid synchronization header";;
      match t.(cursor) with
      | Some c => ensure (negb (negb (String.eqb c.(stream) stream_) || negb (c.(cseq) =? from))) "stream/cursor gap"
      | None => ensure (negb (negb (from =? 0))) "snapshot must start at zero"
      end;;
      Ok (mkTracker (Some (mkCursor stream_ from)) false (Some through_), None)
  | EventMessage event =>
      match t.(cursor) with
      | None => Err "event before begin"
      | Some c =>
          match t.(through) with
          | None => Err "event sequence gap"
          | Some thr =>
              ensure (negb (negb (event.(seq) =? c.(cseq) + 1) || (max_events <? event.(seq)) ||
                            (negb t.(caught_up) && (thr <? event.(seq))))) "event sequence gap";;
              _ ← verify p event.(receipt);
              match event.(conflict_with) with
              | None => Ok tt
              | Some other =>
                  _ ← verify p other;
                  ensure (negb (negb (bool_decide (other.(rbond) = event.(receipt).(rbond))) ||
                                bool_decide (other.(rtxid) = event.(receipt).(rtxid)))) "invalid conflict evidence"
              end;;
              Ok (mkTracker (Some (mkCursor c.(stream) event.(seq))) t.(caught_up) t.(through), Some event.(receipt))
          end
      end
  | CaughtUp c =>
      ensure (negb (t.(caught_up) || negb (bool_decide (t.(cursor) = Some c)) ||
                    negb (bool_decide (t.(through) = Some c.(cseq))))) "incomplete replay";;
      Ok (mkTracker t.(cursor) true t.(through), None)
  | Heartbeat c =>
      ensure (negb (negb t.(caught_up) || negb (bool_decide (t.(cursor) = Some c)))) "heartbeat gap";;
      Ok (t, None)
  | Published _ _ => Ok (t, None)
  | ErrorMessage _ => Err "relay reported unavailable/gap"
  end.

Definition process (t : Tracker) (m : ServerMessage) (p : ValidatedProfile) : Tracker * result (option Receipt) :=
  match process_inner t m p with
  | Ok (t', r) => (t', Ok r)
  | Err e => (disconnected t, Err e)
  end.

(** ** Subscriptions (server.rs) *)
(** One subscription: the cursor it was opened with, the last cursor sent, the
    changes the broadcast channel holds for it ([None] for a failed journal),
    the messages written to its socket, and whether it ended. *)
Record Subscription := mkSub {
  requested : option Cursor; sent : Cursor; changes : list (option Event); out : list ServerMessage; closed : bool }.

Record Hub := mkHub { store : Store; subs : list Subscription }.

Definition CHANNEL : Z := MAX_SESSIONS * 2.

(** The subscription up to its loop. *)
Definition subscribe (s : Store) (profile_ : string) (cursor_ : option Cursor) : result Subscription :=
  evs ← replay s cursor_;
  ensure (String.eqb profile_ s.(profile).(id)) "profile mismatch";;
  let c := mkCursor s.(store_stream) (head s) in
  Ok (mkSub cursor_ c []
        (Begin profile_ s.(store_stream) (match cursor_ with Some c => c.(cseq) | None => 0 end) (head s)
           :: map EventMessage evs ++ [CaughtUp c]) false).

Definition fail (reason : string) (b : Subscription) : Subscription :=
  mkSub b.(requested) b.(sent) b.(changes) (b.(out) ++ [ErrorMessage reason]) true.

Definition push (change : option Event) (b : Subscription) : Subscription :=
  mkSub b.(requested) b.(sent) (b.(changes) ++ [change]) b.(out) b.(closed).

Definition reply (m : ServerMessage) (b : Subscription) : Subscription :=
  mkSub b.(requested) b.(sent) b.(changes) (b.(out) ++ [m]) b.(closed).

(** The branch of the loop that receives a change. *)
Definition deliver (b : Subscription) : option Subscription :=
  match b.(changes) with
  | [] => None
  | change :: rest =>
      let b1 := mkSub b.(requested) b.(sent) rest b.(out) b.(closed) in
      Some (if CHANNEL <? len b.(changes) then fail "live stream gap; reconnect with cursor" b1
            else match change with
                 | None => fail "journal unavailable" b1
                 | Some event =>
                     if negb (event.(seq) =? b.(sent).(cseq) + 1) then fail "live stream gap" b1
                     else mkSub b.(requested) (mkCursor b.(sent).(stream) event.(seq)) rest
                            (b.(out) ++ [EventMessage event]) b.(closed)
                 end)
  end.

(** Publishing, alone ([None]) or by subscriber [i]; a new subscription; a
    change or a heartbeat written to subscriber [i]; the end of its socket. *)
Inductive hub_label :=
| HPublish (by_ : option nat) (r : Receipt) (o : io)
| HSubscribe (profile_ : string) (cursor_ : option Cursor)
| HDeliver (i : nat)
| HHeartbeat (i : nat)
| HClose (i : nat).

Definition open_sub (h : Hub) (i : nat) : option Subscription :=
  match h.(subs) !! i with Some b => if b.(closed) then None else Some b | None => None end.

(** Hub::publish: the change is sent to every receiver inside the lock. *)
Definition hub_publish (h : Hub) (r : Receipt) (o : io) : result ServerMessage * Hub :=
  match publish h.(store) r o with
  | (Ok (event, (status, n)), s) =>
      (Ok (Published n status),
       mkHub s (match event with Some e => map (push (Some e)) h.(subs) | None => h.(subs) end))
  | (Err e, s) => (Err e, mkHub s (if s.(failed) then map (push None) h.(subs) else h.(subs)))
  end.

Definition hub_step (l : hub_label) (h : Hub) : option Hub :=
  match l with
  | HPublish None r o => Some (hub_publish h r o).2
  | HPublish (Some i) r o =>
      _ ← open_sub h i;
      let '(res, h1) := hub_publish h r o in
      Some (mkHub h1.(store) (alter (match res with Ok m => reply m | Err e => fail e end) i h1.(subs)))
  | HSubscribe profile_ cursor_ =>
      match subscribe h.(store) profile_ cursor_ with
      | Ok b => Some (mkHub h.(store) (h.(subs) ++ [b]))
      | Err e => Some (mkHub h.(store) (h.(subs) ++ [mkSub cursor_ (mkCursor EmptyString 0) [] [ErrorMessage e] true]))
      end
  | HDeliver i => b ← open_sub h i; b1 ← deliver b; Some (mkHub h.(store) (<[i := b1]> h.(subs)))
  | HHeartbeat i =>
      b ← open_sub h i;
      Some (mkHub h.(store)
        (<[i := if h.(store).(failed) then fail "journal unavailable" b else reply (Heartbeat b.(sent)) b]> h.(subs)))
  | HClose i =>
      b ← open_sub h i;
      Some (mkHub h.(store) (<[i := mkSub b.(requested) b.(sent) b.(changes) b.(out) true]> h.(subs)))
  end.

Fixpoint hub_run (ls : list hub_label) (h : Hub) : option Hub :=
  match ls with
  | [] => Some h
  | l :: t => match hub_step l h with Some h1 => hub_run t h1 | None => None end
  end.

(** What the tracker makes of a sequence of messages. *)
Definition track (p : ValidatedProfile) (t : Tracker) (ms : list ServerMessage) : result Tracker :=
  foldM (fun t m => '(t', _) ← process_inner t m p; Ok t') t ms.
End relay.
