(* ===== verification/RelayFacts.v ===== *)
(** * The relay's journal and subscriptions

    A store only ever holds events that its own [prepare] would have stored, in
    order; from that follow the bounds, the recovery of the journal after a
    restart, and what subscribers are sent. *)

From S2P Require Import Prelude Sha256 Transaction Js Relay.

(** What is used of serde's JSON: it reads back what it wrote, on one line. *)
Class SerdeLaws (Env : RelayEnv) : Prop := {
  event_roundtrip e : event_from_slice (event_to_vec e) = Some e;
  header_roundtrip h : header_from_slice (header_to_vec h) = Some h;
  event_line e : event_to_vec e <> [] /\ NEWLINE ∉ event_to_vec e;
  header_line h : header_to_vec h <> [] /\ NEWLINE ∉ header_to_vec h }.

Section facts.
Context {Env : RelayEnv}.

(** ** Canonical event lists *)
Definition bare (p : ValidatedProfile) (evs : list Event) : Store := mkStore p EmptyString evs [] false.

(** Each event is what [prepare] answers on the events before it. *)
Definition canonical (p : ValidatedProfile) (evs : list Event) : Prop :=
  forall i e, evs !! i = Some e ->
    prepare (bare p (take i evs)) e.(receipt) = Ok (Some e, ("stored", e.(seq))).

Definition of_bond (b : COutPoint) (evs : list Event) : list Event := filter (fun e => e.(receipt).(rbond) = b) evs.

Lemma prepare_bare s r : s.(failed) = false -> prepare s r = prepare (bare s.(profile) s.(events)) r.
Proof. intros Hf. unfold prepare. by rewrite Hf. Qed.

Lemma prepare_inv p evs r e st : prepare (bare p evs) r = Ok (Some e, st) ->
  verify p r = Ok tt /\ e = mkEvent (len evs + 1) r (receipt <$> List.hd_error (of_bond r.(rbond) evs)) /\
  st = ("stored", len evs + 1) /\
  length (of_bond r.(rbond) evs) <> 2%nat /\
  (forall e', e' ∈ of_bond r.(rbond) evs -> e'.(receipt).(rtxid) <> r.(rtxid)).
Proof.
  intros H. unfold prepare in H. cbn [failed bare negb ensure mbind result_bind] in H.
  destruct (verify p r) as [[]|] eqn:Ev; cbn [profile bare] in H; rewrite Ev in H; [|done].
  cbn [mbind result_bind events bare] in H. fold (of_bond r.(rbond) evs) in H.
  destruct (list_find _ _) as [[k d]|] eqn:El; [done|]. apply list_find_None in El. rewrite list.Forall_forall in El.
  destruct (of_bond (rbond r) evs) as [|e1 [|e2 [|e3 t]]] eqn:Eb; simplify_eq;
    (split_and!; [done|done|done|cbn; lia|exact El]).
Qed.

Lemma prepare_stored p evs r : verify p r = Ok tt -> (length (of_bond r.(rbond) evs) < 2)%nat ->
  (forall e', e' ∈ of_bond r.(rbond) evs -> e'.(receipt).(rtxid) <> r.(rtxid)) ->
  let e := mkEvent (len evs + 1) r (receipt <$> List.hd_error (of_bond r.(rbond) evs)) in
  prepare (bare p evs) r = Ok (Some e, ("stored", len evs + 1)).
Proof.
  intros Hv Hl Hd e. unfold prepare. cbn [failed bare negb ensure mbind result_bind profile events].
  rewrite Hv. cbn [mbind result_bind]. fold (of_bond r.(rbond) evs).
  destruct (list_find _ _) as [[k d]|] eqn:El.
  { apply list_find_Some in El as (Hk & Hx & _). apply list_elem_of_lookup_2 in Hk. by apply Hd in Hk. }
  unfold e. by destruct (of_bond (rbond r) evs) as [|e1 [|e2 t]]; [| |cbn in Hl; lia].
Qed.

Lemma canonical_app p evs e : canonical p (evs ++ [e]) <->
  canonical p evs /\ prepare (bare p evs) e.(receipt) = Ok (Some e, ("stored", e.(seq))).
Proof.
  split.
  - intros Hc. split.
    + intros i x Hi. pose proof (lookup_lt_Some _ _ _ Hi) as Hlt. rewrite <- (take_app_le _ [e]) by lia.
      apply Hc. by rewrite lookup_app_l.
    + specialize (Hc (length evs) e). rewrite take_app_length in Hc. apply Hc. apply list_lookup_middle. done.
  - intros [Hc Hp] i x [Hi|[Hge Hi]]%lookup_app_Some.
    + pose proof (lookup_lt_Some _ _ _ Hi) as Hlt. rewrite take_app_le by lia. by apply Hc.
    + apply list_lookup_singleton_Some in Hi as [Hi0 <-]. replace i with (length evs) by lia.
      by rewrite take_app_length.
Qed.

Lemma canonical_ind p (P : list Event -> Prop) : P [] ->
  (forall evs e, canonical p evs -> P evs -> prepare (bare p evs) e.(receipt) = Ok (Some e, ("stored", e.(seq))) ->
    P (evs ++ [e])) ->
  forall evs, canonical p evs -> P evs.
Proof.
  intros H0 HS evs. induction evs as [|e evs IH] using rev_ind; intros Hc; [done|].
  apply canonical_app in Hc as [Hc Hp]. by apply HS; [| apply IH|].
Qed.

Lemma of_bond_app b evs e : of_bond b (evs ++ [e]) =
  of_bond b evs ++ (if decide (e.(receipt).(rbond) = b) then [e] else []).
Proof. unfold of_bond. by rewrite list.filter_app. Qed.

(** Two events per bond, the second in conflict with the first. *)
Lemma canonical_per_bond p evs b : canonical p evs ->
  match of_bond b evs with
  | [] => True
  | [e1] => e1.(conflict_with) = None
  | [e1; e2] => e1.(conflict_with) = None /\ e2.(conflict_with) = Some e1.(receipt) /\
      e2.(receipt).(rtxid) <> e1.(receipt).(rtxid)
  | _ => False
  end.
Proof.
  revert evs. apply canonical_ind; [done|]. intros evs e Hc IH Hp. rewrite of_bond_app.
  apply prepare_inv in Hp as (_ & He & _ & Hl & Hd). case_decide as E; [|by rewrite app_nil_r].
  rewrite E in *. apply (f_equal conflict_with) in He. cbn in He.
  destruct (of_bond b evs) as [|e1 [|e2 [|e3 t]]] eqn:Eb; cbn in *; [done| |done|done].
  split_and!; [done|done|]. apply not_eq_sym, Hd. left.
Qed.

Lemma canonical_seq p evs i e : canonical p evs -> evs !! i = Some e -> e.(seq) = Z.of_nat i + 1.
Proof.
  intros Hc Hi. pose proof (lookup_lt_Some _ _ _ Hi). apply Hc in Hi. apply prepare_inv in Hi as (_ & -> & _).
  cbn. unfold len. rewrite length_take. lia.
Qed.

Lemma canonical_verified p evs e : canonical p evs -> e ∈ evs -> verify p e.(receipt) = Ok tt /\
  forall other, e.(conflict_with) = Some other -> verify p other = Ok tt /\
    other.(rbond) = e.(receipt).(rbond) /\ other.(rtxid) <> e.(receipt).(rtxid).
Proof.
  intros Hc [i Hi]%list_elem_of_lookup_1. pose proof (Hc _ _ Hi) as Hp. apply prepare_inv in Hp as (Hv & He & _ & _ & Hd).
  split; [done|]. intros other Ho. rewrite He in Ho. cbn in Ho.
  destruct (of_bond _ _) as [|e1 t] eqn:Eb; [done|]. injection Ho as <-.
  assert (Hin : e1 ∈ of_bond e.(receipt).(rbond) (take i evs)) by (rewrite Eb; left).
  split; [|split; [|apply Hd; rewrite <- Eb; done]].
  - apply list_elem_of_filter in Hin as [_ [k Hk]%list_elem_of_lookup_1].
    apply lookup_take_Some in Hk as [Hk _]. apply Hc in Hk. by apply prepare_inv in Hk as [Hk _].
  - by apply list_elem_of_filter in Hin as [Hb _].
Qed.

(** Every bond of the profile has at most two events, so the journal is bounded. *)
Lemma count_bound {A} `{!EqDecision A} (xs l : list A) : (forall y, y ∈ l -> y ∈ xs) ->
  (forall x, (length (filter (fun y => y = x) l) <= 2)%nat) -> (length l <= 2 * length xs)%nat.
Proof.
  revert l. induction xs as [|x xs IH]; intros l Hin Hc.
  - destruct l as [|y l]; [done|]. exfalso. apply (not_elem_of_nil y), Hin. left.
  - pose proof (Hc x) as Hx. assert (Hsplit : (length l = length (filter (fun y => y = x) l) + length (filter (fun y => y <> x) l))%nat).
    { clear. induction l as [|y l IH]; [done|]. rewrite !filter_cons. cbn [length]. rewrite IH.
      destruct (decide (y = x)); [rewrite decide_False by tauto|rewrite decide_True by done]; cbn; lia. }
    assert (Hr : (length (filter (fun y => y <> x) l) <= 2 * length xs)%nat); [|cbn; lia].
    apply IH.
    + intros y [Hy Hl]%list_elem_of_filter. apply Hin in Hl. by apply elem_of_cons in Hl as [?|?].
    + intros z. etrans; [|apply (Hc z)]. apply submseteq_length, sublist_submseteq.
      clear. induction l as [|y l IH]; [done|]. rewrite !filter_cons. destruct (decide (y <> x)), (decide (y = z));
        rewrite ?filter_cons; repeat case_decide; try done; by constructor.
Qed.

Lemma filter_bonds b evs : length (filter (fun o => o = b) ((fun e => e.(receipt).(rbond)) <$> evs)) = length (of_bond b evs).
Proof.
  unfold of_bond. induction evs as [|e evs IH]; [done|]. rewrite fmap_cons, !filter_cons.
  case_decide; cbn; by rewrite IH.
Qed.

Lemma canonical_bound p evs : canonical p evs -> len evs <= Z.of_nat (size p.(bonds)) * 2.
Proof.
  intros Hc. unfold len. rewrite <- (length_fmap (fun e => e.(receipt).(rbond)) evs).
  enough (Hle : (length ((fun e => e.(receipt).(rbond)) <$> evs) <= 2 * length (elements (dom p.(bonds))))%nat).
  { change (length (elements (dom (bonds p)))) with (size (dom (bonds p))) in Hle. rewrite size_dom in Hle. lia. }
  apply count_bound.
  - intros y (e & -> & He)%list_elem_of_fmap. apply elem_of_elements, elem_of_dom.
    destruct (canonical_verified p evs e Hc He) as [Hv _]. unfold verify in Hv.
    destruct (bonds p !! rbond (receipt e)); [by eexists|done].
  - intros b. rewrite filter_bonds. pose proof (canonical_per_bond p evs b Hc) as Hb.
    destruct (of_bond b evs) as [|e1 [|e2 [|e3 t]]]; cbn; [lia|lia|lia|done].
Qed.

(** ** The journal file *)
Definition file_of (lines : list bytes) : bytes := concat (map (fun l => l ++ [NEWLINE]) lines).

Lemma split_line l t : NEWLINE ∉ l -> split_lines (l ++ NEWLINE :: t) = l :: split_lines t.
Proof.
  induction l as [|b l IH]; intros Hn; [done|]. apply not_elem_of_cons in Hn as [Hb Hl].
  cbn [split_lines app]. rewrite IH by done. destruct (Z.eqb_spec b NEWLINE); [by subst|done].
Qed.

Lemma split_last l : NEWLINE ∉ l -> split_lines l = [l].
Proof.
  induction l as [|b l IH]; intros Hn; [done|]. apply not_elem_of_cons in Hn as [Hb Hl].
  cbn [split_lines]. rewrite IH by done. destruct (Z.eqb_spec b NEWLINE); [by subst|done].
Qed.

Lemma file_of_app ls l : file_of (ls ++ [l]) = file_of ls ++ l ++ [NEWLINE].
Proof. unfold file_of. rewrite map_app, concat_app. cbn. by rewrite app_nil_r. Qed.

Lemma split_file l ls : Forall (fun l => NEWLINE ∉ l) (l :: ls) ->
  List.last (file_of (l :: ls)) 0 = NEWLINE /\ split_lines (removelast (file_of (l :: ls))) = l :: ls.
Proof.
  intros Hf. destruct (exists_last (l := l :: ls)) as (ls' & x & E); [done|]. rewrite E in *.
  rewrite file_of_app, app_assoc, removelast_last. split; [apply List.last_last|].
  clear E l ls. induction ls' as [|y ls' IH]; inversion_clear Hf as [|? ? Hy Hf'].
  - by apply split_last.
  - change (file_of (y :: ls')) with ((y ++ [NEWLINE]) ++ file_of ls').
    rewrite <- !app_assoc. cbn [app]. rewrite split_line by done. by rewrite IH.
Qed.

Definition journal_lines (h : Header) (evs : list Event) : list bytes := header_to_vec h :: map event_to_vec evs.

Definition header_ok (p : ValidatedProfile) (h : Header) : Prop :=
  h.(version) = 1 /\ h.(hprofile) = p.(id) /\ valid_stream h.(hstream) = true.

(** A store and its file; after a failed write, part of one more line may be
    on disk. *)
Record store_ok (h : Header) (s : Store) : Prop := {
  so_header : header_ok s.(profile) h;
  so_stream : s.(store_stream) = h.(hstream);
  so_canonical : canonical s.(profile) s.(events);
  so_lines : forall e, e ∈ s.(events) -> len (event_to_vec e) <= MAX_FRAME;
  so_file : if s.(failed)
            then exists e n, s.(journal) = file_of (journal_lines h s.(events)) ++ take n (event_to_vec e ++ [NEWLINE]) /\
                   (n <> 0%nat -> len (event_to_vec e) <= MAX_FRAME) /\ canonical s.(profile) (s.(events) ++ [e])
            else s.(journal) = file_of (journal_lines h s.(events)) }.

Lemma journal_lines_app h evs e : file_of (journal_lines h (evs ++ [e])) =
  file_of (journal_lines h evs) ++ event_to_vec e ++ [NEWLINE].
Proof.
  unfold journal_lines. rewrite map_app. exact (file_of_app (header_to_vec h :: map event_to_vec evs) (event_to_vec e)).
Qed.

Lemma publish_ok h s r o : store_ok h s -> store_ok h (publish s r o).2.
Proof.
  intros Hs. unfold publish. destruct (prepare s r) as [[[e|] st]|] eqn:Ep; [|done|done].
  destruct Hs as [H1 H2 H3 H4 H5]. assert (Hf : s.(failed) = false).
  { unfold prepare in Ep. by destruct (s.(failed)). }
  rewrite Hf in H5. rewrite prepare_bare in Ep by done.
  assert (Hc : canonical s.(profile) (s.(events) ++ [e])).
  { apply canonical_app. split; [done|]. pose proof Ep as Ep'. apply prepare_inv in Ep' as (_ & -> & -> & _). exact Ep. }
  unfold append. destruct (Z.ltb_spec MAX_FRAME (len (event_to_vec e))) as [Hlen|Hlen]; cbn [snd].
  - split; cbn; try done. exists e, 0%nat. by rewrite app_nil_r.
  - destruct o as [|n]; cbn [snd].
    + split; cbn [failed journal events profile store_stream]; try done.
      * intros x [Hx| ->%list_elem_of_singleton]%elem_of_app; [by apply H4|done].
      * by rewrite Hf, journal_lines_app, H5.
    + split; cbn; try done. exists e, n. by rewrite H5.
Qed.

Context {Laws : SerdeLaws Env}.

Lemma journal_no_newline h evs : Forall (fun l => NEWLINE ∉ l) (journal_lines h evs).
Proof.
  constructor; [apply header_line|]. apply Forall_fmap, Forall_forall. intros e _. apply event_line.
Qed.

Lemma read_journal evs : (forall e, e ∈ evs -> len (event_to_vec e) <= MAX_FRAME) ->
  read_records (map event_to_vec evs) = Ok evs.
Proof.
  induction evs as [|e evs IH]; intros Hl; [done|]. cbn [read_records map]. unfold read_record.
  rewrite ensure_bind, ensure_bind.
  - rewrite event_roundtrip, IH; [done|]. intros x Hx. apply Hl. by right.
  - apply negb_true_iff, Z.ltb_ge, Hl. left.
  - apply negb_true_iff. unfold bytes_eqb. apply bool_decide_eq_false, event_line.
Qed.

Lemma recover_all p st file evs0 evs : canonical p (evs0 ++ evs) ->
  foldM recover (mkStore p st evs0 file false) evs = Ok (mkStore p st (evs0 ++ evs) file false).
Proof.
  revert evs0. induction evs as [|e evs IH]; intros evs0 Hc; [by rewrite app_nil_r|].
  cbn [foldM]. unfold recover at 1. rewrite prepare_bare by done. cbn [profile events].
  specialize (Hc (length evs0) e) as Hp. rewrite take_app_length, list_lookup_middle in Hp by done.
  rewrite Hp by done. cbn [mbind result_bind]. rewrite ensure_bind by (by apply bool_decide_eq_true).
  assert (E : evs0 ++ e :: evs = (evs0 ++ [e]) ++ evs) by (by rewrite <- app_assoc).
  rewrite E in *. exact (IH _ Hc).
Qed.

(** Reading back a whole journal. *)
Lemma open_file h p evs fresh o : header_ok p h -> canonical p evs ->
  (forall e, e ∈ evs -> len (event_to_vec e) <= MAX_FRAME) ->
  let file := file_of (journal_lines h evs) in len file <= MAX_JOURNAL ->
  open p file fresh o = (Ok (mkStore p h.(hstream) evs file false), file).
Proof.
  intros (Hv & Hp & Hst) Hc Hl file Hlen. unfold open. rewrite (proj2 (Z.ltb_ge _ _)) by done.
  destruct (split_file _ _ (journal_no_newline h evs)) as [Hlast Hsplit]. fold (journal_lines h evs) in Hlast, Hsplit.
  fold file in Hlast, Hsplit. destruct file as [|b file'] eqn:Ef.
  { unfold file, file_of, journal_lines in Ef. cbn in Ef. by destruct (header_to_vec h). }
  rewrite <- Ef in *. rewrite Hlast, Z.eqb_refl. cbn [negb]. rewrite Hsplit. unfold journal_lines.
  rewrite header_roundtrip, read_journal by done. cbn [mbind result_bind].
  rewrite ensure_bind by (rewrite Hv, Hp, Hst, String.eqb_refl; done).
  by rewrite (recover_all p _ _ [] evs Hc).
Qed.

(** A line that was not finished is not taken for a record. *)
Lemma torn_file h p evs e n fresh o : (0 < n <= length (event_to_vec e))%nat ->
  let file := file_of (journal_lines h evs) ++ take n (event_to_vec e ++ [NEWLINE]) in
  is_ok (open p file fresh o).1 = false.
Proof.
  intros Hn file. unfold open. destruct (_ <? _); [done|].
  assert (Hlast : List.last file 0 <> NEWLINE).
  { unfold file. rewrite take_app_le by lia. destruct (exists_last (l := take n (event_to_vec e))) as (t & x & E).
    { intros E. apply (f_equal length) in E. rewrite length_take in E. cbn in E. lia. }
    rewrite E, app_assoc, List.last_last. intros ->. apply (proj2 (event_line e)).
    rewrite <- (take_drop n (event_to_vec e)), E. rewrite !elem_of_app, list_elem_of_singleton. auto. }
  destruct file as [|b f] eqn:Ef.
  { apply (f_equal length) in Ef. unfold file in Ef. rewrite length_app, length_take, length_app in Ef. cbn in Ef. lia. }
  rewrite <- Ef in *. apply Z.eqb_neq in Hlast. by rewrite Hlast.
Qed.

(** ** Trackers follow the journal *)
Lemma verify_event p evs e : canonical p evs -> e ∈ evs ->
  (_ ← verify p e.(receipt);
   match e.(conflict_with) with
   | None => Ok tt
   | Some other =>
       _ ← verify p other;
       ensure (negb (negb (bool_decide (other.(rbond) = e.(receipt).(rbond))) ||
                     bool_decide (other.(rtxid) = e.(receipt).(rtxid)))) "invalid conflict evidence"
   end) = Ok tt.
Proof.
  intros Hc He. destruct (canonical_verified p evs e Hc He) as [Hv Ho]. rewrite Hv. cbn [mbind result_bind].
  destruct (conflict_with e) as [other|]; [|done]. destruct (Ho other eq_refl) as (Hv' & Hb & Ht).
  rewrite Hv'. cbn [mbind result_bind]. rewrite bool_decide_eq_true_2, bool_decide_eq_false_2 by done. done.
Qed.

Lemma track_event p evs i e st cu thr : canonical p evs -> evs !! i = Some e ->
  (cu = true \/ Z.of_nat i + 1 <= thr) ->
  process_inner (mkTracker (Some (mkCursor st (Z.of_nat i))) cu (Some thr)) (EventMessage e) p =
  Ok (mkTracker (Some (mkCursor st (Z.of_nat i + 1))) cu (Some thr), Some e.(receipt)).
Proof.
  intros Hc Hi Hthr. pose proof (canonical_seq p evs i e Hc Hi) as Hs. pose proof (canonical_bound p evs Hc) as Hb.
  pose proof (lookup_lt_Some _ _ _ Hi) as Hlt. unfold len in Hb.
  pose proof (verify_event p evs e Hc (list_elem_of_lookup_2 _ _ _ Hi)) as Hv.
  unfold process_inner. cbn [cursor through caught_up stream cseq]. rewrite ensure_bind.
  - destruct (verify p (receipt e)) as [[]|]; [|done]. cbn [mbind result_bind] in Hv |- *. rewrite Hv.
    cbn [mbind result_bind]. by rewrite Hs.
  - rewrite Hs, Z.eqb_refl, (proj2 (Z.ltb_ge _ _)) by lia. cbn [negb orb].
    destruct cu; [done|]. rewrite (proj2 (Z.ltb_ge _ _)); [done|]. by destruct Hthr.
Qed.

Lemma track_events p evs k m st cu thr : canonical p evs -> (k + m <= length evs)%nat ->
  (cu = true \/ Z.of_nat (k + m) <= thr) ->
  track p (mkTracker (Some (mkCursor st (Z.of_nat k))) cu (Some thr)) (map EventMessage (take m (drop k evs))) =
  Ok (mkTracker (Some (mkCursor st (Z.of_nat (k + m)))) cu (Some thr)).
Proof.
  intros Hc. revert k. induction m as [|m IH]; intros k Hk Hthr.
  { by rewrite take_0, Nat.add_0_r. }
  destruct (lookup_lt_is_Some_2 evs k) as [e He]; [lia|]. rewrite (drop_S _ _ _ He). cbn [take map].
  assert (Hthr' : cu = true \/ Z.of_nat k + 1 <= thr) by (destruct Hthr; [by left|right; lia]).
  unfold track. cbn [foldM]. rewrite (track_event p evs k e st cu thr Hc He Hthr').
  cbn [mbind result_bind]. replace (Z.of_nat k + 1) with (Z.of_nat (S k)) by lia.
  specialize (IH (S k)). replace (S k + m)%nat with (k + S m)%nat in IH by lia. apply IH; [lia|done].
Qed.

(** ** The hub *)
(** An open subscription: what it was sent is accepted by a tracker that was
    at the requested cursor, and what it has not been sent is queued for it. *)
Record sub_ok (s : Store) (b : Subscription) : Prop := {
  sub_stream : b.(sent).(stream) = s.(store_stream);
  sub_sent : 0 <= b.(sent).(cseq) <= head s;
  sub_changes : exists k, b.(changes) = (Some <$> drop (Z.to_nat b.(sent).(cseq)) s.(events)) ++ replicate k None /\
    (s.(failed) = false -> k = 0%nat);
  sub_track : exists thr, track s.(profile) (mkTracker b.(requested) false None) b.(out) =
    Ok (mkTracker (Some b.(sent)) true (Some thr)) }.

Record hub_ok (h : Hub) : Prop := {
  ho_canonical : canonical h.(store).(profile) h.(store).(events);
  ho_stream : valid_stream h.(store).(store_stream) = true;
  ho_subs : forall b, b ∈ h.(subs) -> b.(closed) = false -> sub_ok h.(store) b }.

(** Cursors on the wire are unsigned. *)
Definition label_ok (l : hub_label) : Prop :=
  match l with HSubscribe _ (Some c) => 0 <= c.(cseq) | _ => True end.

Lemma track_app p t ms ms' : track p t (ms ++ ms') = (t' ← track p t ms; track p t' ms').
Proof. apply foldM_app. Qed.

Lemma publish_cases s r o : let '(res, s') := publish s r o in
  s'.(profile) = s.(profile) /\ s'.(store_stream) = s.(store_stream) /\
  match res with
  | Ok (Some e, _) => s.(failed) = false /\ s'.(failed) = false /\ s'.(events) = s.(events) ++ [e] /\
      prepare (bare s.(profile) s.(events)) e.(receipt) = Ok (Some e, ("stored", e.(seq)))
  | Ok (None, _) => s' = s
  | Err _ => s'.(events) = s.(events) /\ (s'.(failed) = false -> s' = s)
  end.
Proof.
  unfold publish. destruct (prepare s r) as [[[e|] [st k]]|] eqn:Ep; [|done|done].
  assert (Hf : s.(failed) = false) by (unfold prepare in Ep; by destruct (s.(failed))).
  rewrite prepare_bare in Ep by done. pose proof Ep as Ep'. apply prepare_inv in Ep' as (_ & He & Hst & _).
  rewrite Hst in Ep. replace (len (events s) + 1) with e.(seq) in Ep by (by rewrite He).
  replace r with e.(receipt) in Ep by (by rewrite He).
  unfold append. destruct (_ <? _); [done|]. by destruct o.
Qed.

Lemma sub_ok_stored s s' b e : sub_ok s b -> s'.(profile) = s.(profile) -> s'.(store_stream) = s.(store_stream) ->
  s.(failed) = false -> s'.(events) = s.(events) ++ [e] -> sub_ok s' (push (Some e) b).
Proof.
  intros [H1 H2 (k & H3 & H3') H4] Ep Es Ef Ee. unfold head in *. split; cbn; [congruence| | |by rewrite Ep].
  - unfold head. rewrite Ee, len_app. change (len [e]) with 1. lia.
  - exists 0%nat. split; [|done]. rewrite H3, (H3' Ef), Ee. cbn. rewrite !app_nil_r, drop_app_le, fmap_app; [done|].
    unfold len in H2. lia.
Qed.

Lemma sub_ok_failed s s' b : sub_ok s b -> s'.(profile) = s.(profile) -> s'.(store_stream) = s.(store_stream) ->
  s'.(events) = s.(events) -> s'.(failed) = true -> sub_ok s' (push None b).
Proof.
  intros [H1 H2 (k & H3 & _) H4] Ep Es Ee Ef. unfold head in *. split; cbn; [congruence| | |by rewrite Ep].
  - unfold head. by rewrite Ee.
  - exists (S k). split; [|by rewrite Ef]. rewrite H3, Ee, <- app_assoc. f_equal. symmetry. apply replicate_cons_app.
Qed.

Lemma hub_publish_ok h r o : hub_ok h -> hub_ok (hub_publish h r o).2 /\
  (hub_publish h r o).2.(store).(profile) = h.(store).(profile).
Proof.
  intros Hh. pose proof Hh as [Hc Hst Hs]. unfold hub_publish. pose proof (publish_cases h.(store) r o) as Hp.
  destruct (publish (store h) r o) as [res s']. destruct Hp as (Ep & Es & Hp).
  destruct res as [[[e|] [st k]]|msg].
  - destruct Hp as (Hf & Hf' & Ee & Hpr). cbn [snd store]. split; [|done]. split; cbn [store subs].
    + rewrite Ep, Ee. by apply canonical_app.
    + by rewrite Es.
    + intros b (b0 & -> & Hb)%list_elem_of_fmap Hcl. by eapply sub_ok_stored; [apply Hs| | | |].
  - subst s'. cbn [snd store]. by destruct h.
  - destruct Hp as [Ee Hsame]. cbn [snd store]. split; [|done]. destruct (s'.(failed)) eqn:Ef.
    + split; cbn [store subs]; [by rewrite Ep, Ee|by rewrite Es|].
      intros b (b0 & -> & Hb)%list_elem_of_fmap Hcl. by eapply sub_ok_failed; [apply Hs| | | |].
    + rewrite (Hsame eq_refl). by destruct h.
Qed.

Lemma sub_ok_reply s b m thr' : sub_ok s b ->
  (forall thr, process_inner (mkTracker (Some b.(sent)) true (Some thr)) m s.(profile) =
     Ok (mkTracker (Some b.(sent)) true (Some thr), thr')) -> sub_ok s (reply m b).
Proof.
  intros [H1 H2 H3 (thr & H4)] Hm. split; cbn [requested sent changes out reply]; [done|done|done|]. exists thr. rewrite track_app, H4.
  cbn [mbind result_bind]. unfold track. cbn [foldM]. by rewrite Hm.
Qed.

Lemma subscribe_ok s profile_ cursor_ b : canonical s.(profile) s.(events) -> valid_stream s.(store_stream) = true ->
  match cursor_ with Some c => 0 <= c.(cseq) | None => True end ->
  subscribe s profile_ cursor_ = Ok b -> sub_ok s b.
Proof.
  intros Hc Hst Hcur H. unfold subscribe in H. destruct (replay s cursor_) as [evs|] eqn:Er; [|done].
  cbn [mbind result_bind] in H. destruct (String.eqb_spec profile_ s.(profile).(id)) as [->|]; [|done].
  injection H as <-. pose proof (len_nonneg s.(events)) as Hn. pose proof (canonical_bound _ _ Hc) as Hb.
  unfold replay in Er. destruct (s.(failed)); [done|]. cbn [negb ensure mbind result_bind] in Er.
  set (from := match cursor_ with Some c => cseq c | None => 0 end).
  assert (Hfrom : 0 <= from <= len s.(events) /\ evs = drop (Z.to_nat from) s.(events) /\
    match cursor_ with Some c => c.(stream) = s.(store_stream) | None => True end).
  { unfold from. destruct cursor_ as [c|]; [|by injection Er as <-; split_and!]. inv_ok. bool_simp.
    match goal with H : String.eqb _ _ = true |- _ => apply String.eqb_eq in H end. by unfold head in *; split_and!. }
  destruct Hfrom as (Hf & -> & Hcs). split; cbn [sent stream cseq changes out requested]; [done|unfold head; lia| |].
  - exists 0%nat. split; [|done]. unfold head, len. by rewrite Nat2Z.id, drop_all.
  - exists (head s). unfold track. cbn [foldM]. fold from.
    assert (Hbegin : process_inner (mkTracker cursor_ false None)
        (Begin s.(profile).(id) s.(store_stream) from (head s)) s.(profile) =
      Ok (mkTracker (Some (mkCursor s.(store_stream) from)) false (Some (head s)), None)).
    { unfold process_inner, head. cbn [through cursor]. rewrite ensure_bind.
      - unfold from. destruct cursor_ as [c|]; [|done]. by rewrite Hcs, String.eqb_refl, Z.eqb_refl.
      - rewrite bool_decide_eq_false_2, String.eqb_refl, Hst, !(proj2 (Z.ltb_ge _ _)) by (done || lia || (intros []; done)). done. }
    rewrite Hbegin. cbn [mbind result_bind].
    fold (track s.(profile) (mkTracker (Some (mkCursor s.(store_stream) from)) false (Some (head s)))
      (map EventMessage (drop (Z.to_nat from) s.(events)) ++ [CaughtUp (mkCursor s.(store_stream) (head s))])).
    rewrite track_app. pose proof (track_events s.(profile) s.(events) (Z.to_nat from)
      (length s.(events) - Z.to_nat from) s.(store_stream) false (head s) Hc) as Ht.
    rewrite Z2Nat.id, take_ge in Ht by (rewrite ?length_drop; lia). unfold len in Hf.
    replace (Z.to_nat from + (length (events s) - Z.to_nat from))%nat with (length (events s)) in Ht by lia.
    rewrite Ht; [|lia|by right]. cbn [mbind result_bind]. unfold track. cbn [foldM process_inner].
    rewrite ensure_bind; [done|]. cbn [caught_up cursor through cseq]. fold (head s).
    by rewrite !bool_decide_eq_true_2.
Qed.

(** One subscription is replaced by one that is closed or still good. *)
Lemma replace_sub_ok h i b1 : hub_ok h -> (b1.(closed) = false -> sub_ok h.(store) b1) ->
  hub_ok (mkHub h.(store) (<[i := b1]> h.(subs))).
Proof.
  intros [H1 H2 H3] Hb. split; cbn; [done|done|]. intros x [k Hk]%list_elem_of_lookup_1 Hcl.
  apply list_lookup_insert_Some in Hk as [(_ & -> & _)|[_ Hk]]; [by apply Hb|].
  apply H3; [by eapply list_elem_of_lookup_2|done].
Qed.

Lemma open_sub_Some h i b : open_sub h i = Some b -> h.(subs) !! i = Some b /\ b.(closed) = false.
Proof. unfold open_sub. destruct (subs h !! i) as [b'|]; [|done]. by destruct (closed b') eqn:E; [|intros [= <-]]. Qed.

Lemma deliver_ok s b b1 : canonical s.(profile) s.(events) -> sub_ok s b -> deliver b = Some b1 ->
  b1.(closed) = false -> sub_ok s b1.
Proof.
  intros Hc [H1 H2 (k & H3 & H3') (thr & H4)] Hd Hcl. unfold deliver in Hd. rewrite H3 in Hd.
  destruct (drop (Z.to_nat (cseq (sent b))) (events s)) as [|e rest] eqn:Ed; cbn [fmap list_fmap app] in Hd.
  { destruct k as [|k]; [done|]. cbn in Hd. injection Hd as <-. by destruct (_ <? _). }
  assert (He : events s !! Z.to_nat (cseq (sent b)) = Some e).
  { rewrite <- (Nat.add_0_r (Z.to_nat (cseq (sent b)))), <- lookup_drop, Ed. done. }
  pose proof (lookup_lt_Some _ _ _ He) as Hlt. pose proof (canonical_seq _ _ _ _ Hc He) as Hseq.
  rewrite Z2Nat.id in Hseq by lia. injection Hd as <-. destruct (_ <? _); [done|].
  rewrite Hseq, Z.eqb_refl in Hcl |- *. cbn [negb] in Hcl |- *.
  split; cbn [sent stream cseq changes out requested]; [done|unfold head, len in *; lia| |].
  - exists k. split; [|done]. f_equal. replace (Z.to_nat (cseq (sent b) + 1)) with (S (Z.to_nat (cseq (sent b)))) by lia.
    rewrite (drop_S _ _ _ He) in Ed. by injection Ed as ->.
  - exists thr. rewrite track_app, H4. cbn [mbind result_bind]. unfold track. cbn [foldM].
    pose proof (track_event s.(profile) s.(events) _ e (stream (sent b)) true thr Hc He (or_introl eq_refl)) as Ht.
    rewrite Z2Nat.id in Ht by lia. replace (mkCursor (stream (sent b)) (cseq (sent b))) with (sent b) in Ht by (by destruct (sent b)).
    by rewrite Ht.
Qed.

Lemma alter_sub_ok h i f : hub_ok h ->
  (forall b, (f b).(closed) = false -> b.(closed) = false /\ (sub_ok h.(store) b -> sub_ok h.(store) (f b))) ->
  hub_ok (mkHub h.(store) (alter f i h.(subs))).
Proof.
  intros [H1 H2 H3] Hf. split; cbn; [done|done|]. intros x [k Hk]%list_elem_of_lookup_1 Hcl.
  rewrite list_lookup_alter in Hk. case_decide.
  - apply fmap_Some in Hk as (b & Hb & ->). destruct (Hf b Hcl) as [Hb' Hf'].
    apply Hf', H3; [by eapply list_elem_of_lookup_2|done].
  - apply H3; [by eapply list_elem_of_lookup_2|done].
Qed.

Lemma hub_publish_reply h r o m : (hub_publish h r o).1 = Ok m -> exists k st, m = Published k st.
Proof.
  unfold hub_publish. destruct (publish _ _ _) as [[[e [st k]]|] s]; [|done]. intros [= <-]. by eexists _, _.
Qed.

Lemma hub_step_ok l h h1 : label_ok l -> hub_ok h -> hub_step l h = Some h1 ->
  hub_ok h1 /\ h1.(store).(profile) = h.(store).(profile).
Proof.
  intros Hl Hh Hs. destruct l as [[i|] r o|pr cur|i|i|i]; cbn [hub_step] in Hs.
  - destruct (open_sub h i) as [b|]; [|done]. cbn [mbind option_bind] in Hs.
    destruct (hub_publish_ok h r o Hh) as [Hok Hp]. pose proof (hub_publish_reply h r o) as Hr.
    destruct (hub_publish h r o) as [res h2]. cbn [fst snd] in *. injection Hs as <-. split; [|done].
    apply alter_sub_ok; [done|]. destruct res as [m|e]; [|done]. destruct (Hr m eq_refl) as (k & st & ->).
    intros b' Hcl. split; [done|]. intros Hb. by apply (sub_ok_reply _ _ _ None).
  - injection Hs as <-. by apply hub_publish_ok.
  - pose proof Hh as [H1 H2 H3].
    destruct (subscribe _ _ _) as [b|e] eqn:Es; injection Hs as <-; (split; [|done]); split; cbn [store subs]; try done.
    + intros x [Hx| ->%list_elem_of_singleton]%elem_of_app Hcl; [by apply H3|].
      eapply subscribe_ok; [done|done| |exact Es]. by destruct cur.
    + intros x [Hx| ->%list_elem_of_singleton]%elem_of_app Hcl; [by apply H3|done].
  - destruct (open_sub h i) as [b|] eqn:Eo; [|done]. apply open_sub_Some in Eo as [Eb Ec]. cbn [mbind option_bind] in Hs.
    destruct (deliver b) as [b1|] eqn:Ed; [|done]. cbn [mbind option_bind] in Hs. injection Hs as <-. split; [|done].
    apply replace_sub_ok; [done|]. intros Hcl. eapply deliver_ok; [apply Hh| |exact Ed|done].
    apply Hh; [by eapply list_elem_of_lookup_2|done].
  - destruct (open_sub h i) as [b|] eqn:Eo; [|done]. apply open_sub_Some in Eo as [Eb Ec]. cbn [mbind option_bind] in Hs.
    injection Hs as <-. split; [|done]. apply replace_sub_ok; [done|]. destruct (failed (store h)); [done|]. intros _.
    apply (sub_ok_reply _ _ _ None); [apply Hh; [by eapply list_elem_of_lookup_2|done]|].
    intros thr. cbn [process_inner]. rewrite ensure_bind; [done|]. cbn. by rewrite bool_decide_eq_true_2.
  - destruct (open_sub h i) as [b|]; [|done]. cbn [mbind option_bind] in Hs. injection Hs as <-. split; [|done].
    by apply replace_sub_ok.
Qed.

Lemma hub_run_ok ls h h1 : Forall label_ok ls -> hub_ok h -> hub_run ls h = Some h1 ->
  hub_ok h1 /\ h1.(store).(profile) = h.(store).(profile).
Proof.
  intros Hl. revert h. induction Hl as [|l ls Hl _ IH]; intros h Hh Hr; cbn [hub_run] in Hr; [by injection Hr as <-|].
  destruct (hub_step l h) as [h2|] eqn:Es; [|done]. destruct (hub_step_ok _ _ _ Hl Hh Es) as [H2 E2].
  destruct (IH _ H2 Hr) as [H1 E1]. split; [done|congruence].
Qed.
End facts.
