(* ===== verification/Preconf.v ===== *)
(** * The monitor against the relay

    The wallet's monitor (JavaScript) and the relay (Rust) composed: the JSON
    form of the relay's messages, the agreement of the monitor's checks with
    the relay's own tracker, and what the monitor reaches when it is fed by a
    relay. *)

From S2P Require Import Prelude Sha256 Transaction Js Monitor MonitorFacts Relay RelayFacts.
From stdpp Require Import pretty.

#[local] Open Scope Z_scope.

(** ** Texts of hashes *)
Lemma hex_digit_spec d : 0 <= d < 16 ->
  is_lower_hex (hex_digit d) = true /\ forall d', 0 <= d' < 16 -> hex_digit d = hex_digit d' -> d = d'.
Proof.
  intros Hd. assert (Hall : forallb (fun a => is_lower_hex (hex_digit (Z.of_nat a)) &&
      forallb (fun b => negb (Ascii.eqb (hex_digit (Z.of_nat a)) (hex_digit (Z.of_nat b))) || (a =? b)%nat) (seq 0 16)) (seq 0 16) = true)
    by (vm_compute; reflexivity).
  rewrite forallb_forall in Hall. specialize (Hall (Z.to_nat d)). rewrite Z2Nat.id in Hall by lia.
  destruct (andb_prop _ _ (Hall ltac:(apply in_seq; lia))) as [H1 H2]. split; [done|]. intros d' Hd' He.
  rewrite forallb_forall in H2. specialize (H2 (Z.to_nat d') ltac:(apply in_seq; lia)).
  rewrite Z2Nat.id, He, Ascii.eqb_refl in H2 by lia. cbn in H2. apply Nat.eqb_eq in H2. lia.
Qed.

Lemma hex_encode_lower l : bytes_ok l -> forallb is_lower_hex (String.list_ascii_of_string (hex_encode l)) = true.
Proof.
  induction 1 as [|b l Hb Hl IH]; [done|]. unfold is_byte in Hb. cbn [hex_encode String.list_ascii_of_string forallb].
  pose proof (proj1 (hex_digit_spec (b / 16) ltac:(dlia))) as H1.
  pose proof (proj1 (hex_digit_spec (b mod 16) ltac:(dlia))) as H2. by rewrite H1, H2, IH.
Qed.

Lemma hex_encode_length l : String.length (hex_encode l) = (2 * length l)%nat.
Proof. induction l as [|b l IH]; [done|]. cbn [hex_encode String.length length]. rewrite IH. lia. Qed.

Lemma hex_encode_inj a b : bytes_ok a -> bytes_ok b -> hex_encode a = hex_encode b -> a = b.
Proof.
  intros Ha. revert b. induction Ha as [|x a Hx Ha IH]; intros [|y b] Hb He; [done|done|done|].
  inversion_clear Hb as [|? ? Hy Hb']. cbn [hex_encode] in He. injection He as E1 E2 E3.
  unfold is_byte in *. apply (proj2 (hex_digit_spec (x / 16) ltac:(dlia))) in E1; [|dlia].
  apply (proj2 (hex_digit_spec (x mod 16) ltac:(dlia))) in E2; [|dlia]. f_equal; [dlia|by apply IH].
Qed.

Lemma txid_text_HASH h : HASH (txid_text h) = true.
Proof.
  unfold HASH, hex_pattern, txid_text. rewrite hex_encode_length, hex_encode_lower by apply bytes_ok_rev, uint256_bytes_ok.
  unfold uint256_display. by rewrite length_reverse, uint256_bytes_length.
Qed.

Lemma txid_text_length h : String.length (txid_text h) = 64%nat.
Proof. unfold txid_text, uint256_display. by rewrite hex_encode_length, length_reverse, uint256_bytes_length. Qed.

Lemma txid_text_inj a b : uint256_ok a -> uint256_ok b -> txid_text a = txid_text b -> a = b.
Proof.
  intros Ha Hb He. apply hex_encode_inj in He; [|apply bytes_ok_rev, uint256_bytes_ok..].
  apply (inj reverse) in He. rewrite <- (uint256_of_bytes a), <- (uint256_of_bytes b) by done. by f_equal.
Qed.

Lemma string_app_inj a b c d : String.length a = String.length c -> a +:+ b = c +:+ d -> a = c /\ b = d.
Proof.
  revert c. induction a as [|x a IH]; intros [|y c] Hl He; [done|done|done|].
  injection He as -> He. injection Hl as Hl. by destruct (IH c Hl He) as [-> ->].
Qed.

Lemma outpoint_text_inj a b : outpoint_ok a -> outpoint_ok b -> outpoint_text a = outpoint_text b -> a = b.
Proof.
  intros [Ha _] [Hb _] He. unfold outpoint_text in He. destruct a as [ha na], b as [hb nb]. cbn [Transaction.hash n] in *.
  apply (string_app_inj (txid_text ha) _ (txid_text hb)) in He as [E1 E2]; [|by rewrite !txid_text_length].
  apply txid_text_inj in E1; [|done|done]. injection E2 as E2. apply (pretty_Z_inj na nb) in E2. by subst.
Qed.

(** ** JSON forms (serde attributes of relay/mod.rs and operator.rs) *)
Definition receipt_json (r : Receipt) : json :=
  JObj [("bond", JStr (outpoint_text r.(rbond))); ("txid", JStr (txid_text r.(rtxid)));
        ("signature", JStr (hex_encode r.(rsignature)))].

Definition event_json (e : Event) : json :=
  JObj [("seq", JInt (Relay.seq e)); ("receipt", receipt_json (Relay.receipt e));
        ("conflict_with", match conflict_with e with Some o => receipt_json o | None => JNull end)].

Definition cursor_json (c : Cursor) : json := JObj [("stream", JStr (Relay.stream c)); ("seq", JInt c.(cseq))].

Definition server_json (m : ServerMessage) : json :=
  match m with
  | Begin profile stream from through =>
      JObj [("type", JStr "begin"); ("profile", JStr profile); ("stream", JStr stream); ("from", JInt from);
            ("through", JInt through)]
  | EventMessage event => JObj [("type", JStr "event"); ("event", event_json event)]
  | CaughtUp c => JObj [("type", JStr "caught_up"); ("cursor", cursor_json c)]
  | Heartbeat c => JObj [("type", JStr "heartbeat"); ("cursor", cursor_json c)]
  | Published n status => JObj [("type", JStr "published"); ("seq", JInt n); ("status", JStr status)]
  | ErrorMessage reason => JObj [("type", JStr "error"); ("reason", JStr reason)]
  end.

(** A receipt as the monitor keeps it. *)
Definition js_receipt (r : Receipt) : Monitor.receipt :=
  Monitor.mkReceipt (outpoint_text r.(rbond)) (JStr (txid_text r.(rtxid))) (JStr (hex_encode r.(rsignature))).

(** ** A message from its first step to its last *)
Section settle.
Context {Env : MonitorEnv}.

(** The relay after the whole of [#process] on a message, and the receipts it
    remembered; [None] if it throws. *)
Definition settle (c : config) (r : relay) (message : json) : option (relay * list Monitor.receipt) :=
  match Monitor.process c r message with
  | Err _ => None
  | Ok (r1, PVerify k rc conflict) =>
      if negb (verifyReceipt rc) then None
      else
        let done (rcs : list Monitor.receipt) :=
          match Monitor.cursor r with
          | None => None
          | Some cur =>
              Some (set_sync (Some (Monitor.mkCursor (Monitor.stream cur) k)) (Monitor.through r) (caughtUp r)
                      (set_seen (foldl (fun s x => remember_seen x s) (seen r) rcs) r), rcs)
          end in
        match conflict with
        | Some JNull => done [rc]
        | _ =>
            match receipt_of c conflict with
            | Err _ => None
            | Ok other =>
                if negb (verifyReceipt other) ||
                   negb (String.eqb (bond other) (bond rc) && negb (strict_eqb (txid other) (txid rc)))
                then None else done [rc; other]
            end
        end
  | Ok (r1, _) => Some (r1, [])
  end.

(** Continuations it takes to run a message that settles. *)
Definition steps_of (c : config) (r : relay) (message : json) : nat :=
  match Monitor.process c r message with
  | Ok (_, PVerify _ _ (Some JNull)) => 3
  | Ok (_, PVerify _ _ _) => 4
  | _ => 2
  end.

(** [#process] looks at the synchronization state only. *)
Definition same_sync (a b : relay) : Prop :=
  Monitor.cursor a = Monitor.cursor b /\ Monitor.through a = Monitor.through b /\ caughtUp a = caughtUp b.

Lemma process_frame c a b msg : same_sync a b ->
  match Monitor.process c a msg with
  | Err e => Monitor.process c b msg = Err e
  | Ok (a1, p) => Monitor.process c b msg =
      Ok (set_sync (Monitor.cursor a1) (Monitor.through a1) (caughtUp a1) b, p)
  end.
Proof.
  intros (E1 & E2 & E3).
  assert (Hid : set_sync (Monitor.cursor a) (Monitor.through a) (caughtUp a) b = b) by (rewrite E1, E2, E3; by destruct b).
  unfold Monitor.process. destruct (is_str _ "begin"); [|destruct (is_str _ "event"); [|destruct (is_str _ "caught_up");
    [|destruct (is_str _ "heartbeat"); [|done]]]].
  - unfold process_begin. rewrite <- E1, <- E2. destruct (exact _ _); [|done]. cbn [ensure mbind result_bind].
    destruct (Monitor.through a); [done|]. destruct (get msg "stream"); [|done].
    destruct (sequence (get msg "from") (max_seq c)); [|done]. destruct (sequence (get msg "through") (max_seq c)); [|done].
    destruct (_ && _); [|done]. cbn [ensure mbind result_bind].
    destruct (match Monitor.cursor a with Some _ => _ | None => _ end); done.
  - unfold process_event. rewrite <- E1, <- E2, <- E3. destruct (exact (Some msg) _); [|done]. cbn [ensure mbind result_bind].
    destruct (exact _ _); [|done]. cbn [ensure mbind result_bind]. destruct (get msg "event"); [|done].
    destruct (Monitor.through a) eqn:Et; [|done]. destruct (sequence _ _); [|done].
    destruct (Monitor.cursor a) eqn:Ec; [|done].
    destruct (_ && _); [|done]. cbn [ensure mbind result_bind]. destruct (receipt_of _ _); [|done].
    cbn [mbind result_bind]. destruct a, b; by simplify_eq/=.
  - unfold process_caught_up. rewrite <- E1, <- E2, <- E3. destruct (exact _ _); [|done]. cbn [ensure mbind result_bind].
    destruct (cursor_of _ _); [|done]. cbn [mbind result_bind]. by destruct (_ && _).
  - unfold process_heartbeat. rewrite <- E1, <- E3. destruct (exact _ _); [|done]. cbn [ensure mbind result_bind].
    destruct (cursor_of _ _); [|done]. cbn [mbind result_bind]. destruct (_ && _); [|done].
    cbn [ensure mbind result_bind]. by rewrite Hid.
Qed.

(** ** Delivering one message *)
(** A relay while its only current job, for the frame [text] received at [t],
    is at phase [p]. *)
Definition busy (t : Z) (text : string) (p : phase) (r : relay) : relay :=
  set_pending (pending r + 1) (set_jobs (jobs r ++ [mkJob (generation r) text t p]) r).

(** The relay when the job is over. *)
Definition received (t : Z) (r : relay) : relay :=
  mkRelay (relay_url r) (Monitor.cursor r) (Monitor.through r) (caughtUp r) (Some t) (opened r) (generation r) (pending r)
    (jobs r) (socket r) (retry r) (if caughtUp r then None else Some "synchronizing") (seen r) (Monitor.sent r).

Definition put (m : monitor) (i : nat) (r : relay) (e : gmap string (list (json * Monitor.receipt))) : monitor :=
  mkMonitor (cfg m) (running m) (now m) (<[i := r]> (relays m)) e.

(** A relay that can take a message: connected, with nothing pending. *)
Record listening (m : monitor) (r : relay) : Prop := {
  ls_running : running m = true;
  ls_socket : socket r <> None;
  ls_pending : pending r = 0;
  ls_jobs : forall j, j ∈ jobs r -> job_generation j <> generation r;
  ls_stale : 0 < staleMs (cfg m) }.

Lemma busy_step m i r0 t text p r2 e2 : relays m !! i = Some (busy t text p r0) ->
  (forall j, j ∈ jobs r0 -> job_generation j <> generation r0) ->
  job_step m (length (jobs r0)) (mkJob (generation r0) text t p) (busy t text p r0) = (r2, e2) ->
  step (LJob i (length (jobs r0))) m = Some (put m i r2 e2).
Proof.
  intros Hi Hj Hs. cbn [step]. rewrite Hi. cbn [busy set_pending set_jobs jobs].
  rewrite list_lookup_middle by done. cbn [job_generation].
  assert (Hf : first_of_chain (length (jobs r0)) (generation r0) (jobs r0 ++ [mkJob (generation r0) text t p]) = true).
  { unfold first_of_chain. rewrite take_app_length. apply forallb_forall. intros j Hin.
    apply negb_true_iff, Z.eqb_neq, Hj. by apply list_elem_of_In. }
  rewrite Hf. fold (busy t text p r0). by rewrite Hs.
Qed.

Lemma busy_to_phase t text p q r0 :
  to_phase (length (jobs r0)) (mkJob (generation r0) text t p) q (busy t text p r0) = busy t text q r0.
Proof.
  unfold to_phase, busy. cbn. f_equal. rewrite insert_app_r_alt by lia. by rewrite Nat.sub_diag.
Qed.

Lemma put_lookup m i r r' e : relays m !! i = Some r' -> relays (put m i r e) !! i = Some r.
Proof. intros Hi. apply list_lookup_insert_eq. by eapply lookup_lt_Some. Qed.

Lemma put_put m i r r' e e' : put (put m i r e) i r' e' = put m i r' e'.
Proof. unfold put. cbn. by rewrite list_insert_insert_eq. Qed.

Lemma current_busy m t text p r0 : running m = true -> current m (busy t text p r0) (generation r0) = true.
Proof. intros Hr. unfold current. cbn. by rewrite Hr, Z.eqb_refl. Qed.

(** The end of a job that was processed in time. *)
Lemma busy_finish m i r0 text : relays m !! i = Some (busy (now m) text PProcessed r0) -> running m = true ->
  (forall j, j ∈ jobs r0 -> job_generation j <> generation r0) -> 0 < staleMs (cfg m) ->
  step (LJob i (length (jobs r0))) m = Some (put m i (received (now m) r0) (evidence m)).
Proof.
  intros Hi Hr Hj Hst. eapply busy_step; [done|done|]. unfold job_step, start_job, resume_receipt, resume_other, end_job, fail_job, in_time. cbn [at_phase job_generation receivedAt].
  rewrite current_busy, Z.sub_diag, (proj2 (Z.ltb_lt _ _)) by done. cbn [negb]. f_equal. unfold received, busy.
  cbn. f_equal; [lia|]. rewrite delete_middle. by rewrite app_nil_r.
Qed.

Lemma process_phase c r msg r1 p : Monitor.process c r msg = Ok (r1, p) ->
  p = PProcessed \/ (r1 = r /\ exists k rc conf, p = PVerify k rc conf).
Proof.
  intros Hp. unfold Monitor.process in Hp.
  destruct (is_str _ "begin"); [inv_ok; by left|]. destruct (is_str _ "event").
  { inv_ok. right. split; [done|]. match goal with H : process_event _ _ _ = Ok _ |- _ => apply process_event_spec in H as (k & rc & conf & -> & _) end.
    by exists k, rc, conf. }
  destruct (is_str _ "caught_up"); [inv_ok; by left|]. destruct (is_str _ "heartbeat"); [inv_ok; by left|done].
Qed.

Lemma process_sync_form c r msg r1 p : Monitor.process c r msg = Ok (r1, p) ->
  exists cur thr b, r1 = set_sync cur thr b r.
Proof.
  intros Hp. pose proof (process_frame c r r msg ltac:(done)) as Hf. rewrite Hp in Hf. injection Hf as Hf.
  by exists (Monitor.cursor r1), (Monitor.through r1), (caughtUp r1).
Qed.

Lemma arrive m i r text : relays m !! i = Some r -> listening m r -> (String.length text <= Monitor.MAX_FRAME)%nat ->
  step (LMessage i (generation r) (Some text)) m = Some (put m i (busy (now m) text PQueued r) (evidence m)).
Proof.
  intros Hi [H1 H2 H3 H4 H5] Hl. cbn [step]. unfold handler, on_relay. rewrite Hi. cbn [mbind option_bind].
  rewrite Z.ltb_irrefl, Z.eqb_refl, bool_decide_eq_false_2 by done. cbn [negb orb].
  unfold current. rewrite H1, Z.eqb_refl. cbn [andb mbind option_bind]. unfold on_message.
  destruct (Nat.ltb_spec Monitor.MAX_FRAME (String.length text)); [lia|].
  rewrite H3, (proj2 (Z.ltb_ge _ _)) by (unfold MAX_PENDING; lia). unfold busy. by rewrite H3.
Qed.

(** The first continuation: the message is parsed and looked at. *)
Lemma busy_process m i r text msg r1 p : relays m !! i = Some (busy (now m) text PQueued r) -> running m = true ->
  (forall j, j ∈ jobs r -> job_generation j <> generation r) -> 0 < staleMs (cfg m) ->
  JSON_parse text = Some msg -> Monitor.process (cfg m) r msg = Ok (r1, p) ->
  step (LJob i (length (jobs r))) m =
  Some (put m i (busy (now m) text p (set_sync (Monitor.cursor r1) (Monitor.through r1) (caughtUp r1) r)) (evidence m)).
Proof.
  intros Hi Hr Hj Hst Hparse Hp. eapply busy_step; [done|done|]. unfold job_step, start_job, resume_receipt, resume_other, end_job, fail_job, in_time. cbn [at_phase job_generation receivedAt data].
  rewrite current_busy, Z.sub_diag, (proj2 (Z.ltb_lt _ _)), Hparse by done. cbn [negb].
  pose proof (process_frame (cfg m) r (busy (now m) text PQueued r) msg ltac:(done)) as Hf. rewrite Hp in Hf. rewrite Hf.
  f_equal. pose proof (busy_to_phase (now m) text PQueued p r) as Hb.
  unfold to_phase, busy in *. cbn in *. injection Hb as Hb. by rewrite Hb.
Qed.

(** The last step of an event: the receipts are remembered. *)
Lemma busy_finish_event m r text k rc other cur t p : running m = true -> Monitor.cursor r = Some cur ->
  finish_event m (length (jobs r)) (mkJob (generation r) text t p) k rc other (busy t text p r) =
  (busy t text PProcessed (set_sync (Some (Monitor.mkCursor (Monitor.stream cur) k)) (Monitor.through r) (caughtUp r)
     (set_seen (foldl (fun s x => remember_seen x s) (seen r) (rc :: option_list other)) r)),
   foldl (fun e x => remember_evidence x e) (evidence m) (rc :: option_list other)).
Proof.
  intros Hr Hc. unfold finish_event. cbn [job_generation]. rewrite current_busy by done. cbn [negb].
  cbn [busy set_pending set_jobs Monitor.cursor seen evidence]. rewrite Hc. f_equal.
  pose proof (busy_to_phase t text p PProcessed r) as Hb. unfold to_phase, busy in *. cbn in *. injection Hb as Hb. by rewrite Hb.
Qed.

Lemma set_sync_id r : set_sync (Monitor.cursor r) (Monitor.through r) (caughtUp r) r = r.
Proof. by destruct r. Qed.

(** The labels that deliver a frame and run its job to the end. *)
Definition delivery (m : monitor) (i : nat) (r : relay) (text : string) (msg : json) : list label :=
  LMessage i (generation r) (Some text) :: replicate (steps_of (cfg m) r msg) (LJob i (length (jobs r))).

Lemma run_cons l ls m m1 : step l m = Some m1 -> run (l :: ls) m = run ls m1.
Proof. intros Hs. cbn [run]. by rewrite Hs. Qed.

(** From [PProcessed] to the end, whatever the relay became on the way. *)
Lemma busy_done m i r r0 text e : relays m !! i = Some r -> listening m r -> jobs r0 = jobs r ->
  generation r0 = generation r ->
  step (LJob i (length (jobs r))) (put m i (busy (now m) text PProcessed r0) e) = Some (put m i (received (now m) r0) e).
Proof.
  intros Hi [H1 _ _ H4 H5] Ej Eg. rewrite <- Ej.
  pose proof (busy_finish (put m i (busy (now m) text PProcessed r0) e) i r0 text) as Hb.
  rewrite Hb, put_put; [done|by eapply put_lookup|done|by rewrite Ej, Eg|done].
Qed.

(** An event from the call of the verifier. *)
Lemma deliver_event m i r text k rc conf cur : relays m !! i = Some r -> listening m r ->
  verifyReceipt rc = true -> Monitor.cursor r = Some cur ->
  let ending n rcs := run (replicate n (LJob i (length (jobs r)))) (put m i (busy (now m) text (PVerify k rc conf) r) (evidence m)) =
    Some (put m i (received (now m) (set_sync (Some (Monitor.mkCursor (Monitor.stream cur) k)) (Monitor.through r) (caughtUp r)
       (set_seen (foldl (fun s x => remember_seen x s) (seen r) rcs) r))) (foldl (fun e x => remember_evidence x e) (evidence m) rcs)) in
  (conf = Some JNull -> ending 2%nat [rc]) /\
  (forall other, conf <> Some JNull -> receipt_of (cfg m) conf = Ok other ->
     (negb (verifyReceipt other) || negb (String.eqb (bond other) (bond rc) && negb (strict_eqb (txid other) (txid rc)))) = false ->
     ending 3%nat [rc; other]).
Proof.
  intros Hi Hls Ev Ec ending. pose proof Hls as [H1 _ _ H4 _]. unfold ending.
  set (m2 := put m i (busy (now m) text (PVerify k rc conf) r) (evidence m)).
  assert (Hm2 : relays m2 !! i = Some (busy (now m) text (PVerify k rc conf) r)) by (by eapply put_lookup).
  split.
  - intros ->. cbn [replicate].
    erewrite run_cons; [|eapply (busy_step m2 i r); [done|done|]; unfold job_step, start_job, resume_receipt, resume_other, end_job, fail_job, in_time; cbn [at_phase]; rewrite Ev; cbn [negb];
      by apply busy_finish_event].
    unfold m2. rewrite put_put. by erewrite run_cons; [|by apply (busy_done m i r)].
  - intros other Hne Eo Echk.
    assert (Hconf : forall {A} (x y : A), match conf with Some JNull => x | _ => y end = y) by (by destruct conf as [[]|]).
    cbn [replicate]. erewrite run_cons; [|eapply (busy_step m2 i r); [done|done|]; unfold job_step, start_job, resume_receipt, resume_other, end_job, fail_job, in_time; cbn [at_phase];
      rewrite Ev; cbn [negb]; rewrite Hconf; change (cfg m2) with (cfg m); rewrite Eo, busy_to_phase; reflexivity].
    set (m3 := put m2 i (busy (now m) text (PVerifyOther k rc other) r) (evidence m2)).
    assert (Hm3 : relays m3 !! i = Some (busy (now m) text (PVerifyOther k rc other) r)) by (by eapply put_lookup).
    erewrite run_cons; [|eapply (busy_step m3 i r); [done|done|]; unfold job_step, start_job, resume_receipt, resume_other, end_job, fail_job, in_time; cbn [at_phase]; rewrite Echk;
      by apply busy_finish_event].
    unfold m3, m2. rewrite !put_put. by erewrite run_cons; [|by apply (busy_done m i r)].
Qed.

Lemma deliver_message m i r text msg r' rcs : relays m !! i = Some r -> listening m r ->
  (String.length text <= Monitor.MAX_FRAME)%nat -> JSON_parse text = Some msg ->
  settle (cfg m) r msg = Some (r', rcs) ->
  run (delivery m i r text msg) m =
  Some (put m i (received (now m) r') (foldl (fun e x => remember_evidence x e) (evidence m) rcs)).
Proof.
  intros Hi Hls Hlen Hparse Hs. unfold delivery. rewrite (run_cons _ _ _ _ (arrive m i r text Hi Hls Hlen)).
  pose proof Hls as [H1 H2 H3 H4 H5]. unfold settle, steps_of in *.
  destruct (Monitor.process (cfg m) r msg) as [[r1 p]|] eqn:Ep; [|done].
  set (m1 := put m i (busy (now m) text PQueued r) (evidence m)).
  assert (Hp1 : step (LJob i (length (jobs r))) m1 = Some (put m i (busy (now m) text p
    (set_sync (Monitor.cursor r1) (Monitor.through r1) (caughtUp r1) r)) (evidence m))).
  { rewrite <- (put_put m i (busy (now m) text PQueued r) _ (evidence m)).
    eapply (busy_process m1 i r text msg); [by eapply put_lookup|done..]. }
  destruct (process_phase _ _ _ _ _ Ep) as [-> |(-> & k & rc & conf & ->)].
  { injection Hs as <- <-. cbn [replicate foldl]. rewrite (run_cons _ _ _ _ Hp1).
    apply process_sync_form in Ep as (cur & thr & b & ->). by erewrite run_cons; [|by apply (busy_done m i r)]. }
  rewrite set_sync_id in Hp1. destruct (verifyReceipt rc) eqn:Ev; [|done]. cbn [negb] in Hs.
  destruct (Monitor.cursor r) as [cur|] eqn:Ec; [|by repeat case_match].
  destruct (deliver_event m i r text k rc conf cur Hi Hls Ev Ec) as [Hd1 Hd2].
  assert (Hcase : conf = Some JNull \/ conf <> Some JNull) by (destruct conf as [[]|]; auto).
  destruct Hcase as [-> |Hne].
  - injection Hs as <- <-. cbn [replicate]. rewrite (run_cons _ _ _ _ Hp1). by apply Hd1.
  - assert (Hconf : forall {A} (x y : A), match conf with Some JNull => x | _ => y end = y) by (by destruct conf as [[]|]).
    rewrite Hconf in Hs. destruct (receipt_of (cfg m) conf) as [other|] eqn:Eo; [|done].
    destruct (_ || _) eqn:Echk; [done|]. injection Hs as <- <-.
    assert (Hsteps : match conf with Some JNull => 3%nat | _ => 4%nat end = 4%nat) by apply Hconf. rewrite Hsteps.
    change (replicate 4 ?x) with (x :: replicate 3 x). rewrite (run_cons _ _ _ _ Hp1). by apply Hd2.
Qed.
End settle.

(** ** Agreement of the monitor and the tracker *)
(** The values of the wire types. *)
Definition receipt_ok (r : Receipt) : Prop :=
  outpoint_ok r.(rbond) /\ uint256_ok r.(rtxid) /\ bytes_ok r.(rsignature) /\ length r.(rsignature) = 64%nat.

Definition safe (z : Z) : Prop := 0 <= z <= 2 ^ 53 - 1.

(** Streams are written in lower case. *)
Definition stream_ok (s : string) : Prop := valid_stream s = HASH s.

Definition message_ok (m : ServerMessage) : Prop :=
  match m with
  | Begin _ s from thr => stream_ok s /\ safe from /\ safe thr
  | EventMessage e => safe (Relay.seq e) /\ receipt_ok (Relay.receipt e) /\
      match conflict_with e with Some o => receipt_ok o | None => True end
  | CaughtUp c | Heartbeat c => stream_ok (Relay.stream c) /\ safe c.(cseq)
  | Published _ _ => False
  | ErrorMessage _ => True
  end.

(** A wallet configured for a relay's profile: the same id and bonds, and a
    verifier that answers as ValidatedProfile::verify. *)
Class Linked (ME : MonitorEnv) (RE : RelayEnv) (p : ValidatedProfile) (c : config) : Prop := {
  lk_profile : Monitor.profile c = Relay.id p;
  lk_size : len (Monitor.bonds c) = Z.of_nat (size (Relay.bonds p));
  lk_small : Z.of_nat (size (Relay.bonds p)) <= MAX_SESSIONS;
  lk_bonds o : outpoint_ok o -> outpoint_text o ∈ Monitor.bonds c <-> is_Some (Relay.bonds p !! o);
  lk_verify r : receipt_ok r -> verifyReceipt (js_receipt r) = is_ok (verify p r) }.

Definition js_cursor (c : Cursor) : cursor_t := Monitor.mkCursor (JStr (Relay.stream c)) c.(cseq).

(** A monitor's relay and a tracker in the same state. *)
Record same_state (p : ValidatedProfile) (t : Tracker) (r : relay) : Prop := {
  ss_cursor : Monitor.cursor r = js_cursor <$> Relay.cursor t;
  ss_through : Monitor.through r = Relay.through t;
  ss_caught : caughtUp r = caught_up t;
  ss_valid : forall c, Relay.cursor t = Some c ->
    HASH (Relay.stream c) = true /\ 0 <= c.(cseq) <= Z.of_nat (size (Relay.bonds p)) * 2 }.

(** The receipts an accepted message carries. *)
Definition carried (m : ServerMessage) : list Monitor.receipt :=
  match m with
  | EventMessage e => js_receipt (Relay.receipt e) :: (js_receipt <$> option_list (conflict_with e))
  | _ => []
  end.

Section agree.
Context {ME : MonitorEnv} {RE : RelayEnv} {p : ValidatedProfile} {c : config} {Link : Linked ME RE p c}.

Lemma max_seq_linked : max_seq c = Z.of_nat (size (Relay.bonds p)) * 2.
Proof. unfold max_seq. by rewrite lk_size. Qed.

Lemma max_seq_safe : max_seq c <= 2 ^ 53 - 1.
Proof. rewrite max_seq_linked. pose proof lk_small. unfold MAX_SESSIONS in *. lia. Qed.

Lemma sequence_linked z : safe z -> sequence (Some (JInt z)) (max_seq c) = if z <=? max_seq c then Some z else None.
Proof.
  intros [H1 H2]. unfold sequence. rewrite (proj2 (Z.leb_le z (2^53 - 1))), (proj2 (Z.leb_le 0 z)) by lia. done.
Qed.

Lemma receipt_of_linked r : receipt_ok r -> receipt_of c (Some (receipt_json r)) =
  if bool_decide (outpoint_text r.(rbond) ∈ Monitor.bonds c) then Ok (js_receipt r) else Err "invalid receipt".
Proof.
  intros (H1 & H2 & H3 & H4). unfold receipt_of.
  change (exact (Some (receipt_json r)) _) with true. cbn [ensure mbind result_bind].
  change (get (receipt_json r) "bond") with (Some (JStr (outpoint_text r.(rbond)))).
  change (get (receipt_json r) "txid") with (Some (JStr (txid_text r.(rtxid)))).
  change (get (receipt_json r) "signature") with (Some (JStr (hex_encode r.(rsignature)))). cbv iota beta.
  assert (Hs : SIGNATURE (hex_encode r.(rsignature)) = true).
  { unfold SIGNATURE, hex_pattern. by rewrite hex_encode_length, hex_encode_lower, H4. }
  cbn [test to_string]. rewrite txid_text_HASH, Hs. by destruct (bool_decide _).
Qed.

(** Known bond and good signature, on both sides. *)
Lemma verify_linked r : receipt_ok r ->
  (bool_decide (outpoint_text r.(rbond) ∈ Monitor.bonds c) && verifyReceipt (js_receipt r)) = is_ok (verify p r).
Proof.
  intros Hr. rewrite lk_verify by done. unfold verify. pose proof (lk_bonds r.(rbond) (proj1 Hr)) as Hb.
  destruct (Relay.bonds p !! rbond r) as [b|] eqn:E.
  - rewrite bool_decide_eq_true_2; [done|]. apply Hb. by eexists.
  - by rewrite andb_false_r.
Qed.

Lemma cursor_of_linked cu : safe cu.(cseq) -> cursor_of c (Some (cursor_json cu)) =
  if HASH (Relay.stream cu) && (cu.(cseq) <=? max_seq c) then Ok (js_cursor cu) else Err "invalid cursor".
Proof.
  intros Hs. unfold cursor_of. change (exact (Some (cursor_json cu)) _) with true. cbn [ensure mbind result_bind].
  change (get (cursor_json cu) "stream") with (Some (JStr (Relay.stream cu))).
  change (get (cursor_json cu) "seq") with (Some (JInt cu.(cseq))). cbv iota beta. rewrite sequence_linked by done.
  cbn [test to_string]. destruct (_ <=? _), (HASH _); done.
Qed.

Lemma sameCursor_linked t r cu : same_state p t r ->
  sameCursor (Monitor.cursor r) (js_cursor cu) = bool_decide (Relay.cursor t = Some cu).
Proof.
  intros Hs. rewrite (ss_cursor _ _ _ Hs). destruct (Relay.cursor t) as [[s k]|]; [|done]. destruct cu as [s' k']. cbn.
  destruct (String.eqb_spec s s') as [->|Hne]; cbn.
  - destruct (Z.eqb_spec k k') as [->|Hk]; [by rewrite bool_decide_eq_true_2|].
    rewrite bool_decide_eq_false_2; [done|congruence].
  - rewrite bool_decide_eq_false_2; [done|congruence].
Qed.

(** Both accept and stay in the same state, or both refuse. *)
Definition agrees (m : ServerMessage) (a : result (Tracker * option Receipt))
    (b : option (relay * list Monitor.receipt)) : Prop :=
  match a, b with
  | Ok (t, _), Some (r, rcs) => same_state p t r /\ rcs = carried m
  | Err _, None => True
  | _, _ => False
  end.

Lemma begin_agrees t r pr s from thr : same_state p t r -> message_ok (Begin pr s from thr) ->
  agrees (Begin pr s from thr) (process_inner t (Begin pr s from thr) p) (settle c r (server_json (Begin pr s from thr))).
Proof.
  intros Hs (H1 & H2 & H3). unfold settle, Monitor.process.
  change (is_str (get (server_json _) "type") "begin") with true. cbv iota. unfold process_begin.
  change (exact (Some (server_json _)) _) with true. cbn [ensure mbind result_bind].
  change (get (server_json _) "stream") with (Some (JStr s)). change (get (server_json _) "from") with (Some (JInt from)).
  change (get (server_json _) "through") with (Some (JInt thr)). change (get (server_json _) "profile") with (Some (JStr pr)).
  rewrite !sequence_linked by done. cbn [is_str strict_eqb test to_string]. rewrite lk_profile, (ss_through _ _ _ Hs).
  cbn [process_inner]. rewrite <- max_seq_linked, H1.
  destruct (Relay.through t) as [x|] eqn:Et; [by rewrite bool_decide_eq_true_2|].
  rewrite bool_decide_eq_false_2 by (intros []; done). cbn [orb].
  rewrite (Z.ltb_antisym thr (max_seq c)), (Z.ltb_antisym from thr).
  destruct (Z.leb_spec thr (max_seq c)), (Z.leb_spec from (max_seq c)); cbv iota beta; destruct (String.eqb pr _),
    (HASH s) eqn:Eh, (Z.leb_spec from thr); cbn [negb orb andb ensure mbind result_bind]; try done; try lia.
  rewrite (ss_cursor _ _ _ Hs).
  assert (Hv : same_state p (mkTracker (Some (Relay.mkCursor s from)) false (Some thr))
     (set_sync (Some (Monitor.mkCursor (JStr s) from)) (Some thr) false r)).
  { split; [done..|]. intros cu [= <-]. cbn. rewrite <- max_seq_linked. split; [done|]. destruct H2. lia. }
  destruct (Relay.cursor t) as [cu|]; cbn.
  - destruct (String.eqb _ _), (Z.eqb_spec cu.(cseq) from); cbn; done.
  - destruct (Z.eqb_spec from 0); done.
Qed.

Lemma caught_up_agrees t r cu : same_state p t r -> message_ok (CaughtUp cu) ->
  agrees (CaughtUp cu) (process_inner t (CaughtUp cu) p) (settle c r (server_json (CaughtUp cu))).
Proof.
  intros Hs (H1 & H2). unfold settle, Monitor.process.
  change (is_str (get (server_json _) "type") "begin") with false.
  change (is_str (get (server_json _) "type") "event") with false.
  change (is_str (get (server_json _) "type") "caught_up") with true. cbv iota. unfold process_caught_up.
  change (exact (Some (server_json _)) _) with true. cbn [ensure mbind result_bind].
  change (get (server_json _) "cursor") with (Some (cursor_json cu)). rewrite cursor_of_linked by done.
  cbn [process_inner]. destruct (decide (Relay.cursor t = Some cu)) as [E|E].
  - destruct (ss_valid _ _ _ Hs cu E) as [V1 V2]. rewrite <- max_seq_linked in V2.
    rewrite V1, (proj2 (Z.leb_le _ _) (proj2 V2)). cbn [andb mbind result_bind].
    rewrite (sameCursor_linked t r) by done. rewrite (bool_decide_eq_true_2 _ E), (ss_through _ _ _ Hs), (ss_caught _ _ _ Hs).
    cbn [Monitor.seq js_cursor]. destruct (caught_up t), (bool_decide (Relay.through t = _)); cbn; try done.
    split; [|done]. destruct Hs as [S1 S2 S3 S4]. by split.
  - destruct (_ && _); cbn [mbind result_bind].
    + rewrite (sameCursor_linked t r) by done. rewrite (bool_decide_eq_false_2 _ E).
      rewrite andb_false_r. cbn. by rewrite orb_true_r.
    + rewrite (bool_decide_eq_false_2 _ E). cbn. by rewrite orb_true_r.
Qed.

Lemma heartbeat_agrees t r cu : same_state p t r -> message_ok (Heartbeat cu) ->
  agrees (Heartbeat cu) (process_inner t (Heartbeat cu) p) (settle c r (server_json (Heartbeat cu))).
Proof.
  intros Hs (H1 & H2). unfold settle, Monitor.process.
  change (is_str (get (server_json _) "type") "begin") with false.
  change (is_str (get (server_json _) "type") "event") with false.
  change (is_str (get (server_json _) "type") "caught_up") with false.
  change (is_str (get (server_json _) "type") "heartbeat") with true. cbv iota. unfold process_heartbeat.
  change (exact (Some (server_json _)) _) with true. cbn [ensure mbind result_bind].
  change (get (server_json _) "cursor") with (Some (cursor_json cu)). rewrite cursor_of_linked by done.
  cbn [process_inner]. destruct (decide (Relay.cursor t = Some cu)) as [E|E].
  - destruct (ss_valid _ _ _ Hs cu E) as [V1 V2]. rewrite <- max_seq_linked in V2.
    rewrite V1, (proj2 (Z.leb_le _ _) (proj2 V2)). cbn [andb mbind result_bind].
    rewrite (sameCursor_linked t r) by done. rewrite (bool_decide_eq_true_2 _ E), (ss_caught _ _ _ Hs).
    by destruct (caught_up t).
  - destruct (_ && _); cbn [mbind result_bind].
    + rewrite (sameCursor_linked t r) by done. rewrite (bool_decide_eq_false_2 _ E), andb_false_r. cbn. by rewrite orb_true_r.
    + rewrite (bool_decide_eq_false_2 _ E). cbn. by rewrite orb_true_r.
Qed.

(** The checks of an event before the receipts, on both sides. *)
Lemma event_gap_linked n thr (cu : Cursor) (caught : bool) : safe n ->
  negb (negb (n =? cu.(cseq) + 1) || (max_seq c <? n) || (negb caught && (thr <? n))) =
  (n <=? max_seq c) && ((n =? cu.(cseq) + 1) && (caught || (n <=? thr))).
Proof.
  intros _. rewrite (Z.ltb_antisym n (max_seq c)), (Z.ltb_antisym n thr).
  by destruct (n =? _), (n <=? max_seq c), caught, (n <=? thr).
Qed.

Lemma process_event_linked t r e : same_state p t r -> message_ok (EventMessage e) ->
  process_event c r (server_json (EventMessage e)) =
  match Relay.cursor t, Relay.through t with
  | Some cu, Some thr =>
      if (Relay.seq e <=? max_seq c) && ((Relay.seq e =? cu.(cseq) + 1) && (caught_up t || (Relay.seq e <=? thr))) then
        rc ← receipt_of c (Some (receipt_json (Relay.receipt e)));
        Ok (PVerify (Relay.seq e) rc (Some (match conflict_with e with Some o => receipt_json o | None => JNull end)))
      else Err "event gap"
  | _, _ => Err "event gap"
  end.
Proof.
  intros Hs (H1 & _). unfold process_event. change (exact (Some (server_json _)) _) with true.
  change (get (server_json _) "event") with (Some (event_json e)). cbn [ensure mbind result_bind].
  change (exact (Some (event_json e)) _) with true. cbn [ensure mbind result_bind].
  change (get (event_json e) "seq") with (Some (JInt (Relay.seq e))).
  change (get (event_json e) "receipt") with (Some (receipt_json (Relay.receipt e))).
  change (get (event_json e) "conflict_with") with
    (Some (match conflict_with e with Some o => receipt_json o | None => JNull end)).
  rewrite sequence_linked, (ss_through _ _ _ Hs), (ss_cursor _ _ _ Hs), (ss_caught _ _ _ Hs) by done.
  destruct (Relay.through t), (Relay.cursor t); cbn [fmap option_fmap option_map]; try destruct (Relay.seq e <=? max_seq c); try done.
  cbn [andb js_cursor Monitor.seq]. by destruct (_ && _).
Qed.

(** The receipts of an event, on both sides. *)
Lemma conflict_linked e o : receipt_ok (Relay.receipt e) -> receipt_ok o ->
  (String.eqb (bond (js_receipt o)) (bond (js_receipt (Relay.receipt e))) &&
   negb (strict_eqb (txid (js_receipt o)) (txid (js_receipt (Relay.receipt e))))) =
  negb (negb (bool_decide (o.(rbond) = (Relay.receipt e).(rbond))) || bool_decide (o.(rtxid) = (Relay.receipt e).(rtxid))).
Proof.
  intros (A1 & A2 & _) (B1 & B2 & _). cbn [bond txid js_receipt strict_eqb]. rewrite negb_orb, negb_involutive. f_equal.
  - destruct (String.eqb_spec (outpoint_text (rbond o)) (outpoint_text (rbond (Relay.receipt e)))) as [E|E].
    + apply outpoint_text_inj in E; [|done..]. by rewrite bool_decide_eq_true_2.
    + rewrite bool_decide_eq_false_2; [done|congruence].
  - f_equal. destruct (String.eqb_spec (txid_text (rtxid o)) (txid_text (rtxid (Relay.receipt e)))) as [E|E].
    + apply txid_text_inj in E; [|done..]. by rewrite bool_decide_eq_true_2.
    + rewrite bool_decide_eq_false_2; [done|congruence].
Qed.

Lemma next_state t r cu n rcs : same_state p t r -> Relay.cursor t = Some cu -> 0 <= n <= max_seq c ->
  same_state p (mkTracker (Some (Relay.mkCursor (Relay.stream cu) n)) (caught_up t) (Relay.through t))
    (set_sync (Some (Monitor.mkCursor (JStr (Relay.stream cu)) n)) (Monitor.through r) (caughtUp r) (set_seen rcs r)).
Proof.
  intros [S1 S2 S3 S4] Hc Hn. split; [done|done|done|]. intros cu' [= <-]. cbn. rewrite <- max_seq_linked.
  split; [|done]. by apply S4.
Qed.

Lemma event_agrees t r e : same_state p t r -> message_ok (EventMessage e) ->
  agrees (EventMessage e) (process_inner t (EventMessage e) p) (settle c r (server_json (EventMessage e))).
Proof.
  intros Hs Hm. pose proof Hm as (H1 & H2 & H3). unfold settle, Monitor.process.
  change (is_str (get (server_json _) "type") "begin") with false.
  change (is_str (get (server_json _) "type") "event") with true. cbv iota.
  rewrite (process_event_linked t r e) by done. cbn [process_inner]. rewrite <- max_seq_linked.
  destruct (Relay.cursor t) as [cu|] eqn:Ec; [|done]. destruct (Relay.through t) as [thr|] eqn:Et; [|done].
  rewrite (event_gap_linked _ thr cu) by done. destruct (_ && _) eqn:Eg; cbn [ensure mbind result_bind]; [|done].
  apply andb_prop in Eg as [Eg _]. apply Z.leb_le in Eg.
  rewrite receipt_of_linked by done. pose proof (verify_linked _ H2) as Hv.
  destruct (bool_decide (outpoint_text (rbond (Relay.receipt e)) ∈ _)); cbn [mbind result_bind andb] in *;
    [|by destruct (verify p (Relay.receipt e))].
  rewrite Hv. destruct (verify p (Relay.receipt e)); cbn [is_ok negb mbind result_bind]; [|done].
  rewrite (ss_cursor _ _ _ Hs), Ec. cbn [fmap option_fmap option_map js_cursor Monitor.stream Monitor.seq].
  assert (Hn : forall rcs, same_state p (mkTracker (Some (Relay.mkCursor (Relay.stream cu) (Relay.seq e))) (caught_up t) (Some thr))
    (set_sync (Some (Monitor.mkCursor (JStr (Relay.stream cu)) (Relay.seq e))) (Monitor.through r) (caughtUp r) (set_seen rcs r))).
  { intros rcs. rewrite <- Et. apply next_state; [done|done|]. split; [apply H1|done]. }
  unfold agrees, carried. destruct (conflict_with e) as [o|]; [|exact (conj (Hn _) eq_refl)].
  change (match receipt_json o with JNull => ?a | _ => ?b end) with b. rewrite receipt_of_linked by done.
  pose proof (verify_linked _ H3) as Hv3.
  destruct (bool_decide (outpoint_text (rbond o) ∈ _)); cbn [andb] in *; [|by destruct (verify p o)].
  rewrite (conflict_linked e o), Hv3 by done. destruct (verify p o); cbn [is_ok negb orb mbind result_bind]; [|done].
  rewrite negb_involutive. destruct (_ || _); cbn [ensure negb mbind result_bind]; [done|].
  exact (conj (Hn _) eq_refl).
Qed.

Lemma message_agrees t r m : same_state p t r -> message_ok m ->
  agrees m (process_inner t m p) (settle c r (server_json m)).
Proof.
  intros Hs Hm. destruct m; [by apply begin_agrees|by apply event_agrees|by apply caught_up_agrees|
    by apply heartbeat_agrees|done|done].
Qed.

(** ** A subscription delivered to the monitor *)
(** A text for each message, which fits a frame and parses to its JSON. *)
Definition framed (text : ServerMessage -> string) (m : ServerMessage) : Prop :=
  (String.length (text m) <= Monitor.MAX_FRAME)%nat /\ JSON_parse (text m) = Some (server_json m).

Definition remember_all (rcs : list Monitor.receipt) (e : gmap string (list (json * Monitor.receipt))) :=
  foldl (fun e x => remember_evidence x e) e rcs.
Definition see_all (rcs : list Monitor.receipt) (s : gmap string (list json)) := foldl (fun s x => remember_seen x s) s rcs.

(** Handlers and jobs of relay [i]. *)
Definition about (i : nat) (l : label) : Prop :=
  match l with LMessage j _ _ | LJob j _ => j = i | _ => False end.

Lemma settle_frame r msg r' rcs : settle c r msg = Some (r', rcs) ->
  pending r' = pending r /\ jobs r' = jobs r /\ generation r' = generation r /\ socket r' = socket r /\
  seen r' = see_all rcs (seen r).
Proof.
  unfold settle. destruct (Monitor.process c r msg) as [[r1 ph]|] eqn:Ep; [|done]. intros H.
  destruct (process_phase _ _ _ _ _ Ep) as [-> |(-> & k & rc & conf & ->)].
  { injection H as <- <-. by apply process_sync_form in Ep as (cur & thr & b & ->). }
  destruct (verifyReceipt rc); [|done]. cbn [negb] in H. destruct (Monitor.cursor r) as [cur|]; [|by repeat case_match].
  assert (Hd : forall l, Some (set_sync (Some (Monitor.mkCursor (Monitor.stream cur) k)) (Monitor.through r) (caughtUp r)
     (set_seen (see_all l (seen r)) r), l) = Some (r', rcs) -> pending r' = pending r /\ jobs r' = jobs r /\
     generation r' = generation r /\ socket r' = socket r /\ seen r' = see_all rcs (seen r)) by (by intros l [= <- <-]).
  destruct conf as [[]|]; try (by apply (Hd [rc]));
    (destruct (receipt_of c _) as [o|]; [|done]; destruct (_ || _); [done|]; by apply (Hd [rc; o])).
Qed.

Lemma about_delivery m i r s msg : Forall (about i) (delivery m i r s msg).
Proof. constructor; [done|]. by apply Forall_replicate. Qed.

Lemma feed text ms : forall m i r t t', Forall message_ok ms -> Forall (framed text) ms ->
  cfg m = c -> relays m !! i = Some r -> listening m r -> same_state p t r -> track p t ms = Ok t' ->
  exists ls r', Forall (about i) ls /\
    run ls m = Some (put m i r' (remember_all (concat (carried <$> ms)) (evidence m))) /\
    same_state p t' r' /\ pending r' = 0 /\ socket r' = socket r /\ seen r' = see_all (concat (carried <$> ms)) (seen r) /\
    match ms with [] => r' = r | _ => lastMessage r' = Some (now m) end.
Proof.
  induction ms as [|x ms IH]; intros m i r t t' Hm Hl Hc Hi Hls Hs Ht.
  { injection Ht as <-. exists [], r. pose proof (ls_pending _ _ Hls). split; [done|]. split; [|done].
    cbn. f_equal. unfold put. rewrite list_insert_id by done. by destruct m. }
  apply Forall_cons in Hm as [Hx Hm]. apply Forall_cons in Hl as [[Hlx Hpx] Hl].
  unfold track in Ht. cbn [foldM] in Ht. pose proof (message_agrees t r x Hs Hx) as Ha.
  destruct (process_inner t x p) as [[t1 o]|]; [|done]. cbn [mbind result_bind] in Ht. unfold agrees in Ha.
  destruct (settle c r (server_json x)) as [[r1 rcs]|] eqn:Es; [|done]. destruct Ha as [Hs1 ->].
  pose proof (settle_frame _ _ _ _ Es) as (F1 & F2 & F3 & F4 & F5). rewrite <- Hc in Es.
  pose proof (deliver_message m i r (text x) _ _ _ Hi Hls Hlx Hpx Es) as Hd.
  set (m1 := put _ _ _ _) in Hd. pose proof Hls as [L1 L2 L3 L4 L5].
  destruct (IH m1 i (received (now m) r1) t1 t' Hm Hl) as (ls & r' & R1 & R2 & R3 & R4 & R5 & R6 & R7).
  - done.
  - by eapply put_lookup.
  - split; cbn; [done|by rewrite F4|by rewrite F1|by rewrite F2, F3|done].
  - destruct Hs1 as [S1 S2 S3 S4]. by split.
  - done.
  - exists (delivery m i r (text x) (server_json x) ++ ls), r'. split; [|split; [|split; [|split; [|split; [|split]]]]].
    + apply Forall_app. split; [apply about_delivery|done].
    + rewrite run_app, Hd. cbn [mbind option_bind]. rewrite R2. unfold m1. rewrite put_put. cbn [put evidence].
      rewrite fmap_cons. cbn [concat]. unfold remember_all. by rewrite foldl_app.
    + done.
    + done.
    + rewrite R5. cbn. done.
    + rewrite R6. rewrite fmap_cons. cbn [concat received seen]. unfold see_all in *. by rewrite foldl_app, F5.
    + destruct ms as [|y ms]; [by subst r'|done].
Qed.
End agree.
