(* ===== verification/ForkCheck.v ===== *)
(** * The interpreter check script and its driver

    src/contrib/devtools/preconf-user-bond/scripts/check-fork.mjs, which feeds
    transaction fixtures to a compiled interpreter, and the reading half of
    the driver it compiles, tests/fork_vm.c, whose binary stream the script
    writes.  Processes, paths, JSON text and the interpreter itself are
    arguments. *)

From S2P Require Import Prelude Js.

#[local] Open Scope Z_scope.

(** ** Fixtures *)
(** Byte strings are in hexadecimal. *)
Record input := mkInput {
  i_txid : string; vout : Z; sequence : Z; i_asset : string; i_value : string; i_script : string }.
Record output := mkOutput { o_asset : string; o_value : string; o_script : string }.
Record fixture := mkFixture {
  name : string; program : string; witness : string; cmr : string; control : string; genesis : string; txid : string;
  version : Z; lock_time : Z; inputs : list input; outputs : list output }.

(** ** The stream *)
Definition u32 (n : Z) : result bytes :=
  ensure ((0 <=? n) && (n <=? 0xffffffff)) "ERR_OUT_OF_RANGE";; Ok (le_encode 4 n).

Definition nibble (c : Ascii.ascii) : Z :=
  let d := Z.of_nat (Ascii.nat_of_ascii c) in if d <=? 57 then d - 48 else d - 87.

(** [Buffer.from(h, 'hex')] of a string of digit pairs. *)
Fixpoint from_hex (s : string) : bytes :=
  match s with
  | String a (String b t) => 16 * nibble a + nibble b :: from_hex t
  | _ => []
  end.

Definition is_hex_text (h : string) : bool :=
  Nat.even (String.length h) && forallb is_lower_hex (String.list_ascii_of_string h).

Definition blob (h : string) : result bytes :=
  ensure (is_hex_text h) "The input did not match the regular expression";;
  let b := from_hex h in
  n ← u32 (len b); Ok (n ++ b).

(** [Buffer.concat] of chunks that may throw, in order. *)
Fixpoint chunks (l : list (result bytes)) : result bytes :=
  match l with
  | [] => Ok []
  | r :: t => b ← r; rest ← chunks t; Ok (b ++ rest)
  end.

Definition encode_input (i : input) : list (result bytes) :=
  [blob i.(i_txid); u32 i.(vout); u32 i.(sequence); blob i.(i_asset); blob i.(i_value); blob i.(i_script)].
Definition encode_output (o : output) : list (result bytes) := [blob o.(o_asset); blob o.(o_value); blob o.(o_script)].

Definition encode (f : fixture) : result bytes :=
  chunks (map blob [f.(program); f.(witness); f.(cmr); f.(control); f.(genesis); f.(txid)] ++
          [u32 f.(version); u32 f.(lock_time); u32 (len f.(inputs))] ++
          concat (map encode_input f.(inputs)) ++ [u32 (len f.(outputs))] ++ concat (map encode_output f.(outputs))).

(** ** The driver's reader (tests/fork_vm.c) *)
Definition MAX_BLOB : Z := 1048576.
Definition MAX_IO : Z := 8.

(** What is left of stdin, and [allocation_count]. *)
Record stream := mkStream { stdin : bytes; allocation_count : Z }.

Definition read32 (s : stream) : result (Z * stream) :=
  ensure (4 <=? len s.(stdin)) "truncated integer";;
  Ok (le_decode (take 4 s.(stdin)), mkStream (drop 4 s.(stdin)) s.(allocation_count)).

Definition read_blob (s : stream) : result (bytes * stream) :=
  '(n, s) ← read32 s;
  ensure (negb ((MAX_BLOB <? n) || (100 <=? s.(allocation_count)))) "size limit";;
  ensure (n <=? len s.(stdin)) "truncated blob";;
  Ok (take (Z.to_nat n) s.(stdin), mkStream (drop (Z.to_nat n) s.(stdin)) (s.(allocation_count) + 1)).

Definition fixed (size : Z) (s : stream) : result (bytes * stream) :=
  '(b, s) ← read_blob s; ensure (len b =? size) "wrong fixed field size";; Ok (b, s).

Definition compact_size (n : Z) : Z := if n <? 253 then 1 else if n <=? 65535 then 3 else 5.

Record raw_input := mkRawInput {
  prevTxid : bytes; prevIx : Z; raw_sequence : Z; in_asset : bytes; in_value : bytes; in_script : bytes }.
Record raw_output := mkRawOutput { out_asset : bytes; out_value : bytes; out_script : bytes }.

(** The arguments of the interpreter. *)
Record raw := mkRaw {
  r_program : bytes; r_witness : bytes; scriptCMR : bytes; controlBlock : bytes; r_genesis : bytes; r_txid : bytes;
  r_version : Z; lockTime : Z; r_inputs : list raw_input; r_outputs : list raw_output }.

(** [b[0] == 1] of a fixed field. *)
Definition explicit (b : bytes) : bool := List.hd 0 b =? 1.

Definition read_input (s : stream) : result (raw_input * stream) :=
  '(t, s) ← fixed 32 s; '(ix, s) ← read32 s; '(sq, s) ← read32 s;
  '(a, s) ← fixed 33 s; '(v, s) ← fixed 9 s;
  ensure (negb (negb (explicit a) || negb (explicit v))) "explicit input required";;
  '(sc, s) ← read_blob s; Ok (mkRawInput t ix sq a v sc, s).

Definition read_output (s : stream) : result (raw_output * stream) :=
  '(a, s) ← fixed 33 s; '(v, s) ← fixed 9 s;
  ensure (negb (negb (explicit a) || negb (explicit v))) "explicit output required";;
  '(sc, s) ← read_blob s; Ok (mkRawOutput a v sc, s).

(** [for (i = 0; i < n; ++i)]. *)
Fixpoint read_n {A} (n : nat) (f : stream -> result (A * stream)) (s : stream) : result (list A * stream) :=
  match n with
  | O => Ok ([], s)
  | S n => '(x, s) ← f s; '(xs, s) ← read_n n f s; Ok (x :: xs, s)
  end.

Definition read_fields (s : stream) : result (raw * stream) :=
  '(pr, s) ← read_blob s; '(wi, s) ← read_blob s;
  '(cm, s) ← fixed 32 s; '(co, s) ← fixed 33 s; '(ge, s) ← fixed 32 s; '(tx, s) ← fixed 32 s;
  '(ve, s) ← read32 s; '(lt, s) ← read32 s; '(ni, s) ← read32 s;
  ensure (negb ((ni =? 0) || (MAX_IO <? ni))) "input count";;
  '(ins, s) ← read_n (Z.to_nat ni) read_input s;
  '(no, s) ← read32 s;
  ensure (negb (MAX_IO <? no)) "output count";;
  '(outs, s) ← read_n (Z.to_nat no) read_output s;
  Ok (mkRaw pr wi cm co ge tx ve lt ins outs, s).

Definition read_raw (input_ : bytes) : result raw :=
  '(x, s) ← read_fields (mkStream input_ 0); ensure (bytes_eqb s.(stdin) []) "trailing data";; Ok x.

(** The budget expression, which C evaluates in 32 bits. *)
Definition budget (x : raw) : Z :=
  (50 + 1 + compact_size (len x.(r_program)) + len x.(r_program) +
   compact_size (len x.(r_witness)) + len x.(r_witness) + 1 + 32 + 1 + 33) mod 2^32.

(** [exec] is the interpreter: its error code, or [None] if it could not run.
    The result is what the driver prints; [Err] is an exit with status 2. *)
Definition driver (exec : raw -> Z -> option Z) (input_ : bytes) : result (Z * Z) :=
  x ← read_raw input_;
  match exec x (budget x) with
  | None => Err "interpreter allocation failure"
  | Some e => Ok (e, budget x)
  end.

(** ** The script *)
(** What spawnSync returns: whether [error] is set, the exit status (absent
    after a signal) and stdout. *)
Record spawned := mkSpawned { failed : bool; status : option Z; stdout : string }.

(** The host: processes with their stdin, paths, directories, and JSON.parse on
    the two texts the script reads (the fixtures, a driver's report). *)
Class Host := {
  root : string;
  spawnSync : string -> list string -> option bytes -> spawned;
  realpathSync : string -> option string;
  join : list string -> string;
  mkdirSync : string -> bool;
  parse_fixtures : string -> option (list fixture);
  parse_report : string -> option (Z * Z) }.

Definition is_space (c : Ascii.ascii) : bool :=
  let d := Z.of_nat (Ascii.nat_of_ascii c) in ((9 <=? d) && (d <=? 13)) || (d =? 32).

Fixpoint trim_start (s : string) : string :=
  match s with String c t => if is_space c then trim_start t else s | EmptyString => EmptyString end.

Fixpoint trim_end (s : string) : string :=
  match s with
  | EmptyString => EmptyString
  | String c t => match trim_end t with
                  | EmptyString => if is_space c then EmptyString else String c EmptyString
                  | t' => String c t'
                  end
  end.

(** [s.trim()] on ASCII. *)
Definition trim (s : string) : string := trim_end (trim_start s).

Definition expected : string := "4041a8ba5d9c0870dbe22c188bce28410c10348a".

Definition sources : list string :=
  ["bitstream"; "cmr"; "dag"; "deserialize"; "eval"; "frame"; "jets"; "jets-secp256k1"; "rsort"; "sha256"; "type";
   "typeInference"; "elements/env"; "elements/exec"; "elements/ops"; "elements/elementsJets"; "elements/primitive";
   "elements/cmr"; "elements/txEnv"].

(** ** Mutations *)
(** [s.slice(0, -2)] and [s.endsWith('00')]. *)
Definition slice_end (s : string) : string := String.substring 0 (String.length s - 2) s.
Definition ends_with (suffix s : string) : bool :=
  (String.length suffix <=? String.length s)%nat &&
  String.eqb (String.substring (String.length s - String.length suffix) (String.length suffix) s) suffix.

Fixpoint repeat_string (n : nat) (s : string) : string :=
  match n with O => EmptyString | S n => s +:+ repeat_string n s end.

Definition set_witness (w : string) (f : fixture) : fixture :=
  mkFixture f.(name) f.(program) w f.(cmr) f.(control) f.(genesis) f.(txid) f.(version) f.(lock_time) f.(inputs) f.(outputs).
Definition set_genesis (g : string) (f : fixture) : fixture :=
  mkFixture f.(name) f.(program) f.(witness) f.(cmr) f.(control) g f.(txid) f.(version) f.(lock_time) f.(inputs) f.(outputs).
Definition set_lock_time (n : Z) (f : fixture) : fixture :=
  mkFixture f.(name) f.(program) f.(witness) f.(cmr) f.(control) f.(genesis) f.(txid) f.(version) n f.(inputs) f.(outputs).
Definition set_inputs (l : list input) (f : fixture) : fixture :=
  mkFixture f.(name) f.(program) f.(witness) f.(cmr) f.(control) f.(genesis) f.(txid) f.(version) f.(lock_time) l f.(outputs).
Definition set_outputs (l : list output) (f : fixture) : fixture :=
  mkFixture f.(name) f.(program) f.(witness) f.(cmr) f.(control) f.(genesis) f.(txid) f.(version) f.(lock_time) f.(inputs) l.

(** The assignment to [f.inputs[0]] or [f.outputs[0]]; a TypeError if there is
    none.  A push of a missing element throws when it is encoded. *)
Definition on_input (g : input -> list input -> list input) (f : fixture) : result fixture :=
  match f.(inputs) with [] => Err "TypeError" | i :: t => Ok (set_inputs (g i t) f) end.
Definition on_output (g : output -> list output -> list output) (f : fixture) : result fixture :=
  match f.(outputs) with [] => Err "TypeError" | o :: t => Ok (set_outputs (g o t) f) end.

Definition corrupted_evidence (f : fixture) : result fixture :=
  Ok (set_witness (slice_end f.(witness) +:+ (if ends_with "00" f.(witness) then "01" else "00")) f).
Definition wrong_network (f : fixture) : result fixture := Ok (set_genesis (repeat_string 32 "77") f).
Definition another_bond : fixture -> result fixture :=
  on_input (fun i t => mkInput i.(i_txid) (i.(vout) + 1) i.(sequence) i.(i_asset) i.(i_value) i.(i_script) :: t).
Definition diverted_penalty : fixture -> result fixture := on_output (fun o t => mkOutput o.(o_asset) o.(o_value) "51" :: t).
Definition partial_penalty : fixture -> result fixture :=
  on_output (fun o t => mkOutput o.(o_asset) "010000000000000001" o.(o_script) :: t).
Definition wrong_penalty_asset : fixture -> result fixture :=
  on_output (fun o t => mkOutput ("01" +:+ repeat_string 32 "99") o.(o_value) o.(o_script) :: t).
Definition extra_output : fixture -> result fixture := on_output (fun o t => (o :: t) ++ [o]).
Definition extra_input : fixture -> result fixture := on_input (fun i t => (i :: t) ++ [i]).

Definition mutations : list (string * (fixture -> result fixture)) :=
  [("corrupted evidence", corrupted_evidence); ("wrong network", wrong_network); ("another bond", another_bond);
   ("diverted penalty", diverted_penalty); ("partial penalty", partial_penalty);
   ("wrong penalty asset", wrong_penalty_asset); ("extra output", extra_output); ("extra input", extra_input)].

Definition early_release (f : fixture) : fixture := set_lock_time 1009 f.
Definition disabled_locktime : fixture -> result fixture :=
  on_input (fun i t => mkInput i.(i_txid) i.(vout) 0xffffffff i.(i_asset) i.(i_value) i.(i_script) :: t).

Section script.
Context {H : Host}.

Definition run (command : string) (args : list string) (input_ : option bytes) : result string :=
  let r := spawnSync command args input_ in
  ensure (negb (r.(failed) || negb (bool_decide (r.(status) = Some 0)))) (command +:+ " failed");; Ok r.(stdout).

(** [count] is the number of lines logged so far: label, error and budget. *)
Definition line : Type := string * Z * Z.

Definition check (executable : string) (log : list line) (f : fixture) (pass : bool) (label : string)
    : result (list line) :=
  b ← encode f; s ← run executable [] (Some b);
  match parse_report s with
  | None => Err "SyntaxError"
  | Some (e, bu) => ensure (Bool.eqb (e =? 0) pass) label;; Ok (log ++ [(label, e, bu)])
  end.

Definition check_mutations (executable : string) (penalty : fixture) (log : list line) : result (list line) :=
  foldM (fun log m => f ← m.2 penalty; check executable log f false m.1) log mutations.

Definition check_release (executable : string) (log : list line) (f0 : fixture) : result (list line) :=
  log ← check executable log (early_release f0) false (f0.(name) +:+ ": early release");
  final ← disabled_locktime f0;
  check executable log final false (final.(name) +:+ ": disabled locktime").

Definition checks (executable : string) (vectors : list fixture) : result (list line) :=
  log ← foldM (fun log f => check executable log f true f.(name)) [] vectors;
  match vectors with
  | [] => Err "TypeError"
  | penalty :: rest =>
      log ← check_mutations executable penalty log;
      foldM (check_release executable) log rest
  end.

Definition executable : string := join [join [root; "target"; "fork-vm"]; "verify"].

(** The script, on the arguments after the program's name. *)
Definition script (argv : list string) : result (list line) :=
  ensure ((1 <=? len argv) && (len argv <=? 2)) "Pass node checkout and optional fixture example";;
  let example := default "vectors" (argv !! 1%nat) in
  ensure (String.eqb example "vectors" || String.eqb example "operator_vectors") "unknown fixture example";;
  match realpathSync (nth 0 argv EmptyString) with
  | None => Err "ENOENT"
  | Some node =>
      a ← run "git" ["-C"; node; "rev-parse"; "HEAD:src/simplicity"] None;
      b ← run "git" ["-C"; node; "rev-parse"; expected +:+ ":src/simplicity"] None;
      ensure (String.eqb (trim a) (trim b)) "fork interpreter differs from the pinned baseline";;
      _ ← run "git" ["-C"; node; "diff"; "--exit-code"; "HEAD"; "--"; "src/simplicity"] None;
      ensure (mkdirSync (join [root; "target"; "fork-vm"])) "mkdir failed";;
      _ ← run "cc" (["-std=c11"; "-O2"; "-DPRODUCTION"; "-I"; join [node; "src/simplicity/include"];
                     join [root; "tests/fork_vm.c"]] ++
                    map (fun s => join [node; "src/simplicity"; s +:+ ".c"]) sources ++ ["-o"; executable]) None;
      out ← run "cargo" ["run"; "--locked"; "--quiet"; "--example"; example] None;
      match parse_fixtures out with
      | None => Err "SyntaxError"
      | Some vectors => checks executable vectors
      end
  end.
End script.
