(* ===== verification/ForkTheorems.v ===== *)
(** * Theorems on the interpreter check

    The driver reads back exactly the fixture the script encoded, and the
    script succeeds exactly when the interpreter accepts every vector and
    rejects every mutated one. *)

From S2P Require Import Prelude Js ForkCheck.

#[local] Open Scope Z_scope.

(** ** Reading what was written *)
(** [f] on the bytes [b] gives [v] with [n] allocations if [ok], and fails
    otherwise. *)
Definition reads {A} (f : stream -> result (A * stream)) (b : bytes) (v : A) (n : Z) (ok : bool) : Prop :=
  forall rest k, k + n <= 100 ->
    if ok then f (mkStream (b ++ rest) k) = Ok (v, mkStream rest (k + n))
    else is_ok (f (mkStream (b ++ rest) k)) = false.

Lemma stream_ret {A} (v : A) : reads (fun s => Ok (v, s)) [] v 0 true.
Proof. intros rest k _. by rewrite Z.add_0_r. Qed.

Lemma stream_bind {A B} f (g : A -> stream -> result (B * stream)) b1 b2 v w n1 n2 ok1 ok2 : 0 <= n1 -> 0 <= n2 ->
  reads f b1 v n1 ok1 -> reads (g v) b2 w n2 ok2 ->
  reads (fun s => '(x, s) ← f s; g x s) (b1 ++ b2) w (n1 + n2) (ok1 && ok2).
Proof.
  intros Hn1 Hn2 Hf Hg rest k Hk. rewrite <- app_assoc. specialize (Hf (b2 ++ rest) k ltac:(lia)).
  destruct ok1; cbn [andb].
  - rewrite Hf. cbn [mbind result_bind]. specialize (Hg rest (k + n1) ltac:(lia)).
    by rewrite <- Z.add_assoc in Hg.
  - by destruct (f _) as [[x s]|].
Qed.

Lemma reads_ensure {A} c msg (f : stream -> result (A * stream)) b v n ok :
  (c = true -> reads f b v n ok) -> reads (fun s => ensure c msg;; f s) b v n (c && ok).
Proof.
  intros Hf rest k Hk. destruct c; cbn [andb ensure mbind result_bind]; [by apply Hf|done].
Qed.

(** A failed check, whatever follows. *)
Lemma reads_refused {A} msg (f : stream -> result (A * stream)) b v : reads (fun s => ensure false msg;; f s) b v 0 false.
Proof. by intros rest k _. Qed.

Lemma u32_Ok n b : u32 n = Ok b -> 0 <= n < 2^32 /\ b = le_encode 4 n.
Proof. unfold u32. intros H. inv_ok. bool_simp. split; [lia|done]. Qed.

Lemma reads_u32 n b : u32 n = Ok b -> reads read32 b n 0 true.
Proof.
  intros [Hn ->]%u32_Ok rest k _. unfold read32. cbn [stdin allocation_count].
  rewrite ensure_bind by (apply Z.leb_le; unfold len; rewrite length_app, le_encode_length; lia).
  rewrite take_app_le, drop_app_ge by (rewrite le_encode_length; lia). rewrite le_encode_length, Nat.sub_diag.
  rewrite (take_ge (le_encode 4 n)) by (by rewrite le_encode_length).
  rewrite le_decode_encode by (cbn; lia). by rewrite Z.add_0_r.
Qed.

Definition small (h : string) : bool := len (from_hex h) <=? MAX_BLOB.
Definition fits (size : Z) (h : string) : bool := small h && (len (from_hex h) =? size).

Lemma reads_blob h b : blob h = Ok b -> reads read_blob b (from_hex h) 1 (small h).
Proof.
  unfold blob. intros H. inv_ok. match goal with H : u32 _ = Ok ?x |- _ => rename x into c; rename H into Hu end.
  intros rest k Hk. pose proof (reads_u32 _ _ Hu (from_hex h ++ rest) k) as Hr. cbn in Hr.
  unfold read_blob. rewrite <- app_assoc, Hr by lia. rewrite Z.add_0_r. cbn [mbind result_bind stdin allocation_count].
  unfold small. rewrite (Z.ltb_antisym (len (from_hex h)) MAX_BLOB).
  destruct (len (from_hex h) <=? MAX_BLOB); cbn [negb orb ensure mbind result_bind]; [|done].
  destruct (Z.leb_spec 100 k); [lia|]. cbn [negb ensure mbind result_bind].
  rewrite ensure_bind by (apply Z.leb_le; unfold len; rewrite length_app; lia).
  unfold len. rewrite Nat2Z.id, take_app_length, drop_app_length. done.
Qed.

Lemma reads_fixed size h b : blob h = Ok b -> reads (fixed size) b (from_hex h) 1 (fits size h).
Proof.
  intros Hb. unfold fixed. rewrite <- (app_nil_r b). change 1 with (1 + 0). unfold fits.
  rewrite <- (andb_true_r (_ =? _)).
  eapply stream_bind; [lia|lia|by apply reads_blob|].
  apply reads_ensure. intros _. apply stream_ret.
Qed.

Lemma chunks_cons r t b : chunks (r :: t) = Ok b -> exists b1 b2, r = Ok b1 /\ chunks t = Ok b2 /\ b = b1 ++ b2.
Proof. cbn [chunks]. intros H. inv_ok. eauto. Qed.

Lemma chunks_app l l' b : chunks (l ++ l') = Ok b -> exists b1 b2, chunks l = Ok b1 /\ chunks l' = Ok b2 /\ b = b1 ++ b2.
Proof.
  revert b. induction l as [|r l IH]; intros b Hb; [by exists [], b|]. cbn [app] in Hb.
  apply chunks_cons in Hb as (b1 & b2 & -> & Hb & ->). apply IH in Hb as (b3 & b4 & H3 & H4 & ->).
  exists (b1 ++ b3), b4. cbn [chunks]. rewrite H3. cbn. by rewrite app_assoc.
Qed.

(** ** Inputs and outputs *)
Definition raw_input_of (i : input) : raw_input :=
  mkRawInput (from_hex i.(i_txid)) i.(vout) i.(sequence) (from_hex i.(i_asset)) (from_hex i.(i_value)) (from_hex i.(i_script)).
Definition raw_output_of (o : output) : raw_output :=
  mkRawOutput (from_hex o.(o_asset)) (from_hex o.(o_value)) (from_hex o.(o_script)).

(** What the driver asks of an input, an output and a fixture. *)
Definition input_ok (i : input) : bool :=
  fits 32 i.(i_txid) && (fits 33 i.(i_asset) && (fits 9 i.(i_value) &&
  (explicit (from_hex i.(i_asset)) && explicit (from_hex i.(i_value)) && small i.(i_script)))).
Definition output_ok (o : output) : bool :=
  fits 33 o.(o_asset) && (fits 9 o.(o_value) &&
  (explicit (from_hex o.(o_asset)) && explicit (from_hex o.(o_value)) && small o.(o_script))).

Lemma reads_input i b : chunks (encode_input i) = Ok b -> reads read_input b (raw_input_of i) 4 (input_ok i).
Proof.
  intros H. unfold encode_input in H.
  apply chunks_cons in H as (b1 & c1 & H1 & H & ->). apply chunks_cons in H as (b2 & c2 & H2 & H & ->).
  apply chunks_cons in H as (b3 & c3 & H3 & H & ->). apply chunks_cons in H as (b4 & c4 & H4 & H & ->).
  apply chunks_cons in H as (b5 & c5 & H5 & H & ->). apply chunks_cons in H as (b6 & c6 & H6 & H & ->). injection H as <-.
  unfold input_ok. change 4 with (1 + (0 + (0 + (1 + (1 + (1 + 0)))))). unfold read_input.
  eapply stream_bind; [lia|lia|by apply reads_fixed|].
  change (fits 33 ?a && ?x) with (true && (true && (fits 33 a && x))).
  eapply stream_bind; [lia|lia|by apply reads_u32|]. eapply stream_bind; [lia|lia|by apply reads_u32|].
  eapply stream_bind; [lia|lia|by apply reads_fixed|]. eapply stream_bind; [lia|lia|by apply reads_fixed|].
  rewrite negb_orb, !negb_involutive. apply reads_ensure. intros _. rewrite <- (andb_true_r (small _)).
  eapply stream_bind; [lia|lia|by apply reads_blob|]. apply stream_ret.
Qed.

Lemma reads_output o b : chunks (encode_output o) = Ok b -> reads read_output b (raw_output_of o) 3 (output_ok o).
Proof.
  intros H. unfold encode_output in H.
  apply chunks_cons in H as (b1 & c1 & H1 & H & ->). apply chunks_cons in H as (b2 & c2 & H2 & H & ->).
  apply chunks_cons in H as (b3 & c3 & H3 & H & ->). injection H as <-.
  unfold output_ok. change 3 with (1 + (1 + (1 + 0))). unfold read_output.
  eapply stream_bind; [lia|lia|by apply reads_fixed|]. eapply stream_bind; [lia|lia|by apply reads_fixed|].
  rewrite negb_orb, !negb_involutive. apply reads_ensure. intros _. rewrite <- (andb_true_r (small _)).
  eapply stream_bind; [lia|lia|by apply reads_blob|]. apply stream_ret.
Qed.

Lemma reads_n {A B} (enc : A -> list (result bytes)) (f : stream -> result (B * stream)) (v : A -> B) n ok l : 0 <= n ->
  (forall x b, chunks (enc x) = Ok b -> reads f b (v x) n (ok x)) ->
  forall b, chunks (concat (map enc l)) = Ok b -> reads (read_n (length l) f) b (map v l) (n * len l) (forallb ok l).
Proof.
  intros Hn Hf. induction l as [|x l IH]; intros b Hb.
  { injection Hb as <-. change (n * len []) with (n * 0). rewrite Z.mul_0_r. apply stream_ret. }
  cbn [map concat] in Hb. apply chunks_app in Hb as (b1 & b2 & H1 & H2 & ->).
  replace (n * len (x :: l)) with (n + (n * len l + 0)) by (rewrite len_cons; lia).
  cbn [forallb map length read_n]. pose proof (len_nonneg l).
  eapply stream_bind; [done|nia|by apply Hf|]. rewrite <- (app_nil_r b2), <- (andb_true_r (forallb ok l)).
  eapply stream_bind; [nia|lia|by apply IH|]. apply stream_ret.
Qed.

(** ** Fixtures *)
Definition raw_of (f : fixture) : raw :=
  mkRaw (from_hex f.(program)) (from_hex f.(witness)) (from_hex f.(cmr)) (from_hex f.(control)) (from_hex f.(genesis))
    (from_hex f.(txid)) f.(version) f.(lock_time) (map raw_input_of f.(inputs)) (map raw_output_of f.(outputs)).

Definition io_ok (f : fixture) : bool :=
  negb ((len f.(inputs) =? 0) || (MAX_IO <? len f.(inputs))) && (forallb input_ok f.(inputs) &&
  (negb (MAX_IO <? len f.(outputs)) && forallb output_ok f.(outputs))).
Definition driver_accepts (f : fixture) : bool :=
  small f.(program) && (small f.(witness) && (fits 32 f.(cmr) && (fits 33 f.(control) && (fits 32 f.(genesis) &&
  (fits 32 f.(txid) && io_ok f))))).

(** Allocations of the outputs, and of the inputs and outputs. *)
Definition out_allocs (f : fixture) : Z := if MAX_IO <? len f.(outputs) then 0 else 3 * len f.(outputs).
Definition io_allocs (f : fixture) : Z :=
  if (len f.(inputs) =? 0) || (MAX_IO <? len f.(inputs)) then 0 else 4 * len f.(inputs) + out_allocs f.

Lemma out_allocs_bound f : 0 <= out_allocs f <= 24.
Proof. unfold out_allocs, MAX_IO. pose proof (len_nonneg f.(outputs)). destruct (Z.ltb_spec 8 (len (outputs f))); lia. Qed.

Lemma io_allocs_bound f : 0 <= io_allocs f <= 56.
Proof.
  unfold io_allocs. pose proof (out_allocs_bound f). pose proof (len_nonneg f.(inputs)). unfold MAX_IO.
  destruct (len (inputs f) =? 0); [cbn; lia|]. destruct (Z.ltb_spec 8 (len (inputs f))); cbn; lia.
Qed.

Lemma to_nat_len {A} (l : list A) : Z.to_nat (len l) = length l.
Proof. apply Nat2Z.id. Qed.

Lemma reads_outputs f (mk : list raw_output -> raw) b1 b2 : u32 (len f.(outputs)) = Ok b1 ->
  chunks (concat (map encode_output f.(outputs))) = Ok b2 ->
  reads (fun s => '(no, s) ← read32 s; ensure (negb (MAX_IO <? no)) "output count";;
           '(outs, s) ← read_n (Z.to_nat no) read_output s; Ok (mk outs, s))
    (b1 ++ b2) (mk (map raw_output_of f.(outputs))) (out_allocs f)
    (negb (MAX_IO <? len f.(outputs)) && forallb output_ok f.(outputs)).
Proof.
  intros H1 H2. pose proof (out_allocs_bound f) as Hb. change (out_allocs f) with (0 + out_allocs f).
  rewrite <- (andb_true_l (negb _ && _)). eapply stream_bind; [lia|lia|by apply reads_u32|]. unfold out_allocs in *.
  destruct (MAX_IO <? len (outputs f)); cbn [negb andb]; [apply reads_refused|]. rewrite <- (andb_true_l (forallb _ _)).
  apply reads_ensure. intros _. rewrite to_nat_len, <- (app_nil_r b2), <- (andb_true_r (forallb _ _)), <- (Z.add_0_r (3 * _)).
  eapply stream_bind; [lia|lia| |apply stream_ret]. by apply (reads_n encode_output); [lia|apply reads_output|].
Qed.

Lemma reads_fixture f b : encode f = Ok b -> reads read_fields b (raw_of f) (6 + io_allocs f) (driver_accepts f).
Proof.
  unfold encode. cbn [map app]. intros H.
  apply chunks_cons in H as (b1 & c1 & H1 & H & ->). apply chunks_cons in H as (b2 & c2 & H2 & H & ->).
  apply chunks_cons in H as (b3 & c3 & H3 & H & ->). apply chunks_cons in H as (b4 & c4 & H4 & H & ->).
  apply chunks_cons in H as (b5 & c5 & H5 & H & ->). apply chunks_cons in H as (b6 & c6 & H6 & H & ->).
  apply chunks_cons in H as (b7 & c7 & H7 & H & ->). apply chunks_cons in H as (b8 & c8 & H8 & H & ->).
  apply chunks_cons in H as (b9 & c9 & H9 & H & ->). apply chunks_app in H as (b10 & c10 & H10 & H & ->).
  apply chunks_cons in H as (b11 & b12 & H11 & H12 & ->). pose proof (io_allocs_bound f) as Hb.
  replace (6 + io_allocs f) with (1 + (1 + (1 + (1 + (1 + (1 + (0 + (0 + (0 + io_allocs f))))))))) by lia.
  unfold driver_accepts, read_fields.
  change (fits 32 (txid f) && io_ok f) with (fits 32 (txid f) && (true && (true && (true && io_ok f)))).
  eapply stream_bind; [lia|lia|by apply reads_blob|]. eapply stream_bind; [lia|lia|by apply reads_blob|].
  do 4 (eapply stream_bind; [lia|lia|by apply reads_fixed|]). do 3 (eapply stream_bind; [lia|lia|by apply reads_u32|]).
  unfold io_allocs, io_ok in *. pose proof (out_allocs_bound f).
  destruct (_ || _); cbn [negb andb]; [apply reads_refused|]. pose proof (len_nonneg f.(inputs)).
  rewrite <- (andb_true_l (forallb _ (inputs f) && _)). apply reads_ensure. intros _. rewrite to_nat_len.
  eapply stream_bind; [lia|lia|by apply (reads_n encode_input _ raw_input_of); [lia|apply reads_input|]|].
  by apply (reads_outputs f (mkRaw _ _ _ _ _ _ _ _ _)).
Qed.

Lemma read_raw_encode f b : encode f = Ok b ->
  if driver_accepts f then read_raw b = Ok (raw_of f) else is_ok (read_raw b) = false.
Proof.
  intros Hb. apply reads_fixture in Hb. pose proof (io_allocs_bound f). specialize (Hb [] 0 ltac:(lia)).
  rewrite app_nil_r in Hb. unfold read_raw. destruct (driver_accepts f); [by rewrite Hb|].
  by destruct (read_fields _) as [[x s]|].
Qed.

Lemma compact_size_bound z : 1 <= compact_size z <= 5.
Proof. unfold compact_size. destruct (z <? 253); [lia|]. destruct (z <=? 65535); lia. Qed.

Lemma budget_exact x : len x.(r_program) <= MAX_BLOB -> len x.(r_witness) <= MAX_BLOB ->
  budget x = 118 + compact_size (len x.(r_program)) + len x.(r_program) + compact_size (len x.(r_witness)) + len x.(r_witness).
Proof.
  unfold budget, MAX_BLOB. pose proof (len_nonneg x.(r_program)). pose proof (len_nonneg x.(r_witness)).
  pose proof (compact_size_bound (len x.(r_program))). pose proof (compact_size_bound (len x.(r_witness))).
  generalize dependent (compact_size (len x.(r_program))). generalize dependent (compact_size (len x.(r_witness))).
  generalize dependent (len x.(r_program)). generalize dependent (len x.(r_witness)). intros. rewrite Z.mod_small; lia.
Qed.

(** The driver is the inverse of the script's encoder: on the stream
    written for any fixture it recovers every field exactly, in order and with
    nothing left over, or refuses; and it refuses exactly the fixtures with a
    field of the wrong size, a confidential amount or asset, no input or more
    than eight inputs or outputs.  The 32-bit budget computation of an accepted
    fixture does not wrap. *)
Theorem driver_reads_fixture f b : encode f = Ok b ->
  if driver_accepts f then
    read_raw b = Ok (raw_of f) /\
    budget (raw_of f) = 118 + compact_size (len (from_hex f.(program))) + len (from_hex f.(program)) +
                        compact_size (len (from_hex f.(witness))) + len (from_hex f.(witness))
  else is_ok (read_raw b) = false.
Proof.
  intros Hb. apply read_raw_encode in Hb. destruct (driver_accepts f) eqn:Ea; [|done]. split; [done|].
  apply andb_true_iff in Ea as [E1 Ea]. apply andb_true_iff in Ea as [E2 _]. apply Z.leb_le in E1, E2.
  by apply budget_exact.
Qed.

(** ** The checks *)
Section checks.
Context {H : Host} (exec : raw -> Z -> option Z).

(** The compiled program is the driver around [exec]: it prints a report the
    script can parse, or exits with another status. *)
Definition built : Prop := forall b,
  match driver exec b with
  | Ok r => exists s, spawnSync executable [] (Some b) = mkSpawned false (Some 0) s /\ parse_report s = Some r
  | Err _ => (spawnSync executable [] (Some b)).(status) <> Some 0
  end.

(** The interpreter ran on the transaction of [f] and accepted it or not. *)
Definition judged (f : fixture) (pass : bool) : Prop :=
  is_ok (encode f) = true /\ driver_accepts f = true /\
  exists e, exec (raw_of f) (budget (raw_of f)) = Some e /\ (e =? 0) = pass.

Definition mutated (mutate : fixture -> result fixture) (f : fixture) : Prop :=
  exists g, mutate f = Ok g /\ judged g false.

Hypothesis Hbuilt : built.

Lemma check_spec log f pass label :
  match check executable log f pass label with
  | Ok log' => judged f pass /\ exists l, log' = log ++ [l]
  | Err _ => ~ judged f pass
  end.
Proof.
  unfold check, judged. destruct (encode f) as [b|] eqn:Eb; [|by intros [? _]]. cbn [mbind result_bind].
  pose proof (Hbuilt b) as Hd. pose proof (read_raw_encode f b Eb) as Hr. unfold driver in Hd. unfold run.
  destruct (driver_accepts f).
  - rewrite Hr in Hd. cbn [mbind result_bind] in Hd. destruct (exec _ _) as [e|].
    + destruct Hd as (s & -> & Hs). cbn [failed status stdout]. rewrite bool_decide_eq_true_2 by done.
      cbn [orb negb ensure mbind result_bind]. rewrite Hs.
      destruct (Bool.eqb_spec (e =? 0) pass) as [E|E]; cbn [ensure mbind result_bind].
      * split; [|by eexists]. split; [done|]. split; [done|]. by exists e.
      * intros (_ & _ & e' & [= <-] & E'). done.
    + rewrite bool_decide_eq_false_2 by done. cbn. rewrite orb_true_r. cbn. by intros (_ & _ & e & He & _).
  - assert (Hst : status (spawnSync executable [] (Some b)) <> Some 0) by (by destruct (read_raw b)).
    rewrite bool_decide_eq_false_2 by done. cbn. rewrite orb_true_r. cbn. by intros (_ & ? & _).
Qed.

(** A loop of steps that each succeed exactly when [P] holds, adding [n] lines. *)
Lemma fold_checks {A} (P : A -> Prop) (n : nat) (body : list line -> A -> result (list line)) l :
  (forall log x, match body log x with Ok log' => P x /\ length log' = (length log + n)%nat | Err _ => ~ P x end) ->
  forall log, match foldM body log l with
              | Ok log' => (forall x, x ∈ l -> P x) /\ length log' = (length log + n * length l)%nat
              | Err _ => ~ (forall x, x ∈ l -> P x)
              end.
Proof.
  intros Hbody. induction l as [|x l IH]; intros log; cbn [foldM].
  { split; [by intros x Hx%elem_of_nil|cbn; lia]. }
  pose proof (Hbody log x) as Hx. destruct (body log x) as [log1|].
  - destruct Hx as [Hx Hl]. specialize (IH log1). destruct (foldM body log1 l) as [log2|].
    + destruct IH as [Hp Hn]. split; [|cbn; lia]. intros y [-> |Hy]%elem_of_cons; auto.
    + intros Hall. apply IH. intros y Hy. apply Hall. by right.
  - intros Hall. apply Hx, Hall. left.
Qed.

(** What the whole list of checks asks of the interpreter. *)
Definition all_judged (penalty : fixture) (rest : list fixture) : Prop :=
  (forall f, f ∈ penalty :: rest -> judged f true) /\
  (forall m, m ∈ mutations -> mutated m.2 penalty) /\
  (forall f, f ∈ rest -> judged (early_release f) false /\ mutated disabled_locktime f).

Lemma check_mutated log m f label : match (g ← m f; check executable log g false label) with
  | Ok log' => mutated m f /\ exists l, log' = log ++ [l]
  | Err _ => ~ mutated m f
  end.
Proof.
  destruct (m f) as [g|] eqn:Em; cbn [mbind result_bind].
  - pose proof (check_spec log g false label) as Hc. destruct (check executable log g false label) as [log'|].
    + destruct Hc as [Hj Hl]. split; [by exists g|done].
    + intros (g' & Hg & Hj). rewrite Em in Hg. injection Hg as <-. done.
  - intros (g' & Hg & _). congruence.
Qed.

Lemma check_release_spec log f : match check_release executable log f with
  | Ok log' => (judged (early_release f) false /\ mutated disabled_locktime f) /\ length log' = (length log + 2)%nat
  | Err _ => ~ (judged (early_release f) false /\ mutated disabled_locktime f)
  end.
Proof.
  unfold check_release. set (label := name f +:+ _). pose proof (check_spec log (early_release f) false label) as Hc.
  destruct (check executable log (early_release f) false label) as [log1|]; cbn [mbind result_bind]; [|by intros [? _]].
  destruct Hc as [Hj [l ->]]. destruct (disabled_locktime f) as [g|] eqn:Ed; cbn [mbind result_bind].
  - set (label2 := name g +:+ _). pose proof (check_spec (log ++ [l]) g false label2) as Hc.
    destruct (check executable (log ++ [l]) g false label2) as [log2|].
    + destruct Hc as [Hj2 [l2 ->]]. split; [split; [done|by exists g]|]. rewrite !length_app. cbn. lia.
    + intros [_ (g' & Hg & Hj')]. rewrite Ed in Hg. injection Hg as <-. done.
  - intros [_ (g' & Hg & _)]. congruence.
Qed.

Lemma vector_step log f : match check executable log f true f.(name) with
  | Ok log' => judged f true /\ length log' = (length log + 1)%nat
  | Err _ => ~ judged f true
  end.
Proof.
  pose proof (check_spec log f true f.(name)) as Hc. destruct (check executable log f true (name f)); [|done].
  destruct Hc as [? [l ->]]. by rewrite length_app.
Qed.

Lemma mutation_step penalty log (m : string * (fixture -> result fixture)) :
  match (f ← m.2 penalty; check executable log f false m.1) with
  | Ok log' => mutated m.2 penalty /\ length log' = (length log + 1)%nat
  | Err _ => ~ mutated m.2 penalty
  end.
Proof.
  pose proof (check_mutated log m.2 penalty m.1) as Hc. destruct (_ ≫= _); [|done].
  destruct Hc as [? [l ->]]. by rewrite length_app.
Qed.

Lemma checks_spec vectors : match checks executable vectors with
  | Ok log => exists penalty rest, vectors = penalty :: rest /\ all_judged penalty rest /\
      len log = len vectors + 8 + 2 * len rest
  | Err _ => forall penalty rest, vectors = penalty :: rest -> ~ all_judged penalty rest
  end.
Proof.
  unfold checks. pose proof (fold_checks _ 1 (fun log f => check executable log f true f.(name)) vectors vector_step []) as Hv.
  destruct (foldM _ [] vectors) as [log1|]; cbn [mbind result_bind].
  2: { intros penalty rest -> (Ha & _). done. }
  destruct Hv as [Hv1 Hv2]. destruct vectors as [|penalty rest]; [done|].
  unfold check_mutations.
  pose proof (fold_checks _ 1 (fun log m => f ← m.2 penalty; check executable log f false m.1) mutations
    (mutation_step penalty) log1) as Hm.
  destruct (foldM _ log1 mutations) as [log2|]; cbn [mbind result_bind].
  2: { intros p' r' [= <- <-] (_ & Hb & _). done. }
  destruct Hm as [Hm1 Hm2]. pose proof (fold_checks _ 2 (check_release executable) rest check_release_spec log2) as Hr.
  destruct (foldM _ log2 rest) as [log3|].
  - destruct Hr as [Hr1 Hr2]. exists penalty, rest. split; [done|]. split; [done|].
    change (length mutations) with 8%nat in Hm2. unfold len. cbn in *. lia.
  - intros p' r' [= <- <-] (_ & _ & Hc). done.
Qed.
End checks.

(** With the driver built around an interpreter, the script's checks
    succeed exactly when there is a first vector, the interpreter accepts every
    vector, and it rejects each of the eight mutations of the first vector and
    the early and final variants of each other one; malformed streams, crashes
    and unparsable output never count as a rejection.  The count it prints is
    then the number of vectors plus eight plus two for each after the first. *)
Theorem checks_decide {Hst : Host} exec vectors : built exec ->
  match checks executable vectors with
  | Ok log => exists penalty rest, vectors = penalty :: rest /\ all_judged exec penalty rest /\
      len log = len vectors + 8 + 2 * len rest
  | Err _ => forall penalty rest, vectors = penalty :: rest -> ~ all_judged exec penalty rest
  end.
Proof. intros Hb. by apply checks_spec. Qed.

(**  When the script ends normally, the checkout's interpreter
    directory is the pinned one (same tree id as at the pinned commit, no
    uncommitted change), the driver was compiled from it, and the fixtures of
    one of the two known examples passed all checks. *)
Theorem script_checks_pinned {Hst : Host} exec argv log : built exec -> script argv = Ok log ->
  exists node example a b out penalty rest,
    realpathSync (nth 0 argv EmptyString) = Some node /\ (example = "vectors" \/ example = "operator_vectors") /\
    run "git" ["-C"; node; "rev-parse"; "HEAD:src/simplicity"] None = Ok a /\
    run "git" ["-C"; node; "rev-parse"; expected +:+ ":src/simplicity"] None = Ok b /\ trim a = trim b /\
    is_ok (run "git" ["-C"; node; "diff"; "--exit-code"; "HEAD"; "--"; "src/simplicity"] None) = true /\
    run "cargo" ["run"; "--locked"; "--quiet"; "--example"; example] None = Ok out /\
    parse_fixtures out = Some (penalty :: rest) /\ all_judged exec penalty rest /\ len log = 9 + 3 * len rest.
Proof.
  intros Hb Hs. unfold script in Hs. inv_ok. destruct (realpathSync _) as [node|] eqn:En; [|done]. inv_ok.
  match type of Hs with context [parse_fixtures ?o] => destruct (parse_fixtures o) as [vectors|] eqn:Ef; [|done] end.
  pose proof (checks_spec exec Hb vectors) as Hc. rewrite Hs in Hc. destruct Hc as (penalty & rest & -> & Hj & Hl).
  rewrite len_cons in Hl. bool_simp.
  match goal with H : (_ || _) = true |- _ => apply orb_true_iff in H; rewrite !String.eqb_eq in H end.
  match goal with H : String.eqb _ _ = true |- _ => apply String.eqb_eq in H end.
  do 7 eexists. split; [done|]. split; [eassumption|]. split; [eassumption|]. split; [eassumption|]. split; [done|].
  split; [by match goal with H : run "git" ["-C"; node; "diff"; _; _; _; _] None = _ |- _ => rewrite H end|].
  split; [eassumption|]. split; [eassumption|]. split; [done|lia].
Qed.

(** ** A host with two vectors *)
Module ForkSample.
Definition hex (n : nat) (s : string) : string := repeat_string n s.
Definition asset1 : string := "01" +:+ hex 32 "ab".
Definition value1 : string := "01" +:+ hex 8 "05".
Definition in1 : input := mkInput (hex 32 "cd") 0 5 asset1 value1 "6a".
Definition out1 : output := mkOutput asset1 value1 "52".
Definition penalty : fixture :=
  mkFixture "penalty" "e0" "0b00" (hex 32 "01") (hex 33 "02") (hex 32 "03") (hex 32 "04") 2 0 [in1] [out1].
Definition refund : fixture := set_lock_time 2000 penalty.

#[global] Instance raw_input_eq_dec : EqDecision raw_input.
Proof. solve_decision. Defined.
#[global] Instance raw_output_eq_dec : EqDecision raw_output.
Proof. solve_decision. Defined.
#[global] Instance raw_eq_dec : EqDecision raw.
Proof. solve_decision. Defined.

(** An interpreter that accepts the two transactions. *)
Definition exec (x : raw) (_ : Z) : option Z :=
  Some (if bool_decide (x = raw_of penalty) || bool_decide (x = raw_of refund) then 0 else 1).

Definition zero_digit : Ascii.ascii := Ascii.ascii_of_nat 48.
Definition one_digit : Ascii.ascii := Ascii.ascii_of_nat 49.

Fixpoint pos_text (p : positive) : string :=
  match p with xH => "." | xO p => String zero_digit (pos_text p) | xI p => String one_digit (pos_text p) end.
Fixpoint text_pos (s : string) : option positive :=
  match s with
  | String c t => if Ascii.eqb c zero_digit then xO <$> text_pos t else if Ascii.eqb c one_digit then xI <$> text_pos t else Some xH
  | EmptyString => None
  end.

Lemma text_pos_text p : text_pos (pos_text p) = Some p.
Proof. induction p as [p IH|p IH|]; cbn; [by rewrite IH|by rewrite IH|done]. Qed.

Definition program_path : string := "/r/target/fork-vm/verify".

#[global] Instance host : Host := {
  root := "/r";
  spawnSync command args input_ :=
    if String.eqb command program_path then
      match driver exec (default [] input_) with
      | Ok r => mkSpawned false (Some 0) (pos_text (stdpp.countable.encode r))
      | Err _ => mkSpawned false (Some 2) EmptyString
      end
    else mkSpawned false (Some 0) "tree ";
  realpathSync p := Some p;
  join l := String.concat "/" l;
  mkdirSync _ := true;
  parse_fixtures _ := Some [penalty; refund];
  parse_report s := p ← text_pos s; stdpp.countable.decode p }.

Lemma host_built : built exec.
Proof.
  intros b. change (spawnSync executable [] (Some b)) with
    (match driver exec b with Ok r => mkSpawned false (Some 0) (pos_text (stdpp.countable.encode r)) | Err _ => mkSpawned false (Some 2) EmptyString end).
  destruct (driver exec b) as [r|]; [|done]. eexists. split; [done|]. cbn [parse_report host]. rewrite text_pos_text.
  cbn [mbind option_bind]. apply decode_encode.
Qed.
End ForkSample.

Lemma driver_reads_fixture_witness : exists b, encode ForkSample.penalty = Ok b /\ read_raw b = Ok (raw_of ForkSample.penalty).
Proof.
  destruct (encode ForkSample.penalty) as [b|] eqn:E; [|vm_compute in E; discriminate E].
  pose proof (driver_reads_fixture ForkSample.penalty b E) as H.
  assert (Ha : driver_accepts ForkSample.penalty = true) by (vm_compute; reflexivity).
  rewrite Ha in H. exists b. split; [reflexivity|exact (proj1 H)].
Defined.

Lemma checks_decide_witness : exists log, checks (H := ForkSample.host) executable [ForkSample.penalty; ForkSample.refund] = Ok log /\
  len log = 12 /\ all_judged ForkSample.exec ForkSample.penalty [ForkSample.refund].
Proof.
  pose proof (checks_decide (Hst := ForkSample.host) ForkSample.exec [ForkSample.penalty; ForkSample.refund] ForkSample.host_built) as H.
  destruct (checks executable [ForkSample.penalty; ForkSample.refund]) as [log|] eqn:E; [|vm_compute in E; discriminate E].
  destruct H as (p & r & Hp & Hj & Hl). injection Hp as Hp Hr. subst p r.
  exists log. split; [reflexivity|]. split; [exact Hl|exact Hj].
Defined.

Lemma script_checks_pinned_witness : exists log rest, script (H := ForkSample.host) ["node"] = Ok log /\
  len log = 9 + 3 * len rest /\ all_judged ForkSample.exec ForkSample.penalty rest.
Proof.
  destruct (script (H := ForkSample.host) ["node"]) as [log|] eqn:E; [|vm_compute in E; discriminate E].
  destruct (script_checks_pinned (Hst := ForkSample.host) ForkSample.exec ["node"] log ForkSample.host_built E)
    as (nd & ex & a & b & o & p & rest & _ & _ & _ & _ & _ & _ & _ & Hp & Hj & Hl).
  cbn [parse_fixtures ForkSample.host] in Hp. injection Hp as Hp Hr. subst p rest.
  exists log, [ForkSample.refund]. split; [reflexivity|]. split; [exact Hl|exact Hj].
Defined.
