(* ===== verification/MonitorTheorems.v ===== *)
(** * Theorems on the receipt monitor

    What src/contrib/devtools/preconf-user-bond/client/monitor.mjs guarantees
    to a wallet, on every state reached from the constructor by any sequence
    of browser events, clock readings and verifier answers. *)

From S2P Require Import Prelude Js Monitor MonitorFacts.

#[local] Open Scope Z_scope.

(** An endpoint without credentials or fragment, encrypted or on loopback. *)
Record url_ok (u : url) : Prop := {
  u_plain : u.(username) = EmptyString /\ u.(password) = EmptyString /\ u.(hash) = EmptyString;
  u_scheme : u.(protocol) = "wss:" \/
    (u.(protocol) = "ws:" /\ (u.(hostname) = "127.0.0.1" \/ u.(hostname) = "[::1]")) }.

Section theorems.
Context {Env : MonitorEnv}.

Lemma mapM_result_Ok {A B} (f : A -> result B) l ys : mapM_result f l = Ok ys -> Forall2 (fun x y => f x = Ok y) l ys.
Proof.
  revert ys. induction l as [|x l IH]; intros ys H; cbn in H; [by injection H as <-|].
  inv_ok. constructor; [done|]. by apply IH.
Qed.

Lemma endpoint_Ok v s : endpoint v = Ok s -> exists u, URL v = Some u /\ u.(href) = s /\ url_ok u.
Proof.
  unfold endpoint. intros H. destruct (URL v) as [u|]; [|done]. inv_ok. bool_simp. exists u.
  split; [done|]. split; [done|]. rewrite ?orb_true_iff, ?andb_true_iff, ?orb_true_iff, ?String.eqb_eq in *. by split.
Qed.

(** A configuration the constructor accepts. *)
Record configured (c : config) (us : list string) : Prop := {
  k_profile : HASH c.(profile) = true;
  k_bonds : 1 <= len c.(bonds) <= 128 /\ NoDup c.(bonds);
  k_outpoints : forall b, b ∈ c.(bonds) -> OUTPOINT b = true /\ outpoint_index b <= 0xffffffff;
  k_relays : 2 <= len us <= 8 /\ NoDup us;
  k_urls : forall s, s ∈ us -> exists v u, URL v = Some u /\ u.(href) = s /\ url_ok u;
  k_times : 100 <= c.(staleMs) /\ 10 <= c.(reconnectMs) }.

Lemma constructor_spec p bs us st rc t m : constructor p bs us st rc t = Ok m ->
  cfg m = mkConfig p bs st rc /\ running m = false /\ evidence m = ∅ /\
  exists urls, relays m = map new_relay urls /\ configured (cfg m) urls.
Proof.
  unfold constructor. intros H. inv_ok. bool_simp. cbn [cfg running evidence relays].
  match goal with H : mapM_result _ _ = Ok ?u |- _ => apply mapM_result_Ok in H as HF; rename u into urls end.
  split; [done|]. split; [done|]. split; [done|]. exists urls. split; [done|].
  assert (Hlen := Forall2_length HF). split; cbn [profile bonds staleMs reconnectMs]; try done.
  - intros b Hb. rewrite forallb_forall in *. match goal with H : forall x, In x bs -> _ |- _ => apply list_elem_of_In, H in Hb end.
    by bool_simp.
  - unfold len in *. rewrite <- Hlen. done.
  - intros s [i Hi]%list_elem_of_lookup_1. destruct (Forall2_lookup_r _ _ _ _ _ HF Hi) as (v & _ & Hv).
    exists v. by apply endpoint_Ok.
Qed.

Lemma new_relay_ok c run e u : relay_ok c run e (new_relay u).
Proof.
  split.
  - by split.
  - split; cbn; [by intros j Hj%elem_of_nil|done|unfold MAX_PENDING; lia| |by intros j Hj%elem_of_nil].
    by intros i k a b _ Ha.
  - by split.
  - intros b. cbn. rewrite lookup_empty. split; cbn; [lia|by intros k Hk%elem_of_nil|done|left; set_solver].
Qed.

Lemma constructor_ok p bs us st rc t m : constructor p bs us st rc t = Ok m -> monitor_ok m.
Proof.
  intros (_ & _ & He & urls & Hr & _)%constructor_spec. split; rewrite ?He, ?Hr.
  - intros b. unfold evidence_of. rewrite lookup_empty. split; cbn; [lia|by intros k r Hk%elem_of_nil|done].
  - intros r (u & -> & _)%list_elem_of_fmap. apply new_relay_ok.
Qed.

(** A state some execution reaches. *)
Definition reached (c : config) (us : list string) (t : Z) (m : monitor) : Prop :=
  exists m0 ls, constructor c.(profile) c.(bonds) us c.(staleMs) c.(reconnectMs) t = Ok m0 /\ run ls m0 = Some m.

Lemma reached_ok c us t m : reached c us t m ->
  monitor_ok m /\ cfg m = c /\ configured c (map relay_url (relays m)).
Proof.
  intros (m0 & ls & Hc & Hr). pose proof (constructor_ok _ _ _ _ _ _ _ Hc) as H0.
  destruct (run_invariant _ _ _ H0 Hr) as [Hm [L1 _ L3 L4]].
  apply constructor_spec in Hc as (Ec & _ & _ & urls & Er & Hk).
  assert (E : cfg m = c) by (rewrite L1, Ec; by destruct c). split; [done|]. split; [done|].
  assert (Eu : map relay_url (relays m) = urls); [|rewrite Eu, <- E, L1; done].
  rewrite Er in L3, L4. apply list_eq. intros i. change (map relay_url (relays m)) with (relay_url <$> relays m).
  rewrite list_lookup_fmap. destruct (urls !! i) as [u|] eqn:Eu.
  - destruct (L4 i (new_relay u)) as (r' & H1 & H2 & _).
    { change (map new_relay urls) with (new_relay <$> urls). by rewrite list_lookup_fmap, Eu. }
    rewrite H1. cbn. by rewrite H2.
  - apply lookup_ge_None in Eu. rewrite (lookup_ge_None_2 (relays m)); [done|]. rewrite L3, length_map. done.
Qed.

(** ** Readiness *)
Lemma healthy_spec m r : relay_ok (cfg m) (running m) (evidence m) r -> healthy m r = true ->
  running m = true /\ socket r = Some 1 /\
  (exists cur thr, cursor r = Some cur /\ through r = Some thr /\ thr <= cur.(seq) <= max_seq (cfg m)) /\
  (forall j, j ∈ jobs r -> job_generation j < generation r) /\
  exists t, lastMessage r = Some t /\ 0 <= now m - t < (cfg m).(staleMs).
Proof.
  intros [[S1 S2] [Q1 Q2 Q3 Q4 Q5] _ _] H. unfold healthy in H. bool_simp.
  destruct (lastMessage r) as [t|] eqn:El; [|done]. bool_simp.
  split; [done|]. split; [done|]. split; [|split; [|by exists t]].
  - destruct (through r) as [thr|]; [|congruence]. destruct S2 as (cur & Hc & _ & Hle).
    match goal with H : caughtUp r = true |- _ => rewrite H in Hle end.
    exists cur, thr. split; [done|]. split; [done|]. split; [done|]. by apply S1.
  - intros j Hj. pose proof (Q1 j Hj). destruct (Z.eq_dec (job_generation j) (generation r)) as [E|]; [|lia].
    pose proof (unfinished_pos _ _ _ Hj E). lia.
Qed.

(** C9.  When health() reports monitoringReady, the monitor is running and
    every one of its 2 to 8 relays has an open socket, has replayed its whole
    announced history (the cursor is at or past the synchronization target and
    within two events per bond), has no frame of that connection waiting or
    being verified, and has been heard from within staleMs. *)
Theorem ready_is_synchronized c us t m : reached c us t m -> monitoringReady m = true ->
  2 <= len (relays m) <= 8 /\ forall r, r ∈ relays m ->
    running m = true /\ socket r = Some 1 /\
    (exists cur thr, cursor r = Some cur /\ through r = Some thr /\ thr <= cur.(seq) <= max_seq c) /\
    (forall j, j ∈ jobs r -> job_generation j < generation r) /\
    exists last, lastMessage r = Some last /\ 0 <= now m - last < c.(staleMs).
Proof.
  intros (Hm & <- & Hk)%reached_ok H. split.
  { destruct (k_relays _ _ Hk) as [Hl _]. unfold len in *. by rewrite length_map in Hl. }
  intros r Hr. apply healthy_spec; [by apply Hm|]. unfold monitoringReady in H. rewrite forallb_forall in H.
  by apply H, list_elem_of_In.
Qed.

(** ** Observations *)
Lemma seen_alone c e b tx l : seen_entry_ok c e b l -> evidence_entry_ok c b (evidence_of e b) ->
  (length (evidence_of e b) <= 1)%nat -> JStr tx ∈ l ->
  l = [JStr tx] /\ exists rc, evidence_of e b = [(JStr tx, rc)] /\ txid rc = JStr tx /\ verified c b rc.
Proof.
  intros [H1 _ H3 H4] [_ E2 _] Hl Hin. destruct H4 as [H4|H4]; [|lia].
  pose proof (H4 _ Hin) as Hk. destruct (evidence_of e b) as [|[k rc] [|]]; cbn in Hl; [by apply elem_of_nil in Hk| |lia].
  assert (Hall : forall x, x ∈ l -> x = k) by (intros x Hx; by apply H4, list_elem_of_singleton in Hx).
  pose proof (Hall _ Hin) as <-. split; [|exists rc; split; [done|apply E2; left]].
  destruct l as [|x [|y [|]]]; [by apply elem_of_nil in Hin| | |cbn in H1; lia].
  - by rewrite (Hall x) by left.
  - rewrite (Hall x (list_elem_of_here _ _)), (Hall y (list_elem_of_further _ _ _ (list_elem_of_here _ _))) in H3. cbn in H3. by rewrite String.eqb_refl in H3.
Qed.

Lemma filter_all {A} (P : A -> Prop) `{!forall x, Decision (P x)} (l : list A) :
  length (filter P l) = length l -> forall x, x ∈ l -> P x.
Proof.
  induction l as [|y l IH]; [by intros _ x Hx%elem_of_nil|]. rewrite filter_cons. intros Hlen x Hx.
  case_decide as Hy; cbn in Hlen.
  - apply elem_of_cons in Hx as [-> |Hx]; [done|]. apply IH; [lia|done].
  - pose proof (length_filter P l). lia.
Qed.

(** C3.  If observation(bond, txid) reports no conflict and
    observedEverywhere, then the monitor is ready, every relay has shown
    exactly that transaction for the bond and no other, and the one receipt
    retained as evidence is for that bond and transaction and passed the
    wallet's verifier. *)
Theorem observation_is_safe c us t m b tx o : reached c us t m -> observation m b tx = Ok o ->
  conflicted o = false -> observedEverywhere o = true ->
  b ∈ c.(bonds) /\ o_ready o = true /\ observedOn o = map relay_url (relays m) /\
  (forall r, r ∈ relays m -> healthy m r = true /\ seen_of r b = [JStr tx]) /\
  exists rc, o_evidence o = [rc] /\ bond rc = b /\ txid rc = JStr tx /\ verifyReceipt rc = true.
Proof.
  intros (Hm & <- & Hk)%reached_ok Ho Hnc Hev. unfold observation in Ho. inv_ok. bool_simp. cbn [conflicted observedEverywhere] in *.
  apply Z.ltb_ge in Hnc. apply Z.eqb_eq in Hev. unfold len in Hnc, Hev. rewrite !length_map in *. apply Nat2Z.inj in Hev.
  pose proof (filter_all _ _ Hev) as Hall.
  assert (Hone : forall r, r ∈ relays m -> healthy m r = true /\ seen_of r b = [JStr tx] /\
     exists rc, evidence_of (evidence m) b = [(JStr tx, rc)] /\ txid rc = JStr tx /\ verified (cfg m) b rc).
  { intros r Hr. pose proof (Hall r Hr) as Hb. apply Is_true_true in Hb. bool_simp. split; [done|].
    apply (seen_alone (cfg m) (evidence m) b tx); [apply (m_relays _ Hm r Hr)|apply Hm| |by apply set_has_str].
    unfold receipts_of in Hnc. unfold evidence_of. lia. }
  cbn [o_ready observedOn o_evidence]. split; [done|]. split.
  { unfold monitoringReady. apply forallb_forall. intros r Hr%list_elem_of_In. by apply Hone. }
  split; [|split].
  - f_equal. clear -Hall. induction (relays m) as [|x l IH]; [done|]. rewrite filter_cons, decide_True by (apply Hall; left).
    f_equal. apply IH. intros r Hr. apply Hall. by right.
  - intros r Hr. by destruct (Hone r Hr) as (? & ? & _).
  - destruct (relays m) as [|r rs] eqn:Er.
    { destruct (k_relays _ _ Hk) as [Hl _]. unfold len in Hl. cbn in Hl. lia. }
    destruct (Hone r ltac:(left)) as (_ & _ & rc & He & Ht & _ & Hb & Hv). exists rc.
    unfold receipts_of. unfold evidence_of in He. by rewrite He.
Qed.

(** ** Conflicts and cursors over time *)
Lemma seen_two c e b k1 k2 l1 l2 : seen_entry_ok c e b l1 -> seen_entry_ok c e b l2 -> evidence_entry_ok c b (evidence_of e b) ->
  k1 ∈ l1 -> k2 ∈ l2 -> k1 <> k2 -> length (evidence_of e b) = 2%nat.
Proof.
  intros [_ _ _ [A|A]] [_ _ _ [B|B]] [Hs _ _] H1 H2 Hne; [|done|done|done].
  apply A in H1. apply B in H2. destruct (evidence_of e b) as [|x [|y [|]]]; cbn in *; [by apply elem_of_nil in H1| |done|lia].
  apply list_elem_of_singleton in H1, H2. congruence.
Qed.

(** C10.  As soon as two relays, or one relay twice, have shown
    different transactions for a bond, every observation of that bond reports
    a conflict, then and after any further steps, and keeps as evidence the
    same two receipts: both for the bond, both accepted by the wallet's
    verifier, with different transactions. *)
Theorem conflict_is_final c us t m r1 r2 b k1 k2 : reached c us t m -> r1 ∈ relays m -> r2 ∈ relays m ->
  k1 ∈ seen_of r1 b -> k2 ∈ seen_of r2 b -> k1 <> k2 ->
  exists x y, verified c b x /\ verified c b y /\ strict_eqb (txid x) (txid y) = false /\
  forall ls m' tx o, run ls m = Some m' -> observation m' b tx = Ok o -> conflicted o = true /\ o_evidence o = [x; y].
Proof.
  intros (Hm & <- & _)%reached_ok H1 H2 Hk1 Hk2 Hne. pose proof (m_evidence _ Hm b) as He.
  assert (Hl : length (evidence_of (evidence m) b) = 2%nat).
  { eapply (seen_two (cfg m) (evidence m) b k1 k2); [apply (m_relays _ Hm r1 H1)|apply (m_relays _ Hm r2 H2)|done..]. }
  destruct He as [_ He Hd]. destruct (evidence_of (evidence m) b) as [|[kx x] [|[ky y] [|]]] eqn:Ee; try done.
  destruct (He kx x) as [Ex Hx]; [left|]. destruct (He ky y) as [Ey Hy]; [right; left|]. subst kx ky.
  exists x, y. split; [done|]. split; [done|]. split; [exact Hd|]. intros ls m' tx o Hr Ho.
  destruct (run_invariant _ _ _ Hm Hr) as [_ [_ Hle _ _]]. destruct (Hle b) as [_ Hf]. rewrite Ee in Hf.
  unfold observation in Ho. inv_ok. cbn [conflicted o_evidence]. unfold receipts_of.
  change (default [] (evidence m' !! b)) with (evidence_of (evidence m') b). by rewrite Hf.
Qed.

(** Between any two states of an execution, the relays and the
    configuration stay, a relay's stream never changes, its cursor never goes
    back and never exceeds two events per bond, and no evidence is lost. *)
Theorem cursor_never_goes_back c us t m ls m' i r : reached c us t m -> run ls m = Some m' -> relays m !! i = Some r ->
  cfg m' = c /\ (forall b, (receipts_of m b).*1 ⊆ (receipts_of m' b).*1) /\
  exists r', relays m' !! i = Some r' /\ relay_url r' = relay_url r /\
  forall cur, cursor r = Some cur -> exists cur', cursor r' = Some cur' /\ cur'.(stream) = cur.(stream) /\
    0 <= cur.(seq) <= cur'.(seq) /\ cur'.(seq) <= len c.(bonds) * 2.
Proof.
  intros (Hm & <- & _)%reached_ok Hr Hi. destruct (run_invariant _ _ _ Hm Hr) as [Hm' [L1 L2 _ L4]].
  split; [done|]. split; [intros b; apply L2|]. destruct (L4 i r Hi) as (r' & H1 & H2 & H3). exists r'.
  split; [done|]. split; [done|]. intros cur Hc. rewrite Hc in H3. destruct H3 as (cur' & Hc' & Hs & Hle).
  exists cur'. split; [done|]. split; [done|].
  destruct (m_relays _ Hm r (list_elem_of_lookup_2 _ _ _ Hi)) as [[S _] _ _ _].
  destruct (m_relays _ Hm' r' (list_elem_of_lookup_2 _ _ _ H1)) as [[S' _] _ _ _].
  specialize (S _ Hc). specialize (S' _ Hc'). unfold max_seq in *. rewrite L1 in S'. lia.
Qed.

(** A job of a connection that was lost, or of a stopped monitor, only
    runs to its end: whatever its continuation does, nothing but the relay's
    own list of jobs changes.  In particular a verification that completes
    late neither advances a cursor nor adds evidence. *)
Theorem late_job_is_inert m i k r j m' : relays m !! i = Some r -> jobs r !! k = Some j ->
  current m r (job_generation j) = false -> step (LJob i k) m = Some m' ->
  exists js, m' = with_relays (<[i := set_jobs js r]> (relays m)) m.
Proof.
  intros Hi Hj Hc Hs. cbn [step] in Hs. rewrite Hi, Hj in Hs. destruct (first_of_chain _ _ _); [|done].
  assert (H : exists js, job_step m k j r = (set_jobs js r, evidence m)).
  { unfold job_step, start_job, resume_receipt, resume_other, end_job, fail_job, in_time, finish_event. rewrite Hc. cbn [negb]. destruct (at_phase j) as [|n rc cf|n rc o| |].
    - by eexists.
    - destruct (negb _); [by eexists|].
      assert (Hd : exists js, match receipt_of (cfg m) cf with
        | Ok o => (to_phase k j (PVerifyOther n rc o) r, evidence m) | Err _ => (to_phase k j PFailed r, evidence m) end =
        (set_jobs js r, evidence m)) by (destruct (receipt_of _ _); by eexists).
      destruct cf as [[]|]; try exact Hd. by eexists.
    - destruct (_ || _); by eexists.
    - by eexists.
    - by eexists. }
  destruct H as [js H]. rewrite H in Hs. injection Hs as <-. by exists js.
Qed.

(** ** Termination of the queue *)
(** Continuations a job still has at most. *)
Definition rank (p : phase) : nat :=
  match p with PQueued => 5 | PVerify _ _ _ => 4 | PVerifyOther _ _ _ => 3 | PProcessed => 2 | PFailed => 1 end.

Lemma process_rank c r msg r1 p : process c r msg = Ok (r1, p) -> (rank p < 5)%nat /\ jobs r1 = jobs r.
Proof.
  intros H. unfold process in H. repeat case_match; try done; inv_ok; cbn [rank]; try (split; [lia|]).
  - match goal with H : process_begin _ _ _ = _ |- _ => by apply process_begin_spec in H as (cur & thr & -> & _) end.
  - match goal with H : process_event _ _ _ = _ |- _ => apply process_event_spec in H as (n & rc & cf & -> & _) end.
    cbn. split; [lia|done].
  - match goal with H : process_caught_up _ _ _ = _ |- _ => by apply process_caught_up_spec in H as (cur & -> & _) end.
  - match goal with H : process_heartbeat _ _ _ = _ |- _ => apply process_heartbeat_spec in H as -> end. done.
Qed.

(** A continuation of job [k] ends it or leaves it fewer. *)
Definition progress (k : nat) (j : job) (r r1 : relay) : Prop :=
  jobs r1 = delete k (jobs r) \/
  exists p, (rank p < rank (at_phase j))%nat /\ jobs r1 = <[k := mkJob (job_generation j) (data j) (receivedAt j) p]> (jobs r).

Lemma to_phase_progress k j p r r' : (rank p < rank (at_phase j))%nat -> jobs r' = jobs r ->
  progress k j r (to_phase k j p r').
Proof. intros Hp Er. right. exists p. cbn. by rewrite Er. Qed.

Lemma finish_event_progress m k j n rc other r : (2 < rank (at_phase j))%nat ->
  progress k j r (finish_event m k j n rc other r).1.
Proof.
  intros Hr. unfold finish_event. destruct (current _ _ _); cbn [negb]; [|apply to_phase_progress; [done|done]].
  destruct (cursor r); apply to_phase_progress; cbn; done || lia.
Qed.

Lemma job_step_progress m k j r : progress k j r (job_step m k j r).1.
Proof.
  unfold job_step, start_job, resume_receipt, resume_other, end_job, fail_job, in_time. destruct (at_phase j) as [|n rc cf|n rc o| |] eqn:Ep.
  - destruct (negb _); [by left|].
    assert (Hf : progress k j r (to_phase k j PFailed r)) by (apply to_phase_progress; [rewrite Ep; cbn; lia|done]).
    destruct (negb _); [done|]. destruct (JSON_parse (data j)) as [msg|]; [|done].
    destruct (process (cfg m) r msg) as [[r1 p]|] eqn:E; [|done]. apply process_rank in E as [E1 E2].
    apply to_phase_progress; [by rewrite Ep|done].
  - assert (Hf : forall p, (rank p < 4)%nat -> progress k j r (to_phase k j p r)) by (intros p Hp; apply to_phase_progress; [by rewrite Ep|done]).
    destruct (negb _); [apply Hf; cbn; lia|].
    assert (Hd : progress k j r (match receipt_of (cfg m) cf with
        | Ok o => (to_phase k j (PVerifyOther n rc o) r, evidence m) | Err _ => (to_phase k j PFailed r, evidence m) end).1)
      by (destruct (receipt_of _ _); apply Hf; cbn; lia).
    destruct cf as [[]|]; try exact Hd. apply finish_event_progress. rewrite Ep. cbn. lia.
  - destruct (_ || _); [apply to_phase_progress; [rewrite Ep; cbn; lia|done]|].
    apply finish_event_progress. rewrite Ep. cbn. lia.
  - destruct (negb _); [by left|]. destruct (negb _); [apply to_phase_progress; [rewrite Ep; cbn; lia|done]|by left].
  - left. by destruct (current _ _ _).
Qed.

(** One job at the head of the queue runs to its end. *)
Lemma job_ends m i r j js : relays m !! i = Some r -> jobs r = j :: js ->
  exists n m' r', (n <= rank (at_phase j))%nat /\ run (replicate n (LJob i 0)) m = Some m' /\
    relays m' !! i = Some r' /\ jobs r' = js.
Proof.
  remember (rank (at_phase j)) as k eqn:Ek. revert m r j Ek.
  induction k as [k IH] using lt_wf_ind. intros m r j Ek Hi Hj.
  assert (Hs : step (LJob i 0) m = Some (mkMonitor (cfg m) (running m) (now m)
    (<[i := (job_step m 0 j r).1]> (relays m)) (job_step m 0 j r).2)).
  { cbn [step]. rewrite Hi, Hj. cbn. by destruct (job_step m 0 j r). }
  set (m1 := mkMonitor _ _ _ _ _) in Hs. set (r1 := (job_step m 0 j r).1) in *.
  assert (Hi1 : relays m1 !! i = Some r1) by (apply list_lookup_insert_eq; by eapply lookup_lt_Some).
  destruct (job_step_progress m 0 j r) as [Hd|(p & Hp & Hd)]; fold r1 in Hd; rewrite Hj in Hd; cbn in Hd.
  - exists 1%nat, m1, r1. split; [subst k; destruct (at_phase j); cbn; lia|]. cbn [replicate run]. by rewrite Hs.
  - destruct (IH (rank p) ltac:(lia) m1 r1 (mkJob (job_generation j) (data j) (receivedAt j) p) eq_refl Hi1 Hd) as (n & m' & r' & H1 & H2 & H3 & H4).
    exists (S n), m', r'. split; [lia|]. cbn [replicate run]. by rewrite Hs.
Qed.


(** ** Construction *)
(** C39.  A monitor that the constructor returns pins a 64-digit profile, 1
    to 128 distinct bonds that are outpoints with a 32-bit index, 2 to 8
    distinct relay URLs that are wss or loopback ws without credentials or
    fragment, and timeouts of at least 100 and 10 milliseconds; and every state
    reached from it is well-formed: synchronization, queue, connection,
    evidence and observations of each relay are consistent. *)
Theorem monitor_well_formed c us t m : reached c us t m ->
  cfg m = c /\ configured c (map relay_url (relays m)) /\ monitor_ok m.
Proof. intros (H1 & H2 & H3)%reached_ok. done. Qed.
End theorems.

(** ** A monitor of two relays *)
Module MonitorSample.
Definition rep (n : nat) (s : string) : string := String.concat EmptyString (replicate n s).
Definition prof : string := rep 64 "c".
Definition strm : string := rep 64 "d".
Definition txA : string := rep 64 "a".
Definition txB : string := rep 64 "b".
Definition bond0 : string := rep 64 "0" +:+ ":7".

Definition receipt_of_tx (tx : json) : json :=
  JObj [("bond", JStr bond0); ("txid", tx); ("signature", JStr (rep 128 "e"))].
Definition event_of_tx (tx : json) : json :=
  JObj [("type", JStr "event");
        ("event", JObj [("seq", JInt 1); ("receipt", receipt_of_tx tx); ("conflict_with", JNull)])].

(** A parser for the frames below, and a verifier that accepts receipts whose
    transaction prints as one of the two. *)
#[global] Instance Env : MonitorEnv := {
  JSON_parse s :=
    if String.eqb s "begin" then
      Some (JObj [("type", JStr "begin"); ("profile", JStr prof); ("stream", JStr strm); ("from", JInt 0); ("through", JInt 0)])
    else if String.eqb s "up" then
      Some (JObj [("type", JStr "caught_up"); ("cursor", JObj [("stream", JStr strm); ("seq", JInt 0)])])
    else if String.eqb s "A" then Some (event_of_tx (JStr txA))
    else if String.eqb s "B" then Some (event_of_tx (JStr txB))
    else if String.eqb s "array" then Some (event_of_tx (JArr [JStr txA]))
    else None;
  verifyReceipt r := match to_string (txid r) with Some s => String.eqb s txA || String.eqb s txB | None => false end;
  URL v := Some (mkUrl EmptyString EmptyString EmptyString "wss:" "relay" v) }.

Definition conf : config := mkConfig prof [bond0] 10000 1000.
Definition urls : list string := ["wss://one/"; "wss://two/"].

Definition frame (i : nat) (s : string) (steps : nat) : list label := LMessage i 1 (Some s) :: replicate steps (LJob i 0).
Definition synchronize (i : nat) : list label := LReady i 1 :: LOpen i 1 false :: frame i "begin" 2 ++ frame i "up" 2.

Definition start_at : list label := LStart [] :: synchronize 0 ++ synchronize 1.
Definition execute (ls : list label) : option monitor :=
  match constructor prof [bond0] urls 10000 1000 0 with Ok m => run ls m | Err _ => None end.
Definition after (ls : list label) : monitor := default (mkMonitor conf false 0 [] ∅) (execute ls).

Lemma after_reached ls : match execute ls with Some _ => true | None => false end = true -> reached conf urls 0 (after ls).
Proof.
  unfold after, execute, reached. cbn [profile bonds staleMs reconnectMs conf].
  destruct (constructor prof [bond0] urls 10000 1000 0) as [m0|]; [|done]. intros H.
  exists m0, ls. split; [done|]. by destruct (run ls m0).
Qed.

Definition both_A : list label := start_at ++ frame 0 "A" 3 ++ frame 1 "A" 3.
Definition A_and_B : list label := start_at ++ frame 0 "A" 3 ++ frame 1 "B" 3.
End MonitorSample.

Lemma ready_is_synchronized_witness : monitoringReady (MonitorSample.after MonitorSample.both_A) = true /\
  2 <= len (relays (MonitorSample.after MonitorSample.both_A)) <= 8.
Proof.
  assert (H : monitoringReady (MonitorSample.after MonitorSample.both_A) = true) by (vm_compute; reflexivity).
  split; [exact H|]. refine (proj1 (ready_is_synchronized MonitorSample.conf MonitorSample.urls 0 _ _ H)).
  apply MonitorSample.after_reached. vm_compute. reflexivity.
Defined.

Lemma observation_is_safe_witness : exists o,
  observation (MonitorSample.after MonitorSample.both_A) MonitorSample.bond0 MonitorSample.txA = Ok o /\
  observedOn o = map relay_url (relays (MonitorSample.after MonitorSample.both_A)).
Proof.
  eexists. split; [vm_compute; reflexivity|].
  refine (proj1 (proj2 (proj2 (observation_is_safe MonitorSample.conf MonitorSample.urls 0
    (MonitorSample.after MonitorSample.both_A) MonitorSample.bond0 MonitorSample.txA _ _ _ _ _)))).
  - apply MonitorSample.after_reached. vm_compute. reflexivity.
  - vm_compute. reflexivity.
  - reflexivity.
  - reflexivity.
Defined.

Lemma conflict_is_final_witness : exists x y, strict_eqb (txid x) (txid y) = false /\
  forall ls m' tx o, run ls (MonitorSample.after MonitorSample.A_and_B) = Some m' ->
    observation m' MonitorSample.bond0 tx = Ok o -> o_evidence o = [x; y].
Proof.
  destruct (conflict_is_final MonitorSample.conf MonitorSample.urls 0 (MonitorSample.after MonitorSample.A_and_B)
    (nth 0 (relays (MonitorSample.after MonitorSample.A_and_B)) (new_relay EmptyString))
    (nth 1 (relays (MonitorSample.after MonitorSample.A_and_B)) (new_relay EmptyString)) MonitorSample.bond0
    (JStr MonitorSample.txA) (JStr MonitorSample.txB)) as (x & y & _ & _ & Hd & H).
  - apply MonitorSample.after_reached. vm_compute. reflexivity.
  - vm_compute. left.
  - vm_compute. right. left.
  - vm_compute. left.
  - vm_compute. left.
  - by vm_compute.
  - exists x, y. split; [exact Hd|]. intros ls m' tx o Hr Ho. apply (H ls m' tx o Hr Ho).
Defined.

Module MonitorLate.
Import MonitorSample.
(** Relay 0 is lost while its event waits for the verifier. *)
Definition interrupted : list label := start_at ++ frame 0 "A" 1 ++ [LClose 0 1].
Definition lost : monitor := after interrupted.
Definition relay0 : relay := nth 0 (relays lost) (new_relay EmptyString).
Definition job0 : job := nth 0 (jobs relay0) (mkJob 0 EmptyString 0 PFailed).
End MonitorLate.

Lemma cursor_never_goes_back_witness : exists r', relays (MonitorSample.after MonitorSample.start_at) !! 0%nat = Some r' /\
  relay_url r' = "wss://one/".
Proof.
  destruct (cursor_never_goes_back MonitorSample.conf MonitorSample.urls 0 (MonitorSample.after [])
    MonitorSample.start_at (MonitorSample.after MonitorSample.start_at) 0 (new_relay "wss://one/")) as (_ & _ & r' & H1 & H2 & _).
  - apply MonitorSample.after_reached. vm_compute. reflexivity.
  - vm_compute. reflexivity.
  - vm_compute. reflexivity.
  - exists r'. split; [exact H1|exact H2].
Defined.

Lemma late_job_is_inert_witness : exists m' js, step (LJob 0 0) MonitorLate.lost = Some m' /\
  m' = with_relays (<[0%nat := set_jobs js MonitorLate.relay0]> (relays MonitorLate.lost)) MonitorLate.lost.
Proof.
  destruct (step (LJob 0 0) MonitorLate.lost) as [m'|] eqn:E; [|vm_compute in E; discriminate E].
  destruct (late_job_is_inert MonitorLate.lost 0 0 MonitorLate.relay0 MonitorLate.job0 m') as [js H].
  - vm_compute. reflexivity.
  - vm_compute. reflexivity.
  - vm_compute. reflexivity.
  - exact E.
  - exists m', js. split; [reflexivity|exact H].
Defined.


Lemma monitor_well_formed_witness : monitor_ok MonitorLate.lost.
Proof.
  refine (proj2 (proj2 (monitor_well_formed MonitorSample.conf MonitorSample.urls 0 MonitorLate.lost _))).
  apply MonitorSample.after_reached. vm_compute. reflexivity.
Defined.

(** ** Transaction IDs that are not strings *)
(** The shape checks of [#receipt] convert to a string first, so an array of
    one hexadecimal string passes for a transaction ID.  Maps tell two such
    arrays apart: with a verifier that looks at the text, the same receipt sent
    by two relays is reported as a conflict. *)
Example array_txid_conflicts :
  let m := MonitorSample.after (MonitorSample.start_at ++ MonitorSample.frame 0 "array" 3 ++ MonitorSample.frame 1 "array" 3) in
  match observation m MonitorSample.bond0 MonitorSample.txA with
  | Ok o => conflicted o = true /\ map txid (o_evidence o) = [JArr [JStr MonitorSample.txA]; JArr [JStr MonitorSample.txA]]
  | Err _ => False
  end.
Proof. vm_compute. split; reflexivity. Qed.
