(* ===== verification/RelayTheorems.v ===== *)
(** * Theorems on the evidence relay

    What the store, the journal and the subscriptions of
    src/contrib/devtools/preconf-user-bond/src/relay guarantee, for any
    sequence of requests, write failures and disconnections. *)

From S2P Require Import Prelude Sha256 Transaction Js Relay RelayFacts.

#[local] Open Scope Z_scope.

Section theorems.
Context {Env : RelayEnv}.

(** ** Opening a journal *)
Lemma recover_Ok s e s' : recover s e = Ok s' -> s.(failed) = false -> canonical s.(profile) s.(events) ->
  s' = mkStore s.(profile) s.(store_stream) (s.(events) ++ [e]) s.(journal) false /\ canonical s.(profile) (s.(events) ++ [e]).
Proof.
  intros H Hf Hc. unfold recover in H. rewrite prepare_bare in H by done.
  destruct (prepare _ _) as [[expected st]|] eqn:Ep; [|done]. cbn [mbind result_bind] in H. inv_ok. bool_simp. subst expected.
  rewrite Hf. split; [done|]. apply canonical_app. split; [done|].
  pose proof Ep as (_ & He & -> & _)%prepare_inv. rewrite Ep. do 3 f_equal. by rewrite He.
Qed.

Lemma recover_fold es s s' : foldM recover s es = Ok s' -> s.(failed) = false -> canonical s.(profile) s.(events) ->
  s' = mkStore s.(profile) s.(store_stream) (s.(events) ++ es) s.(journal) false /\ canonical s.(profile) (s.(events) ++ es).
Proof.
  revert s. induction es as [|e es IH]; intros s H Hf Hc; cbn [foldM] in H.
  { injection H as <-. rewrite app_nil_r. split; [|done]. destruct s. cbn in Hf. by subst. }
  destruct (recover s e) as [s1|] eqn:Er; [|done]. cbn [mbind result_bind] in H.
  destruct (recover_Ok _ _ _ Er Hf Hc) as [-> Hc1]. destruct (IH _ H eq_refl Hc1) as [-> Hc2]. cbn in *.
  by rewrite <- app_assoc in *.
Qed.

(** The store of a process that opened its journal. *)
Lemma open_Ok p file fresh o s f : open p file fresh o = (Ok s, f) ->
  s.(profile) = p /\ s.(failed) = false /\ s.(journal) = f /\ canonical p s.(events) /\ valid_stream s.(store_stream) = true.
Proof.
  unfold open. destruct (_ <? _); [done|]. 
  assert (Hfin : forall h rs file', (ensure (negb (negb (h.(version) =? 1) || negb (String.eqb h.(hprofile) p.(id)) ||
      negb (valid_stream h.(hstream)))) "journal/profile mismatch";; foldM recover (mkStore p h.(hstream) [] file' false) rs) = Ok s ->
    s.(profile) = p /\ s.(failed) = false /\ s.(journal) = file' /\ canonical p s.(events) /\ valid_stream s.(store_stream) = true).
  { intros h rs file' H. inv_ok. bool_simp. 
    match goal with H : foldM recover _ _ = _ |- _ => apply recover_fold in H as [-> Hc]; [|done|by intros i e] end. done. }
  destruct file as [|b file'].
  - destruct (append _ _ _) as [[u|] f']; [|done]. intros [= H <-]. exact (Hfin (mkHeader 1 p.(id) (hex_encode fresh)) [] _ H).
  - destruct (negb _); [done|]. destruct (split_lines _) as [|l ls]; [done|]. destruct (header_from_slice l) as [h|]; [|done].
    intros [= H <-]. destruct (read_records ls) as [rs|]; [|done]. exact (Hfin h rs _ H).
Qed.

Lemma open_empty p fresh o s f : open p [] fresh o = (Ok s, f) ->
  exists h, store_ok h s /\ s.(profile) = p /\ s.(events) = [] /\ s.(failed) = false /\ len (header_to_vec h) <= MAX_FRAME.
Proof.
  intros Ho. pose proof (open_Ok _ _ _ _ _ _ Ho) as (_ & _ & Hj & _ & Hv). unfold open in Ho. rewrite (proj2 (Z.ltb_ge _ _)) in Ho by done.
  exists (mkHeader 1 p.(id) (hex_encode fresh)). unfold append in Ho.
  destruct (Z.ltb_spec MAX_FRAME (len (header_to_vec (mkHeader 1 (id p) (hex_encode fresh))))); [done|].
  destruct o; [|done]. injection Ho as Ho <-. inv_ok. bool_simp. cbn [version hprofile hstream] in *.
  split; [|done]. split; cbn [profile store_stream events journal failed]; [by split_and!|done|by intros i e|by intros e He%elem_of_nil|].
  cbn. by rewrite app_nil_r.
Qed.

Definition publishes (s : Store) (l : list (Receipt * io)) : Store := foldl (fun s x => (publish s x.1 x.2).2) s l.

Lemma publish_profile s r o : (publish s r o).2.(profile) = s.(profile) /\ (publish s r o).2.(store_stream) = s.(store_stream).
Proof. pose proof (publish_cases s r o) as H. destruct (publish s r o) as [res s']. by destruct H as (H1 & H2 & _). Qed.

Lemma publishes_ok h l s : store_ok h s -> store_ok h (publishes s l) /\ (publishes s l).(profile) = s.(profile).
Proof.
  revert s. induction l as [|[r o] l IH]; intros s Hs; [done|]. cbn. destruct (IH _ (publish_ok h s r o Hs)) as [H1 H2].
  split; [done|]. etrans; [exact H2|apply publish_profile].
Qed.

Lemma open_keeps_file p file fresh o : file <> [] -> (open p file fresh o).2 = file.
Proof.
  intros Hf. unfold open. destruct (_ <? _); [done|]. destruct file as [|b file]; [done|]. destruct (negb _); [done|].
  destruct (split_lines _); [done|]. by destruct (header_from_slice _).
Qed.

Lemma journal_nonempty h evs : file_of (journal_lines h evs) <> [].
Proof. unfold file_of, journal_lines. cbn. by destruct (header_to_vec h). Qed.


(** ** Bounds *)
Lemma file_len ls k : (forall l, l ∈ ls -> len l <= k) -> len (file_of ls) <= len ls * (k + 1).
Proof.
  unfold file_of. induction ls as [|l ls IH]; intros H; [done|]. cbn [map concat]. rewrite !len_app, (len_cons l ls).
  specialize (IH (fun x Hx => H x (list_elem_of_further _ _ _ Hx))). pose proof (H l (list_elem_of_here _ _)). change (len [NEWLINE]) with 1. nia.
Qed.

(**  However many publications a relay takes, each bond has at most
    two events, the second naming the first as its conflict; a profile of at
    most 128 sessions has at most 256 events; and if its lines are at most
    4000 bytes the journal never outgrows what opening it accepts. *)
Theorem journal_bounded p fresh o s0 f0 l : open p [] fresh o = (Ok s0, f0) -> Z.of_nat (size p.(bonds)) <= MAX_SESSIONS ->
  let s := publishes s0 l in
  head s <= 256 /\
  (forall b, match of_bond b s.(events) with
             | [] => True
             | [e1] => e1.(conflict_with) = None
             | [e1; e2] => e1.(conflict_with) = None /\ e2.(conflict_with) = Some e1.(receipt) /\
                 e2.(receipt).(rtxid) <> e1.(receipt).(rtxid)
             | _ => False
             end) /\
  ((forall e, len (event_to_vec e) <= 4000) -> len s.(journal) <= MAX_JOURNAL).
Proof.
  intros Ho Hsz s. apply open_empty in Ho as (h & Hs0 & Hp & _ & _ & Hh). destruct (publishes_ok h l s0 Hs0) as [Hs Hps].
  fold s in Hs, Hps. rewrite Hp in Hps. destruct Hs as [H1 H2 H3 H4 H5]. rewrite Hps in *.
  pose proof (canonical_bound _ _ H3) as Hb. unfold MAX_SESSIONS in *. split; [unfold head; lia|].
  split; [intros b; by apply (canonical_per_bond p)|]. intros Hl.
  assert (Hfile : forall evs, len evs <= 256 -> len (file_of (journal_lines h evs)) <= MAX_JOURNAL).
  { intros evs He. unfold journal_lines. change (file_of (?a :: ?b)) with ((a ++ [NEWLINE]) ++ file_of b).
    pose proof (file_len (map event_to_vec evs) 4000) as Hf. rewrite !len_app. change (len [NEWLINE]) with 1.
    assert (Hm : len (map event_to_vec evs) = len evs) by (unfold len; by rewrite length_map). rewrite Hm in Hf.
    unfold MAX_FRAME, MAX_JOURNAL in *. enough (len (file_of (map event_to_vec evs)) <= len evs * (4000 + 1)) by lia.
    apply Hf. intros x (e & -> & _)%list_elem_of_fmap. apply Hl. }
  destruct (failed s); [|rewrite H5; apply Hfile; lia].
  destruct H5 as (e & k & -> & _ & Hc). apply canonical_bound in Hc.
  assert (Hle : len (take k (event_to_vec e ++ [NEWLINE])) <= len (event_to_vec e ++ [NEWLINE])) by (unfold len; rewrite length_take; lia).
  pose proof (Hfile (s.(events) ++ [e]) ltac:(lia)) as Hf. rewrite journal_lines_app, len_app in Hf. rewrite len_app. lia.
Qed.

(** ** Subscriptions *)
Lemma hub_opened p file fresh o s0 f0 ls h : open p file fresh o = (Ok s0, f0) -> Forall label_ok ls ->
  hub_run ls (mkHub s0 []) = Some h -> hub_ok h /\ h.(store).(profile) = p.
Proof.
  intros (Hp & _ & _ & Hc & Hv)%open_Ok Hl Hr. rewrite <- Hp in Hc.
  destruct (hub_run_ok ls (mkHub s0 []) h Hl) as [H1 H2]; [|done|by rewrite H2].
  split; cbn; [done|done|by intros b Hb%elem_of_nil].
Qed.

(** C18.  Whatever is published, subscribed and disconnected in whatever
    order, an open subscription of a relay whose journal is available never
    has a gap: the changes queued for it are exactly the events after the last
    one sent, they fit the broadcast channel of a profile of at most 128
    sessions, and the next delivery sends the next event and keeps the
    subscription open.  Everything written to it so far, starting from the
    cursor it asked for, is accepted by a tracker, which ends caught up at the
    last cursor sent. *)
Theorem subscription_without_gap p file fresh o s0 f0 ls h b : open p file fresh o = (Ok s0, f0) ->
  Z.of_nat (size p.(bonds)) <= MAX_SESSIONS -> Forall label_ok ls -> hub_run ls (mkHub s0 []) = Some h ->
  b ∈ h.(subs) -> b.(closed) = false -> h.(store).(failed) = false ->
  b.(changes) = Some <$> drop (Z.to_nat b.(sent).(cseq)) h.(store).(events) /\ len b.(changes) <= CHANNEL /\
  (forall e, h.(store).(events) !! Z.to_nat b.(sent).(cseq) = Some e -> exists b1, deliver b = Some b1 /\
     b1.(closed) = false /\ b1.(out) = b.(out) ++ [EventMessage e] /\ b1.(sent).(cseq) = b.(sent).(cseq) + 1) /\
  exists thr, track p (mkTracker b.(requested) false None) b.(out) = Ok (mkTracker (Some b.(sent)) true (Some thr)).
Proof.
  intros Ho Hsz Hl Hr Hb Hcl Hf. destruct (hub_opened _ _ _ _ _ _ _ _ Ho Hl Hr) as [[Hc Hv Hs] Hp]. rewrite Hp in *.
  destruct (Hs b Hb Hcl) as [S1 S2 (k & S3 & S3') S4]. rewrite (S3' Hf), app_nil_r in S3. rewrite Hp in S4.
  pose proof (canonical_bound _ _ Hc) as Hbd. unfold head in S2. unfold MAX_SESSIONS, CHANNEL in *.
  assert (Hch : len b.(changes) <= 128 * 2) by (rewrite S3; unfold len in *; rewrite length_fmap, length_drop; lia).
  split; [done|]. split; [done|]. split; [|done]. intros e He. pose proof (canonical_seq _ _ _ _ Hc He) as Hq.
  unfold deliver. rewrite (proj2 (Z.ltb_ge _ _)) by (unfold CHANNEL, MAX_SESSIONS; lia).
  rewrite (drop_S _ _ _ He), fmap_cons in S3. rewrite S3, Hq, Z2Nat.id by lia. rewrite Z.eqb_refl. cbn [negb].
  eexists. split; [done|]. by split_and!.
Qed.
End theorems.

(** ** A relay of one bond
    Serialization by binary digits, one number per record. *)
Module RelaySample.
Fixpoint digits (p : positive) : bytes :=
  match p with xH => [50] | xO p => 48 :: digits p | xI p => 49 :: digits p end.

Fixpoint undigits (l : bytes) : option positive :=
  match l with
  | [] => None
  | d :: t => if d =? 50 then match t with [] => Some xH | _ => None end
              else if d =? 48 then xO <$> undigits t
              else if d =? 49 then xI <$> undigits t else None
  end.

Lemma undigits_digits p : undigits (digits p) = Some p.
Proof. induction p as [p IH|p IH|]; cbn; [by rewrite IH|by rewrite IH|done]. Qed.

Lemma digits_line p : digits p <> [] /\ NEWLINE ∉ digits p.
Proof.
  split; [by destruct p|]. unfold NEWLINE. induction p as [p IH|p IH|]; cbn.
  - by apply not_elem_of_cons.
  - by apply not_elem_of_cons.
  - apply not_elem_of_cons. split; [done|]. apply not_elem_of_nil.
Qed.

Definition receipt_tuple (r : Receipt) : Z * Z * Z * list Z := (r.(rbond).(hash), r.(rbond).(n), r.(rtxid), r.(rsignature)).
Definition tuple_receipt (t : Z * Z * Z * list Z) : Receipt :=
  match t with (h, i, x, s) => mkReceipt (mkOutPoint h i) x s end.

#[global] Instance Env : RelayEnv := {
  verify_schnorr _ _ _ := true;
  event_to_vec e := digits (encode (e.(seq), receipt_tuple e.(receipt), receipt_tuple <$> e.(conflict_with)));
  event_from_slice l := p ← undigits l; t ← decode p;
    match t with (k, r, c) => Some (mkEvent k (tuple_receipt r) (tuple_receipt <$> c)) end;
  header_to_vec h := digits (encode (h.(version), h.(hprofile), h.(hstream)));
  header_from_slice l := p ← undigits l; t ← decode p;
    match t with (v, q, s) => Some (mkHeader v q s) end }.

#[global] Instance Laws : SerdeLaws Env.
Proof.
  split.
  - intros [k [[h i] x sg] c]. cbn [event_to_vec event_from_slice Env]. rewrite undigits_digits. cbn [mbind option_bind].
    rewrite decode_encode. cbn. do 2 f_equal. by destruct c as [[[h' i'] x' sg']|].
  - intros [v q s]. cbn [header_to_vec header_from_slice Env]. rewrite undigits_digits. cbn [mbind option_bind].
    by rewrite decode_encode.
  - intros e. apply digits_line.
  - intros h. apply digits_line.
Qed.

Definition outpoint : COutPoint := mkOutPoint 1 0.
Definition bond1 : Bond := mkBond (mkConfig 2 3 [] (mkOutPoint 4 0) 5 6 7 8) [].
Definition prof : ValidatedProfile := mkProfile (hex_encode (replicate 32 1)) {[ outpoint := bond1 ]}.
Definition fresh : bytes := replicate 32 0.
Definition promise (tx : Z) : Receipt := mkReceipt outpoint tx (replicate 64 0).

Definition opened : Store := match (open prof [] fresh IoOk).1 with Ok s => s | Err _ => mkStore prof EmptyString [] [] true end.

Lemma open_sample : exists f, open prof [] fresh IoOk = (Ok opened, f).
Proof. eexists. vm_compute. reflexivity. Qed.

(** A promise, the same again, a conflicting one whose write fails. *)
Definition load : list (Receipt * io) := [(promise 7, IoOk); (promise 7, IoOk); (promise 9, IoError 3)].
Definition labels : list hub_label :=
  [HPublish None (promise 7) IoOk; HSubscribe prof.(id) None; HPublish None (promise 9) IoOk].
Definition hub : Hub := default (mkHub opened []) (hub_run labels (mkHub opened [])).
Definition subscriber : Subscription := nth 0 hub.(subs) (mkSub None (mkCursor EmptyString 0) [] [] true).
End RelaySample.


Lemma journal_bounded_witness : head (publishes RelaySample.opened RelaySample.load) <= 256.
Proof.
  destruct RelaySample.open_sample as [f Hf].
  refine (proj1 (journal_bounded RelaySample.prof RelaySample.fresh IoOk RelaySample.opened f RelaySample.load Hf _)).
  vm_compute. discriminate.
Defined.

Lemma subscription_without_gap_witness : RelaySample.subscriber.(closed) = false /\
  len RelaySample.subscriber.(changes) <= CHANNEL /\ RelaySample.hub.(store).(events) !! 1%nat <> None.
Proof.
  destruct RelaySample.open_sample as [f Hf].
  pose proof (subscription_without_gap RelaySample.prof [] RelaySample.fresh IoOk RelaySample.opened f
    RelaySample.labels RelaySample.hub RelaySample.subscriber Hf) as H.
  destruct H as (_ & H & _).
  - vm_compute. discriminate.
  - repeat constructor.
  - vm_compute. reflexivity.
  - vm_compute. left.
  - vm_compute. reflexivity.
  - vm_compute. reflexivity.
  - split; [vm_compute; reflexivity|]. split; [exact H|]. vm_compute. discriminate.
Defined.
