(* ===== verification/RelayPeer.v ===== *)
(** * Replication between relays (contrib/devtools/preconf-user-bond/src/relay/server.rs)

    A relay keeps a session with each configured peer: it subscribes with the
    cursor of a tracker, publishes the receipts it is sent in its own store, and
    offers its own receipts to the peer.  [peer_session] is a step relation over
    the frames of the socket, the changes of the local hub, the publish timer and
    the loss of the connection; the reconnection loop of [serve] keeps the tracker.
    Two theorems: the cursor only passes events that the local store has, and a
    relay that processes all its peer sent has the peer's evidence. *)

From S2P Require Import Prelude Sha256 Transaction Js Relay RelayFacts RelayTheorems.

Section peer.
Context {Env : RelayEnv}.

(** An open session: receipts to offer, the broadcast receiver, and what was written to the socket. *)
Record Session := mkSession { pending : list Receipt; inbox : list (option Event); written : list Receipt }.

(** The relay with one peer task. *)
Record Node := mkNode { hub : Hub; tracker : Tracker; session : option Session }.

(** The change that [Hub::publish] broadcasts. *)
Definition broadcast (r : result (option Event * (string * Z)) * Store) : list (option Event) :=
  match r with
  | (Ok (Some e, _), _) => [Some e]
  | (Ok (None, _), _) => []
  | (Err _, s) => if s.(failed) then [None] else []
  end.

Definition push_session (l : list (option Event)) (s : Session) : Session := mkSession s.(pending) (s.(inbox) ++ l) s.(written).

Definition node_publish (n : Node) (r : Receipt) (o : io) : result ServerMessage * Node :=
  let '(res, h) := hub_publish n.(hub) r o in
  (res, mkNode h n.(tracker) (push_session (broadcast (publish n.(hub).(store) r o)) <$> n.(session))).

(** The session returns, and the loop of [serve] resets the tracker. *)
Definition end_session (n : Node) : Node := mkNode n.(hub) (disconnected n.(tracker)) None.

Definition with_tracker (n : Node) (t : Tracker) : Node := mkNode n.(hub) t n.(session).

(** [peer_session] up to its loop. *)
Definition peer_connect (n : Node) : Node :=
  match replay n.(hub).(store) None with
  | Err _ => end_session n
  | Ok evs => mkNode n.(hub) n.(tracker) (Some (mkSession (map receipt evs) [] []))
  end.

(** A text frame that decodes to [m]; [o1] and [o2] are the writes of the two publications. *)
Definition peer_message (n : Node) (m : ServerMessage) (o1 o2 : io) : Node :=
  match process n.(tracker) m n.(hub).(store).(profile) with
  | (_, Err _) => end_session n
  | (next, Ok None) => with_tracker n next
  | (next, Ok (Some r)) =>
      match node_publish n r o1 with
      | (Err _, n1) => end_session n1
      | (Ok _, n1) =>
          match m with
          | EventMessage (mkEvent _ _ (Some other)) =>
              match node_publish n1 other o2 with
              | (Err _, n2) => end_session n2
              | (Ok _, n2) => with_tracker n2 next
              end
          | _ => with_tracker n1 next
          end
      end
  end.

(** A change of the local hub. *)
Definition peer_change (n : Node) (s : Session) : option Node :=
  match s.(inbox) with
  | [] => None
  | change :: rest =>
      Some (if CHANNEL <? len s.(inbox) then end_session n
            else match change with
                 | None => end_session n
                 | Some e =>
                     if MAX_SESSIONS * 2 <=? len s.(pending) then end_session n
                     else mkNode n.(hub) n.(tracker) (Some (mkSession (s.(pending) ++ [e.(receipt)]) rest s.(written)))
                 end)
  end.

(** The publish timer. *)
Definition peer_tick (n : Node) (s : Session) : option Node :=
  match s.(pending) with
  | [] => None
  | r :: rest => Some (mkNode n.(hub) n.(tracker) (Some (mkSession rest s.(inbox) (s.(written) ++ [r]))))
  end.

Inductive node_label :=
| NHub (l : hub_label)
| NConnect
| NMessage (m : ServerMessage) (o1 o2 : io)
| NChange
| NTick
| NLost.

(** The change that a step of the other tasks of the hub broadcasts. *)
Definition hub_broadcast (h : Hub) (l : hub_label) : list (option Event) :=
  match l with HPublish _ r o => broadcast (publish h.(store) r o) | _ => [] end.

Definition node_step (l : node_label) (n : Node) : option Node :=
  match l, n.(session) with
  | NHub l, s =>
      h ← hub_step l n.(hub); Some (mkNode h n.(tracker) (push_session (hub_broadcast n.(hub) l) <$> s))
  | NConnect, None => Some (peer_connect n)
  | NMessage m o1 o2, Some _ => Some (peer_message n m o1 o2)
  | NChange, Some s => peer_change n s
  | NTick, Some s => peer_tick n s
  | NLost, Some _ => Some (end_session n)
  | _, _ => None
  end.

(** The event that a step acknowledged: the cursor moved past it. *)
Definition acknowledged (l : node_label) (n n' : Node) : list Event :=
  match l with
  | NMessage (EventMessage e) _ _ => if bool_decide (n'.(tracker).(cursor) = n.(tracker).(cursor)) then [] else [e]
  | _ => []
  end.

Fixpoint node_run (ls : list node_label) (n : Node) : option (Node * list Event) :=
  match ls with
  | [] => Some (n, [])
  | l :: t =>
      n1 ← node_step l n;
      r ← node_run t n1;
      Some (r.1, acknowledged l n n1 ++ r.2)
  end.

(** ** What publishing leaves in the store *)
(** The store has the receipt, or two other ones that conflict. *)
Definition represented (evs : list Event) (r : Receipt) : Prop :=
  (exists e, e ∈ evs /\ e.(receipt).(rbond) = r.(rbond) /\ e.(receipt).(rtxid) = r.(rtxid)) \/
  length (of_bond r.(rbond) evs) = 2%nat.

(** The store holds evidence of two different promises for a bond. *)
Definition conflicting (evs : list Event) (b : COutPoint) : Prop :=
  exists e other, e ∈ evs /\ e.(receipt).(rbond) = b /\ e.(conflict_with) = Some other /\ other.(rbond) = b /\
    other.(rtxid) <> e.(receipt).(rtxid).

Lemma of_bond_mono b evs x : (length (of_bond b evs) <= length (of_bond b (evs ++ x)))%nat.
Proof. unfold of_bond. rewrite list.filter_app, length_app. lia. Qed.

Lemma of_bond_le p evs b : canonical p evs -> (length (of_bond b evs) <= 2)%nat.
Proof. intros Hc. pose proof (canonical_per_bond p evs b Hc). destruct (of_bond b evs) as [|? [|? [|]]]; cbn; [lia..|done]. Qed.

Lemma represented_mono p evs x r : canonical p (evs ++ x) -> represented evs r -> represented (evs ++ x) r.
Proof.
  intros Hc [(e & He & H)|H]; [left; exists e; split; [apply elem_of_app; by left|done]|right].
  pose proof (of_bond_le _ _ r.(rbond) Hc). pose proof (of_bond_mono r.(rbond) evs x). lia.
Qed.

Lemma conflicting_iff p evs b : canonical p evs -> conflicting evs b <-> length (of_bond b evs) = 2%nat.
Proof.
  intros Hc. pose proof (canonical_per_bond p evs b Hc) as Hp. split.
  - intros (e & other & He & Hb & Ho & _). assert (Hin : e ∈ of_bond b evs) by (by apply list_elem_of_filter).
    destruct (of_bond b evs) as [|e1 [|e2 [|]]]; [by apply elem_of_nil in Hin| |done|done].
    apply list_elem_of_singleton in Hin as ->. congruence.
  - intros Hl. destruct (of_bond b evs) as [|e1 [|e2 [|]]] eqn:Eb; try done. destruct Hp as (_ & H2 & Ht).
    assert (Hin : forall e, e ∈ [e1; e2] -> e ∈ evs /\ e.(receipt).(rbond) = b).
    { intros e. rewrite <- Eb. intros [Hb He]%list_elem_of_filter. done. }
    destruct (Hin e1) as [_ B1]; [left|]. destruct (Hin e2) as [I2 B2]; [right; left|].
    exists e2, e1.(receipt). split_and!; done || congruence.
Qed.

(** Two promises of a bond that are represented conflict. *)
Lemma both_conflict p evs r other : canonical p evs -> represented evs r -> represented evs other ->
  other.(rbond) = r.(rbond) -> other.(rtxid) <> r.(rtxid) -> conflicting evs r.(rbond).
Proof.
  intros Hc H1 H2 Hb Ht. apply (conflicting_iff p); [done|]. destruct H1 as [(e1 & I1 & B1 & T1)|H1]; [|done].
  destruct H2 as [(e2 & I2 & B2 & T2)|H2]; [|by rewrite <- Hb].
  assert (J1 : e1 ∈ of_bond r.(rbond) evs) by (by apply list_elem_of_filter).
  assert (J2 : e2 ∈ of_bond r.(rbond) evs) by (apply list_elem_of_filter; split; [congruence|done]).
  pose proof (of_bond_le p evs r.(rbond) Hc). destruct (of_bond r.(rbond) evs) as [|x [|y [|]]]; cbn in *; try lia.
  - by apply elem_of_nil in J1.
  - apply list_elem_of_singleton in J1, J2. congruence.
Qed.

Lemma publish_represents s r o x s' : publish s r o = (Ok x, s') -> represented s'.(events) r.
Proof.
  intros H. unfold publish in H. destruct (prepare s r) as [[[e|] st]|] eqn:Ep; [| |done].
  - destruct (append _ _ _) as [[u|] f]; [|done]. injection H as _ <-. cbn [events].
    assert (Hf : s.(failed) = false) by (unfold prepare in Ep; by destruct (s.(failed))).
    rewrite prepare_bare in Ep by done. apply prepare_inv in Ep as (_ & -> & _). left. eexists. split; [apply elem_of_app; right; left|done].
  - injection H as _ <-. unfold prepare in Ep. apply bind_Ok in Ep as (u & _ & Ep). apply bind_Ok in Ep as (u' & _ & Ep).
    fold (of_bond r.(rbond) s.(events)) in Ep. destruct (list_find _ _) as [[k d]|] eqn:El.
    + apply list_find_Some in El as (Hk & Hx & _). apply list_elem_of_lookup_2, list_elem_of_filter in Hk as [Hb He].
      left. by exists d.
    + right. destruct (of_bond (rbond r) (events s)) as [|e1 [|e2 [|]]]; done.
Qed.

Lemma publish_extends s r o : exists x, (publish s r o).2.(events) = s.(events) ++ x.
Proof.
  pose proof (publish_cases s r o) as H. destruct (publish s r o) as [[[[e|] st]|] s'].
  - destruct H as (_ & _ & _ & _ & E & _). by eexists.
  - destruct H as (_ & _ & ->). exists []. by rewrite app_nil_r.
  - destruct H as (_ & _ & E & _). exists []. by rewrite app_nil_r.
Qed.

(** ** The invariant *)
Definition position (t : Tracker) : Z := match t.(cursor) with Some c => c.(cseq) | None => 0 end.

Definition safe_event (evs : list Event) (p : ValidatedProfile) (e : Event) : Prop :=
  verify p e.(receipt) = Ok tt /\ represented evs e.(receipt) /\
  (e.(conflict_with) <> None -> conflicting evs e.(receipt).(rbond)).

Record node_ok (p : ValidatedProfile) (n : Node) (seen : list Event) : Prop := {
  node_hub : hub_ok n.(hub);
  node_profile : n.(hub).(store).(profile) = p;
  node_position : position n.(tracker) = len seen;
  node_seq : forall k e, seen !! k = Some e -> e.(seq) = Z.of_nat k + 1;
  node_safe : forall e, e ∈ seen -> safe_event n.(hub).(store).(events) p e }.

Definition node_label_ok (l : node_label) : Prop := match l with NHub l => label_ok l | _ => True end.

Lemma safe_event_mono evs x p e : canonical p evs -> canonical p (evs ++ x) -> safe_event evs p e -> safe_event (evs ++ x) p e.
Proof.
  intros Hc Hc' (H1 & H2 & H3). split_and!; [done|by apply (represented_mono p)|]. intros Ho.
  specialize (H3 Ho). apply (conflicting_iff p) in H3; [|done]. apply (conflicting_iff p); [done|].
  pose proof (of_bond_le _ _ e.(receipt).(rbond) Hc'). pose proof (of_bond_mono e.(receipt).(rbond) evs x). lia.
Qed.

(** Steps that keep the cursor and only append to the store. *)
Lemma node_ok_extend p n n' seen x : node_ok p n seen -> hub_ok n'.(hub) -> n'.(hub).(store).(profile) = p ->
  n'.(hub).(store).(events) = n.(hub).(store).(events) ++ x -> n'.(tracker).(cursor) = n.(tracker).(cursor) -> node_ok p n' seen.
Proof.
  intros [H1 H2 H3 H4 H5] Hh Hp He Ht. split; try done.
  - unfold position in *. by rewrite Ht.
  - intros e Hin. rewrite He. destruct H1 as [Hc _ _]. destruct Hh as [Hc' _ _]. rewrite H2 in Hc. rewrite Hp, He in Hc'.
    apply safe_event_mono; [done|done|by apply H5].
Qed.

Lemma node_publish_spec n r o : let '(res, n') := node_publish n r o in
  hub_ok n.(hub) -> hub_ok n'.(hub) /\ n'.(hub).(store).(profile) = n.(hub).(store).(profile) /\ n'.(tracker) = n.(tracker) /\
  (exists x, n'.(hub).(store).(events) = n.(hub).(store).(events) ++ x) /\
  (is_ok res = true -> represented n'.(hub).(store).(events) r).
Proof.
  unfold node_publish. pose proof (hub_publish_ok n.(hub) r o) as Hh. pose proof (publish_extends n.(hub).(store) r o) as [x Hx].
  pose proof (publish_represents n.(hub).(store) r o) as Hr. unfold hub_publish in *.
  destruct (publish (store (hub n)) r o) as [[[[e|] [st k]]|msg] s'] eqn:Ep; cbn [snd] in *; intros H; destruct (Hh H) as [H1 H2];
    (split_and!; [exact H1|exact H2|done|by exists x|]); intros Hok; try done; by eapply Hr.
Qed.

Lemma hub_step_extends l h h' : hub_step l h = Some h' -> exists x, h'.(store).(events) = h.(store).(events) ++ x.
Proof.
  assert (Hsame : forall h : Hub, exists x, h.(store).(events) = h.(store).(events) ++ x) by (intros; exists []; by rewrite app_nil_r).
  destruct l as [[i|] r o|pr cur|i|i|i]; cbn [hub_step].
  - destruct (open_sub h i); [|done]. cbn [mbind option_bind]. pose proof (publish_extends h.(store) r o) as [x Hx].
    unfold hub_publish. destruct (publish _ r o) as [[[e [st k]]|msg] s']; cbn [snd] in Hx; intros [= <-]; by exists x.
  - pose proof (publish_extends h.(store) r o) as [x Hx]. unfold hub_publish.
    destruct (publish _ r o) as [[[e [st k]]|msg] s']; cbn [snd] in Hx; intros [= <-]; by exists x.
  - destruct (subscribe _ _ _); intros [= <-]; apply (Hsame h).
  - destruct (open_sub h i) as [b|]; [|done]. cbn [mbind option_bind]. destruct (deliver b); [|done]. intros [= <-]. apply (Hsame h).
  - destruct (open_sub h i); [|done]. intros [= <-]. apply (Hsame h).
  - destruct (open_sub h i); [|done]. intros [= <-]. apply (Hsame h).
Qed.

(** What the tracker says of a message that it accepts. *)
Lemma process_inner_cases t m p t' r : process_inner t m p = Ok (t', r) ->
  match m with
  | EventMessage e => r = Some e.(receipt) /\ e.(seq) = position t + 1 /\ position t' = e.(seq) /\ t.(cursor) <> None /\
      t'.(cursor) <> t.(cursor) /\ verify p e.(receipt) = Ok tt /\
      (forall other, e.(conflict_with) = Some other ->
         other.(rbond) = e.(receipt).(rbond) /\ other.(rtxid) <> e.(receipt).(rtxid) /\ verify p other = Ok tt)
  | _ => r = None /\ position t' = position t
  end.
Proof.
  intros H. destruct m as [pr st from thr|e|c|c|q st|reason]; cbn [process_inner] in H.
  - apply bind_Ok in H as ([] & _ & H). apply bind_Ok in H as ([] & Hc & H). injection H as <- <-. split; [done|].
    unfold position. cbn [cursor cseq]. destruct (cursor t) as [c|]; apply ensure_Ok in Hc; bool_simp; lia.
  - unfold position. destruct (cursor t) as [c|] eqn:Ec; [|done]. destruct (through t) as [thr|]; [|done].
    apply bind_Ok in H as ([] & H1 & H). apply bind_Ok in H as ([] & H2 & H). apply bind_Ok in H as ([] & H3 & H).
    injection H as <- <-. apply ensure_Ok in H1. bool_simp. cbn [cursor cseq]. split_and!; try done.
    + intros [= E]. apply (f_equal cseq) in E. cbn in E. lia.
    + intros other Ho. rewrite Ho in H3. apply bind_Ok in H3 as ([] & V & H3). apply ensure_Ok in H3. bool_simp. by split_and!.
  - apply bind_Ok in H as ([] & _ & H). by injection H as <- <-.
  - apply bind_Ok in H as ([] & _ & H). by injection H as <- <-.
  - by injection H as <- <-.
  - done.
Qed.

Lemma node_ok_same p n n' seen : node_ok p n seen -> n'.(hub) = n.(hub) -> position n'.(tracker) = position n.(tracker) ->
  node_ok p n' seen.
Proof. intros [H1 H2 H3 H4 H5] Hh Ht. split; rewrite ?Hh, ?Ht; done. Qed.

Lemma acknowledged_same l n n' : n'.(tracker).(cursor) = n.(tracker).(cursor) -> acknowledged l n n' = [].
Proof. intros H. destruct l as [| |[]| | |]; try done. cbn. by rewrite bool_decide_eq_true_2. Qed.

Lemma node_ok_end p n seen : node_ok p n seen -> node_ok p (end_session n) seen.
Proof. intros H. by apply (node_ok_same p n). Qed.

(** An event that was published here is acknowledged. *)
Lemma node_ok_ack p n n' seen e t : node_ok p n seen -> hub_ok n'.(hub) -> n'.(hub).(store).(profile) = p ->
  (exists x, n'.(hub).(store).(events) = n.(hub).(store).(events) ++ x) -> e.(seq) = position n.(tracker) + 1 ->
  position t = e.(seq) -> safe_event n'.(hub).(store).(events) p e -> node_ok p (with_tracker n' t) (seen ++ [e]).
Proof.
  intros H Hh Hp [x Hx] Hs Ht He. pose proof (node_ok_extend p n (mkNode n'.(hub) n.(tracker) n'.(session)) seen x H Hh Hp Hx eq_refl) as [H1 H2 H3 H4 H5].
  cbn [hub tracker] in *. split; cbn [with_tracker hub tracker]; [done|done| | |].
  - rewrite Ht, Hs, H3, len_app. done.
  - intros k e' Hk. apply lookup_app_Some in Hk as [Hk|[Hk1 Hk2]]; [by apply H4|].
    destruct (k - length seen)%nat eqn:Ek; [|done]. cbn in Hk2. injection Hk2 as <-. rewrite Hs, H3. unfold len. lia.
  - intros e' [Hin| ->%list_elem_of_singleton]%elem_of_app; [by apply H5|done].
Qed.

Lemma peer_message_ok p n m o1 o2 seen : node_ok p n seen ->
  node_ok p (peer_message n m o1 o2) (seen ++ acknowledged (NMessage m o1 o2) n (peer_message n m o1 o2)).
Proof.
  intros H. assert (Hend : forall n', node_ok p n' seen -> n'.(tracker) = n.(tracker) ->
    node_ok p (end_session n') (seen ++ acknowledged (NMessage m o1 o2) n (end_session n'))).
  { intros n' Hn' Et. rewrite acknowledged_same, app_nil_r by (cbn; by rewrite Et). by apply node_ok_end. }
  unfold peer_message. pose proof (node_profile _ _ _ H) as Ep. rewrite Ep. unfold process.
  destruct (process_inner (tracker n) m p) as [[next r]|err] eqn:Em; [|by apply Hend].
  pose proof (process_inner_cases _ _ _ _ _ Em) as Hm. destruct m as [pr st from thr|e|c|c|q st|reason].
  2: { destruct Hm as (-> & Hq & Hq' & Hc & Hne & Hv & Ho). pose proof (node_publish_spec n (receipt e) o1) as S1.
       destruct (node_publish n (receipt e) o1) as [res1 n1]. destruct (S1 (node_hub _ _ _ H)) as (Hh1 & Hp1 & Ht1 & Hx1 & Hr1).
       assert (H1 : node_ok p n1 seen) by (destruct Hx1 as [x Hx1]; apply (node_ok_extend p n n1 seen x); congruence).
       destruct res1 as [msg|err]; [|by apply Hend]. specialize (Hr1 eq_refl).
       assert (Hack : forall n', acknowledged (NMessage (EventMessage e) o1 o2) n (with_tracker n' next) = [e]).
       { intros n'. cbn. by rewrite bool_decide_eq_false_2. }
       destruct e as [sq r [other|]]; cbn [receipt seq conflict_with] in *.
       - pose proof (node_publish_spec n1 other o2) as S2. destruct (node_publish n1 other o2) as [res2 n2].
         destruct (S2 Hh1) as (Hh2 & Hp2 & Ht2 & Hx2 & Hr2).
         assert (H2 : node_ok p n2 seen) by (destruct Hx2 as [x Hx2]; apply (node_ok_extend p n1 n2 seen x); congruence).
         destruct res2 as [msg'|err']; [|by apply Hend; congruence]. specialize (Hr2 eq_refl). rewrite Hack.
         destruct (Ho other eq_refl) as (Hob & Hot & _). assert (Ep2 : n2.(hub).(store).(profile) = p) by congruence.
         pose proof (ho_canonical _ Hh2) as Hc2. rewrite Ep2 in Hc2.
         assert (Hr1' : represented n2.(hub).(store).(events) r) by (destruct Hx2 as [x Hx2]; rewrite Hx2 in *; by apply (represented_mono p)).
         apply (node_ok_ack p n); try done; [destruct Hx1 as [x1 E1], Hx2 as [x2 E2]; exists (x1 ++ x2); by rewrite E2, E1, app_assoc|].
         split_and!; [done|done|]. intros _. by apply (both_conflict p _ r other).
       - rewrite Hack. apply (node_ok_ack p n); try done; congruence. }
  all: destruct Hm as [-> Hpos]; cbn [acknowledged]; rewrite app_nil_r; by apply (node_ok_same p n).
Qed.

Lemma node_step_ok p l n n' seen : node_label_ok l -> node_ok p n seen -> node_step l n = Some n' ->
  node_ok p n' (seen ++ acknowledged l n n').
Proof.
  intros Hl H Hs. destruct l as [l| |m o1 o2| | |]; cbn [node_step] in Hs.
  2-6: destruct (session n) as [s|] eqn:Es; try done.
  - destruct (hub_step l (hub n)) as [h|] eqn:Eh; [|done]. injection Hs as <-. rewrite acknowledged_same, app_nil_r by done.
    destruct (hub_step_ok _ _ _ Hl (node_hub _ _ _ H) Eh) as [H1 H2]. destruct (hub_step_extends _ _ _ Eh) as [x Hx].
    apply (node_ok_extend p n _ seen x); try done. cbn. rewrite H2. apply H.
  - injection Hs as <-. unfold peer_connect. destruct (replay _ _); rewrite acknowledged_same, app_nil_r by done; by apply (node_ok_same p n).
  - injection Hs as <-. by apply peer_message_ok.
  - unfold peer_change in Hs. destruct (inbox s) as [|ch rest]; [done|]. injection Hs as <-. cbn [acknowledged]. rewrite app_nil_r.
    destruct (_ <? _); [by apply node_ok_end|]. destruct ch; [|by apply node_ok_end].
    destruct (_ <=? _); [by apply node_ok_end|by apply (node_ok_same p n)].
  - unfold peer_tick in Hs. destruct (pending s); [done|]. injection Hs as <-. cbn [acknowledged]. rewrite app_nil_r. by apply (node_ok_same p n).
  - injection Hs as <-. cbn [acknowledged]. rewrite app_nil_r. by apply node_ok_end.
Qed.

Lemma node_run_ok p ls : Forall node_label_ok ls -> forall n seen n' acked, node_ok p n seen ->
  node_run ls n = Some (n', acked) -> node_ok p n' (seen ++ acked).
Proof.
  intros Hls. induction Hls as [|l ls Hl _ IH]; intros n seen n' acked H Hr; cbn [node_run] in Hr.
  - injection Hr as <- <-. by rewrite app_nil_r.
  - destruct (node_step l n) as [n1|] eqn:Es; [|done]. cbn [mbind option_bind] in Hr.
    destruct (node_run ls n1) as [[n2 acked2]|] eqn:Er; [|done]. injection Hr as <- <-. rewrite app_assoc.
    by apply (IH n1); [apply node_step_ok|].
Qed.

(** C20. A relay never skips what a peer told it: whatever the peer sends, in however many sessions, and whatever
    is published, subscribed and lost on disk here in between, the cursor it resumes the peer's stream with has
    passed exactly the events it acknowledged, numbered from one without a gap; each of them is validly signed
    and is in the local store - or two other promises of its bond are -, and for each that
    reported a conflict the local store holds evidence of two different promises of that bond. *)
Theorem peer_cursor_is_durable p file fresh o s0 f0 ls n acked : open p file fresh o = (Ok s0, f0) ->
  Forall node_label_ok ls -> node_run ls (mkNode (mkHub s0 []) Tracker_default None) = Some (n, acked) ->
  position n.(tracker) = len acked /\ (forall k e, acked !! k = Some e -> e.(seq) = Z.of_nat k + 1) /\
  forall e, e ∈ acked -> verify p e.(receipt) = Ok tt /\ represented n.(hub).(store).(events) e.(receipt) /\
    (e.(conflict_with) <> None -> conflicting n.(hub).(store).(events) e.(receipt).(rbond)).
Proof.
  intros Ho Hl Hr. destruct (hub_opened _ _ _ _ _ _ [] _ Ho ltac:(constructor) eq_refl) as [Hh Hp].
  assert (H0 : node_ok p (mkNode (mkHub s0 []) Tracker_default None) []) by (split; [done|done|done|done|by intros e He%elem_of_nil]).
  destruct (node_run_ok p ls Hl _ [] _ _ H0 Hr) as [_ _ H3 H4 H5]. by split_and!.
Qed.

(** ** What a subscription was sent *)
Definition event_of (m : ServerMessage) : option Event := match m with EventMessage e => Some e | _ => None end.

Definition start (c : option Cursor) : Z := match c with Some c => c.(cseq) | None => 0 end.

Definition out_ok (s : Store) (b : Subscription) : Prop :=
  0 <= start b.(requested) <= b.(sent).(cseq) /\ b.(sent).(cseq) <= head s /\
  omap event_of b.(out) = take (Z.to_nat (b.(sent).(cseq) - start b.(requested))) (drop (Z.to_nat (start b.(requested))) s.(events)).

Definition outs_ok (h : Hub) : Prop := forall b, b ∈ h.(subs) -> b.(closed) = false -> out_ok h.(store) b.

Lemma out_ok_extend s s' x b b' : out_ok s b -> s'.(events) = s.(events) ++ x -> b'.(requested) = b.(requested) ->
  b'.(sent) = b.(sent) -> omap event_of b'.(out) = omap event_of b.(out) -> out_ok s' b'.
Proof.
  unfold out_ok, head. intros (H1 & H2 & H3) Hx E1 E2 E3. rewrite E1, E2, E3, Hx, len_app. pose proof (len_nonneg x).
  split_and!; [lia..|]. rewrite H3, drop_app_le, take_app_le; [done|rewrite length_drop|]; unfold len in *; lia.
Qed.

Lemma outs_ok_replace h i b1 : outs_ok h -> (b1.(closed) = false -> out_ok h.(store) b1) -> outs_ok (mkHub h.(store) (<[i := b1]> h.(subs))).
Proof.
  intros H H1 b Hb Hcl. cbn [store subs] in *. apply list_elem_of_lookup_1 in Hb as [k Hk].
  apply list_lookup_insert_Some in Hk as [(-> & <- & _)|[_ Hk]]; [by apply H1|]. apply H; [by eapply list_elem_of_lookup_2|done].
Qed.

Lemma outs_ok_publish h r o : outs_ok h -> outs_ok (hub_publish h r o).2.
Proof.
  intros H. pose proof (publish_extends h.(store) r o) as [x Hx]. unfold hub_publish.
  assert (G : forall ch s, s.(events) = h.(store).(events) ++ x -> outs_ok (mkHub s (map (push ch) h.(subs)))).
  { intros ch s Es b (b0 & -> & Hb)%list_elem_of_fmap Hcl. cbn [store]. by apply (out_ok_extend h.(store) s x b0); [apply H|..]. }
  assert (G' : forall s, s.(events) = h.(store).(events) ++ x -> outs_ok (mkHub s h.(subs))).
  { intros s Es b Hb Hcl. cbn [store]. by apply (out_ok_extend h.(store) s x b); [apply H|..]. }
  destruct (publish _ r o) as [[[[e|] [st k]]|msg] s']; cbn [snd] in *; [by apply G|by apply G'|].
  destruct (failed s'); [by apply G|by apply G'].
Qed.

Lemma deliver_out_ok s b b1 : sub_ok s b -> canonical s.(profile) s.(events) -> out_ok s b -> deliver b = Some b1 -> b1.(closed) = false -> out_ok s b1.
Proof.
  intros [_ S2 (k & S3 & _) _] Hc (H1 & H2 & H3) Hd Hcl. unfold deliver in Hd. destruct (changes b) as [|ch rest] eqn:Ec; [done|].
  injection Hd as <-. destruct (_ <? _); [done|]. destruct ch as [e|]; [|done]. destruct (negb _) eqn:Eq; [done|]. bool_simp.
  destruct (drop (Z.to_nat (cseq (sent b))) (events s)) as [|e' t] eqn:Ed; cbn in S3; [destruct k; discriminate|].
  injection S3 as -> _. assert (He : events s !! Z.to_nat (cseq (sent b)) = Some e').
  { apply (f_equal (fun l => l !! 0%nat)) in Ed. rewrite lookup_drop, Nat.add_0_r in Ed. exact Ed. }
  pose proof (lookup_lt_Some _ _ _ He). unfold out_ok, head in *. cbn [requested sent out cseq]. unfold len in *.
  split_and!; [lia..|]. rewrite omap_app, H3. cbn. rewrite Eq.
  replace (Z.to_nat (cseq (sent b) + 1 - start (requested b))) with (S (Z.to_nat (cseq (sent b) - start (requested b)))) by lia.
  apply eq_sym, take_S_r. rewrite lookup_drop. rewrite <- He. f_equal. lia.
Qed.

Lemma replayed_events l c : omap event_of (map EventMessage l ++ [CaughtUp c]) = l.
Proof. induction l as [|e l IH]; [done|]. cbn. by rewrite IH. Qed.

Lemma outs_step l h h1 : label_ok l -> hub_ok h -> outs_ok h -> hub_step l h = Some h1 -> outs_ok h1.
Proof.
  intros Hl Hh H Hs. destruct l as [[i|] r o|pr cur|i|i|i]; cbn [hub_step] in Hs.
  - destruct (open_sub h i) as [b|]; [|done]. cbn [mbind option_bind] in Hs. pose proof (outs_ok_publish h r o H) as Ho.
    pose proof (hub_publish_reply h r o) as Hr. destruct (hub_publish h r o) as [res h2]. cbn [fst snd] in *. injection Hs as <-.
    intros b' Hb' Hcl. cbn [store subs] in *. apply list_elem_of_lookup_1 in Hb' as [k Hk].
    destruct (decide (k = i)) as [->|Hne]; [|rewrite list_lookup_alter_ne in Hk by done; apply Ho; [by eapply list_elem_of_lookup_2|done]].
    rewrite list_lookup_alter in Hk. rewrite decide_True in Hk by done. apply fmap_Some in Hk as (b0 & Hb0 & ->).
    destruct res as [m|e]; [|done]. destruct (Hr m eq_refl) as (q & st & ->).
    apply (out_ok_extend h2.(store) _ [] b0); try done; [apply Ho; [by eapply list_elem_of_lookup_2|done]|by rewrite app_nil_r|].
    cbn. by rewrite omap_app, app_nil_r.
  - injection Hs as <-. by apply outs_ok_publish.
  - destruct (subscribe _ _ _) as [b|e] eqn:Es; injection Hs as <-; intros x [Hx| ->%list_elem_of_singleton]%elem_of_app Hcl;
      cbn [store]; try done; try (by apply H).
    unfold subscribe in Es. apply bind_Ok in Es as (evs & Er & Es). apply bind_Ok in Es as ([] & _ & Es). injection Es as <-.
    unfold replay in Er. apply bind_Ok in Er as ([] & _ & Er). unfold out_ok, head. cbn [requested sent out cseq]. pose proof (len_nonneg h.(store).(events)).
    cbn [omap list_omap event_of]. rewrite replayed_events. unfold head, label_ok in *. destruct cur as [c|]; cbn [start].
    + apply bind_Ok in Er as ([] & Hc & Er). injection Er as <-. apply ensure_Ok in Hc. bool_simp.
      split_and!; [lia..|]. symmetry. apply take_ge. rewrite length_drop. unfold len in *. lia.
    + injection Er as <-. split_and!; [lia..|]. symmetry. cbn. apply take_ge. unfold len. lia.
  - destruct (open_sub h i) as [b|] eqn:Eo; [|done]. apply open_sub_Some in Eo as [Eb Ec]. cbn [mbind option_bind] in Hs.
    destruct (deliver b) as [b1|] eqn:Ed; [|done]. injection Hs as <-. apply outs_ok_replace; [done|]. intros Hcl.
    pose proof (list_elem_of_lookup_2 _ _ _ Eb) as Hin.
    eapply deliver_out_ok; [by apply (ho_subs _ Hh)|apply Hh|by apply H|exact Ed|done].
  - destruct (open_sub h i) as [b|] eqn:Eo; [|done]. apply open_sub_Some in Eo as [Eb Ec]. injection Hs as <-.
    apply outs_ok_replace; [done|]. destruct (failed (store h)); [done|]. intros _.
    apply (out_ok_extend h.(store) _ [] b); try done; [apply H; [by eapply list_elem_of_lookup_2|done]|by rewrite app_nil_r|].
    cbn. by rewrite omap_app, app_nil_r.
  - destruct (open_sub h i) as [b|]; [|done]. injection Hs as <-. by apply outs_ok_replace.
Qed.

Lemma outs_run ls h h1 : Forall label_ok ls -> hub_ok h -> outs_ok h -> hub_run ls h = Some h1 -> outs_ok h1.
Proof.
  intros Hl. revert h. induction Hl as [|l ls Hl _ IH]; intros h Hh H Hr; cbn [hub_run] in Hr; [by injection Hr as <-|].
  destruct (hub_step l h) as [h2|] eqn:Es; [|done]. destruct (hub_step_ok _ _ _ Hl Hh Es) as [H2 _].
  apply (IH h2); [done|exact (outs_step _ _ _ Hl Hh H Es)|done].
Qed.

(** ** Processing a whole stream *)
(** Conflict evidence quotes a promise that is in the journal. *)
Lemma conflict_quotes p evs e other : canonical p evs -> e ∈ evs -> e.(conflict_with) = Some other ->
  exists e', e' ∈ evs /\ e'.(receipt) = other.
Proof.
  intros Hc [i Hi]%list_elem_of_lookup_1 Ho. pose proof (Hc _ _ Hi) as Hp. apply prepare_inv in Hp as (_ & He & _).
  rewrite He in Ho. cbn in Ho. destruct (of_bond _ _) as [|e1 t] eqn:Eb; [done|]. injection Ho as <-. exists e1. split; [|done].
  assert (Hin : e1 ∈ of_bond e.(receipt).(rbond) (take i evs)) by (rewrite Eb; left).
  apply list_elem_of_filter in Hin as [_ Hin]. by apply (subseteq_take i).
Qed.

Section stream.
(** The promises that occur, whose records fit a frame. *)
Context (p : ValidatedProfile) (known : Receipt -> Prop).
Context (Hsmall : forall e, 0 < e.(seq) <= Z.of_nat (size p.(bonds)) * 2 -> known e.(receipt) ->
  (forall other, e.(conflict_with) = Some other -> known other) -> len (event_to_vec e) <= MAX_FRAME).

(** A node in a session whose journal works. *)
Record live_node (n : Node) : Prop := {
  live_session : n.(session) <> None;
  live_profile : n.(hub).(store).(profile) = p;
  live_journal : n.(hub).(store).(failed) = false;
  live_events : canonical p n.(hub).(store).(events);
  live_known : forall e, e ∈ n.(hub).(store).(events) -> known e.(receipt) }.

Lemma publish_verified n r : live_node n -> verify p r = Ok tt -> known r ->
  exists x s', publish n.(hub).(store) r IoOk = (Ok x, s') /\ s'.(failed) = false /\ s'.(profile) = p /\
    canonical p s'.(events) /\ forall e, e ∈ s'.(events) -> known e.(receipt).
Proof.
  intros [_ Hp Hf Hc Hk] Hv Hr. unfold publish. rewrite prepare_bare, Hp by done. set (s := n.(hub).(store)) in *.
  destruct (prepare (bare p (events s)) r) as [[[e|] st]|err] eqn:Ep.
  - pose proof Ep as (_ & He & Hst & _)%prepare_inv. rewrite Hst in Ep. clear Hst.
    assert (Hc' : canonical p (events s ++ [e])).
    { apply canonical_app. split; [done|]. rewrite He in Ep |- * at 1. cbn [receipt]. rewrite Ep. by rewrite He. }
    pose proof (canonical_bound _ _ Hc') as Hb. rewrite len_app in Hb. change (len [e]) with 1 in Hb.
    assert (Hl : len (event_to_vec e) <= MAX_FRAME).
    { apply Hsmall; rewrite He; cbn [seq receipt conflict_with]; [pose proof (len_nonneg (events s)); lia|done|].
      intros other Ho. destruct (of_bond (rbond r) (events s)) as [|e1 t] eqn:Eb; [done|]. injection Ho as <-. apply Hk.
      assert (Hin : e1 ∈ of_bond (rbond r) (events s)) by (rewrite Eb; left). by apply list_elem_of_filter in Hin as [_ Hin]. }
    unfold append. rewrite (proj2 (Z.ltb_ge _ _) Hl). eexists _, _. split; [done|]. cbn [failed profile events]. split_and!; try done.
    intros e' [Hin| ->%list_elem_of_singleton]%elem_of_app; [by apply Hk|by rewrite He].
  - eexists _, _. split; [done|]. by split_and!.
  - exfalso. unfold prepare in Ep. cbn [failed bare negb ensure mbind result_bind profile events] in Ep. rewrite Hv in Ep. cbn in Ep.
    destruct (list_find _ _) as [[k d]|]; [done|]. by destruct (filter _ _) as [|e1 [|e2 [|]]].
Qed.

Lemma node_publish_live n r : live_node n -> verify p r = Ok tt -> known r ->
  exists m n', node_publish n r IoOk = (Ok m, n') /\ live_node n' /\ n'.(tracker) = n.(tracker).
Proof.
  intros Hn Hv Hr. destruct (publish_verified n r Hn Hv Hr) as (x & s' & Ep & Hf & Hp & Hc & Hk).
  unfold node_publish, hub_publish. rewrite Ep. destruct x as [[e|] [st k]]; eexists _, _;
    (split; [done|]; split; [|done]; split; cbn; try done; destruct Hn; by destruct (session n)).
Qed.

Definition known_message (m : ServerMessage) : Prop :=
  match m with
  | EventMessage e => known e.(receipt) /\ forall other, e.(conflict_with) = Some other -> known other
  | _ => True
  end.

Lemma message_live n m t r : live_node n -> known_message m -> process_inner n.(tracker) m p = Ok (t, r) ->
  live_node (peer_message n m IoOk IoOk) /\ (peer_message n m IoOk IoOk).(tracker) = t.
Proof.
  intros Hn Hk Em. pose proof (process_inner_cases _ _ _ _ _ Em) as Hm. unfold peer_message.
  rewrite (live_profile _ Hn). unfold process. rewrite Em. destruct m as [pr st from thr|e|c|c|q st|reason].
  2: { destruct Hm as (-> & _ & _ & _ & _ & Hv & Ho). destruct Hk as [Hk Hk'].
       destruct (node_publish_live n _ Hn Hv Hk) as (m1 & n1 & E1 & L1 & T1). rewrite E1.
       destruct e as [sq r' [other|]]; [|by split; [destruct L1|]]. destruct (Ho other eq_refl) as (_ & _ & Hv2).
       destruct (node_publish_live n1 _ L1 Hv2 (Hk' other eq_refl)) as (m2 & n2 & E2 & L2 & T2). rewrite E2. by split; [destruct L2|]. }
  all: destruct Hm as [-> _]; by split; [destruct Hn|].
Qed.

Definition frames (ms : list ServerMessage) : list node_label := map (fun m => NMessage m IoOk IoOk) ms.

Lemma stream_runs ms : Forall known_message ms -> forall n t, live_node n -> track p n.(tracker) ms = Ok t ->
  exists n', node_run (frames ms) n = Some (n', omap event_of ms) /\ n'.(tracker) = t.
Proof.
  induction 1 as [|m ms Hk _ IH]; intros n t Hn Ht; unfold track in *; cbn [foldM] in Ht.
  - injection Ht as <-. by exists n.
  - destruct (process_inner (tracker n) m p) as [[t1 r]|] eqn:Em; [|done]. cbn [mbind result_bind] in Ht.
    destruct (message_live n m t1 r Hn Hk Em) as [L1 T1]. rewrite <- T1 in Ht.
    destruct (IH _ _ L1 Ht) as (n' & E' & T'). exists n'. split; [|done]. cbn [frames map node_run node_step].
    destruct (session n) as [ss|] eqn:Es; [|by apply live_session in Hn]. cbn [mbind option_bind]. fold (frames ms). rewrite E'.
    cbn [mbind option_bind fst snd]. do 2 f_equal. pose proof (process_inner_cases _ _ _ _ _ Em) as Hm.
    destruct m as [| | | | |]; try done. destruct Hm as (_ & _ & _ & _ & Hne & _). cbn [acknowledged omap list_omap event_of].
    rewrite T1, bool_decide_eq_false_2 by done. done.
Qed.

Lemma known_stream evs ms : canonical p evs -> omap event_of ms = evs -> (forall e, e ∈ evs -> known e.(receipt)) ->
  Forall known_message ms.
Proof.
  intros Hc Ho Hk. apply list.Forall_forall. intros m Hm. destruct m as [|e| | | |]; try done.
  assert (He : e ∈ evs) by (rewrite <- Ho; apply list_elem_of_omap; by exists (EventMessage e)). split; [by apply Hk|].
  intros other Hother. destruct (conflict_quotes p evs e other Hc He Hother) as (e' & He' & <-). by apply Hk.
Qed.
End stream.

(** C27. A relay that is connected to a peer ends up with the peer's evidence.  Take a peer that has served its
    subscriber everything it has, after any history, and a relay of the same profile that starts on
    the peer's stream, after any history of its own: reading what the peer wrote, it acknowledges exactly
    the peer's events in order and is caught up with them, and for every bond for which the peer's
    store proves two conflicting promises, its own store proves two as well.  Writes succeed, and the records of
    the promises that occur fit a frame. *)
Theorem evidence_spreads p (known : Receipt -> Prop) file fresh o s0 f0 ls h b file' fresh' o' s1 f1 ls' n acked :
  (forall e, 0 < e.(seq) <= Z.of_nat (size p.(bonds)) * 2 -> known e.(receipt) ->
     (forall other, e.(conflict_with) = Some other -> known other) -> len (event_to_vec e) <= MAX_FRAME) ->
  open p file fresh o = (Ok s0, f0) -> Forall label_ok ls -> hub_run ls (mkHub s0 []) = Some h ->
  b ∈ h.(subs) -> b.(closed) = false -> b.(requested) = None -> b.(sent).(cseq) = head h.(store) ->
  open p file' fresh' o' = (Ok s1, f1) -> Forall node_label_ok ls' ->
  node_run ls' (mkNode (mkHub s1 []) Tracker_default None) = Some (n, acked) ->
  n.(tracker) = Tracker_default -> n.(session) <> None -> n.(hub).(store).(failed) = false ->
  (forall e, e ∈ h.(store).(events) \/ e ∈ n.(hub).(store).(events) -> known e.(receipt)) ->
  exists n', node_run (frames b.(out)) n = Some (n', h.(store).(events)) /\
    n'.(tracker).(cursor) = Some b.(sent) /\ n'.(tracker).(caught_up) = true /\
    (forall e, e ∈ h.(store).(events) -> represented n'.(hub).(store).(events) e.(receipt)) /\
    forall bond_, conflicting h.(store).(events) bond_ -> conflicting n'.(hub).(store).(events) bond_.
Proof.
  intros Hsmall Ho Hl Hr Hb Hcl Hreq Hsent Ho' Hl' Hr' Ht Hsess Hf Hk.
  destruct (hub_opened _ _ _ _ _ _ _ _ Ho Hl Hr) as [Hh Hp]. destruct (hub_opened _ _ _ _ _ _ [] _ Ho ltac:(constructor) eq_refl) as [Hh0 _].
  pose proof (outs_run ls _ _ Hl Hh0 ltac:(by intros x Hx%elem_of_nil) Hr b Hb Hcl) as (_ & _ & Eout).
  rewrite Hreq, Hsent in Eout. cbn [start] in Eout. rewrite Z.sub_0_r, drop_0, take_ge in Eout by (unfold head, len; lia).
  destruct (ho_subs _ Hh b Hb Hcl) as [_ _ _ (thr & Htr)]. pose proof (ho_canonical _ Hh) as Hcan. rewrite Hp in Hcan, Htr. rewrite Hreq in Htr.
  destruct (hub_opened _ _ _ _ _ _ [] _ Ho' ltac:(constructor) eq_refl) as [Hh1 Hp1].
  assert (H0 : node_ok p (mkNode (mkHub s1 []) Tracker_default None) []) by (split; [done|done|done|done|by intros e He%elem_of_nil]).
  pose proof (node_run_ok p ls' Hl' _ [] _ _ H0 Hr') as Hn. cbn [app] in Hn.
  assert (acked = []) as ->.
  { pose proof (node_position _ _ _ Hn) as Hpos. rewrite Ht in Hpos. destruct acked as [|e t]; [done|]. rewrite len_cons in Hpos.
    pose proof (len_nonneg t). cbn in Hpos. lia. }
  pose proof (ho_canonical _ (node_hub _ _ _ Hn)) as Hcn. rewrite (node_profile _ _ _ Hn) in Hcn.
  assert (Hlive : live_node p known n) by (split; [done|apply Hn|done|done|intros e He; apply Hk; by right]).
  pose proof (known_stream p known _ _ Hcan Eout ltac:(intros e He; apply Hk; by left)) as Hms.
  destruct (stream_runs p known Hsmall b.(out) Hms n _ Hlive ltac:(rewrite Ht; exact Htr)) as (n' & En & Tn). rewrite Eout in En.
  exists n'. split; [done|]. rewrite Tn. split; [done|]. split; [done|].
  destruct (node_run_ok p (frames b.(out)) ltac:(apply Forall_fmap, Forall_true; done) n [] n' _ Hn En) as [G1 G2 _ _ G5]. cbn [app] in G5.
  split; [intros e He; by apply G5|]. intros bd (e & other & He & <- & Hc & _). apply (G5 e He). congruence.
Qed.
End peer.

(** ** A relay of one bond and its peer
    The peer has two conflicting promises and has sent both. *)
Module PeerSample.
Import RelaySample.
Definition peer_labels : list hub_label := labels ++ [HDeliver 0].
Definition peer_hub : Hub := default (mkHub opened []) (hub_run peer_labels (mkHub opened [])).
Definition peer_sub : Subscription := nth 0 peer_hub.(subs) (mkSub None (mkCursor EmptyString 0) [] [] true).
Definition own_labels : list node_label := [NHub (HPublish None (promise 7) IoOk); NConnect; NTick].
Definition own_start : Node := mkNode (mkHub opened []) Tracker_default None.
Definition own : Node := match node_run own_labels own_start with Some (n, _) => n | None => own_start end.
Definition known (r : Receipt) : Prop := r = promise 7 \/ r = promise 9.

Lemma records_fit e : 0 < e.(seq) <= 2 -> known e.(receipt) -> (forall other, e.(conflict_with) = Some other -> known other) ->
  len (event_to_vec e) <= MAX_FRAME.
Proof.
  destruct e as [k r c]. cbn [seq receipt conflict_with]. intros Hk Hr Hc. assert (k = 1 \/ k = 2) as [-> | ->] by lia.
  all: destruct Hr as [-> | ->], c as [other|]; [destruct (Hc other eq_refl) as [-> | ->]| |destruct (Hc other eq_refl) as [-> | ->]|];
    vm_compute; discriminate.
Qed.
End PeerSample.

Lemma peer_cursor_is_durable_witness :
  exists n acked, node_run (PeerSample.own_labels ++ frames PeerSample.peer_sub.(out)) PeerSample.own_start = Some (n, acked) /\
  position n.(tracker) = len acked /\ (forall k e, acked !! k = Some e -> e.(seq) = Z.of_nat k + 1) /\
  forall e, e ∈ acked -> verify RelaySample.prof e.(receipt) = Ok tt /\ represented n.(hub).(store).(events) e.(receipt) /\
    (e.(conflict_with) <> None -> conflicting n.(hub).(store).(events) e.(receipt).(rbond)).
Proof.
  destruct RelaySample.open_sample as [f Ho].
  destruct (node_run (PeerSample.own_labels ++ frames PeerSample.peer_sub.(out)) PeerSample.own_start) as [[n acked]|] eqn:E.
  - exists n, acked. split; [reflexivity|].
    apply (peer_cursor_is_durable RelaySample.prof [] RelaySample.fresh IoOk RelaySample.opened f
      (PeerSample.own_labels ++ frames PeerSample.peer_sub.(out))); [exact Ho| |exact E].
    apply Forall_app. split; [repeat constructor|]. apply Forall_fmap, Forall_true. intros m. exact I.
  - exfalso. vm_compute in E. discriminate E.
Defined.

Lemma evidence_spreads_witness : exists n', node_run (frames PeerSample.peer_sub.(out)) PeerSample.own = Some (n', PeerSample.peer_hub.(store).(events)) /\
  n'.(tracker).(cursor) = Some PeerSample.peer_sub.(sent) /\ n'.(tracker).(caught_up) = true /\
  (forall e, e ∈ PeerSample.peer_hub.(store).(events) -> represented n'.(hub).(store).(events) e.(receipt)) /\
  forall b, conflicting PeerSample.peer_hub.(store).(events) b -> conflicting n'.(hub).(store).(events) b.
Proof.
  destruct RelaySample.open_sample as [f Ho].
  apply (evidence_spreads RelaySample.prof PeerSample.known [] RelaySample.fresh IoOk RelaySample.opened f PeerSample.peer_labels
    PeerSample.peer_hub PeerSample.peer_sub [] RelaySample.fresh IoOk RelaySample.opened f PeerSample.own_labels PeerSample.own []).
  - exact PeerSample.records_fit.
  - exact Ho.
  - repeat constructor.
  - vm_compute. reflexivity.
  - vm_compute. left.
  - vm_compute. reflexivity.
  - vm_compute. reflexivity.
  - vm_compute. reflexivity.
  - exact Ho.
  - repeat constructor.
  - vm_compute. reflexivity.
  - vm_compute. reflexivity.
  - vm_compute. discriminate.
  - vm_compute. reflexivity.
  - intros e [He|He]; vm_compute in He; unfold PeerSample.known;
      repeat (apply elem_of_cons in He as [->|He]; [vm_compute; tauto|]); by apply elem_of_nil in He.
Defined.
