(* ===== verification/PreconfTheorems.v ===== *)
(** * Theorems on the relay and the wallet's monitor together

    The JavaScript monitor (client/monitor.mjs) and the Rust tracker
    (relay/mod.rs) accept the same streams, and a subscription of the hub
    brings a connected monitor to the relay's head. *)

From S2P Require Import Prelude Sha256 Transaction Js Monitor MonitorFacts Relay RelayFacts Preconf RelayTheorems.

#[local] Open Scope Z_scope.

Section theorems.
Context {ME : MonitorEnv} {RE : RelayEnv} {p : ValidatedProfile} {c : config} {Link : Linked ME RE p c}.

(** A list of messages, one after the other. *)
Fixpoint settle_all (r : relay) (ms : list json) : option (relay * list Monitor.receipt) :=
  match ms with
  | [] => Some (r, [])
  | m :: t => '(r1, rcs) ← settle c r m; '(r2, rcs') ← settle_all r1 t; Some (r2, rcs ++ rcs')
  end.


(** C14.  Take any execution of a relay and an open subscription of it that
    asked for a wallet's cursor, and let the wallet's monitor, connected with
    nothing pending, receive what was written to the subscription.  Then the
    monitor can run it to the end, whatever else it does with its other
    relays: the relay becomes healthy, its cursor is the last one the
    subscription was sent, and the receipts of all events delivered are
    remembered as seen on this relay and as evidence. *)
Theorem wallet_synchronizes file fresh o s0 f0 ls h b text m i r :
  open p file fresh o = (Ok s0, f0) -> Forall label_ok ls -> hub_run ls (mkHub s0 []) = Some h ->
  b ∈ h.(subs) -> b.(closed) = false -> Forall message_ok b.(out) -> Forall (framed text) b.(out) ->
  cfg m = c -> relays m !! i = Some r -> listening m r -> socket r = Some 1 ->
  same_state p (mkTracker b.(requested) false None) r ->
  exists ls' r', Forall (about i) ls' /\
    run ls' m = Some (put m i r' (remember_all (concat (carried <$> b.(out))) (evidence m))) /\
    healthy m r' = true /\ Monitor.cursor r' = Some (js_cursor (Relay.sent b)) /\
    seen r' = see_all (concat (carried <$> b.(out))) (seen r).
Proof.
  intros Ho Hl Hr Hb Hcl Hty Htx Hc Hi Hls Hso Hs. destruct (hub_opened _ _ _ _ _ _ _ _ Ho Hl Hr) as [[_ _ Hsub] Hp].
  destruct (Hsub b Hb Hcl) as [_ _ _ (thr & Ht)]. rewrite Hp in Ht.
  destruct (feed text (Relay.out b) m i r _ _ Hty Htx Hc Hi Hls Hs Ht) as (ls' & r' & R1 & R2 & R3 & R4 & R5 & R6 & R7).
  exists ls', r'. split; [done|]. split; [done|]. destruct R3 as [S1 _ S3 _].
  split; [|split; [by rewrite S1|done]]. destruct Hls as [L1 _ _ _ L5].
  assert (Hlast : lastMessage r' = Some (now m)) by (by destruct (out b)).
  unfold healthy. rewrite L1, R5, Hso, S3, R4, Hlast, Z.sub_diag. cbn. by apply Z.ltb_lt.
Qed.
End theorems.

(** ** A wallet of the sample relay *)
Module PreconfSample.
Import RelaySample.
Definition text (m : ServerMessage) : string :=
  match m with Begin _ _ _ _ => "begin" | EventMessage _ => "event" | _ => "up" end.

Definition written : list ServerMessage := subscriber.(out).

#[global] Instance wallet_env : MonitorEnv := {
  JSON_parse s :=
    server_json <$> (if String.eqb s "begin" then written !! 0%nat
                     else if String.eqb s "event" then written !! 1%nat else written !! 2%nat);
  verifyReceipt r := String.eqb (bond r) (outpoint_text outpoint);
  URL v := Some (mkUrl EmptyString EmptyString EmptyString "wss:" "relay" v) }.

Definition conf : config := Monitor.mkConfig prof.(Relay.id) [outpoint_text outpoint] 10000 1000.

Lemma outpoint_typed : outpoint_ok outpoint.
Proof. unfold outpoint_ok, uint256_ok. cbn. lia. Qed.

#[global] Instance sample_linked : Linked wallet_env RelaySample.Env prof conf.
Proof.
  assert (Hin : forall x, outpoint_ok x -> outpoint_text x = outpoint_text outpoint <-> is_Some (Relay.bonds prof !! x)).
  { intros x Hx. change (Relay.bonds prof) with ({[ outpoint := bond1 ]} : gmap COutPoint Bond). split.
    - intros E. apply outpoint_text_inj in E; [|done|exact outpoint_typed]. subst x. rewrite lookup_singleton_eq. by eexists.
    - intros [bd Hbd]. apply lookup_singleton_Some in Hbd as [<- _]. done. }
  split.
  - done.
  - done.
  - vm_compute. discriminate.
  - intros x Hx. rewrite <- Hin by done. apply list_elem_of_singleton.
  - intros r (H1 & _). specialize (Hin _ H1). cbn [verifyReceipt wallet_env bond js_receipt]. unfold verify.
    destruct (String.eqb_spec (outpoint_text (rbond r)) (outpoint_text outpoint)) as [E|E].
    + apply outpoint_text_inj in E; [|done|exact outpoint_typed]. rewrite E.
      change (Relay.bonds prof !! outpoint) with (({[ outpoint := bond1 ]} : gmap COutPoint Bond) !! outpoint).
      rewrite lookup_singleton_eq. unfold Bond_verify. rewrite E. cbn [verify_schnorr RelaySample.Env]. reflexivity.
    + destruct (Relay.bonds prof !! rbond r); [|done]. exfalso. apply E, Hin. by eexists.
Qed.

(** The wallet, connected to both of its relays. *)
Definition wallet : monitor :=
  match constructor prof.(Relay.id) [outpoint_text outpoint] ["wss://one/"; "wss://two/"] 10000 1000 0 with
  | Ok m => default m (run [LStart []; LReady 0 1; LOpen 0 1 false] m)
  | Err _ => mkMonitor conf false 0 [] ∅
  end.
Definition relay0 : relay := nth 0 (relays wallet) (new_relay EmptyString).

Lemma promise_typed : receipt_ok (promise 7).
Proof.
  split; [exact outpoint_typed|]. split; [unfold uint256_ok; cbn; lia|]. split; [by apply Forall_replicate|done].
Qed.

Lemma written_ok : Forall message_ok written.
Proof.
  assert (E : written = [Begin prof.(Relay.id) (hex_encode fresh) 0 1; EventMessage (mkEvent 1 (promise 7) None);
    CaughtUp (Relay.mkCursor (hex_encode fresh) 1)]) by (vm_compute; reflexivity).
  assert (Hst : stream_ok (hex_encode fresh)) by (vm_compute; reflexivity).
  rewrite E. apply Forall_cons_2; [split; [exact Hst|unfold safe; lia]|].
  apply Forall_cons_2; [split; [unfold safe; cbn; lia|exact (conj promise_typed I)]|].
  apply Forall_cons_2; [split; [exact Hst|unfold safe; cbn; lia]|]. apply Forall_nil_2.
Qed.

Lemma written_framed : Forall (framed text) written.
Proof.
  assert (E : exists e, written = [Begin prof.(Relay.id) (hex_encode fresh) 0 1; EventMessage e;
    CaughtUp (Relay.mkCursor (hex_encode fresh) 1)]) by (eexists; vm_compute; reflexivity).
  destruct E as [e E]. unfold framed. rewrite E at 1.
  repeat (apply Forall_cons_2; [split; [vm_compute; lia|cbn [JSON_parse wallet_env text]; rewrite E; reflexivity]|]). apply Forall_nil_2.
Qed.

Lemma wallet_listens : listening wallet relay0.
Proof.
  split; [vm_compute; reflexivity|vm_compute; discriminate|vm_compute; reflexivity| |vm_compute; reflexivity].
  assert (E : jobs relay0 = []) by (vm_compute; reflexivity). rewrite E. clear E. intros j Hj. inversion Hj.
Qed.

Lemma wallet_fresh : same_state prof (mkTracker subscriber.(requested) false None) relay0.
Proof.
  assert (E : subscriber.(requested) = None) by (vm_compute; reflexivity). rewrite E.
  split; [vm_compute; reflexivity..|done].
Qed.
End PreconfSample.


Lemma wallet_synchronizes_witness : exists ls' r' e,
  run ls' PreconfSample.wallet = Some (put PreconfSample.wallet 0 r' e) /\ healthy PreconfSample.wallet r' = true /\
  Monitor.cursor r' = Some (js_cursor (Relay.sent RelaySample.subscriber)).
Proof.
  destruct RelaySample.open_sample as [f Hf].
  destruct (wallet_synchronizes (p := RelaySample.prof) (c := PreconfSample.conf) [] RelaySample.fresh IoOk RelaySample.opened f
    RelaySample.labels RelaySample.hub RelaySample.subscriber PreconfSample.text PreconfSample.wallet 0 PreconfSample.relay0)
    as (ls' & r' & _ & H1 & H2 & H3 & _).
  - exact Hf.
  - repeat constructor.
  - vm_compute. reflexivity.
  - vm_compute. left.
  - vm_compute. reflexivity.
  - exact PreconfSample.written_ok.
  - exact PreconfSample.written_framed.
  - vm_compute. reflexivity.
  - vm_compute. reflexivity.
  - exact PreconfSample.wallet_listens.
  - vm_compute. reflexivity.
  - exact PreconfSample.wallet_fresh.
  - eexists ls', r', _. split; [exact H1|]. split; [exact H2|exact H3].
Defined.
